(** * auto-ci: the technology detection and confidence-scoring engine

    A shallow embedding of [RepoScanner] (src/auto_ci.py, lines 23-455):
    the data model, the rule catalog, the seven category scanners and
    [scan_repository]; then the vocabulary of the properties and the
    scenarios; then the theorems: the laws of binary64 arithmetic that the
    scores rely on, the facts about the scanners, and the properties of
    the scan result.

    The rest of the program that can be embedded follows the same plan:
    the three pipeline generators (lines 461-1049), the rules engine and
    the optimizer (lines 1055-1193), [AutoCI] (lines 1200-1289) and
    [GitHubIntegration._parse_github_url] (lines 1864-1882), with their
    properties at the end of the file.

    Conventions of the embedding

    - A repository tree is the sequence of entries that
      [repo_path.rglob("*")] yields; [rglob pattern] keeps the entries
      that the pattern selects, in the same order.  An entry is a regular
      file (readable, not UTF-8, or without the permission to read), a
      directory, a symbolic link whose target is missing, or an entry of
      a directory that may be listed but not searched.
    - [pathlib] (3.11) selects by a pattern with a wildcard among the
      names that the directories list, and by a pattern without one
      through [exists()] or [is_dir()]: a link without a target and an
      entry whose [stat] is denied match the first kind only.
    - [read_text] either returns the text of a regular file or raises;
      the scanner catches [UnicodeDecodeError] and [PermissionError] and
      lets every other exception escape.  [is_file()] returns [False]
      where [stat] finds nothing and raises [PermissionError] where
      [stat] is denied; the scanner does not catch it.
    - Not modelled: directories that may be searched but not listed,
      loops of symbolic links, and sockets, pipes and devices.
    - A Python [str] that comes from outside the program (the URL of
      [_parse_github_url]) is a sequence of Unicode code points; the
      strings of the catalog and the paths are ASCII.
    - Python's [float] is IEEE-754 binary64: the scanners are written once
      over an interface [Score] of the float operations they use, and run
      on Rocq's primitive binary64 floats ([PyFloat]).
    - A Python value that is dumped or returned as a dict is a [pyval];
      a dict keeps its keys in insertion order.  [yaml.dump] and
      [str.lower] are library functions, left abstract: they are
      variables of the sections that call them. *)

From Stdlib Require Import List String Ascii Bool Arith ZArith Lia Sorted.
From Stdlib Require Import Permutation.
From Stdlib Require Import QArith Floats.
Import ListNotations.

Set Implicit Arguments.
#[local] Set Warnings "-inexact-float".
Close Scope Q_scope.
Local Open Scope nat_scope.
Local Open Scope string_scope.
Local Open Scope list_scope.

(* ------------------------------------------------------------------ *)
(** * Exceptions and the result monad *)

Inductive exn :=
| ValueError (msg : string)
| KeyError (key : string)
| UnicodeDecodeError
| PermissionError
| IsADirectoryError
| FileNotFoundError.

Inductive result (A : Type) :=
| Ok (a : A)
| Raise (e : exn).

Arguments Ok {A} a.
Arguments Raise {A} e.

Definition bind {A B} (m : result A) (k : A -> result B) : result B :=
  match m with
  | Ok a => k a
  | Raise e => Raise e
  end.

Notation "x <- m ;; k" := (bind m (fun x => k))
  (at level 61, m at next level, right associativity).

(** [for x in xs: st = body(st, x)], where the body may raise. *)
Fixpoint for_each {A S} (body : S -> A -> result S) (xs : list A) (st : S)
  : result S :=
  match xs with
  | [] => Ok st
  | x :: rest => st' <- body st x ;; for_each body rest st'
  end.

(* ------------------------------------------------------------------ *)
(** * Strings, globs and regular expressions *)

Definition chars (s : string) : list ascii := list_ascii_of_string s.

Definition dquote : string := String (ascii_of_nat 34) EmptyString.
Definition newline : ascii := ascii_of_nat 10.

Definition mem_string (s : string) (l : list string) : bool :=
  existsb (String.eqb s) l.

(** ** [fnmatch]-style globs on one path component: [*], [?] and literals
    (the catalog uses [*] and literals only). *)
Fixpoint glob_chars (p : list ascii) : list ascii -> bool :=
  match p with
  | [] => fun s => match s with [] => true | _ => false end
  | c :: p' =>
      if Ascii.eqb c "*" then
        fix star (s : list ascii) : bool :=
          glob_chars p' s || match s with [] => false | _ :: s' => star s' end
      else if Ascii.eqb c "?" then
        fun s => match s with [] => false | _ :: s' => glob_chars p' s' end
      else
        fun s => match s with
                 | [] => false
                 | d :: s' => Ascii.eqb c d && glob_chars p' s'
                 end
  end.

(** ** The subset of Python's [re] syntax used by the catalog: literal
    characters, backslash-escaped punctuation, [.], bracket classes of
    single characters, postfix [*], and [$]. *)
Inductive atom :=
| ALit (c : ascii)
| AAny
| AClass (cs : list ascii)
| AEnd.

Definition item : Type := atom * bool.   (* the flag records a postfix [*] *)

Definition is_alnum (c : ascii) : bool :=
  let n := nat_of_ascii c in
  (Nat.leb 48 n && Nat.leb n 57) || (Nat.leb 65 n && Nat.leb n 90)
  || (Nat.leb 97 n && Nat.leb n 122).

Definition is_meta (c : ascii) : bool :=
  existsb (Ascii.eqb c) (chars "^+?{}()|*]").

(** the body of a bracket class, up to the closing bracket *)
Fixpoint parse_class (s : list ascii) (acc : list ascii)
  : option (list ascii * list ascii) :=
  match s with
  | [] => None
  | c :: s' =>
      if Ascii.eqb c "]" then
        match acc with [] => None | _ => Some (rev acc, s') end
      else if Ascii.eqb c "\" then
        match s' with
        | e :: s'' => if is_alnum e then None else parse_class s'' (e :: acc)
        | [] => None
        end
      else if Ascii.eqb c "^" || Ascii.eqb c "-" || Ascii.eqb c "[" then None
      else parse_class s' (c :: acc)
  end.

Definition parse_atom (s : list ascii) : option (atom * list ascii) :=
  match s with
  | [] => None
  | c :: s' =>
      if Ascii.eqb c "\" then
        match s' with
        | e :: s'' => if is_alnum e then None else Some (ALit e, s'')
        | [] => None
        end
      else if Ascii.eqb c "." then Some (AAny, s')
      else if Ascii.eqb c "$" then Some (AEnd, s')
      else if Ascii.eqb c "[" then
        match parse_class s' [] with
        | Some (cs, s'') => Some (AClass cs, s'')
        | None => None
        end
      else if is_meta c then None
      else Some (ALit c, s')
  end.

Fixpoint parse_items (fuel : nat) (s : list ascii) : option (list item) :=
  match fuel with
  | O => None
  | S fuel' =>
      match s with
      | [] => Some []
      | _ =>
          match parse_atom s with
          | None => None
          | Some (a, rest) =>
              let '(starred, rest') :=
                match rest with
                | c :: r => if Ascii.eqb c "*" then (true, r) else (false, rest)
                | [] => (false, rest)
                end in
              match parse_items fuel' rest' with
              | Some its => Some ((a, starred) :: its)
              | None => None
              end
          end
      end
  end.

Definition re_compile (pattern : string) : option (list item) :=
  parse_items (S (String.length pattern)) (chars pattern).

Definition atom_match (a : atom) (c : ascii) : bool :=
  match a with
  | ALit d => Ascii.eqb d c
  | AAny => negb (Ascii.eqb c newline)
  | AClass cs => existsb (Ascii.eqb c) cs
  | AEnd => false
  end.

(** [$] holds at the end of the subject and just before a final newline. *)
Definition at_end (s : list ascii) : bool :=
  match s with
  | [] => true
  | [c] => Ascii.eqb c newline
  | _ => false
  end.

Fixpoint match_here (its : list item) : list ascii -> bool :=
  match its with
  | [] => fun _ => true
  | (AEnd, _) :: rest => fun s => at_end s && match_here rest s
  | (a, false) :: rest =>
      fun s => match s with
               | [] => false
               | c :: s' => atom_match a c && match_here rest s'
               end
  | (a, true) :: rest =>
      fix star (s : list ascii) : bool :=
        match_here rest s
        || match s with
           | [] => false
           | c :: s' => atom_match a c && star s'
           end
  end.

Fixpoint search_from (its : list item) (s : list ascii) : bool :=
  match_here its s
  || match s with [] => false | _ :: s' => search_from its s' end.

(** [re.search(pattern, subject) is not None] *)
Definition re_search (pattern subject : string) : bool :=
  match re_compile pattern with
  | Some its => search_from its (chars subject)
  | None => false
  end.

(* ------------------------------------------------------------------ *)
(** * The file system as the scanner observes it *)

Inductive file_text :=
| Text (content : string)   (* [read_text(encoding='utf-8')] succeeds *)
| NotUTF8                   (* it raises [UnicodeDecodeError] *)
| NoPermission.             (* it raises [PermissionError] *)

Inductive node :=
| RegularFile (t : file_text)
| Directory
| BrokenLink                  (* a symbolic link whose target is missing *)
| Unsearchable (d : bool).    (* in a directory that may be listed but not
                                 searched: [stat] is denied; [d]: the
                                 directory entry is of a directory *)

Record entry := {
  rel_path : string;   (* [str(p.relative_to(repo_path))] *)
  node_of : node
}.

Definition is_file (e : entry) : bool :=
  match node_of e with RegularFile _ => true | _ => false end.

Definition is_dir (e : entry) : bool :=
  match node_of e with Directory => true | _ => false end.

(** [p.is_file()]: [False] when [stat] finds nothing, and the
    [PermissionError] of a [stat] that is denied *)
Definition Path_is_file (e : entry) : result bool :=
  match node_of e with
  | Unsearchable _ => Raise PermissionError
  | _ => Ok (is_file e)
  end.

(** [p.exists()] and [p.is_dir()] in the selector of a pattern without a
    wildcard, which ends without a match when [stat] is denied *)
Definition found (e : entry) : bool :=
  match node_of e with
  | RegularFile _ | Directory => true
  | BrokenLink | Unsearchable _ => false
  end.

(** [entry.is_dir()] of a directory entry, in the selector of a wildcard
    pattern *)
Definition listed_as_dir (e : entry) : bool :=
  match node_of e with
  | Directory => true
  | Unsearchable d => d
  | _ => false
  end.

Definition read_text (e : entry) : result string :=
  match node_of e with
  | RegularFile (Text s) => Ok s
  | RegularFile NotUTF8 => Raise UnicodeDecodeError
  | RegularFile NoPermission => Raise PermissionError
  | Directory => Raise IsADirectoryError
  | BrokenLink => Raise FileNotFoundError
  | Unsearchable _ => Raise PermissionError
  end.

(** [p.name]: the last component of the path *)
Fixpoint last_component (s acc : list ascii) : list ascii :=
  match s with
  | [] => rev acc
  | c :: s' => if Ascii.eqb c "/" then last_component s' []
               else last_component s' (c :: acc)
  end.

Definition name_of (e : entry) : string :=
  string_of_list_ascii (last_component (chars (rel_path e)) []).

(** [p.suffix]: from the last dot of the name, unless that dot is the
    first or the last character *)
Fixpoint after_last_dot (s : list ascii) (acc : option (list ascii))
  : option (list ascii) :=
  match s with
  | [] => acc
  | c :: s' =>
      if Ascii.eqb c "." then after_last_dot s' (Some [])
      else after_last_dot s' (option_map (fun a => a ++ [c]) acc)
  end.

Definition suffix_of (e : entry) : string :=
  let n := chars (name_of e) in
  match n with
  | [] => ""
  | first :: rest =>
      match after_last_dot rest None with
      | Some (c :: ext) => string_of_list_ascii ("."%char :: c :: ext)
      | _ => ""
      end
  end.

(** A tree is the listing [repo_path.rglob("*")]. *)
Definition tree := list entry.

Definition ends_with_slash (p : string) : bool :=
  match rev (chars p) with
  | c :: _ => Ascii.eqb c "/"
  | [] => false
  end.

Definition strip_slash (p : string) : string :=
  match rev (chars p) with
  | c :: r => if Ascii.eqb c "/" then string_of_list_ascii (rev r) else p
  | [] => p
  end.

(** [_is_wildcard_pattern] of [pathlib] *)
Definition is_wildcard_pattern (pattern : string) : bool :=
  existsb (fun c => Ascii.eqb c "*" || Ascii.eqb c "?" || Ascii.eqb c "[")
          (chars pattern).

(** one glob against one entry; a pattern that ends in a separator
    selects directories only.  A wildcard pattern is matched against the
    names that the directories list; a pattern without a wildcard selects
    a name by [exists()], or by [is_dir()], which follow links *)
Definition glob_match (pattern : string) (e : entry) : bool :=
  if ends_with_slash pattern
  then (if is_wildcard_pattern (strip_slash pattern)
        then listed_as_dir e else is_dir e)
       && glob_chars (chars (strip_slash pattern)) (chars (name_of e))
  else (is_wildcard_pattern pattern || found e)
       && glob_chars (chars pattern) (chars (name_of e)).

(** [list(repo_path.rglob(pattern))] *)
Definition rglob (t : tree) (pattern : string) : list entry :=
  filter (glob_match pattern) t.

(* ------------------------------------------------------------------ *)
(** * Scores: the float operations the scanner uses *)

Class Score (F : Type) := {
  f_zero : F;                  (* [0.0] *)
  f_one : F;                   (* [1.0] *)
  f_tenths : positive -> F;    (* the literal [0.d] *)
  f_of_len : nat -> F;         (* [float(len(xs))] *)
  f_add : F -> F -> F;
  f_mul : F -> F -> F;
  f_ltb : F -> F -> bool;      (* [<] *)
  f_leb : F -> F -> bool;      (* [<=] *)
  f_eqb : F -> F -> bool       (* [==] *)
}.

Declare Scope score_scope.
Delimit Scope score_scope with score.
Infix "+" := f_add : score_scope.
Infix "*" := f_mul : score_scope.
Infix "<?" := f_ltb : score_scope.
Infix "<=?" := f_leb : score_scope.
Infix "=?" := f_eqb : score_scope.

(** ** Python's floats: binary64, round to nearest even.  A list has
    fewer than [2^63] items ([sys.maxsize]), and [of_uint63] is exact or
    correctly rounded below that bound. *)
Definition max_len : Z := 9223372036854775807.

#[export] Instance PyFloat : Score float := {
  f_zero := 0%float;
  f_one := 1%float;
  f_tenths d := (PrimFloat.of_uint63 (Uint63.of_Z (Zpos d)) / 10)%float;
  f_of_len n := PrimFloat.of_uint63 (Uint63.of_Z (Z.min (Z.of_nat n) max_len));
  f_add := PrimFloat.add;
  f_mul := PrimFloat.mul;
  f_ltb := PrimFloat.ltb;
  f_leb := PrimFloat.leb;
  f_eqb := PrimFloat.eqb
}.

(** ** Exact rational arithmetic, the idealisation of the above. *)
#[export] Instance ExactQ : Score Q := {
  f_zero := 0%Q;
  f_one := 1%Q;
  f_tenths d := (Zpos d # 10)%Q;
  f_of_len n := inject_Z (Z.of_nat n);
  f_add := Qplus;
  f_mul := Qmult;
  f_ltb x y := negb (Qle_bool y x);
  f_leb := Qle_bool;
  f_eqb := Qeq_bool
}.

(** The order laws of a score type.  [x <=? x] fails exactly for NaN. *)
Class ScoreOrder (F : Type) `{Score F} : Prop := {
  ltb_defined : forall x y : F,
    (x <? y)%score = true -> (x <=? x)%score = true /\ (y <=? y)%score = true;
  leb_defined : forall x y : F,
    (x <=? y)%score = true -> (x <=? x)%score = true /\ (y <=? y)%score = true;
  ltb_leb : forall x y : F, (x <? y)%score = true -> (x <=? y)%score = true;
  leb_not_ltb : forall x y : F,
    (x <=? y)%score = true -> (y <? x)%score = false;
  leb_total : forall x y : F,
    (x <=? x)%score = true -> (y <=? y)%score = true ->
    (x <? y)%score = false -> (y <=? x)%score = true;
  leb_trans : forall x y z : F,
    (x <=? y)%score = true -> (y <=? z)%score = true -> (x <=? z)%score = true;
  eqb_leb : forall x y : F,
    (x =? y)%score = ((x <=? y)%score && (y <=? x)%score);
  zero_lt_one : (f_zero <? f_one)%score = true
}.

Arguments ScoreOrder F {_}.

(** The laws of addition and scaling on scores that are not negative.
    Round-to-nearest arithmetic has them (rounding is monotone, and a sum
    or product of scores that are not negative is never NaN), see
    [PyFloat_arith]; so has exact arithmetic, see [ExactQ_arith]. *)
Class ScoreArith (F : Type) `{Score F} : Prop := {
  add_mono : forall x x' y y' : F,
    (f_zero <=? x)%score = true -> (x <=? x')%score = true ->
    (f_zero <=? y)%score = true -> (y <=? y')%score = true ->
    (x + y <=? x' + y')%score = true;
  add_zero_l : forall y : F,
    (f_zero <=? y)%score = true -> (y <=? f_zero + y)%score = true;
  add_zero_r : forall x : F,
    (f_zero <=? x)%score = true -> (x <=? x + f_zero)%score = true;
  tenths_positive : forall d : positive,
    (d < 10)%positive -> (f_zero <? f_tenths d)%score = true;
  scale_mono : forall (d : positive) (n m : nat),
    (d < 10)%positive -> n <= m ->
    (f_tenths d * f_of_len n <=? f_tenths d * f_of_len m)%score = true;
  scale_nonneg : forall (d : positive) (n : nat),
    (d < 10)%positive -> (f_zero <=? f_tenths d * f_of_len n)%score = true
}.

Arguments ScoreArith F {_}.

(* ------------------------------------------------------------------ *)
(** * The rule catalog ([RepoScanner._load_detection_rules]) *)

(** One rule is a dict with up to four keys. *)
Record rule := {
  r_files : option (list string);              (* ["files"] *)
  r_patterns : option (list string);           (* ["patterns"] *)
  r_content_patterns : option (list string);   (* ["content_patterns"] *)
  r_language : option string                   (* ["language"] *)
}.

(** a category is a dict from names to rules, in insertion order *)
Definition category := list (string * rule).

Record rule_catalog := {
  cat_languages : category;
  cat_frameworks : category;
  cat_test_tools : category;
  cat_build_tools : category;
  cat_containers : category;
  cat_infrastructure : category
}.

(** [rules.get(key, [])] *)
Definition get_list (field : option (list string)) : list string :=
  match field with Some l => l | None => [] end.

Definition q (s : string) : string := (dquote ++ s ++ dquote)%string.

Definition lang_rule (fs ps : list string) : rule :=
  {| r_files := Some fs; r_patterns := Some ps;
     r_content_patterns := None; r_language := None |}.

Definition tool_rule (fs : option (list string)) (cps : option (list string))
  (lang : option string) : rule :=
  {| r_files := fs; r_patterns := None;
     r_content_patterns := cps; r_language := lang |}.

Definition detection_rules : rule_catalog := {|
  cat_languages := [
    ("python", lang_rule
       ["*.py"; "requirements.txt"; "setup.py"; "pyproject.toml"; "Pipfile"]
       ["\.py$"; "requirements.*\.txt$"; "setup\.py$"]);
    ("javascript", lang_rule
       ["package.json"; "*.js"; "*.ts"; "yarn.lock"; "package-lock.json"]
       ["package\.json$"; "\.js$"; "\.ts$"]);
    ("go", lang_rule ["go.mod"; "go.sum"; "*.go"] ["go\.mod$"; "\.go$"]);
    ("java", lang_rule
       ["pom.xml"; "build.gradle"; "*.java"; "gradlew"]
       ["pom\.xml$"; "build\.gradle$"; "\.java$"]);
    ("rust", lang_rule
       ["Cargo.toml"; "Cargo.lock"; "*.rs"] ["Cargo\.toml$"; "\.rs$"]);
    ("php", lang_rule
       ["composer.json"; "composer.lock"; "*.php"]
       ["composer\.json$"; "\.php$"]);
    ("ruby", lang_rule
       ["Gemfile"; "Gemfile.lock"; "*.rb"; "*.gemspec"] ["Gemfile$"; "\.rb$"]);
    ("csharp", lang_rule
       ["*.csproj"; "*.sln"; "*.cs"; "packages.config"]
       ["\.csproj$"; "\.cs$"; "\.sln$"])
  ];
  cat_frameworks := [
    ("django", tool_rule (Some ["manage.py"; "settings.py"]) None
                 (Some "python"));
    ("flask", tool_rule (Some ["app.py"]) (Some ["from flask import"])
                (Some "python"));
    ("fastapi", tool_rule None (Some ["from fastapi import"]) (Some "python"));
    ("react", tool_rule (Some ["package.json"]) (Some [q "react"])
                (Some "javascript"));
    ("vue", tool_rule (Some ["package.json"]) (Some [q "vue"])
              (Some "javascript"));
    ("angular", tool_rule (Some ["angular.json"; "package.json"]) None
                  (Some "javascript"));
    ("express", tool_rule (Some ["package.json"]) (Some [q "express"])
                  (Some "javascript"));
    ("spring", tool_rule (Some ["pom.xml"]) (Some ["spring-boot"])
                 (Some "java"));
    ("gin", tool_rule None (Some [q "github.com/gin-gonic/gin"]) (Some "go"));
    ("laravel", tool_rule (Some ["artisan"; "composer.json"]) None
                  (Some "php"));
    ("rails", tool_rule (Some ["Gemfile"])
                (Some [("gem [" ++ dquote ++ "\']rails[" ++ dquote ++ "\']")%string])
                (Some "ruby"))
  ];
  cat_test_tools := [
    ("pytest", tool_rule (Some ["pytest.ini"; "pyproject.toml"])
                 (Some ["pytest"]) (Some "python"));
    ("unittest", tool_rule None (Some ["import unittest"]) (Some "python"));
    ("jest", tool_rule (Some ["jest.config.js"; "package.json"])
               (Some [q "jest"]) (Some "javascript"));
    ("mocha", tool_rule (Some ["package.json"]) (Some [q "mocha"])
                (Some "javascript"));
    ("junit", tool_rule (Some ["pom.xml"]) (Some ["junit"]) (Some "java"));
    ("go test", {| r_files := None; r_patterns := Some ["_test\.go$"];
                   r_content_patterns := None; r_language := Some "go" |});
    ("phpunit", tool_rule (Some ["phpunit.xml"; "composer.json"]) None
                  (Some "php"));
    ("rspec", tool_rule (Some [".rspec"; "spec/"]) None (Some "ruby"))
  ];
  cat_build_tools := [
    ("webpack", tool_rule (Some ["webpack.config.js"; "package.json"]) None
                  (Some "javascript"));
    ("gulp", tool_rule (Some ["gulpfile.js"]) None (Some "javascript"));
    ("grunt", tool_rule (Some ["Gruntfile.js"]) None (Some "javascript"));
    ("maven", tool_rule (Some ["pom.xml"]) None (Some "java"));
    ("gradle", tool_rule (Some ["build.gradle"; "gradlew"]) None (Some "java"));
    ("make", tool_rule (Some ["Makefile"; "makefile"]) None None);
    ("cmake", tool_rule (Some ["CMakeLists.txt"]) None None);
    ("setuptools", tool_rule (Some ["setup.py"]) None (Some "python"));
    ("poetry", tool_rule (Some ["pyproject.toml"]) None (Some "python"))
  ];
  cat_containers := [
    ("docker", tool_rule
       (Some ["Dockerfile"; "docker-compose.yml"; ".dockerignore"]) None None);
    ("podman", tool_rule (Some ["Containerfile"]) None None);
    ("kubernetes", tool_rule (Some ["*.yaml"; "*.yml"])
                     (Some ["apiVersion:"; "kind:"]) None)
  ];
  cat_infrastructure := [
    ("terraform", tool_rule (Some ["*.tf"; "terraform.tfvars"]) None None);
    ("ansible", tool_rule (Some ["*.yml"; "ansible.cfg"])
                  (Some ["hosts:"; "tasks:"]) None);
    ("helm", tool_rule (Some ["Chart.yaml"; "values.yaml"]) None None);
    ("cloudformation", tool_rule (Some ["*.json"; "*.yaml"])
                         (Some ["AWSTemplateFormatVersion"]) None)
  ]
|}.

(** the local table [pm_files] of [_detect_package_managers] *)
Definition pm_files : list (string * list string) := [
  ("npm", ["package-lock.json"; "package.json"]);
  ("yarn", ["yarn.lock"]);
  ("pnpm", ["pnpm-lock.yaml"]);
  ("pip", ["requirements.txt"; "Pipfile"]);
  ("poetry", ["poetry.lock"]);
  ("composer", ["composer.lock"]);
  ("bundler", ["Gemfile.lock"]);
  ("maven", ["pom.xml"]);
  ("gradle", ["build.gradle"; "gradle.properties"]);
  ("go modules", ["go.mod"]);
  ("cargo", ["Cargo.lock"])
].

(** the local tables [file_extensions] *)
Definition lookup_string {A} (k : string) (d : list (string * A)) : option A :=
  match find (fun kv => String.eqb k (fst kv)) d with
  | Some kv => Some (snd kv)
  | None => None
  end.

Definition frameworks_file_extensions : list (string * list string) := [
  ("python", [".py"]); ("javascript", [".js"; ".ts"]); ("java", [".java"]);
  ("go", [".go"]); ("php", [".php"]); ("ruby", [".rb"])
].

Definition test_tools_file_extensions : list (string * list string) := [
  ("python", [".py"]); ("javascript", [".js"; ".ts"]); ("java", [".java"])
].

(* ------------------------------------------------------------------ *)
(** * The data model and the scanners *)

Section Scanner.

Context {F : Type} {SF : Score F}.
Local Open Scope score_scope.

Record DetectedTechnology := {
  name : string;
  version : option string;
  files : list string;
  confidence : F
}.

Record RepoAnalysis := {
  languages : list DetectedTechnology;
  frameworks : list DetectedTechnology;
  test_tools : list DetectedTechnology;
  build_tools : list DetectedTechnology;
  containers : list DetectedTechnology;
  infrastructure : list DetectedTechnology;
  package_managers : list DetectedTechnology;
  repo_path : string;
  primary_language : option string
}.

(** ** Built-ins *)

(** [min(a, b)]: the first argument unless the second is smaller *)
Definition py_min (a b : F) : F := if b <? a then b else a.

(** [max(xs, key=lambda x: x.confidence)]: an item replaces the current
    maximum only when its key is strictly greater *)
Fixpoint max_confidence_from (best : DetectedTechnology)
  (rest : list DetectedTechnology) : DetectedTechnology :=
  match rest with
  | [] => best
  | x :: rest' =>
      max_confidence_from
        (if confidence best <? confidence x then x else best) rest'
  end.

Definition max_confidence (xs : list DetectedTechnology)
  : option DetectedTechnology :=
  match xs with
  | [] => None
  | x :: rest => Some (max_confidence_from x rest)
  end.

(** [sorted(xs, key=lambda x: x.confidence, reverse=True)]: a stable
    sort, here by insertion; an item goes in front of the first one that
    is not greater than it *)
Fixpoint insert_desc (x : DetectedTechnology) (l : list DetectedTechnology)
  : list DetectedTechnology :=
  match l with
  | [] => [x]
  | y :: l' =>
      if confidence x <? confidence y then y :: insert_desc x l'
      else x :: y :: l'
  end.

Definition sorted_desc (xs : list DetectedTechnology)
  : list DetectedTechnology :=
  fold_right insert_desc [] xs.

(** ** The evidence of one rule: [(confidence, found_files)] *)
Definition evidence : Type := F * list string.

Definition no_evidence : evidence := (f_zero, []).

(** [if confidence > 0: xs.append(DetectedTechnology(...))] *)
Definition emit (acc : list DetectedTechnology) (n : string) (ev : evidence)
  : list DetectedTechnology :=
  let '(confidence, found_files) := ev in
  if f_zero <? confidence then
    acc ++ [{| name := n; version := None; files := found_files;
               confidence := py_min confidence f_one |}]
  else acc.

(** the loop over the rules of one category *)
Fixpoint scan_rules {R} (eval : string -> R -> result evidence)
  (rules : list (string * R)) (acc : list DetectedTechnology)
  : result (list DetectedTechnology) :=
  match rules with
  | [] => Ok acc
  | (n, r) :: rest =>
      ev <- eval n r ;; scan_rules eval rest (emit acc n ev)
  end.

(** [found_files.extend([str(m.relative_to(repo_path)) for m in matches[:cap]])] *)
Definition extend (found_files : list string) (cap : nat)
  (matches : list entry) : list string :=
  found_files ++ map rel_path (firstn cap matches).

(** a trigger that counts once however many files match
    ([if matches: confidence += inc; found_files.extend(... matches[:3])]) *)
Definition flat_trigger (t : tree) (inc : F) (ev : evidence)
  (file_pattern : string) : evidence :=
  let '(confidence, found_files) := ev in
  let matches := rglob t file_pattern in
  match matches with
  | [] => ev
  | _ => (confidence + inc, extend found_files 3 matches)
  end.

(** one file of a content scan:
    [try: content = f.read_text(encoding='utf-8') ...
     except (UnicodeDecodeError, PermissionError): continue];
    the inner loop over the patterns stops at the first hit *)
Definition content_hit (inc : F) (dedupe : bool)
  (content_patterns : list string) (ev : evidence) (f : entry)
  : result evidence :=
  let '(confidence, found_files) := ev in
  match read_text f with
  | Ok content =>
      if existsb (fun pattern => re_search pattern content) content_patterns
      then Ok (confidence + inc,
               if dedupe && mem_string (rel_path f) found_files
               then found_files else found_files ++ [rel_path f])
      else Ok ev
  | Raise UnicodeDecodeError | Raise PermissionError => Ok ev
  | Raise e => Raise e
  end.

(** ** [_detect_languages] (lines 179-209) *)
Definition languages_trigger (t : tree) (ev : evidence)
  (file_pattern : string) : evidence :=
  let '(confidence, found_files) := ev in
  let matches := rglob t file_pattern in
  match matches with
  | [] => ev
  | _ => (confidence + f_tenths 3 * f_of_len (List.length matches),
          extend found_files 5 matches)
  end.

Definition languages_name (pattern : string) (ev : evidence)
  (file_path : entry) : result evidence :=
  let '(confidence, found_files) := ev in
  regular <- Path_is_file file_path ;;
  if regular && re_search pattern (name_of file_path) then
    Ok (confidence + f_tenths 2,
        if mem_string (rel_path file_path) found_files then found_files
        else found_files ++ [rel_path file_path])
  else Ok ev.

Definition languages_rule (t : tree) (lang : string) (rules : rule)
  : result evidence :=
  match r_files rules with
  | None => Raise (KeyError "files")
  | Some file_patterns =>
      let ev := fold_left (languages_trigger t) file_patterns no_evidence in
      for_each
        (fun ev pattern => for_each (languages_name pattern) (rglob t "*") ev)
        (get_list (r_patterns rules)) ev
  end.

Definition _detect_languages (dr : rule_catalog) (t : tree)
  : result (list DetectedTechnology) :=
  languages <- scan_rules (languages_rule t) (cat_languages dr) [] ;;
  Ok (sorted_desc languages).

(** ** [_detect_frameworks] (lines 211-271) *)
Definition frameworks_trigger (t : tree) (rules : rule) (ev : evidence)
  (file_pattern : string) : result evidence :=
  let '(confidence, found_files) := ev in
  let matches := rglob t file_pattern in
  match matches with
  | [] => Ok ev
  | _ =>
      match r_content_patterns rules with
      | Some content_patterns =>
          for_each (content_hit (f_tenths 8) false content_patterns) matches ev
      | None => Ok (confidence + f_tenths 5, extend found_files 3 matches)
      end
  end.

(** the scan of every file with one of the extensions of a language *)
Definition extension_scan (t : tree) (dedupe : bool)
  (content_patterns : list string) (extensions : list string) (ev : evidence)
  : result evidence :=
  for_each
    (fun ev ext =>
       for_each (content_hit (f_tenths 3) dedupe content_patterns)
                (rglob t ("*" ++ ext)%string) ev)
    extensions ev.

Definition frameworks_rule (t : tree) (framework : string) (rules : rule)
  : result evidence :=
  ev <- for_each (frameworks_trigger t rules) (get_list (r_files rules))
                 no_evidence ;;
  match r_content_patterns rules, snd ev with
  | Some content_patterns, [] =>
      let language := match r_language rules with Some l => l | None => "" end in
      match lookup_string language frameworks_file_extensions with
      | Some extensions => extension_scan t false content_patterns extensions ev
      | None => Ok ev
      end
  | _, _ => Ok ev
  end.

Definition _detect_frameworks (dr : rule_catalog) (t : tree)
  : result (list DetectedTechnology) :=
  frameworks <- scan_rules (frameworks_rule t) (cat_frameworks dr) [] ;;
  Ok (sorted_desc frameworks).

(** ** [_detect_test_tools] (lines 273-325) *)
Definition test_tools_trigger (t : tree) : evidence -> string -> evidence :=
  flat_trigger t (f_tenths 6).

Definition test_tools_name (pattern : string) (ev : evidence)
  (file_path : entry) : result evidence :=
  let '(confidence, found_files) := ev in
  regular <- Path_is_file file_path ;;
  if regular && re_search pattern (name_of file_path) then
    Ok (confidence + f_tenths 4, found_files ++ [rel_path file_path])
  else Ok ev.

Definition test_tools_rule (t : tree) (tool : string) (rules : rule)
  : result evidence :=
  let ev := fold_left (test_tools_trigger t)
                      (get_list (r_files rules)) no_evidence in
  ev <- for_each
          (fun ev pattern =>
             for_each (test_tools_name pattern) (rglob t "*") ev)
          (get_list (r_patterns rules)) ev ;;
  match r_content_patterns rules with
  | Some content_patterns =>
      let language := match r_language rules with Some l => l | None => "" end in
      match lookup_string language test_tools_file_extensions with
      | Some extensions => extension_scan t true content_patterns extensions ev
      | None => Ok ev
      end
  | None => Ok ev
  end.

Definition _detect_test_tools (dr : rule_catalog) (t : tree)
  : result (list DetectedTechnology) :=
  test_tools <- scan_rules (test_tools_rule t) (cat_test_tools dr) [] ;;
  Ok (sorted_desc test_tools).

(** ** [_detect_build_tools] (lines 327-348) *)
Definition build_tools_trigger (t : tree) : evidence -> string -> evidence :=
  flat_trigger t (f_tenths 8).

Definition build_tools_rule (t : tree) (tool : string) (rules : rule)
  : result evidence :=
  Ok (fold_left (build_tools_trigger t)
                (get_list (r_files rules)) no_evidence).

Definition _detect_build_tools (dr : rule_catalog) (t : tree)
  : result (list DetectedTechnology) :=
  build_tools <- scan_rules (build_tools_rule t) (cat_build_tools dr) [] ;;
  Ok (sorted_desc build_tools).

(** ** [_detect_containers] (lines 350-383) *)
Definition kubernetes_hit (content_patterns : list string) (ev : evidence)
  (m : entry) : result evidence :=
  if mem_string (suffix_of m) [".yaml"; ".yml"]
  then content_hit (f_tenths 7) false content_patterns ev m
  else Ok ev.

Definition containers_trigger (t : tree) (tech : string) (rules : rule)
  (ev : evidence) (file_pattern : string) : result evidence :=
  let '(confidence, found_files) := ev in
  let matches := rglob t file_pattern in
  match matches with
  | [] => Ok ev
  | _ =>
      match String.eqb tech "kubernetes", r_content_patterns rules with
      | true, Some content_patterns =>
          for_each (kubernetes_hit content_patterns) matches ev
      | _, _ => Ok (confidence + f_tenths 8, extend found_files 3 matches)
      end
  end.

Definition containers_rule (t : tree) (tech : string) (rules : rule)
  : result evidence :=
  for_each (containers_trigger t tech rules) (get_list (r_files rules))
           no_evidence.

Definition _detect_containers (dr : rule_catalog) (t : tree)
  : result (list DetectedTechnology) :=
  containers <- scan_rules (containers_rule t) (cat_containers dr) [] ;;
  Ok (sorted_desc containers).

(** ** [_detect_infrastructure] (lines 385-417) *)
Definition infrastructure_trigger (t : tree) (rules : rule) (ev : evidence)
  (file_pattern : string) : result evidence :=
  let '(confidence, found_files) := ev in
  let matches := rglob t file_pattern in
  match matches with
  | [] => Ok ev
  | _ =>
      match r_content_patterns rules with
      | Some content_patterns =>
          for_each (content_hit (f_tenths 8) false content_patterns) matches ev
      | None => Ok (confidence + f_tenths 7, extend found_files 3 matches)
      end
  end.

Definition infrastructure_rule (t : tree) (tech : string) (rules : rule)
  : result evidence :=
  for_each (infrastructure_trigger t rules) (get_list (r_files rules))
           no_evidence.

Definition _detect_infrastructure (dr : rule_catalog) (t : tree)
  : result (list DetectedTechnology) :=
  infrastructure <-
    scan_rules (infrastructure_rule t) (cat_infrastructure dr) [] ;;
  Ok (sorted_desc infrastructure).

(** ** [_detect_package_managers] (lines 419-455) *)
Definition package_managers_trigger (t : tree)
  : evidence -> string -> evidence :=
  flat_trigger t (f_tenths 8).

Definition package_managers_rule (t : tree) (pm : string)
  (file_names : list string) : result evidence :=
  Ok (fold_left (package_managers_trigger t) file_names no_evidence).

Definition _detect_package_managers (t : tree)
  : result (list DetectedTechnology) :=
  package_managers <- scan_rules (package_managers_rule t) pm_files [] ;;
  Ok (sorted_desc package_managers).

(** ** [scan_repository] (lines 144-177) *)

(** what [Path(repo_path).resolve()] names *)
Inductive fs_object :=
| NotADirectory                 (* [rglob] on it yields nothing *)
| DirectoryTree (t : tree).

Record filesystem := {
  fs_resolve : string -> string;            (* [Path(p).resolve()] *)
  fs_lookup : string -> option fs_object    (* [None]: [exists()] is false *)
}.

Definition listing (o : fs_object) : tree :=
  match o with
  | NotADirectory => []
  | DirectoryTree t => t
  end.

(** [RepoAnalysis.__post_init__] *)
Definition RepoAnalysis_post_init (a : RepoAnalysis) : RepoAnalysis :=
  match primary_language a, max_confidence (languages a) with
  | None, Some best =>
      {| languages := languages a; frameworks := frameworks a;
         test_tools := test_tools a; build_tools := build_tools a;
         containers := containers a; infrastructure := infrastructure a;
         package_managers := package_managers a; repo_path := repo_path a;
         primary_language := Some (name best) |}
  | _, _ => a
  end.

Definition scan_repository (dr : rule_catalog) (fs : filesystem)
  (path : string) : result RepoAnalysis :=
  let path := fs_resolve fs path in
  match fs_lookup fs path with
  | None => Raise (ValueError ("Repository path does not exist: " ++ path)%string)
  | Some o =>
      let t := listing o in
      let analysis := RepoAnalysis_post_init
        {| languages := []; frameworks := []; test_tools := [];
           build_tools := []; containers := []; infrastructure := [];
           package_managers := []; repo_path := path;
           primary_language := None |} in
      languages' <- _detect_languages dr t ;;
      frameworks' <- _detect_frameworks dr t ;;
      test_tools' <- _detect_test_tools dr t ;;
      build_tools' <- _detect_build_tools dr t ;;
      containers' <- _detect_containers dr t ;;
      infrastructure' <- _detect_infrastructure dr t ;;
      package_managers' <- _detect_package_managers t ;;
      Ok {| languages := languages'; frameworks := frameworks';
            test_tools := test_tools'; build_tools := build_tools';
            containers := containers'; infrastructure := infrastructure';
            package_managers := package_managers';
            repo_path := repo_path analysis;
            primary_language :=
              match max_confidence languages' with
              | Some best => Some (name best)
              | None => primary_language analysis
              end |}
  end.

End Scanner.

Arguments DetectedTechnology F : clear implicits.
Arguments RepoAnalysis F : clear implicits.

(* ------------------------------------------------------------------ *)
(** * Vocabulary of the properties *)

(** [l1] is [l2] with some items left out, the order kept *)
Inductive subsequence {A : Type} : list A -> list A -> Prop :=
| subseq_nil : subsequence [] []
| subseq_keep x l1 l2 : subsequence l1 l2 -> subsequence (x :: l1) (x :: l2)
| subseq_drop x l1 l2 : subsequence l1 l2 -> subsequence l1 (x :: l2).

(** the rule of a package manager, in the shape of the other rules *)
Definition pm_rule (file_names : list string) : rule :=
  {| r_files := Some file_names; r_patterns := None;
     r_content_patterns := None; r_language := None |}.

(** the seven category lists of an analysis, each with its rules in
    declaration order *)
Definition rule_lists {F} (dr : rule_catalog) (a : RepoAnalysis F)
  : list (list (DetectedTechnology F) * category) :=
  [ (languages a, cat_languages dr);
    (frameworks a, cat_frameworks dr);
    (test_tools a, cat_test_tools dr);
    (build_tools a, cat_build_tools dr);
    (containers a, cat_containers dr);
    (infrastructure a, cat_infrastructure dr);
    (package_managers a, map (fun nf => (fst nf, pm_rule (snd nf))) pm_files) ].

(** a rule without evidence in a tree: no trigger, no filename pattern and
    no content pattern matches anywhere *)
Definition no_match (t : tree) (r : rule) : Prop :=
  (forall p, In p (get_list (r_files r)) -> rglob t p = []) /\
  (forall p e, In p (get_list (r_patterns r)) -> In e t ->
               is_file e = true -> re_search p (name_of e) = false) /\
  (forall p e s, In p (get_list (r_content_patterns r)) -> In e t ->
                 read_text e = Ok s -> re_search p s = false).

Definition category_lists {F} (dr : rule_catalog) (a : RepoAnalysis F)
  : list (list (DetectedTechnology F)) :=
  map fst (rule_lists dr a).

Definition emitted {F} (dr : rule_catalog) (a : RepoAnalysis F)
  (x : DetectedTechnology F) : Prop :=
  exists l, In l (category_lists dr a) /\ In x l.

(** two entries of one kind: they differ at most in what a regular file
    holds *)
Definition same_kind (e e' : entry) : Prop :=
  match node_of e, node_of e' with
  | RegularFile _, RegularFile _ => True
  | n, n' => n = n'
  end.

(** an unreadable file, seen as a readable file without text *)
Definition as_empty_text (e : entry) : entry :=
  match node_of e with
  | RegularFile NotUTF8 | RegularFile NoPermission =>
      {| rel_path := rel_path e; node_of := RegularFile (Text "") |}
  | _ => e
  end.

Definition map_listing (f : entry -> entry) (fs : filesystem) : filesystem :=
  {| fs_resolve := fs_resolve fs;
     fs_lookup := fun p =>
       match fs_lookup fs p with
       | Some (DirectoryTree t) => Some (DirectoryTree (map f t))
       | other => other
       end |}.

(** the globs whose matches a scanner reads *)
Definition extension_globs (table : list (string * list string)) (r : rule)
  : list string :=
  let language := match r_language r with Some l => l | None => "" end in
  match lookup_string language table with
  | Some extensions => map (fun ext => ("*" ++ ext)%string) extensions
  | None => []
  end.

Definition read_globs (dr : rule_catalog) : list string :=
  flat_map (fun nr =>
              match r_content_patterns (snd nr) with
              | Some _ => get_list (r_files (snd nr))
                          ++ extension_globs frameworks_file_extensions (snd nr)
              | None => []
              end) (cat_frameworks dr)
  ++ flat_map (fun nr =>
                 match r_content_patterns (snd nr) with
                 | Some _ => extension_globs test_tools_file_extensions (snd nr)
                 | None => []
                 end) (cat_test_tools dr)
  ++ flat_map (fun nr =>
                 match r_content_patterns (snd nr) with
                 | Some _ => get_list (r_files (snd nr))
                 | None => []
                 end) (cat_containers dr ++ cat_infrastructure dr).

(** no content pattern of the catalog matches the empty text, and every
    language rule has its ["files"] *)
Definition content_patterns_of (dr : rule_catalog) : list string :=
  flat_map (fun nr => get_list (r_content_patterns (snd nr)))
           (cat_frameworks dr ++ cat_test_tools dr ++ cat_containers dr
            ++ cat_infrastructure dr).

Definition catalog_ok (dr : rule_catalog) : bool :=
  forallb (fun p => negb (re_search p "")) (content_patterns_of dr)
  && forallb (fun nr => match r_files (snd nr) with Some _ => true
                                               | None => false end)
             (cat_languages dr).

(** the text of the file matches one of the content patterns *)
Definition content_matches (cps : list string) (e : entry) : bool :=
  match read_text e with
  | Ok s => existsb (fun pattern => re_search pattern s) cps
  | Raise _ => false
  end.

(** the file is a content hit of a file trigger of the rule *)
Definition trigger_hit (r : rule) (e : entry) : Prop :=
  exists cps p,
    r_content_patterns r = Some cps /\ In p (get_list (r_files r)) /\
    glob_match p e = true /\ content_matches cps e = true.

(** the exception of [read_text] that the content scans do not catch *)
Definition read_failure (f : entry) : option exn :=
  match read_text f with
  | Ok _ | Raise UnicodeDecodeError | Raise PermissionError => None
  | Raise e => Some e
  end.

(** the exception of [is_file()] *)
Definition stat_failure (f : entry) : option exn :=
  match Path_is_file f with
  | Ok _ => None
  | Raise e => Some e
  end.

(** [read_text] returns, or raises what the content scans catch *)
Definition read_or_skipped (f : entry) : Prop := read_failure f = None.

(** the entry matches a file trigger of the rule *)
Definition file_triggered (r : rule) (f : entry) : Prop :=
  exists p, In p (get_list (r_files r)) /\ glob_match p f = true.

(** the entry is a regular file whose name matches a filename pattern of
    the rule *)
Definition name_matched (r : rule) (f : entry) : Prop :=
  is_file f = true /\
  exists p, In p (get_list (r_patterns r)) /\ re_search p (name_of f) = true.

(** the matches that the kubernetes rule reads *)
Definition yaml_named (m : entry) : bool :=
  mem_string (suffix_of m) [".yaml"; ".yml"].

(** every match of the glob can be read, or is skipped *)
Definition all_read_or_skipped (t : tree) (p : string) : Prop :=
  forall f, In f (rglob t p) -> read_or_skipped f.

(** [is_file()] returns for every entry of the listing *)
Definition stat_allowed (ms : list entry) : Prop :=
  forall f, In f ms -> Path_is_file f = Ok (is_file f).

Section Vocabulary.

Context {F : Type} {SF : Score F}.
Local Open Scope score_scope.

(** a score that is not NaN, and a list in descending order of confidence *)
Definition defined (x : F) : Prop := (x <=? x) = true.

Definition descending (l : list (DetectedTechnology F)) : Prop :=
  StronglySorted (fun x y => (confidence y <=? confidence x) = true) l.

(** stability: what a sort by insertion does to the items of one
    confidence *)
Definition same_confidence (c : F) (x : DetectedTechnology F) : bool :=
  confidence x =? c.

(** the item a rule contributes when its evidence is positive *)
Definition detected (n : string) (ev : evidence (F:=F)) : DetectedTechnology F :=
  {| name := n; version := None; files := snd ev;
     confidence := py_min (fst ev) f_one |}.

(** evidence is grounded: a positive score comes with a file *)
Definition grounded (ev : evidence (F:=F)) : Prop :=
  snd ev = [] -> fst ev = f_zero.

(** the filename channel for one entry, once [is_file()] has returned *)
Definition languages_name_step (pattern : string) (ev : evidence (F:=F))
  (file_path : entry) : evidence (F:=F) :=
  let '(confidence, found_files) := ev in
  if is_file file_path && re_search pattern (name_of file_path) then
    (confidence + f_tenths 2,
     if mem_string (rel_path file_path) found_files then found_files
     else found_files ++ [rel_path file_path])
  else ev.

Definition test_tools_name_step (pattern : string) (ev : evidence (F:=F))
  (file_path : entry) : evidence (F:=F) :=
  let '(confidence, found_files) := ev in
  if is_file file_path && re_search pattern (name_of file_path) then
    (confidence + f_tenths 4, found_files ++ [rel_path file_path])
  else ev.

(** a category list is the sorted result of the loop over its rules *)
Definition scanned {R} (eval : string -> R -> result (evidence (F:=F)))
  (rules : list (string * R)) (L : list (DetectedTechnology F)) : Prop :=
  exists L0, scan_rules eval rules [] = Ok L0 /\ L = sorted_desc L0.

(** what the seven rule evaluators have in common *)
Record sound_eval {R} (t : tree) (as_rule : R -> rule)
  (eval : string -> R -> result (evidence (F:=F))) : Prop := {
  se_grounded : forall n r ev, eval n r = Ok ev -> grounded ev;
  se_no_match : forall n r ev,
    eval n r = Ok ev -> no_match t (as_rule r) -> ev = no_evidence
}.

(** the rules of a category in the shape of the catalog's rules *)
Definition as_category {R} (as_rule : R -> rule) (rules : list (string * R))
  : category :=
  map (fun nr => (fst nr, as_rule (snd nr))) rules.

(** the order of scores, and scores that are not negative *)
Definition le (x y : F) : Prop := (x <=? y) = true.
Definition nonneg (x : F) : Prop := le f_zero x.
Definition above_zero (x : F) : Prop := (f_zero <? x) = true.

(** evidence that has not shrunk *)
Definition below (ev ev' : evidence (F:=F)) : Prop :=
  nonneg (fst ev) /\ le (fst ev) (fst ev').

Definition rule_below {R} (eval eval' : string -> R -> result (evidence (F:=F)))
  : Prop :=
  forall n r ev, eval n r = Ok ev ->
    exists ev', eval' n r = Ok ev' /\ below ev ev'.

(** the score after [inc] was added once for each hit among the matches *)
Definition add_per_hit (inc : F) (hit : entry -> bool) (ms : list entry)
  (c : F) : F :=
  fold_left (fun c f => if hit f then c + inc else c) ms c.

(** evidence with a score that is not negative *)
Definition counted (ev : evidence (F:=F)) : Prop := nonneg (fst ev).

(** evidence that emits its technology *)
Definition strong (ev : evidence (F:=F)) : Prop :=
  above_zero (fst ev) /\ snd ev <> [].

(** the content patterns on which a change of the files changes no hit *)
Definition rule_same_hits (same_hits : list string -> Prop) (r : rule) : Prop :=
  forall cps, r_content_patterns r = Some cps -> same_hits cps.

Definition catalog_same_hits (same_hits : list string -> Prop)
  (dr : rule_catalog) : Prop :=
  forall n r,
    In (n, r) (cat_frameworks dr ++ cat_test_tools dr ++ cat_containers dr
               ++ cat_infrastructure dr) ->
    rule_same_hits same_hits r.

End Vocabulary.

(* ------------------------------------------------------------------ *)
(** * Scenarios *)

Definition file (path content : string) : entry :=
  {| rel_path := path; node_of := RegularFile (Text content) |}.

(** a file system with one directory, already in canonical form *)
Definition one_directory (root : string) (t : tree) : filesystem :=
  {| fs_resolve := fun p => p;
     fs_lookup := fun p => if String.eqb p root then Some (DirectoryTree t)
                           else None |}.

Definition scan (fs : filesystem) (path : string) : result (RepoAnalysis float) :=
  scan_repository detection_rules fs path.

Definition analysis_of (r : result (RepoAnalysis float)) : RepoAnalysis float :=
  match r with
  | Ok a => a
  | Raise _ =>
      {| languages := []; frameworks := []; test_tools := [];
         build_tools := []; containers := []; infrastructure := [];
         package_managers := []; repo_path := ""; primary_language := None |}
  end.

(** Scenario A of the specification, in the two orders in which the
    directory can list its two files *)
Definition scenario_A : tree :=
  [ file "requirements.txt" "flask==2.3.2";
    file "app.py" "from flask import Flask" ].

Definition scenario_A' : tree := rev scenario_A.

Definition scenario_A_analysis : RepoAnalysis float :=
  Eval vm_compute in analysis_of (scan (one_directory "/repo" scenario_A) "/repo").

(** a path that names a regular file *)
Definition a_regular_file : filesystem :=
  {| fs_resolve := fun p => p;
     fs_lookup := fun p => if String.eqb p "/repo/README.md"
                           then Some NotADirectory else None |}.

Definition empty_analysis (path : string) : RepoAnalysis float :=
  {| languages := []; frameworks := []; test_tools := [];
     build_tools := []; containers := []; infrastructure := [];
     package_managers := []; repo_path := path; primary_language := None |}.

(** a repository with [setup.py] only *)
Definition only_setup_py : tree :=
  [ file "setup.py" "from setuptools import setup" ].

Definition only_setup_py_analysis : RepoAnalysis float :=
  Eval vm_compute in
    analysis_of (scan (one_directory "/repo" only_setup_py) "/repo").

(** a repository with [pytest.ini] only *)
Definition only_pytest_ini : tree := [ file "pytest.ini" "[pytest]" ].

Definition only_pytest_ini_analysis : RepoAnalysis float :=
  Eval vm_compute in
    analysis_of (scan (one_directory "/repo" only_pytest_ini) "/repo").

(** a repository whose [app.py] is not UTF-8 and whose [notes.py] cannot
    be read *)
Definition unreadable_app : tree :=
  [ file "requirements.txt" "flask==2.3.2";
    {| rel_path := "app.py"; node_of := RegularFile NotUTF8 |};
    {| rel_path := "notes.py"; node_of := RegularFile NoPermission |} ].

Definition unreadable_app_analysis : RepoAnalysis float :=
  Eval vm_compute in
    analysis_of (scan (one_directory "/repo" unreadable_app) "/repo").

(** a module in a directory that may be listed but not searched *)
Definition in_a_locked_directory : tree :=
  [ file "main.py" "print(1)";
    {| rel_path := "locked/secret.py"; node_of := Unsearchable false |} ].

(** the unreadable files beside a directory whose name ends in [.py] *)
Definition unreadable_beside_a_directory : tree :=
  unreadable_app ++ [ {| rel_path := "plugins.py"; node_of := Directory |} ].

(** three modules that import flask, and the same with [app.py] added *)
Definition flask_modules : tree :=
  [ file "a.py" "from flask import Flask";
    file "b.py" "from flask import request";
    file "c.py" "from flask import jsonify" ].

Definition flask_app : entry := file "app.py" "from flask import Flask".

Definition flask_modules_analysis : RepoAnalysis float :=
  Eval vm_compute in
    analysis_of (scan (one_directory "/repo" flask_modules) "/repo").

Definition flask_app_analysis : RepoAnalysis float :=
  Eval vm_compute in
    analysis_of (scan (one_directory "/repo" (flask_modules ++ [flask_app]))
                      "/repo").

(** one Python module, and a second one *)
Definition one_module : tree := [ file "main.py" "print(1)" ].

Definition second_module : entry := file "util.py" "print(2)".

Definition one_module_analysis : RepoAnalysis float :=
  Eval vm_compute in
    analysis_of (scan (one_directory "/repo" one_module) "/repo").

(* ------------------------------------------------------------------ *)
(** * Beyond the scan result: vocabulary and the rest of the program *)

(** the names and the confidences of a category list *)
Definition scores {F} (l : list (DetectedTechnology F)) : list (string * F) :=
  map (fun x => (name x, confidence x)) l.

(** a list of strings without a repetition *)
Fixpoint distinct (l : list string) : bool :=
  match l with
  | [] => true
  | x :: l' => negb (mem_string x l') && distinct l'
  end.

(** an entry of the tree fails with the exception: [is_file()] raises it
    for the entry, or [read_text] raises it and the content scans do not
    catch it *)
Definition entry_failure (t : tree) (e : exn) : Prop :=
  exists f, In f t /\ (stat_failure f = Some e \/ read_failure f = Some e).

(** a directory whose name ends in [.py], beside a module that imports
    fastapi: the content scan of the fastapi rule reads both *)
Definition a_directory_named_like_a_module : tree :=
  [ {| rel_path := "plugins.py"; node_of := Directory |};
    file "main.py" "from fastapi import FastAPI" ].

(** a directory and a link without a target, both named like modules *)
Definition a_directory_and_a_broken_link : tree :=
  [ {| rel_path := "x.py"; node_of := Directory |};
    {| rel_path := "y.py"; node_of := BrokenLink |} ].

(** the trigger globs of a rule that match an entry of the tree *)
Definition matching_triggers (t : tree) (ps : list string) : list string :=
  filter (fun p => match rglob t p with [] => false | _ => true end) ps.

Section OrderVocabulary.

Context {F : Type} {SF : Score F}.

(** evidence with the same score, and files in both or in neither *)
Definition same_score (ev ev' : evidence (F:=F)) : Prop :=
  fst ev = fst ev' /\ (snd ev = [] <-> snd ev' = []).

(** the same, for the outcome of a loop that can raise: both loops
    return, or both raise (the first entry that fails decides which
    exception) *)
Definition same_outcome (m m' : result (evidence (F:=F))) : Prop :=
  match m, m' with
  | Ok ev, Ok ev' => same_score ev ev'
  | Raise _, Raise _ => True
  | _, _ => False
  end.

(** two category scans with the same outcome: the same names with the
    same confidences in the same order, or an exception in both *)
Definition same_list (m m' : result (list (DetectedTechnology F))) : Prop :=
  match m, m' with
  | Ok L, Ok L' => scores L = scores L'
  | Raise _, Raise _ => True
  | _, _ => False
  end.

(** the shape of one step of the loops over files: an entry that fails
    raises, a file that counts adds [inc] and records a path *)
Definition cond_bump {A} (failure : A -> option exn) (hit : A -> bool)
  (inc : F) (g : A -> list string -> list string) (ev : evidence (F:=F))
  (x : A) : result (evidence (F:=F)) :=
  match failure x with
  | Some e => Raise e
  | None => Ok (if hit x then (f_add (fst ev) inc, g x (snd ev)) else ev)
  end.

(** [found_files.append(p)], with or without the membership test *)
Definition record_path (dedupe : bool) (p : string) (found_files : list string)
  : list string :=
  if dedupe && mem_string p found_files then found_files
  else found_files ++ [p].

(** every recorded path is the path of an entry of the tree *)
Definition from_tree (t : tree) (ev : evidence (F:=F)) : Prop :=
  Forall (fun p => In p (map rel_path t)) (snd ev).

End OrderVocabulary.

(* ------------------------------------------------------------------ *)
(** * The pipeline generators (src/auto_ci.py, lines 461-1049)

    A generator builds a Python value out of dicts, lists, strings and
    scalars and hands it to [yaml.dump].  Dicts keep the order in which
    their keys were inserted. *)

#[local] Set Warnings "-register-all".

Inductive pyval :=
| PNone
| PStr (s : string)
| PBool (b : bool)
| PInt (z : Z)
| PFloat (x : float)
| PList (items : list pyval)
| PDict (entries : list (string * pyval)).

Definition pydict : Type := list (string * pyval).

(** [d[k] = v]: a key that is present keeps its place *)
Fixpoint dict_set (k : string) (v : pyval) (d : pydict) : pydict :=
  match d with
  | [] => [(k, v)]
  | (k', v') :: d' =>
      if String.eqb k' k then (k', v) :: d' else (k', v') :: dict_set k v d'
  end.

(** [d.update(other)] *)
Definition dict_update (d other : pydict) : pydict :=
  fold_left (fun d kv => dict_set (fst kv) (snd kv) d) other d.

(** [d.get(k)] *)
Fixpoint dict_get (k : string) (d : pydict) : option pyval :=
  match d with
  | [] => None
  | (k', v) :: d' => if String.eqb k' k then Some v else dict_get k d'
  end.

(** [list(d.keys())] *)
Definition dict_keys (d : pydict) : list string := map fst d.

(** [v.get(k)] for a value that is a dict *)
Definition field (k : string) (v : pyval) : option pyval :=
  match v with
  | PDict d => dict_get k d
  | _ => None
  end.

Section Generators.

Context {F : Type}.

(** [yaml.dump(value, default_flow_style=False, sort_keys=False)] *)
Variable yaml_dump : pyval -> string.

(** [any(tech.name == n for tech in techs)] *)
Definition any_named (n : string) (techs : list (DetectedTechnology F)) : bool :=
  existsb (fun tech => String.eqb (name tech) n) techs.

(** [analysis.primary_language == n] *)
Definition primary_is (analysis : RepoAnalysis F) (n : string) : bool :=
  match primary_language analysis with
  | Some l => String.eqb l n
  | None => false
  end.

(** ** [GitHubActionsGenerator] (lines 468-767) *)

Definition pip_cache_step : pyval :=
  PDict [("name", PStr "Cache pip dependencies");
         ("uses", PStr "actions/cache@v3");
         ("with", PDict
            [("path", PStr "~/.cache/pip");
             ("key", PStr "${{ runner.os }}-pip-${{ hashFiles('**/requirements*.txt') }}");
             ("restore-keys", PStr "${{ runner.os }}-pip-")])].

Definition _python_jobs (analysis : RepoAnalysis F) : pydict :=
  let python_version := "3.11" in
  let lint :=
    PDict [("runs-on", PStr "ubuntu-latest");
           ("steps", PList
              [PDict [("uses", PStr "actions/checkout@v4")];
               PDict [("uses", PStr "actions/setup-python@v4");
                      ("with", PDict [("python-version", PStr python_version)])];
               pip_cache_step;
               PDict [("run", PStr "pip install flake8 black isort")];
               PDict [("run", PStr "flake8 . --max-line-length=88 --exclude=venv,env")];
               PDict [("run", PStr "black --check .")];
               PDict [("run", PStr "isort --check-only .")]])] in
  let steps :=
    [PDict [("uses", PStr "actions/checkout@v4")];
     PDict [("uses", PStr "actions/setup-python@v4");
            ("with", PDict [("python-version",
                             PStr "${{ matrix.python-version }}")])];
     pip_cache_step] in
  (* jobs["test"]["steps"].extend(...) and .append(...) *)
  let steps :=
    if any_named "poetry" (build_tools analysis) then
      steps ++ [PDict [("run", PStr "pip install poetry")];
                PDict [("run", PStr "poetry install")];
                PDict [("run", PStr "poetry run pytest --cov=. --cov-report=xml")]]
    else
      let steps :=
        steps ++ [PDict [("run", PStr "pip install -r requirements.txt || pip install -r requirements/dev.txt || echo 'No requirements file found'")];
                  PDict [("run", PStr "pip install pytest pytest-cov")]] in
      if any_named "pytest" (test_tools analysis) then
        steps ++ [PDict [("run", PStr "pytest --cov=. --cov-report=xml")]]
      else
        steps ++ [PDict [("run", PStr "python -m pytest || python -m unittest discover")]] in
  let steps :=
    steps ++ [PDict [("name", PStr "Upload coverage to Codecov");
                     ("uses", PStr "codecov/codecov-action@v3");
                     ("with", PDict [("file", PStr "./coverage.xml")])]] in
  [("lint", lint);
   ("test",
    PDict [("runs-on", PStr "ubuntu-latest");
           ("strategy", PDict
              [("matrix", PDict
                  [("python-version",
                    PList [PStr "3.9"; PStr "3.10"; PStr "3.11"])])]);
           ("steps", PList steps)])].

(** the package manager of the JavaScript jobs: [yarn] before [pnpm]
    before [npm] *)
Definition github_package_manager (analysis : RepoAnalysis F) : string :=
  if any_named "yarn" (package_managers analysis) then "yarn"
  else if any_named "pnpm" (package_managers analysis) then "pnpm"
  else "npm".

Definition install_cmd : list (string * string) :=
  [("npm", "npm ci");
   ("yarn", "yarn install --frozen-lockfile");
   ("pnpm", "pnpm install --frozen-lockfile")].

Definition _javascript_jobs (analysis : RepoAnalysis F) : result pydict :=
  let node_version := "18" in
  let package_manager := github_package_manager analysis in
  match lookup_string package_manager install_cmd with
  | None => Raise (KeyError package_manager)
  | Some install =>
      Ok [("lint-and-test",
           PDict [("runs-on", PStr "ubuntu-latest");
                  ("strategy", PDict
                     [("matrix", PDict
                         [("node-version",
                           PList [PStr "16"; PStr "18"; PStr "20"])])]);
                  ("steps", PList
                     [PDict [("uses", PStr "actions/checkout@v4")];
                      PDict [("uses", PStr "actions/setup-node@v4");
                             ("with", PDict
                                [("node-version",
                                  PStr "${{ matrix.node-version }}");
                                 ("cache", PStr package_manager)])];
                      PDict [("run", PStr install)];
                      PDict [("run", PStr (package_manager ++ " run lint || echo 'No lint script found'"))];
                      PDict [("run", PStr (package_manager ++ " run test || echo 'No test script found'"))];
                      PDict [("run", PStr (package_manager ++ " run build || echo 'No build script found'"))]])])]
  end.

Definition _go_jobs (analysis : RepoAnalysis F) : pydict :=
  [("lint-and-test",
    PDict [("runs-on", PStr "ubuntu-latest");
           ("steps", PList
              [PDict [("uses", PStr "actions/checkout@v4")];
               PDict [("uses", PStr "actions/setup-go@v4");
                      ("with", PDict [("go-version", PStr "1.21")])];
               PDict [("name", PStr "Cache Go modules");
                      ("uses", PStr "actions/cache@v3");
                      ("with", PDict
                         [("path", PStr "~/go/pkg/mod");
                          ("key", PStr "${{ runner.os }}-go-${{ hashFiles('**/go.sum') }}");
                          ("restore-keys", PStr "${{ runner.os }}-go-")])];
               PDict [("run", PStr "go mod download")];
               PDict [("run", PStr "go vet ./...")];
               PDict [("run", PStr "go test -race -coverprofile=coverage.out ./...")];
               PDict [("run", PStr "go build -v ./...")]])])].

Definition setup_java_step : pyval :=
  PDict [("uses", PStr "actions/setup-java@v4");
         ("with", PDict [("java-version", PStr "11");
                         ("distribution", PStr "temurin")])].

Definition _java_jobs (analysis : RepoAnalysis F) : pydict :=
  if any_named "maven" (build_tools analysis) then
    [("test",
      PDict [("runs-on", PStr "ubuntu-latest");
             ("steps", PList
                [PDict [("uses", PStr "actions/checkout@v4")];
                 setup_java_step;
                 PDict [("name", PStr "Cache Maven dependencies");
                        ("uses", PStr "actions/cache@v3");
                        ("with", PDict
                           [("path", PStr "~/.m2");
                            ("key", PStr "${{ runner.os }}-m2-${{ hashFiles('**/pom.xml') }}");
                            ("restore-keys", PStr "${{ runner.os }}-m2")])];
                 PDict [("run", PStr "mvn clean compile")];
                 PDict [("run", PStr "mvn test")];
                 PDict [("run", PStr "mvn package")]])])]
  else if any_named "gradle" (build_tools analysis) then
    [("test",
      PDict [("runs-on", PStr "ubuntu-latest");
             ("steps", PList
                [PDict [("uses", PStr "actions/checkout@v4")];
                 setup_java_step;
                 PDict [("name", PStr "Cache Gradle dependencies");
                        ("uses", PStr "actions/cache@v3");
                        ("with", PDict
                           [("path", PStr "~/.gradle/caches");
                            ("key", PStr "${{ runner.os }}-gradle-${{ hashFiles('**/*.gradle') }}");
                            ("restore-keys", PStr "${{ runner.os }}-gradle-")])];
                 PDict [("run", PStr "./gradlew build test")]])])]
  else
    [("test",
      PDict [("runs-on", PStr "ubuntu-latest");
             ("steps", PList
                [PDict [("uses", PStr "actions/checkout@v4")];
                 setup_java_step;
                 PDict [("run", PStr "javac *.java")];
                 PDict [("run", PStr "java -cp . Main || echo 'Specify your main class'")]])])].

Definition _docker_job : pyval :=
  PDict [("runs-on", PStr "ubuntu-latest");
         ("steps", PList
            [PDict [("uses", PStr "actions/checkout@v4")];
             PDict [("name", PStr "Set up Docker Buildx");
                    ("uses", PStr "docker/setup-buildx-action@v3")];
             PDict [("name", PStr "Login to Docker Hub");
                    ("uses", PStr "docker/login-action@v3");
                    ("with", PDict
                       [("username", PStr "${{ secrets.DOCKERHUB_USERNAME }}");
                        ("password", PStr "${{ secrets.DOCKERHUB_TOKEN }}")])];
             PDict [("name", PStr "Build and push");
                    ("uses", PStr "docker/build-push-action@v5");
                    ("with", PDict
                       [("context", PStr ".");
                        ("platforms", PStr "linux/amd64,linux/arm64");
                        ("push", PBool true);
                        ("tags", PStr "${{ secrets.DOCKERHUB_USERNAME }}/myapp:latest,${{ secrets.DOCKERHUB_USERNAME }}/myapp:${{ github.sha }}")])]])].

(** the dict that [GitHubActionsGenerator.generate] hands to [yaml.dump] *)
Definition github_workflow (analysis : RepoAnalysis F) : result pyval :=
  let jobs : pydict := [] in
  jobs <-
    (if primary_is analysis "python" then
       Ok (dict_update jobs (_python_jobs analysis))
     else if primary_is analysis "javascript" then
       js <- _javascript_jobs analysis ;; Ok (dict_update jobs js)
     else if primary_is analysis "go" then
       Ok (dict_update jobs (_go_jobs analysis))
     else if primary_is analysis "java" then
       Ok (dict_update jobs (_java_jobs analysis))
     else
       Ok (dict_set "build"
             (PDict [("runs-on", PStr "ubuntu-latest");
                     ("steps", PList
                        [PDict [("uses", PStr "actions/checkout@v4")];
                         PDict [("run", PStr "echo 'Add your build steps here'")]])])
             jobs)) ;;
  let jobs :=
    if any_named "docker" (containers analysis)
    then dict_set "docker" _docker_job jobs else jobs in
  Ok (PDict
        [("name", PStr "CI");
         ("on", PDict
            [("push", PDict [("branches",
                              PList [PStr "main"; PStr "master"; PStr "develop"])]);
             ("pull_request", PDict [("branches",
                                      PList [PStr "main"; PStr "master"])])]);
         ("jobs", PDict jobs)]).

Definition GitHubActionsGenerator_generate (analysis : RepoAnalysis F)
  (options : pyval) : result string :=
  workflow <- github_workflow analysis ;; Ok (yaml_dump workflow).

(** ** [GitLabCIGenerator] (lines 769-936) *)

Definition _python_gitlab_jobs (analysis : RepoAnalysis F) : pydict :=
  let lint :=
    PDict [("stage", PStr "lint");
           ("image", PStr "python:3.11");
           ("before_script", PList [PStr "pip install --upgrade pip";
                                    PStr "pip install flake8 black isort"]);
           ("script", PList
              [PStr "flake8 . --max-line-length=88 --exclude=venv,env";
               PStr "black --check .";
               PStr "isort --check-only ."])] in
  let before_script := [PStr "pip install --upgrade pip"] in
  let script : list pyval := [] in
  (* jobs["test"]["before_script"].extend(...); jobs["test"]["script"] = ... *)
  let '(before_script, script) :=
    if any_named "poetry" (build_tools analysis) then
      (before_script ++ [PStr "pip install poetry"; PStr "poetry install"],
       [PStr "poetry run pytest --cov=. --cov-report=xml"])
    else
      (before_script
         ++ [PStr "pip install -r requirements.txt || pip install pytest pytest-cov"],
       [PStr "pytest --cov=. --cov-report=xml"]) in
  [("lint", lint);
   ("test",
    PDict [("stage", PStr "test");
           ("image", PStr "python:3.11");
           ("before_script", PList before_script);
           ("script", PList script);
           ("coverage", PStr "/coverage: \d+%/");
           ("artifacts", PDict
              [("reports", PDict
                  [("coverage_report", PDict
                      [("coverage_format", PStr "cobertura");
                       ("path", PStr "coverage.xml")])])])])].

Definition _javascript_gitlab_jobs (analysis : RepoAnalysis F) : pydict :=
  let package_manager :=
    if any_named "yarn" (package_managers analysis) then "yarn" else "npm" in
  [("test",
    PDict [("stage", PStr "test");
           ("image", PStr "node:18");
           ("cache", PDict [("paths", PList [PStr "node_modules/"])]);
           ("before_script", PList [PStr (package_manager ++ " install")]);
           ("script", PList
              [PStr (package_manager ++ " run lint || echo 'No lint script'");
               PStr (package_manager ++ " run test || echo 'No test script'");
               PStr (package_manager ++ " run build || echo 'No build script'")])])].

Definition _go_gitlab_jobs (analysis : RepoAnalysis F) : pydict :=
  [("test",
    PDict [("stage", PStr "test");
           ("image", PStr "golang:1.21");
           ("before_script", PList [PStr "go mod download"]);
           ("script", PList
              [PStr "go vet ./...";
               PStr "go test -race -coverprofile=coverage.out ./...";
               PStr "go build -v ./..."])])].

Definition _java_gitlab_jobs (analysis : RepoAnalysis F) : pydict :=
  if any_named "maven" (build_tools analysis) then
    [("test",
      PDict [("stage", PStr "test");
             ("image", PStr "maven:3.8-openjdk-11");
             ("cache", PDict [("paths", PList [PStr ".m2/repository/"])]);
             ("script", PList [PStr "mvn clean compile test package"]);
             ("artifacts", PDict [("paths", PList [PStr "target/"])])])]
  else
    [("test",
      PDict [("stage", PStr "test");
             ("image", PStr "openjdk:11");
             ("script", PList
                [PStr "javac *.java";
                 PStr "java Main || echo 'Specify your main class'"])])].

Definition _docker_gitlab_job : pyval :=
  PDict [("stage", PStr "build");
         ("image", PStr "docker:latest");
         ("services", PList [PStr "docker:dind"]);
         ("before_script", PList
            [PStr "docker login -u $CI_REGISTRY_USER -p $CI_REGISTRY_PASSWORD $CI_REGISTRY"]);
         ("script", PList
            [PStr "docker build -t $CI_REGISTRY_IMAGE:$CI_COMMIT_SHA .";
             PStr "docker push $CI_REGISTRY_IMAGE:$CI_COMMIT_SHA"])].

(** the dict that [GitLabCIGenerator.generate] hands to [yaml.dump] *)
Definition gitlab_pipeline (analysis : RepoAnalysis F) : pydict :=
  let pipeline : pydict :=
    [("stages", PList [PStr "lint"; PStr "test"; PStr "build"; PStr "deploy"]);
     ("variables", PDict
        [("PIP_CACHE_DIR", PStr "$CI_PROJECT_DIR/.cache/pip");
         ("NODE_CACHE_DIR", PStr "$CI_PROJECT_DIR/.cache/node")]);
     ("cache", PDict [("paths", PList [PStr ".cache/"])])] in
  let pipeline :=
    if primary_is analysis "python" then
      dict_update pipeline (_python_gitlab_jobs analysis)
    else if primary_is analysis "javascript" then
      dict_update pipeline (_javascript_gitlab_jobs analysis)
    else if primary_is analysis "go" then
      dict_update pipeline (_go_gitlab_jobs analysis)
    else if primary_is analysis "java" then
      dict_update pipeline (_java_gitlab_jobs analysis)
    else pipeline in
  if any_named "docker" (containers analysis)
  then dict_set "docker-build" _docker_gitlab_job pipeline
  else pipeline.

Definition GitLabCIGenerator_generate (analysis : RepoAnalysis F)
  (options : pyval) : result string :=
  Ok (yaml_dump (PDict (gitlab_pipeline analysis))).

(** ** [CircleCIGenerator] (lines 938-1049) *)

Definition _python_circleci_jobs (analysis : RepoAnalysis F) : pydict :=
  [("test",
    PDict [("docker", PList [PDict [("image", PStr "cimg/python:3.11")]]);
           ("steps", PList
              [PStr "checkout";
               PDict [("restore_cache", PDict
                  [("keys", PList
                      [PStr ("pip-packages-v1-{{ .Branch }}-{{ checksum "
                             ++ dquote ++ "requirements.txt" ++ dquote ++ " }}");
                       PStr "pip-packages-v1-{{ .Branch }}-";
                       PStr "pip-packages-v1-"])])];
               PDict [("run", PDict
                  [("name", PStr "Install dependencies");
                   ("command", PStr "pip install -r requirements.txt || pip install pytest pytest-cov")])];
               PDict [("save_cache", PDict
                  [("key", PStr ("pip-packages-v1-{{ .Branch }}-{{ checksum "
                                 ++ dquote ++ "requirements.txt" ++ dquote ++ " }}"));
                   ("paths", PList [PStr "/home/circleci/.cache/pip"])])];
               PDict [("run", PDict
                  [("name", PStr "Run tests");
                   ("command", PStr "pytest --cov=. --cov-report=xml")])]])])].

Definition _javascript_circleci_jobs (analysis : RepoAnalysis F) : pydict :=
  [("test",
    PDict [("docker", PList [PDict [("image", PStr "cimg/node:18.0")]]);
           ("steps", PList
              [PStr "checkout";
               PDict [("restore_cache", PDict
                  [("keys", PList
                      [PStr ("npm-packages-v1-{{ .Branch }}-{{ checksum "
                             ++ dquote ++ "package-lock.json" ++ dquote ++ " }}");
                       PStr "npm-packages-v1-{{ .Branch }}-";
                       PStr "npm-packages-v1-"])])];
               PDict [("run", PStr "npm ci")];
               PDict [("save_cache", PDict
                  [("key", PStr ("npm-packages-v1-{{ .Branch }}-{{ checksum "
                                 ++ dquote ++ "package-lock.json" ++ dquote ++ " }}"));
                   ("paths", PList [PStr "/home/circleci/.npm"])])];
               PDict [("run", PStr "npm run test || echo 'No test script'")]])])].

Definition _go_circleci_jobs (analysis : RepoAnalysis F) : pydict :=
  [("test",
    PDict [("docker", PList [PDict [("image", PStr "cimg/go:1.21")]]);
           ("steps", PList
              [PStr "checkout";
               PDict [("run", PStr "go mod download")];
               PDict [("run", PStr "go test -v ./...")];
               PDict [("run", PStr "go build -v ./...")]])])].

(** [config["jobs"].update(jobs)] and
    [config["workflows"]["build_and_test"]["jobs"].extend(jobs.keys())] *)
Definition circleci_add (jobs : pydict) (config : pydict * list pyval)
  : pydict * list pyval :=
  (dict_update (fst config) jobs,
   snd config ++ map PStr (dict_keys jobs)).

(** the dict that [CircleCIGenerator.generate] hands to [yaml.dump]:
    [config["jobs"]] and [config["workflows"]["build_and_test"]["jobs"]]
    are filled first *)
Definition circleci_config (analysis : RepoAnalysis F) : pyval :=
  let config : pydict * list pyval := ([], []) in
  let config :=
    if primary_is analysis "python" then
      circleci_add (_python_circleci_jobs analysis) config
    else if primary_is analysis "javascript" then
      circleci_add (_javascript_circleci_jobs analysis) config
    else if primary_is analysis "go" then
      circleci_add (_go_circleci_jobs analysis) config
    else config in
  PDict [("version", PFloat 2.1);
         ("jobs", PDict (fst config));
         ("workflows", PDict
            [("version", PInt 2);
             ("build_and_test", PDict [("jobs", PList (snd config))])])].

Definition CircleCIGenerator_generate (analysis : RepoAnalysis F)
  (options : pyval) : result string :=
  Ok (yaml_dump (circleci_config analysis)).

End Generators.

(* ------------------------------------------------------------------ *)
(** * The rules engine and the optimizer (lines 1055-1193) *)

(** [RulesEngine._load_rules]: the tables that [apply_optimizations]
    reads, and the dict that holds them *)
Definition caching_rules : pydict :=
  [("python", PDict [("pip", PStr "~/.cache/pip");
                     ("poetry", PStr "~/.cache/pypoetry")]);
   ("javascript", PDict [("npm", PStr "~/.npm");
                         ("yarn", PStr "~/.cache/yarn")]);
   ("go", PStr "~/go/pkg/mod");
   ("java", PDict [("maven", PStr "~/.m2");
                   ("gradle", PStr "~/.gradle/caches")])].

Definition lint_and_test : list string := ["python"; "javascript"; "go"].

Definition secret_scanning : list string :=
  ["python"; "javascript"; "go"; "java"].

Definition dependency_check : list (string * list string) :=
  [("python", ["safety"; "bandit"]);
   ("javascript", ["npm audit"; "snyk"]);
   ("java", ["owasp dependency check"]);
   ("go", ["gosec"])].

Definition _load_rules : pyval :=
  PDict
    [("optimization_rules", PDict
        [("caching", PDict caching_rules);
         ("parallel_jobs", PDict
            [("lint_and_test", PList (map PStr lint_and_test));
             ("multi_version", PList [PStr "python"; PStr "javascript";
                                      PStr "java"])])]);
     ("security_rules", PDict
        [("secret_scanning", PList (map PStr secret_scanning));
         ("dependency_check", PDict
            (map (fun kv => (fst kv, PList (map PStr (snd kv))))
                 dependency_check))]);
     ("deployment_rules", PDict
        [("docker", PDict
            [("trigger", PList [PStr "Dockerfile"]);
             ("registries", PList [PStr "dockerhub"; PStr "ghcr"; PStr "ecr"])]);
         ("kubernetes", PDict
            [("trigger", PList [PStr "k8s"; PStr "kubernetes"]);
             ("manifest_check", PBool true)])])].

Section RulesEngine.

Context {F : Type}.

(** [str.lower] *)
Variable str_lower : string -> string.

(** [RulesEngine.apply_optimizations] *)
Definition apply_optimizations (analysis : RepoAnalysis F)
  (generator_type : string) : pyval :=
  let caching : pydict :=
    match primary_language analysis with
    | Some language =>
        match dict_get language caching_rules with
        | Some (PDict cache_config) =>
            fold_left
              (fun caching tech =>
                 match dict_get (str_lower (name tech)) cache_config with
                 | Some path => dict_set (name tech) path caching
                 | None => caching
                 end)
              (package_managers analysis) []
        | Some cache_config => dict_set language cache_config []
        | None => []
        end
    | None => []
    end in
  let primary_in (l : list string) : bool :=
    match primary_language analysis with
    | Some language => mem_string language l
    | None => false
    end in
  let parallel_jobs := primary_in lint_and_test in
  let security_scans : list string :=
    if primary_in secret_scanning then ["secret_scanning"] else [] in
  let security_scans :=
    match primary_language analysis with
    | Some language =>
        match lookup_string language dependency_check with
        | Some checks => security_scans ++ checks
        | None => security_scans
        end
    | None => security_scans
    end in
  let deployment : pydict := [] in
  let deployment :=
    if any_named "docker" (containers analysis)
    then dict_set "docker" (PBool true) deployment else deployment in
  let deployment :=
    if any_named "kubernetes" (containers analysis)
    then dict_set "kubernetes" (PBool true) deployment else deployment in
  PDict [("caching", PDict caching);
         ("parallel_jobs", PBool parallel_jobs);
         ("security_scans", PList (map PStr security_scans));
         ("deployment", PDict deployment)].

(** [PipelineOptimizer]: the four strategies, in the order of the dict
    [optimization_strategies] *)
Definition _optimize_caching (pipeline : string) (analysis : RepoAnalysis F)
  (ci_type : string) : result string := Ok pipeline.

Definition _optimize_parallelization (pipeline : string)
  (analysis : RepoAnalysis F) (ci_type : string) : result string := Ok pipeline.

Definition _optimize_resources (pipeline : string) (analysis : RepoAnalysis F)
  (ci_type : string) : result string := Ok pipeline.

Definition _optimize_security (pipeline : string) (analysis : RepoAnalysis F)
  (ci_type : string) : result string := Ok pipeline.

Definition optimization_strategies
  : list (string * (string -> RepoAnalysis F -> string -> result string)) :=
  [("caching", _optimize_caching);
   ("parallelization", _optimize_parallelization);
   ("resource_allocation", _optimize_resources);
   ("security", _optimize_security)].

(** [PipelineOptimizer.optimize]: a strategy that raises is logged and
    skipped *)
Definition optimize (pipeline_content : string) (analysis : RepoAnalysis F)
  (ci_type : string) : string :=
  fold_left
    (fun optimized_pipeline strategy =>
       match snd strategy optimized_pipeline analysis ci_type with
       | Ok p => p
       | Raise _ => optimized_pipeline
       end)
    optimization_strategies pipeline_content.

End RulesEngine.

(* ------------------------------------------------------------------ *)
(** * [AutoCI] (lines 1200-1289) *)

(** [repr] of a list of strings that hold no quote and no escape *)
Definition repr_list (l : list string) : string :=
  ("[" ++ String.concat ", " (map (fun s => "'" ++ s ++ "'") l) ++ "]")%string.

Section AutoCI.

Variable yaml_dump : pyval -> string.
Variable str_lower : string -> string.

(** [self.generators] *)
Definition generators
  : list (string * (RepoAnalysis float -> pyval -> result string)) :=
  [("github", GitHubActionsGenerator_generate yaml_dump);
   ("gitlab", GitLabCIGenerator_generate yaml_dump);
   ("circleci", CircleCIGenerator_generate yaml_dump)].

Fixpoint lookup_generator (ci_type : string)
  (gs : list (string * (RepoAnalysis float -> pyval -> result string)))
  : option (RepoAnalysis float -> pyval -> result string) :=
  match gs with
  | [] => None
  | (k, g) :: gs' => if String.eqb k ci_type then Some g
                     else lookup_generator ci_type gs'
  end.

(** [AutoCI.scan] *)
Definition AutoCI_scan (fs : filesystem) (repo_path : string)
  : result (RepoAnalysis float) :=
  scan_repository detection_rules fs repo_path.

(** [AutoCI.generate_pipeline] *)
Definition generate_pipeline (fs : filesystem) (repo_path ci_type : string)
  (optimize_flag : bool) : result (string * RepoAnalysis float) :=
  analysis <- AutoCI_scan fs repo_path ;;
  let options := apply_optimizations str_lower analysis ci_type in
  match lookup_generator ci_type generators with
  | None =>
      Raise (ValueError ("Unsupported CI type: " ++ ci_type ++ ". Supported: "
                         ++ repr_list (map fst generators))%string)
  | Some generator =>
      pipeline_content <- generator analysis options ;;
      let pipeline_content :=
        if optimize_flag then optimize pipeline_content analysis ci_type
        else pipeline_content in
      Ok (pipeline_content, analysis)
  end.

(** [AutoCI._generate_recommendations] *)
Definition _generate_recommendations (analysis : RepoAnalysis float)
  : list string :=
  let recommendations : list string := [] in
  let recommendations :=
    match test_tools analysis with
    | [] =>
        if primary_is analysis "python" then
          recommendations ++ ["Consider adding pytest for testing"]
        else if primary_is analysis "javascript" then
          recommendations ++ ["Consider adding Jest or Mocha for testing"]
        else if primary_is analysis "java" then
          recommendations ++ ["Consider adding JUnit for testing"]
        else recommendations
    | _ => recommendations
    end in
  let recommendations :=
    if primary_is analysis "python" then
      if negb (existsb (fun tech => mem_string (name tech)
                                      ["black"; "flake8"; "pylint"])
                       (build_tools analysis))
      then recommendations
           ++ ["Consider adding code formatting tools like Black and linting with flake8"]
      else recommendations
    else recommendations in
  let recommendations :=
    match containers analysis with
    | [] => recommendations
            ++ ["Consider containerizing your application with Docker"]
    | _ => recommendations
    end in
  match package_managers analysis with
  | [] => recommendations
          ++ ["Consider using a package manager for dependency management"]
  | _ => recommendations
  end.

End AutoCI.

(* ------------------------------------------------------------------ *)
(** * [GitHubIntegration._parse_github_url] (lines 1864-1882)

    The two patterns use more of Python's [re] syntax than the catalog:
    capturing and non-capturing groups, negated bracket classes, and the
    quantifiers [+], [+?] and [?].  They are parsed from the source's
    pattern strings and run by a backtracking matcher that tries the
    alternatives in the order of [re]: a greedy quantifier the longest
    repetition first, a lazy one the shortest first, [?] the present
    branch first. *)

(** one character: a literal, or a negated bracket class *)
Inductive cset :=
| CLit (c : ascii)
| CNoneOf (cs : list ascii).

Inductive regex :=
| REmpty
| RChar (a : cset)
| RCat (r1 r2 : regex)
| RPlus (a : cset) (lazy : bool)      (* [a+] and [a+?] *)
| ROpt (r : regex)                    (* [r?] *)
| RCapture (n : nat) (r : regex).     (* the [n]-th capturing group *)

(** the body of a negated bracket class, up to the closing bracket *)
Fixpoint parse_negated_class (s : list ascii) (acc : list ascii)
  : option (list ascii * list ascii) :=
  match s with
  | [] => None
  | c :: s' =>
      if Ascii.eqb c "]" then
        match acc with [] => None | _ => Some (rev acc, s') end
      else if Ascii.eqb c "\" || Ascii.eqb c "-" || Ascii.eqb c "[" then None
      else parse_negated_class s' (c :: acc)
  end.

(** a quantifier after a one-character atom *)
Definition quantified_char (a : cset) (s : list ascii)
  : option (regex * list ascii) :=
  match s with
  | q :: s' =>
      if Ascii.eqb q "+" then
        match s' with
        | l :: s'' =>
            if Ascii.eqb l "?" then Some (RPlus a true, s'')
            else if Ascii.eqb l "+" || Ascii.eqb l "*" || Ascii.eqb l "{"
            then None
            else Some (RPlus a false, s')
        | [] => Some (RPlus a false, s')
        end
      else if Ascii.eqb q "?" then
        match s' with
        | l :: _ =>
            if Ascii.eqb l "?" || Ascii.eqb l "+" || Ascii.eqb l "*"
               || Ascii.eqb l "{"
            then None
            else Some (ROpt (RChar a), s')
        | [] => Some (ROpt (RChar a), s')
        end
      else if Ascii.eqb q "*" || Ascii.eqb q "{" then None
      else Some (RChar a, s)
  | [] => Some (RChar a, s)
  end.

(** a quantifier after a group: only [?] *)
Definition quantified_group (r : regex) (s : list ascii)
  : option (regex * list ascii) :=
  match s with
  | q :: s' =>
      if Ascii.eqb q "?" then
        match s' with
        | l :: _ =>
            if Ascii.eqb l "?" || Ascii.eqb l "+" || Ascii.eqb l "*"
               || Ascii.eqb l "{"
            then None
            else Some (ROpt r, s')
        | [] => Some (ROpt r, s')
        end
      else if Ascii.eqb q "+" || Ascii.eqb q "*" || Ascii.eqb q "{" then None
      else Some (r, s)
  | [] => Some (r, s)
  end.

(** a sequence, up to the end of the pattern or to a closing parenthesis;
    [n] counts the capturing groups opened so far *)
Fixpoint parse_sequence (fuel : nat) (s : list ascii) (n : nat)
  : option (regex * list ascii * nat) :=
  match fuel with
  | O => None
  | S fuel' =>
      let continue (piece : option (regex * list ascii)) (n : nat) :=
        match piece with
        | Some (r, rest) =>
            match parse_sequence fuel' rest n with
            | Some (r', rest', n') => Some (RCat r r', rest', n')
            | None => None
            end
        | None => None
        end in
      match s with
      | [] => Some (REmpty, [], n)
      | c :: s' =>
          if Ascii.eqb c ")" then Some (REmpty, s, n)
          else if Ascii.eqb c "(" then
            match s' with
            | "?"%char :: ":"%char :: s'' =>
                match parse_sequence fuel' s'' n with
                | Some (r, ")"%char :: rest, n') =>
                    continue (quantified_group r rest) n'
                | _ => None
                end
            | "?"%char :: _ => None
            | _ =>
                match parse_sequence fuel' s' (S n) with
                | Some (r, ")"%char :: rest, n') =>
                    continue (quantified_group (RCapture (S n) r) rest) n'
                | _ => None
                end
            end
          else if Ascii.eqb c "\" then
            match s' with
            | e :: s'' =>
                if is_alnum e then None
                else continue (quantified_char (CLit e) s'') n
            | [] => None
            end
          else if Ascii.eqb c "[" then
            match s' with
            | "^"%char :: s'' =>
                match parse_negated_class s'' [] with
                | Some (cs, rest) => continue (quantified_char (CNoneOf cs) rest) n
                | None => None
                end
            | _ => None
            end
          else if existsb (Ascii.eqb c) (chars "^$.+?{}|*]") then None
          else continue (quantified_char (CLit c) s') n
      end
  end.

Definition parse_regex (pattern : string) : option regex :=
  match parse_sequence (S (String.length pattern)) (chars pattern) 0 with
  | Some (r, [], _) => Some r
  | _ => None
  end.

(** A Python [str] is a sequence of Unicode code points.  The patterns
    are literals of the source, all ASCII; the URL is any [str]. *)
Definition codepoint : Type := N.
Definition text : Type := list codepoint.

Definition code (c : ascii) : codepoint := N_of_ascii c.

(** the [str] of an ASCII literal *)
Definition text_of (s : string) : text := map code (chars s).

Definition cset_match (a : cset) (c : codepoint) : bool :=
  match a with
  | CLit d => N.eqb (code d) c
  | CNoneOf cs => negb (existsb (fun d => N.eqb (code d) c) cs)
  end.

Definition or_else {X} (first second : option X) : option X :=
  match first with
  | Some x => Some x
  | None => second
  end.

(** one or more characters of [a], then the rest of the match [k] *)
Fixpoint plus_loop {X} (a : cset) (lazy : bool) (k : text -> option X)
  (s : text) : option X :=
  match s with
  | [] => None
  | c :: s' =>
      if cset_match a c then
        if lazy then or_else (k s') (plus_loop a lazy k s')
        else or_else (plus_loop a lazy k s') (k s')
      else None
  end.

(** the text of the groups that took part in the match *)
Definition groups : Type := list (nat * text).

(** what a match consumed, from the subject [s] to the rest [s'] *)
Definition consumed (s s' : text) : text :=
  firstn (List.length s - List.length s') s.

(** a match of [r] at the head of [s], then the rest of the match [k] *)
Fixpoint run {X} (r : regex) (k : text -> groups -> option X)
  (s : text) (g : groups) : option X :=
  match r with
  | REmpty => k s g
  | RChar a =>
      match s with
      | c :: s' => if cset_match a c then k s' g else None
      | [] => None
      end
  | RCat r1 r2 => run r1 (fun s' g' => run r2 k s' g') s g
  | RPlus a lazy => plus_loop a lazy (fun s' => k s' g) s
  | ROpt r' => or_else (run r' k s g) (k s g)
  | RCapture n r' => run r' (fun s' g' => k s' ((n, consumed s s') :: g')) s g
  end.

(** [re.match(pattern, subject)]: a match at the start of the subject,
    which need not reach its end *)
Definition re_match (pattern : string) (subject : text) : option groups :=
  match parse_regex pattern with
  | Some r => run r (fun _ g => Some g) subject []
  | None => None
  end.

(** [match.group(n)]: the text of the group, [None] for a group that took
    no part in the match *)
Fixpoint group (m : groups) (n : nat) : option text :=
  match m with
  | [] => None
  | (i, t) :: m' => if Nat.eqb i n then Some t else group m' n
  end.

(** [str.isspace] of one character: the white space of Unicode 14, the
    version of Python 3.11 *)
Definition is_space (c : codepoint) : bool :=
  ((0x09 <=? c) && (c <=? 0x0D) || (0x1C <=? c) && (c <=? 0x20)
   || (c =? 0x85) || (c =? 0xA0) || (c =? 0x1680)
   || (0x2000 <=? c) && (c <=? 0x200A)
   || (c =? 0x2028) || (c =? 0x2029) || (c =? 0x202F) || (c =? 0x205F)
   || (c =? 0x3000))%N.

Fixpoint lstrip (s : text) : text :=
  match s with
  | c :: s' => if is_space c then lstrip s' else s
  | [] => []
  end.

(** [str.strip()] *)
Definition str_strip (s : text) : text := rev (lstrip (rev (lstrip s))).

Definition github_url_patterns : list string :=
  ["https://github\.com/([^/]+)/([^/]+?)(?:\.git)?/?";
   "git@github\.com:([^/]+)/([^/]+?)(?:\.git)?/?"].

(** the dict that [_parse_github_url] returns: a [str] or [None] under
    each key *)
Definition repo_info : Type := list (string * option text).

(** [GitHubIntegration._parse_github_url] *)
Definition _parse_github_url (url : text) : option repo_info :=
  (fix loop (patterns : list string) : option repo_info :=
     match patterns with
     | [] => None
     | pattern :: patterns' =>
         match re_match pattern (str_strip url) with
         | Some m =>
             Some [("owner", group m 1); ("repo", group m 2);
                   ("url", Some url)]
         | None => loop patterns'
         end
     end) github_url_patterns.


(** ** Vocabulary of the properties of [_parse_github_url] *)

(** the pattern of the literal characters [p], then [r] *)
Definition literals (p : list ascii) (r : regex) : regex :=
  fold_right (fun c r' => RCat (RChar (CLit c)) r') r p.

Definition not_slash : cset := CNoneOf ["/"%char].

Definition slash : codepoint := code "/".

(** [(?:\.git)?/?] *)
Definition optional_suffix : regex :=
  RCat (ROpt (literals (chars ".git") REmpty))
       (RCat (ROpt (RChar (CLit "/"))) REmpty).

(** [([^/]+?)(?:\.git)?/?] *)
Definition repo_part : regex :=
  RCat (RCapture 2 (RCat (RPlus not_slash true) REmpty)) optional_suffix.

(** [([^/]+)/([^/]+?)(?:\.git)?/?] *)
Definition owner_repo : regex :=
  RCat (RCapture 1 (RCat (RPlus not_slash false) REmpty))
       (RCat (RChar (CLit "/")) repo_part).

Fixpoint capture_free (r : regex) : bool :=
  match r with
  | REmpty | RChar _ | RPlus _ _ => true
  | RCat r1 r2 => capture_free r1 && capture_free r2
  | ROpt r' => capture_free r'
  | RCapture _ _ => false
  end.

(** [s] without its prefix [p] *)
Fixpoint skip (p : list ascii) (s : text) : option text :=
  match p, s with
  | [], _ => Some s
  | c :: p', d :: s' => if N.eqb (code c) d then skip p' s' else None
  | _ :: _, [] => None
  end.

(** the end of a match *)
Definition accept : text -> groups -> option groups :=
  fun _ g => Some g.

Definition slash_free (s : text) : Prop := ~ In slash s.

(** white space at neither end *)
Definition stripped (s : text) : Prop :=
  match s with [] => True | c :: _ => is_space c = false end /\
  match rev s with [] => True | c :: _ => is_space c = false end.

(* ------------------------------------------------------------------ *)
(** * Vocabulary of binary64 rounding

    What [binary_round] of the Standard Library's [SpecFloat] does to a
    mantissa, in words of its own. *)
Section Binary64Vocabulary.

Local Unset Implicit Arguments.
Local Open Scope Z_scope.

(** the number of binary digits of a mantissa *)
Definition digits (m : positive) : Z := Zpos (digits2_pos m).

(** a state of the right shift: mantissa, round bit and sticky bit *)
Definition state (m : Z) (r s : bool) : shr_record :=
  {| shr_m := m; shr_r := r; shr_s := s |}.

(** the order of two such states, as the numbers they stand for *)
Definition rs_le (r s r' s' : bool) : Prop :=
  (r = false /\ r' = true) \/ (r = r' /\ (s = false \/ s' = true)).

Definition state_le (a b : shr_record) : Prop :=
  0 <= shr_m a /\
  (shr_m a < shr_m b \/
   (shr_m a = shr_m b /\ rs_le (shr_r a) (shr_s a) (shr_r b) (shr_s b))).

(** rounding a state to nearest, ties to even *)
Definition round_state (mrs : shr_record) : Z :=
  round_nearest_even (shr_m mrs) (loc_of_shr_record mrs).

(** the exponent of the format for a number of the given magnitude *)
Definition fexp64 (z : Z) : Z := fexp prec emax z.

(** the float of a mantissa that is not negative and an exponent *)
Definition of_mant (z e : Z) : spec_float :=
  match z with
  | Z0 => S754_zero false
  | Zpos m => if e <=? emax - prec then S754_finite false m e
              else S754_infinity false
  | Zneg _ => S754_nan
  end.

(** the last step of [binary_round_aux] on a rounded mantissa *)
Definition finish (q E : Z) : spec_float :=
  let '(mrs, e) := shr_fexp prec emax q E loc_Exact in of_mant (shr_m mrs) e.

(** a mantissa brought to the exponent [E], shifted left or right *)
Definition aligned (m : positive) (e E : Z) : shr_record :=
  if E <=? e then state (Zpos m * 2 ^ (e - E)) false false
  else iter_pos shr_1 (Z.to_pos (E - e)) (state (Zpos m) false false).

(** rounding of the number [m * 2 ^ e] *)
Definition round64 (m : positive) (e : Z) : spec_float :=
  binary_round prec emax false m e.

(** the mantissa of [M * 2 ^ e] at the exponent [c <= e], and the order of
    the values of two numbers *)
Definition scaled (M e c : Z) : Z := M * 2 ^ (e - c).

Definition value_le (M e M' e' : Z) : Prop :=
  scaled M e (Z.min e e') <= scaled M' e' (Z.min e e').

(** floats that are not negative, and floats of the format *)
Definition not_negative (x : spec_float) : Prop := SFleb (S754_zero false) x = true.

Definition valid (x : spec_float) : Prop := valid_binary x = true.

Inductive not_negative_view : spec_float -> Prop :=
| not_negative_zero s : not_negative_view (S754_zero s)
| not_negative_inf : not_negative_view (S754_infinity false)
| not_negative_fin m e : not_negative_view (S754_finite false m e).

(** [of_uint63] on the value of a machine integer *)
Definition of_int (z : Z) : spec_float := binary_normalize prec emax z 0 false.

End Binary64Vocabulary.

(* ------------------------------------------------------------------ *)
(** * The laws of the two arithmetics *)

(** ** The order of [spec_float] *)
Section SpecFloatOrder.

Lemma SFcompare_antisym (x y : spec_float) (c : comparison) :
  SFcompare x y = Some c -> SFcompare y x = Some (CompOpp c).
Proof.
  destruct x as [sx|sx| |sx mx ex], y as [sy|sy| |sy my ey]; simpl;
    try discriminate;
    try (destruct sx; try destruct sy; intros E; inversion E; reflexivity);
    try (destruct sy; intros E; inversion E; reflexivity).
  change (Pos.compare_cont Eq mx my) with (Pos.compare mx my).
  change (Pos.compare_cont Eq my mx) with (Pos.compare my mx).
  rewrite (Z.compare_antisym ex ey), (Pos.compare_antisym mx my).
  destruct sx, sy; intros E; inversion E; clear E;
    destruct (ex ?= ey)%Z, (mx ?= my)%positive; reflexivity.
Qed.

Lemma SFcompare_refl (x : spec_float) (c : comparison) :
  SFcompare x x = Some c -> c = Eq.
Proof.
  destruct x as [s|s| |s m e]; simpl; try discriminate.
  - intros E; inversion E; reflexivity.
  - destruct s; intros E; inversion E; reflexivity.
  - change (Pos.compare_cont Eq m m) with (Pos.compare m m).
    rewrite Z.compare_refl, Pos.compare_refl.
    destruct s; intros E; inversion E; reflexivity.
Qed.

Lemma SFcompare_defined (x y : spec_float) (c : comparison) :
  SFcompare x y = Some c -> SFcompare x x = Some Eq /\ SFcompare y y = Some Eq.
Proof.
  intros E.
  assert (Hx : x <> S754_nan) by (intros ->; discriminate).
  assert (Hy : y <> S754_nan) by (intros ->; destruct x; discriminate).
  clear E. split.
  - destruct x as [s|s| |s m e]; simpl; try congruence.
    + destruct s; reflexivity.
    + change (Pos.compare_cont Eq m m) with (Pos.compare m m).
      rewrite Z.compare_refl, Pos.compare_refl. destruct s; reflexivity.
  - destruct y as [s|s| |s m e]; simpl; try congruence.
    + destruct s; reflexivity.
    + change (Pos.compare_cont Eq m m) with (Pos.compare m m).
      rewrite Z.compare_refl, Pos.compare_refl. destruct s; reflexivity.
Qed.

Lemma SFleb_trans (x y z : spec_float) :
  SFleb x y = true -> SFleb y z = true -> SFleb x z = true.
Proof.
  unfold SFleb.
  destruct x as [sx|sx| |sx mx ex], y as [sy|sy| |sy my ey],
           z as [sz|sz| |sz mz ez]; simpl; try discriminate; try reflexivity;
    try (destruct sx; try discriminate; try reflexivity);
    try (destruct sy; try discriminate; try reflexivity);
    try (destruct sz; try discriminate; try reflexivity);
    change (Pos.compare_cont Eq) with Pos.compare;
    repeat match goal with
      | |- context [(?a ?= ?b)%Z] => destruct (Z.compare_spec a b)
      | |- context [(?a ?= ?b)%positive] => destruct (Pos.compare_spec a b)
      end; simpl; try discriminate; try reflexivity; intros _ _; exfalso; lia.
Qed.

End SpecFloatOrder.

#[export] Instance PyFloat_order : ScoreOrder float.
Proof.
  split; simpl; intros *.
  - rewrite ltb_spec, !leb_spec. unfold SFltb, SFleb.
    destruct (SFcompare (Prim2SF x) (Prim2SF y)) as [c|] eqn:E; [|discriminate].
    destruct (SFcompare_defined _ _ E) as [-> ->]. auto.
  - rewrite !leb_spec. unfold SFleb.
    destruct (SFcompare (Prim2SF x) (Prim2SF y)) as [c|] eqn:E; [|discriminate].
    destruct (SFcompare_defined _ _ E) as [-> ->]. auto.
  - rewrite ltb_spec, leb_spec. unfold SFltb, SFleb.
    destruct (SFcompare (Prim2SF x) (Prim2SF y)) as [[]|]; congruence.
  - rewrite ltb_spec, leb_spec. unfold SFltb, SFleb.
    destruct (SFcompare (Prim2SF x) (Prim2SF y)) as [c|] eqn:E; [|discriminate].
    rewrite (SFcompare_antisym _ _ E). destruct c; simpl; congruence.
  - rewrite ltb_spec, !leb_spec. unfold SFltb, SFleb.
    destruct (SFcompare (Prim2SF x) (Prim2SF y)) as [c|] eqn:E.
    + rewrite (SFcompare_antisym _ _ E). destruct c; simpl; congruence.
    + intros Hx Hy _. exfalso.
      destruct (Prim2SF x) as [| | |]; destruct (Prim2SF y) as [| | |];
        simpl in *; discriminate.
  - rewrite !leb_spec. apply SFleb_trans.
  - rewrite eqb_spec, !leb_spec. unfold SFeqb, SFleb.
    destruct (SFcompare (Prim2SF x) (Prim2SF y)) as [c|] eqn:E.
    + rewrite (SFcompare_antisym _ _ E). destruct c; reflexivity.
    + reflexivity.
  - reflexivity.
Qed.

#[export] Instance ExactQ_order : ScoreOrder Q.
Proof.
  split; simpl; intros *.
  - intros _. split; apply Qle_bool_iff, Qle_refl.
  - intros _. split; apply Qle_bool_iff, Qle_refl.
  - rewrite negb_true_iff. intros E. apply Qle_bool_iff.
    apply Qlt_le_weak, Qnot_le_lt. intros L.
    apply Qle_bool_iff in L. congruence.
  - intros L. rewrite L. reflexivity.
  - intros _ _. rewrite negb_false_iff. trivial.
  - rewrite !Qle_bool_iff. apply Qle_trans.
  - destruct (Qeq_bool x y) eqn:E.
    + apply Qeq_bool_iff in E. symmetry. apply andb_true_iff.
      split; apply Qle_bool_iff; rewrite E; apply Qle_refl.
    + symmetry. apply andb_false_iff.
      destruct (Qle_bool x y) eqn:L1; [|auto].
      destruct (Qle_bool y x) eqn:L2; [|auto].
      apply Qle_bool_iff in L1, L2.
      assert (Q : (x == y)%Q) by (apply Qle_antisym; assumption).
      apply Qeq_bool_iff in Q. congruence.
  - reflexivity.
Qed.

#[export] Instance ExactQ_arith : ScoreArith Q.
Proof.
  split; simpl; intros *.
  - rewrite !Qle_bool_iff. intros _ H1 _ H2. apply Qplus_le_compat; assumption.
  - intros _. apply Qle_bool_iff. rewrite Qplus_0_l. apply Qle_refl.
  - intros _. apply Qle_bool_iff. rewrite Qplus_0_r. apply Qle_refl.
  - intros _. reflexivity.
  - intros _ Hnm. apply Qle_bool_iff. apply Qmult_le_l; [reflexivity|].
    rewrite <- Zle_Qle. lia.
  - intros _. apply Qle_bool_iff. apply Qmult_le_0_compat.
    + discriminate.
    + change 0%Q with (inject_Z 0). rewrite <- Zle_Qle. lia.
Qed.

(* ------------------------------------------------------------------ *)
(** * Rounding to nearest in binary64 is monotone

    [binary_round] of the Standard Library's [SpecFloat], which specifies
    the primitive floats, keeps the order of the values it rounds.  From
    this, sums of scores that are not negative and products of such a
    score by a literal keep the order of their operands. *)
Section Binary64.

Local Unset Implicit Arguments.
Local Open Scope Z_scope.

Lemma digits2_size m : digits2_pos m = Pos.size m.
Proof. induction m; simpl; congruence. Qed.

Lemma digits_bounds m : 2 ^ (digits m - 1) <= Zpos m < 2 ^ digits m.
Proof.
  unfold digits. rewrite digits2_size.
  pose proof (Pos.size_gt m) as H1. pose proof (Pos.size_le m) as H2.
  assert (E1 : Zpos (2 ^ Pos.size m) = 2 ^ Zpos (Pos.size m))
    by (rewrite Pos2Z.inj_pow; reflexivity).
  assert (H1' : Zpos m < Zpos (2 ^ Pos.size m)) by lia.
  assert (H2' : Zpos (2 ^ Pos.size m) <= 2 * Zpos m) by lia.
  rewrite E1 in H1', H2'.
  replace (2 ^ Z.pos (Pos.size m)) with (2 * 2 ^ (Z.pos (Pos.size m) - 1)) in H2'.
  - lia.
  - rewrite <- Z.pow_succ_r by lia. f_equal. lia.
Qed.

Lemma digits_pos m : 0 < digits m.
Proof. unfold digits. lia. Qed.

Lemma digits_unique m k : 2 ^ (k - 1) <= Zpos m < 2 ^ k -> digits m = k.
Proof.
  intros [H1 H2]. pose proof (digits_bounds m) as [B1 B2]. pose proof (digits_pos m).
  assert (0 < k).
  { destruct (Z.ltb_spec 0 k) as [|L]; [assumption|exfalso].
    destruct (Z.eq_dec k 0) as [->|N]; [simpl in H2; lia|].
    rewrite (Z.pow_neg_r 2 k) in H2 by lia. lia. }
  assert (digits m - 1 < k) by (apply (Z.pow_lt_mono_r_iff 2); lia).
  assert (k - 1 < digits m) by (apply (Z.pow_lt_mono_r_iff 2); lia).
  lia.
Qed.

Lemma digits_mono m m' : (m <= m')%positive -> digits m <= digits m'.
Proof.
  intros H. pose proof (digits_bounds m) as [B1 _].
  pose proof (digits_bounds m') as [_ B2].
  pose proof (digits_pos m'). 
  assert (digits m - 1 < digits m') by (apply (Z.pow_lt_mono_r_iff 2); lia).
  lia.
Qed.

Lemma iter_xO_mul m k : Zpos (Pos.iter xO m k) = Zpos m * 2 ^ Zpos k.
Proof.
  rewrite Pos2Nat.inj_iter. rewrite <- (positive_nat_Z k).
  induction (Pos.to_nat k) as [|n IH]; simpl nat_rect.
  - simpl. lia.
  - rewrite Nat2Z.inj_succ. rewrite Z.pow_succ_r by apply Nat2Z.is_nonneg.
    rewrite Pos2Z.inj_xO, IH. lia.
Qed.

Lemma digits_shift m k : digits (Pos.iter xO m k) = digits m + Zpos k.
Proof.
  apply digits_unique. rewrite iter_xO_mul. pose proof (digits_bounds m) as [B1 B2].
  pose proof (digits_pos m).
  replace (digits m + Zpos k - 1) with ((digits m - 1) + Zpos k) by lia.
  rewrite !Z.pow_add_r by lia.
  assert (0 < 2 ^ Zpos k) by (apply Z.pow_pos_nonneg; lia). nia.
Qed.

(** shifting *)
Lemma iter_pos_nat {A} (f : A -> A) p x :
  iter_pos f p x = Nat.iter (Pos.to_nat p) f x.
Proof.
  revert x. induction p as [p IH|p IH|]; intros x; simpl iter_pos.
  - rewrite !IH, Pos2Nat.inj_xI. simpl Nat.mul. rewrite Nat.add_0_r.
    rewrite Nat.iter_succ_r, Nat.iter_add. reflexivity.
  - rewrite !IH, Pos2Nat.inj_xO. simpl Nat.mul. rewrite Nat.add_0_r.
    rewrite Nat.iter_add. reflexivity.
  - reflexivity.
Qed.

Lemma shr_1_nonneg m r s :
  0 <= m -> shr_1 (state m r s) = state (m / 2) (Z.odd m) (r || s).
Proof.
  intros H. rewrite <- Z.div2_div. unfold state, shr_1.
  destruct m as [|[p|p|]|p]; try reflexivity; lia.
Qed.

Lemma shr_1_m mrs : 0 <= shr_m mrs -> shr_m (shr_1 mrs) = shr_m mrs / 2.
Proof. destruct mrs as [m r s]. intros H. simpl in H. 
  change (Build_shr_record m r s) with (state m r s).
  rewrite shr_1_nonneg by assumption. reflexivity.
Qed.

Lemma shr_n_m n mrs :
  0 <= shr_m mrs ->
  shr_m (Nat.iter n shr_1 mrs) = shr_m mrs / 2 ^ Z.of_nat n /\
  0 <= shr_m (Nat.iter n shr_1 mrs).
Proof.
  intros H. induction n as [|n [IH IH0]].
  - simpl. rewrite Z.div_1_r. auto.
  - rewrite Nat.iter_succ, shr_1_m by assumption. rewrite IH.
    rewrite Nat2Z.inj_succ, Z.pow_succ_r by lia.
    rewrite Z.div_div by (try apply Z.pow_pos_nonneg; lia).
    split; [f_equal; lia|].
    apply Z.div_pos; [assumption|]. 
    assert (0 < 2 ^ Z.of_nat n) by (apply Z.pow_pos_nonneg; lia). lia.
Qed.

Lemma shr_pos_m p mrs :
  0 <= shr_m mrs -> shr_m (iter_pos shr_1 p mrs) = shr_m mrs / 2 ^ Zpos p.
Proof.
  intros H. rewrite iter_pos_nat. rewrite (proj1 (shr_n_m _ mrs H)).
  rewrite positive_nat_Z. reflexivity.
Qed.

(** exact shifts *)
Lemma shr_1_even y : 0 < y -> shr_1 (state (2 * y) false false) = state y false false.
Proof. destruct y; try lia. intros _. reflexivity. Qed.

Lemma shr_n_exact n x :
  0 < x ->
  Nat.iter n shr_1 (state (x * 2 ^ Z.of_nat n) false false)
  = state x false false.
Proof.
  intros H. induction n as [|n IH].
  - simpl. f_equal. lia.
  - rewrite Nat.iter_succ_r. rewrite Nat2Z.inj_succ, Z.pow_succ_r by lia.
    replace (x * (2 * 2 ^ Z.of_nat n)) with (2 * (x * 2 ^ Z.of_nat n)) by lia.
    rewrite shr_1_even; [exact IH|].
    assert (0 < 2 ^ Z.of_nat n) by (apply Z.pow_pos_nonneg; lia). nia.
Qed.

Lemma shr_pos_exact p x :
  0 < x -> iter_pos shr_1 p (state (x * 2 ^ Zpos p) false false) = state x false false.
Proof.
  intros H. rewrite iter_pos_nat. rewrite <- (positive_nat_Z p).
  apply shr_n_exact, H.
Qed.

Lemma iter_pos_add {A} (f : A -> A) p q x :
  iter_pos f (p + q) x = iter_pos f p (iter_pos f q x).
Proof. rewrite !iter_pos_nat, Pos2Nat.inj_add, Nat.iter_add. reflexivity. Qed.

(** the order of the shifted states *)
Lemma shr_1_mono a b : state_le a b -> state_le (shr_1 a) (shr_1 b).
Proof.
  destruct a as [m r s], b as [m' r' s']. intros [H0 H]. simpl in H0, H.
  assert (H0' : 0 <= m') by (destruct H as [?|[? _]]; lia).
  change (Build_shr_record m r s) with (state m r s).
  change (Build_shr_record m' r' s') with (state m' r' s').
  rewrite !shr_1_nonneg by assumption. unfold state_le, state. simpl.
  split; [apply Z.div_pos; lia|].
  destruct H as [H|[-> H]].
  - assert (L : m / 2 <= m' / 2) by (apply Z.div_le_mono; lia).
    destruct (Z.eq_dec (m / 2) (m' / 2)) as [E|N]; [|left; lia].
    right. split; [exact E|].
    pose proof (Z.div_mod m 2). pose proof (Z.div_mod m' 2).
    pose proof (Z.mod_pos_bound m 2). pose proof (Z.mod_pos_bound m' 2).
    rewrite !Zodd_mod.
    assert (m mod 2 = 0 /\ m' mod 2 = 1) as [-> ->] by lia.
    left. split; reflexivity.
  - right. split; [reflexivity|]. right. split; [reflexivity|].
    unfold rs_le in H. destruct r, s, r', s'; simpl; intuition congruence.
Qed.

Lemma shr_n_mono n a b :
  state_le a b -> state_le (Nat.iter n shr_1 a) (Nat.iter n shr_1 b).
Proof.
  intros H. induction n as [|n IH]; [exact H|].
  rewrite !Nat.iter_succ. apply shr_1_mono, IH.
Qed.

Lemma shr_pos_mono p a b :
  state_le a b -> state_le (iter_pos shr_1 p a) (iter_pos shr_1 p b).
Proof. rewrite !iter_pos_nat. apply shr_n_mono. Qed.

(** rounding a state *)
Lemma round_state_bounds mrs : shr_m mrs <= round_state mrs <= shr_m mrs + 1.
Proof.
  destruct mrs as [m [|] [|]]; unfold round_state; simpl; try lia.
  destruct (Z.even m); lia.
Qed.

Lemma round_state_exact m : round_state (state m false false) = m.
Proof. reflexivity. Qed.

Lemma round_state_mono a b : state_le a b -> round_state a <= round_state b.
Proof.
  intros [H0 [H|[E H]]].
  - pose proof (round_state_bounds a). pose proof (round_state_bounds b). lia.
  - destruct a as [m r s], b as [m' r' s']. simpl in *. subst m'.
    unfold round_state, rs_le in *. simpl.
    destruct r, s, r', s'; simpl; try lia; try (destruct (Z.even m); lia);
      exfalso; intuition congruence.
Qed.

(** binary64 *)
Lemma fexp64_eq z : fexp64 z = Z.max (z - 53) (-1074).
Proof. reflexivity. Qed.

Lemma binary_round_aux_finish mx ex lx :
  binary_round_aux prec emax false mx ex lx
  = finish (round_state (fst (shr_fexp prec emax mx ex lx)))
           (snd (shr_fexp prec emax mx ex lx)).
Proof.
  unfold binary_round_aux, finish, round_state.
  destruct (shr_fexp prec emax mx ex lx) as [mrs' e']. simpl fst. simpl snd.
  destruct (shr_fexp prec emax _ e' loc_Exact) as [mrs'' e''].
  unfold of_mant. destruct (shr_m mrs''); reflexivity.
Qed.

Lemma shr_fexp_exact m e :
  shr_fexp prec emax (Zpos m) e loc_Exact
  = let n := fexp64 (digits m + e) - e in
    if n <=? 0 then (state (Zpos m) false false, e)
    else (iter_pos shr_1 (Z.to_pos n) (state (Zpos m) false false), e + n).
Proof.
  unfold shr_fexp, shr. cbv zeta. fold (fexp64 (Zdigits2 (Zpos m) + e)).
  change (Zdigits2 (Zpos m)) with (digits m).
  destruct (fexp64 (digits m + e) - e) as [|p|p] eqn:E; reflexivity.
Qed.

Lemma round64_eq m e :
  round64 m e
  = finish (round_state (aligned m e (fexp64 (digits m + e))))
           (fexp64 (digits m + e)).
Proof.
  unfold round64, binary_round. fold (digits m). fold (fexp64 (digits m + e)).
  set (E := fexp64 (digits m + e)). unfold shl_align, aligned.
  destruct (E - e) as [|p|p] eqn:Ee.
  - (* E = e *)
    rewrite binary_round_aux_finish, shr_fexp_exact. cbv zeta.
    fold E. rewrite Ee. simpl Z.leb. cbv iota. simpl fst. simpl snd.
    replace (E <=? e) with true by (symmetry; apply Z.leb_le; lia).
    replace (e - E) with 0 by lia. simpl (2 ^ 0). rewrite Z.mul_1_r.
    f_equal. lia.
  - (* E > e *)
    rewrite binary_round_aux_finish, shr_fexp_exact. cbv zeta.
    fold E. rewrite Ee. simpl Z.leb. cbv iota. simpl fst. simpl snd.
    replace (E <=? e) with false by (symmetry; apply Z.leb_gt; lia).
    replace (e + Zpos p) with E by lia. reflexivity.
  - (* E < e *)
    rewrite binary_round_aux_finish, shr_fexp_exact. cbv zeta.
    rewrite digits_shift.
    replace (digits m + Zpos p + E) with (digits m + e) by lia. fold E.
    rewrite Z.sub_diag. simpl Z.leb. cbv iota. simpl fst. simpl snd.
    replace (E <=? e) with true by (symmetry; apply Z.leb_le; lia).
    rewrite iter_xO_mul. replace (e - E) with (Zpos p) by lia. reflexivity.
Qed.

Lemma finish_eq q E :
  0 <= q ->
  finish q E
  = let n := fexp64 (Zdigits2 q + E) - E in
    if n <=? 0 then of_mant q E else of_mant (q / 2 ^ n) (E + n).
Proof.
  intros Hq. unfold finish, shr_fexp, shr. cbv zeta.
  fold (fexp64 (Zdigits2 q + E)).
  change (shr_record_of_loc q loc_Exact) with (state q false false).
  destruct (fexp64 (Zdigits2 q + E) - E) as [|p|p] eqn:En; try reflexivity.
  simpl Z.leb. cbv iota. rewrite shr_pos_m by exact Hq. reflexivity.
Qed.

(** the order of the results *)
Lemma of_mant_zero z e : 0 <= z -> SFleb (S754_zero false) (of_mant z e) = true.
Proof.
  destruct z as [|p|p]; intros H; [reflexivity| |lia].
  unfold of_mant. destruct (e <=? emax - prec); reflexivity.
Qed.

Lemma of_mant_le_same z z' e :
  0 <= z <= z' -> SFleb (of_mant z e) (of_mant z' e) = true.
Proof.
  intros [H0 H]. destruct z as [|p|p]; try lia.
  - apply of_mant_zero. lia.
  - destruct z' as [|p'|p']; try lia. unfold of_mant.
    destruct (e <=? emax - prec); [|reflexivity].
    unfold SFleb, SFcompare. rewrite Z.compare_refl.
    change (Pos.compare_cont Eq p p') with (Pos.compare p p').
    destruct (Pos.compare_spec p p'); try reflexivity. lia.
Qed.

Lemma of_mant_le_exp z z' e e' :
  0 <= z -> 0 < z' -> e < e' -> SFleb (of_mant z e) (of_mant z' e') = true.
Proof.
  intros H0 H1 He. destruct z' as [|p'|p']; try lia.
  destruct z as [|p|p]; try lia.
  - apply of_mant_zero. lia.
  - unfold of_mant. destruct (Z.leb_spec e' (emax - prec)).
    + replace (e <=? emax - prec) with true by (symmetry; apply Z.leb_le; lia).
      unfold SFleb, SFcompare.
      replace (e ?= e') with Lt by (symmetry; apply Z.compare_lt_iff; lia).
      reflexivity.
    + destruct (e <=? emax - prec); reflexivity.
Qed.

Lemma pow2_pos k : 0 <= k -> 0 < 2 ^ k.
Proof. intros. apply Z.pow_pos_nonneg; lia. Qed.

Lemma pow_div_lower a b x : 0 <= a -> 0 <= b -> 2 ^ (a + b) <= x -> 2 ^ a <= x / 2 ^ b.
Proof.
  intros Ha Hb H. apply Z.div_le_lower_bound; [apply pow2_pos; lia|].
  rewrite <- Z.pow_add_r by lia. rewrite Z.add_comm. exact H.
Qed.

Lemma pow_div_upper a b x : 0 <= a -> 0 <= b -> x < 2 ^ (a + b) -> x / 2 ^ b < 2 ^ a.
Proof.
  intros Ha Hb H. apply Z.div_lt_upper_bound; [apply pow2_pos; lia|].
  rewrite <- Z.pow_add_r by lia. rewrite Z.add_comm. exact H.
Qed.

Lemma finish_nonneg q E :
  0 <= q -> exists z e, 0 <= z /\ finish q E = of_mant z e.
Proof.
  intros Hq. rewrite finish_eq by exact Hq. cbv zeta.
  destruct (Z.leb_spec (fexp64 (Zdigits2 q + E) - E) 0).
  - exists q, E. auto.
  - eexists _, _. split; [|reflexivity]. apply Z.div_pos; [exact Hq|].
    apply pow2_pos. lia.
Qed.

Lemma finish_mono q q' E :
  0 <= q <= q' -> -1074 <= E -> SFleb (finish q E) (finish q' E) = true.
Proof.
  intros [H0 H] HE.
  destruct q as [|p|p]; [| |lia].
  - assert (Ez : finish 0 E = S754_zero false).
    { rewrite finish_eq by lia. cbv zeta. simpl Zdigits2. rewrite fexp64_eq.
      replace (Z.max (0 + E - 53) (-1074) - E <=? 0) with true; [reflexivity|].
      symmetry. apply Z.leb_le. lia. }
    rewrite Ez. destruct (finish_nonneg q' E) as (z & e & Hz & ->); [lia|].
    apply of_mant_zero, Hz.
  - destruct q' as [|p'|p']; try lia.
    rewrite !finish_eq by lia. cbv zeta.
    change (Zdigits2 (Zpos p)) with (digits p).
    change (Zdigits2 (Zpos p')) with (digits p').
    pose proof (digits_mono p p' ltac:(lia)) as HD.
    pose proof (digits_bounds p) as [B1 B2]. pose proof (digits_bounds p') as [B1' B2'].
    pose proof (digits_pos p). pose proof (digits_pos p').
    assert (P52 : 0 < 2 ^ 52) by reflexivity.
    rewrite !fexp64_eq.
    destruct (Z.leb_spec (Z.max (digits p + E - 53) (-1074) - E) 0) as [L|L];
    destruct (Z.leb_spec (Z.max (digits p' + E - 53) (-1074) - E) 0) as [L'|L'];
      try lia.
    + apply of_mant_le_same. lia.
    + apply of_mant_le_exp; [lia| |lia].
      replace (Z.max (digits p' + E - 53) (-1074) - E) with (digits p' - 53) by lia.
      assert (2 ^ 52 <= Zpos p' / 2 ^ (digits p' - 53)).
      { apply pow_div_lower; try lia.
        replace (52 + (digits p' - 53)) with (digits p' - 1) by lia. exact B1'. }
      lia.
    + replace (Z.max (digits p + E - 53) (-1074) - E) with (digits p - 53) by lia.
      replace (Z.max (digits p' + E - 53) (-1074) - E) with (digits p' - 53) by lia.
      assert (2 ^ 52 <= Zpos p / 2 ^ (digits p - 53)).
      { apply pow_div_lower; try lia.
        replace (52 + (digits p - 53)) with (digits p - 1) by lia. exact B1. }
      assert (2 ^ 52 <= Zpos p' / 2 ^ (digits p' - 53)).
      { apply pow_div_lower; try lia.
        replace (52 + (digits p' - 53)) with (digits p' - 1) by lia. exact B1'. }
      destruct (Z.eq_dec (digits p) (digits p')) as [Ed|Nd].
      * rewrite Ed in *. apply of_mant_le_same. split; [lia|].
        apply Z.div_le_mono; [apply pow2_pos|]; lia.
      * apply of_mant_le_exp; lia.
Qed.

(** aligning a mantissa on an exponent *)
Lemma state_le_exact a b :
  0 <= a <= b -> state_le (state a false false) (state b false false).
Proof.
  intros [H0 H]. split; [exact H0|]. simpl.
  destruct (Z.eq_dec a b) as [E|N]; [right|left; lia].
  split; [exact E|]. right. auto.
Qed.

Lemma aligned_m m e E :
  shr_m (aligned m e E)
  = if E <=? e then Zpos m * 2 ^ (e - E) else Zpos m / 2 ^ (E - e).
Proof.
  unfold aligned. destruct (Z.leb_spec E e) as [L|L]; [reflexivity|].
  rewrite shr_pos_m by (simpl; lia). simpl shr_m.
  rewrite Z2Pos.id by lia. reflexivity.
Qed.

Lemma aligned_nonneg m e E : 0 <= shr_m (aligned m e E).
Proof.
  rewrite aligned_m. destruct (Z.leb_spec E e) as [L|L].
  - pose proof (pow2_pos (e - E) ltac:(lia)). nia.
  - apply Z.div_pos; [lia|]. apply pow2_pos. lia.
Qed.

Lemma aligned_mono m m' e E :
  (m <= m')%positive -> state_le (aligned m e E) (aligned m' e E).
Proof.
  intros H. unfold aligned. destruct (Z.leb_spec E e) as [L|L].
  - apply state_le_exact. pose proof (pow2_pos (e - E) ltac:(lia)). nia.
  - apply shr_pos_mono, state_le_exact. lia.
Qed.

Lemma aligned_upper m e E :
  digits m + e - 53 <= E -> shr_m (aligned m e E) < 2 ^ 53.
Proof.
  intros H. rewrite aligned_m. pose proof (digits_bounds m) as [_ B].
  pose proof (digits_pos m).
  destruct (Z.leb_spec E e) as [L|L].
  - assert (Zpos m * 2 ^ (e - E) < 2 ^ (digits m + (e - E))).
    { rewrite Z.pow_add_r by lia. pose proof (pow2_pos (e - E) ltac:(lia)). nia. }
    assert (2 ^ (digits m + (e - E)) <= 2 ^ 53) by (apply Z.pow_le_mono_r; lia).
    lia.
  - apply pow_div_upper; try lia.
    assert (2 ^ digits m <= 2 ^ (53 + (E - e))) by (apply Z.pow_le_mono_r; lia).
    lia.
Qed.

Lemma aligned_lower m e E :
  E = digits m + e - 53 -> 2 ^ 52 <= shr_m (aligned m e E).
Proof.
  intros H. rewrite aligned_m. pose proof (digits_bounds m) as [B _].
  pose proof (digits_pos m).
  destruct (Z.leb_spec E e) as [L|L].
  - replace 52 with ((digits m - 1) + (e - E)) at 1 by lia.
    rewrite Z.pow_add_r by lia. pose proof (pow2_pos (e - E) ltac:(lia)). nia.
  - apply pow_div_lower; try lia.
    replace (52 + (E - e)) with (digits m - 1) by lia. exact B.
Qed.

Lemma aligned_shift m k e E :
  aligned (Pos.iter xO m k) (e - Zpos k) E = aligned m e E.
Proof.
  unfold aligned. rewrite iter_xO_mul.
  destruct (Z.leb_spec E (e - Zpos k)) as [L|L].
  - replace (E <=? e) with true by (symmetry; apply Z.leb_le; lia).
    rewrite <- Z.mul_assoc, <- Z.pow_add_r by lia.
    do 3 f_equal. lia.
  - destruct (Z.leb_spec E e) as [L'|L'].
    + replace (Zpos m * 2 ^ Zpos k)
        with ((Zpos m * 2 ^ (e - E)) * 2 ^ Zpos (Z.to_pos (E - (e - Zpos k)))).
      * apply shr_pos_exact. pose proof (pow2_pos (e - E) ltac:(lia)). nia.
      * rewrite <- Z.mul_assoc, <- Z.pow_add_r by lia.
        do 2 f_equal. rewrite Z2Pos.id by lia. lia.
    + replace (Z.to_pos (E - (e - Zpos k))) with (Z.to_pos (E - e) + k)%positive.
      * rewrite iter_pos_add. f_equal. apply shr_pos_exact. lia.
      * apply Pos2Z.inj. rewrite Pos2Z.inj_add, !Z2Pos.id by lia. lia.
Qed.

Lemma round64_shift m k e : round64 (Pos.iter xO m k) (e - Zpos k) = round64 m e.
Proof.
  rewrite !round64_eq, digits_shift.
  replace (digits m + Zpos k + (e - Zpos k)) with (digits m + e) by lia.
  rewrite aligned_shift. reflexivity.
Qed.

Lemma fexp64_lower z : -1074 <= fexp64 z.
Proof. rewrite fexp64_eq. lia. Qed.

Lemma round_state_aligned_nonneg m e E : 0 <= round_state (aligned m e E).
Proof.
  pose proof (round_state_bounds (aligned m e E)).
  pose proof (aligned_nonneg m e E). lia.
Qed.

Lemma finish_pow53 E : -1074 <= E -> finish (2 ^ 53) E = of_mant (2 ^ 52) (E + 1).
Proof.
  intros H. rewrite finish_eq by (apply Z.pow_nonneg; lia). cbv zeta.
  change (Zdigits2 (2 ^ 53)) with 54. rewrite fexp64_eq.
  replace (Z.max (54 + E - 53) (-1074) - E) with 1 by lia. reflexivity.
Qed.

Lemma finish_pow52 E : -1074 <= E -> finish (2 ^ 52) E = of_mant (2 ^ 52) E.
Proof.
  intros H. rewrite finish_eq by (apply Z.pow_nonneg; lia). cbv zeta.
  change (Zdigits2 (2 ^ 52)) with 53. rewrite fexp64_eq.
  replace (Z.max (53 + E - 53) (-1074) - E) with 0 by lia. reflexivity.
Qed.

Lemma round64_mono_same m m' e :
  (m <= m')%positive -> SFleb (round64 m e) (round64 m' e) = true.
Proof.
  intros H. rewrite !round64_eq. pose proof (digits_mono m m' H) as HD.
  set (E := fexp64 (digits m + e)). set (E' := fexp64 (digits m' + e)).
  pose proof (fexp64_lower (digits m + e)) as HE. fold E in HE.
  pose proof (fexp64_lower (digits m' + e)) as HE'. fold E' in HE'.
  assert (LE : E <= E') by (unfold E, E'; rewrite !fexp64_eq; lia).
  destruct (Z.eq_dec E E') as [Eq|Ne].
  - rewrite <- Eq. apply finish_mono; [|exact HE].
    split; [apply round_state_aligned_nonneg|]. apply round_state_mono, aligned_mono, H.
  - assert (E'eq : E' = digits m' + e - 53)
      by (unfold E, E' in *; rewrite !fexp64_eq in *; lia).
    assert (Elow : digits m + e - 53 <= E) by (unfold E; rewrite fexp64_eq; lia).
    pose proof (aligned_upper m e E Elow) as U.
    pose proof (aligned_lower m' e E' E'eq) as L.
    pose proof (round_state_bounds (aligned m e E)) as [_ R].
    pose proof (round_state_bounds (aligned m' e E')) as [R' _].
    assert (P52 : 0 < 2 ^ 52) by reflexivity.
    apply SFleb_trans with (finish (2 ^ 53) E).
    { apply finish_mono; [|exact HE]. split; [apply round_state_aligned_nonneg|lia]. }
    apply SFleb_trans with (finish (2 ^ 52) E').
    2:{ apply finish_mono; [|exact HE']. split; lia. }
    rewrite finish_pow53, finish_pow52 by assumption.
    destruct (Z.eq_dec (E + 1) E') as [<-|N].
    + apply of_mant_le_same. lia.
    + apply of_mant_le_exp; lia.
Qed.

(** values at a common exponent *)
Lemma scaled_scaled M e c c0 :
  c0 <= c -> c <= e -> scaled M e c * 2 ^ (c - c0) = scaled M e c0.
Proof.
  intros H1 H2. unfold scaled. rewrite <- Z.mul_assoc, <- Z.pow_add_r by lia.
  do 2 f_equal. lia.
Qed.

Lemma scaled_same M e : scaled M e e = M.
Proof. unfold scaled. rewrite Z.sub_diag. simpl. lia. Qed.

Lemma scaled_nonneg M e c : 0 <= M -> 0 <= scaled M e c.
Proof.
  intros H. unfold scaled. pose proof (Z.pow_nonneg 2 (e - c) ltac:(lia)). nia.
Qed.

Lemma scaled_pos M e c : 0 < M -> c <= e -> 0 < scaled M e c.
Proof. intros H L. unfold scaled. pose proof (pow2_pos (e - c) ltac:(lia)). nia. Qed.

Lemma value_le_down M e M' e' c c0 :
  c0 <= c -> c <= e -> c <= e' ->
  (scaled M e c <= scaled M' e' c <-> scaled M e c0 <= scaled M' e' c0).
Proof.
  intros H0 H1 H2.
  rewrite <- (scaled_scaled M e c c0 H0 H1), <- (scaled_scaled M' e' c c0 H0 H2).
  pose proof (pow2_pos (c - c0) ltac:(lia)). split; intros; nia.
Qed.

Lemma value_le_iff M e M' e' c :
  c <= e -> c <= e' -> (value_le M e M' e' <-> scaled M e c <= scaled M' e' c).
Proof.
  intros H1 H2. unfold value_le.
  apply (@value_le_down M e M' e' (Z.min e e') c); lia.
Qed.

Lemma round64_align m e c :
  c <= e -> exists p, Zpos p = scaled (Zpos m) e c /\ round64 p c = round64 m e.
Proof.
  intros H. destruct (Z.eq_dec c e) as [->|N].
  - exists m. rewrite scaled_same. auto.
  - exists (Pos.iter xO m (Z.to_pos (e - c))). split.
    + rewrite iter_xO_mul, Z2Pos.id by lia. reflexivity.
    + pose proof (round64_shift m (Z.to_pos (e - c)) e) as S.
      rewrite Z2Pos.id in S by lia.
      replace (e - (e - c)) with c in S by lia. exact S.
Qed.

Lemma round64_mono m e m' e' :
  value_le (Zpos m) e (Zpos m') e' -> SFleb (round64 m e) (round64 m' e') = true.
Proof.
  intros H. unfold value_le in H.
  destruct (@round64_align m e (Z.min e e')) as (p & Ep & <-); [lia|].
  destruct (@round64_align m' e' (Z.min e e')) as (p' & Ep' & <-); [lia|].
  apply round64_mono_same. lia.
Qed.

Lemma round64_nonneg m e : SFleb (S754_zero false) (round64 m e) = true.
Proof.
  rewrite round64_eq.
  destruct (@finish_nonneg
              (round_state (aligned m e (fexp64 (digits m + e))))
              (fexp64 (digits m + e)))
    as (z & e' & Hz & ->); [apply round_state_aligned_nonneg|].
  apply of_mant_zero, Hz.
Qed.

Lemma bounded_spec m e :
  bounded prec emax m e = true <-> fexp64 (digits m + e) = e /\ e <= 971.
Proof.
  unfold bounded, canonical_mantissa. fold (digits m). fold (fexp64 (digits m + e)).
  rewrite andb_true_iff, Z.eqb_eq, Z.leb_le. reflexivity.
Qed.

Lemma round64_idem m e :
  bounded prec emax m e = true -> round64 m e = S754_finite false m e.
Proof.
  intros H. apply bounded_spec in H. destruct H as [He Hm].
  rewrite round64_eq, He. unfold aligned. rewrite Z.leb_refl, Z.sub_diag.
  simpl (2 ^ 0). rewrite Z.mul_1_r, round_state_exact.
  rewrite finish_eq by lia. cbv zeta. change (Zdigits2 (Zpos m)) with (digits m).
  rewrite He, Z.sub_diag. simpl Z.leb. cbv iota. unfold of_mant.
  replace (e <=? emax - prec) with true; [reflexivity|].
  symmetry. apply Z.leb_le. exact Hm.
Qed.

Lemma aux_round64 m e :
  e <= fexp64 (digits m + e) ->
  binary_round_aux prec emax false (Zpos m) e loc_Exact = round64 m e.
Proof.
  intros H. rewrite binary_round_aux_finish, shr_fexp_exact, round64_eq. cbv zeta.
  unfold aligned.
  destruct (Z.leb_spec (fexp64 (digits m + e) - e) 0) as [L|L]; cbn [fst snd].
  - replace (fexp64 (digits m + e)) with e by lia.
    rewrite Z.leb_refl, Z.sub_diag. simpl (2 ^ 0). rewrite Z.mul_1_r. reflexivity.
  - replace (fexp64 (digits m + e) <=? e) with false by (symmetry; apply Z.leb_gt; lia).
    replace (e + (fexp64 (digits m + e) - e)) with (fexp64 (digits m + e)) by lia.
    reflexivity.
Qed.

(** the order of two numbers of the format is the order of their values *)
Lemma SFleb_value_le m e m' e' :
  bounded prec emax m e = true -> bounded prec emax m' e' = true ->
  SFleb (S754_finite false m e) (S754_finite false m' e') = true ->
  value_le (Zpos m) e (Zpos m') e'.
Proof.
  intros B B' H. apply bounded_spec in B, B'. rewrite !fexp64_eq in B, B'.
  pose proof (digits_bounds m) as [_ U]. pose proof (digits_bounds m') as [L' _].
  unfold SFleb, SFcompare in H.
  change (Pos.compare_cont Eq m m') with (Pos.compare m m') in H.
  destruct (Z.compare_spec e e') as [->|Lt|Gt]; [| |discriminate].
  - apply (@value_le_iff _ _ _ _ e'); [lia|lia|]. rewrite !scaled_same.
    destruct (Pos.compare_spec m m'); try discriminate; lia.
  - apply (@value_le_iff _ _ _ _ e); [lia|lia|]. rewrite scaled_same. unfold scaled.
    assert (digits m' = 53) as D' by lia. rewrite D' in L'. simpl (53 - 1) in L'.
    assert (2 ^ digits m <= 2 ^ 53) by (apply Z.pow_le_mono_r; lia).
    assert (2 ^ 1 <= 2 ^ (e' - e)) by (apply Z.pow_le_mono_r; lia).
    change (2 ^ 53) with (2 * 2 ^ 52) in *. change (2 ^ 1) with 2 in *.
    assert (0 < 2 ^ 52) by reflexivity. nia.
Qed.

(** numbers that are not negative *)
Lemma not_negative_cases x : not_negative x -> not_negative_view x.
Proof.
  unfold not_negative. destruct x as [s|[|]| |[|] m e]; try discriminate; constructor.
Qed.

Lemma not_negative_round64 m e : not_negative (round64 m e).
Proof. apply round64_nonneg. Qed.

Lemma SFleb_zero s x : not_negative x -> SFleb (S754_zero s) x = true.
Proof. intros H. destruct (not_negative_cases x H); reflexivity. Qed.

Lemma SFleb_inf x : not_negative x -> SFleb x (S754_infinity false) = true.
Proof. intros H. destruct (not_negative_cases x H); reflexivity. Qed.

Lemma SFleb_refl_not_negative x : not_negative x -> SFleb x x = true.
Proof.
  intros H. destruct (not_negative_cases x H); try reflexivity.
  unfold SFleb, SFcompare. rewrite Z.compare_refl.
  change (Pos.compare_cont Eq m m) with (Pos.compare m m).
  rewrite Pos.compare_refl. reflexivity.
Qed.

Lemma not_negative_le x y : not_negative x -> SFleb x y = true -> not_negative y.
Proof. intros H L. unfold not_negative. exact (SFleb_trans _ _ _ H L). Qed.

(** addition *)
Lemma shl_align_fst m e c :
  c <= e -> Zpos (fst (shl_align m e c)) = scaled (Zpos m) e c.
Proof.
  intros H. unfold shl_align, scaled. destruct (c - e) as [|p|p] eqn:E; cbn [fst].
  - replace (e - c) with 0 by lia. simpl. lia.
  - lia.
  - rewrite iter_xO_mul. do 2 f_equal. lia.
Qed.

Lemma SFadd_fin mx ex my ey :
  exists p,
    Zpos p = scaled (Zpos mx) ex (Z.min ex ey) + scaled (Zpos my) ey (Z.min ex ey) /\
    SFadd prec emax (S754_finite false mx ex) (S754_finite false my ey)
    = round64 p (Z.min ex ey).
Proof.
  unfold SFadd. cbv zeta. cbn [cond_Zopp].
  change (IntDef.Z.min ex ey) with (Z.min ex ey).
  rewrite <- (shl_align_fst mx ex (Z.min ex ey)) by lia.
  rewrite <- (shl_align_fst my ey (Z.min ex ey)) by lia.
  eexists. split; [|reflexivity]. reflexivity.
Qed.

Lemma SFadd_fin_not_negative mx ex my ey :
  not_negative (SFadd prec emax (S754_finite false mx ex) (S754_finite false my ey)).
Proof.
  destruct (SFadd_fin mx ex my ey) as (p & _ & ->). apply not_negative_round64.
Qed.

Lemma SFadd_mono_fin mx ex my ey mx' ex' my' ey' :
  value_le (Zpos mx) ex (Zpos mx') ex' -> value_le (Zpos my) ey (Zpos my') ey' ->
  SFleb (SFadd prec emax (S754_finite false mx ex) (S754_finite false my ey))
        (SFadd prec emax (S754_finite false mx' ex') (S754_finite false my' ey'))
  = true.
Proof.
  intros Hx Hy.
  destruct (SFadd_fin mx ex my ey) as (p & Ep & ->).
  destruct (SFadd_fin mx' ex' my' ey') as (p' & Ep' & ->).
  apply round64_mono.
  set (c := Z.min (Z.min ex ey) (Z.min ex' ey')).
  apply (value_le_iff _ _ _ _ c); [lia|lia|].
  rewrite <- (scaled_scaled _ _ (Z.min ex ey) c) by lia.
  rewrite <- (scaled_scaled _ _ (Z.min ex' ey') c) by lia.
  rewrite !scaled_same, Ep, Ep', !Z.mul_add_distr_r.
  rewrite !scaled_scaled by lia.
  apply (value_le_iff _ _ _ _ c) in Hx; [|lia|lia].
  apply (value_le_iff _ _ _ _ c) in Hy; [|lia|lia].
  lia.
Qed.

Lemma SFadd_incr_l mx ex my ey :
  bounded prec emax mx ex = true ->
  SFleb (S754_finite false mx ex)
        (SFadd prec emax (S754_finite false mx ex) (S754_finite false my ey))
  = true.
Proof.
  intros B. rewrite <- (round64_idem mx ex B) at 1.
  destruct (SFadd_fin mx ex my ey) as (p & Ep & ->).
  apply round64_mono. apply (value_le_iff _ _ _ _ (Z.min ex ey)); [lia|lia|].
  rewrite scaled_same, Ep.
  pose proof (scaled_nonneg (Zpos my) ey (Z.min ex ey) ltac:(lia)). lia.
Qed.

Lemma SFadd_incr_r mx ex my ey :
  bounded prec emax my ey = true ->
  SFleb (S754_finite false my ey)
        (SFadd prec emax (S754_finite false mx ex) (S754_finite false my ey))
  = true.
Proof.
  intros B. rewrite <- (round64_idem my ey B) at 1.
  destruct (SFadd_fin mx ex my ey) as (p & Ep & ->).
  apply round64_mono. apply (value_le_iff _ _ _ _ (Z.min ex ey)); [lia|lia|].
  rewrite scaled_same, Ep.
  pose proof (scaled_nonneg (Zpos mx) ex (Z.min ex ey) ltac:(lia)). lia.
Qed.

Lemma SFadd_not_negative x y :
  not_negative x -> not_negative y -> not_negative (SFadd prec emax x y).
Proof.
  intros Hx Hy. destruct (not_negative_cases x Hx), (not_negative_cases y Hy);
    try reflexivity; try (destruct s; reflexivity).
  - destruct s, s0; reflexivity.
  - apply SFadd_fin_not_negative.
Qed.

Lemma SFadd_inf_l y :
  not_negative y ->
  SFadd prec emax (S754_infinity false) y = S754_infinity false.
Proof. intros H. destruct (not_negative_cases y H); reflexivity. Qed.

Lemma SFadd_inf_r x :
  not_negative x ->
  SFadd prec emax x (S754_infinity false) = S754_infinity false.
Proof. intros H. destruct (not_negative_cases x H); reflexivity. Qed.

Lemma SFadd_zero_zero sx sy :
  exists s, SFadd prec emax (S754_zero sx) (S754_zero sy) = S754_zero s.
Proof. destruct sx, sy; eexists; reflexivity. Qed.

Lemma SFadd_zero_l_le y :
  not_negative y -> SFleb y (SFadd prec emax (S754_zero false) y) = true.
Proof.
  intros N. destruct (not_negative_cases y N) as [s| |m e].
  - destruct s; reflexivity.
  - reflexivity.
  - apply (SFleb_refl_not_negative (S754_finite false m e)). reflexivity.
Qed.

Lemma SFadd_zero_r_le x :
  not_negative x -> SFleb x (SFadd prec emax x (S754_zero false)) = true.
Proof.
  intros N. destruct (not_negative_cases x N) as [s| |m e].
  - destruct s; reflexivity.
  - reflexivity.
  - apply (SFleb_refl_not_negative (S754_finite false m e)). reflexivity.
Qed.

Theorem SFadd_mono x x' y y' :
  valid x -> valid x' -> valid y -> valid y' ->
  not_negative x -> SFleb x x' = true -> not_negative y -> SFleb y y' = true ->
  SFleb (SFadd prec emax x y) (SFadd prec emax x' y') = true.
Proof.
  intros Vx Vx' Vy Vy' Nx Lx Ny Ly.
  pose proof (not_negative_le x x' Nx Lx) as Nx'.
  pose proof (not_negative_le y y' Ny Ly) as Ny'.
  destruct (not_negative_cases x' Nx') as [sx'| |mx' ex'].
  2:{ rewrite SFadd_inf_l by exact Ny'.
      apply SFleb_inf, SFadd_not_negative; assumption. }
  - (* x' is zero, so is x *)
    destruct (not_negative_cases x Nx) as [sx| |mx ex]; try discriminate.
    destruct (not_negative_cases y' Ny') as [sy'| |my' ey'].
    + destruct (not_negative_cases y Ny) as [sy| |my ey]; try discriminate.
      destruct sx, sy, sx', sy'; reflexivity.
    + rewrite SFadd_inf_r by exact Nx'. apply SFleb_inf, SFadd_not_negative; assumption.
    + destruct (not_negative_cases y Ny) as [sy| |my ey]; try discriminate.
      * destruct (SFadd_zero_zero sx sy) as [s ->]. reflexivity.
      * exact Ly.
  - destruct (not_negative_cases y' Ny') as [sy'| |my' ey'].
    2:{ rewrite SFadd_inf_r by exact Nx'.
        apply SFleb_inf, SFadd_not_negative; assumption. }
    + (* y' is zero, so is y *)
      destruct (not_negative_cases y Ny) as [sy| |my ey]; try discriminate.
      destruct (not_negative_cases x Nx) as [sx| |mx ex]; try discriminate.
      * destruct (SFadd_zero_zero sx sy) as [s ->]. reflexivity.
      * exact Lx.
    + destruct (not_negative_cases x Nx) as [sx| |mx ex]; try discriminate;
      destruct (not_negative_cases y Ny) as [sy| |my ey]; try discriminate.
      * destruct (SFadd_zero_zero sx sy) as [s ->].
        apply SFleb_zero, SFadd_fin_not_negative.
      * change (SFadd prec emax (S754_zero sx) (S754_finite false my ey))
          with (S754_finite false my ey).
        apply SFleb_trans with (1 := Ly), SFadd_incr_r, Vy'.
      * change (SFadd prec emax (S754_finite false mx ex) (S754_zero sy))
          with (S754_finite false mx ex).
        apply SFleb_trans with (1 := Lx), SFadd_incr_l, Vx'.
      * apply SFadd_mono_fin; apply SFleb_value_le; assumption.
Qed.

(** multiplication by a normal number *)
Lemma SFmul_fin mT eT my ey :
  2 ^ 52 <= Zpos mT ->
  SFmul prec emax (S754_finite false mT eT) (S754_finite false my ey)
  = round64 (mT * my) (eT + ey).
Proof.
  intros HT. cbn [SFmul xorb]. apply aux_round64. rewrite fexp64_eq.
  pose proof (digits_bounds mT) as [_ U].
  assert (52 < digits mT).
  { apply (Z.pow_lt_mono_r_iff 2); [lia|pose proof (digits_pos mT); lia|lia]. }
  pose proof (digits_mono mT (mT * my) ltac:(nia)). lia.
Qed.

Lemma SFmul_not_negative mT eT y :
  2 ^ 52 <= Zpos mT -> not_negative y ->
  not_negative (SFmul prec emax (S754_finite false mT eT) y).
Proof.
  intros HT H. destruct (not_negative_cases y H); try reflexivity.
  rewrite SFmul_fin by exact HT. apply not_negative_round64.
Qed.

Theorem SFmul_mono mT eT y y' :
  2 ^ 52 <= Zpos mT -> valid y -> valid y' ->
  not_negative y -> SFleb y y' = true ->
  SFleb (SFmul prec emax (S754_finite false mT eT) y)
        (SFmul prec emax (S754_finite false mT eT) y') = true.
Proof.
  intros HT V V' N L. pose proof (not_negative_le y y' N L) as N'.
  destruct (not_negative_cases y' N') as [s'| |m' e'].
  - destruct (not_negative_cases y N) as [s| |m e]; try discriminate. reflexivity.
  - change (SFmul prec emax (S754_finite false mT eT) (S754_infinity false))
      with (S754_infinity false).
    apply SFleb_inf, SFmul_not_negative; assumption.
  - destruct (not_negative_cases y N) as [s| |m e]; try discriminate.
    + change (SFmul prec emax (S754_finite false mT eT) (S754_zero s))
        with (S754_zero s).
      apply SFleb_zero, SFmul_not_negative; assumption.
    + rewrite !SFmul_fin by exact HT. apply round64_mono.
      pose proof (SFleb_value_le m e m' e' V V' L) as H.
      apply (value_le_iff _ _ _ _ (Z.min e e')) in H; [|lia|lia].
      apply (value_le_iff _ _ _ _ (eT + Z.min e e')); [lia|lia|].
      unfold scaled in *. rewrite !Pos2Z.inj_mul.
      replace (eT + e - (eT + Z.min e e')) with (e - Z.min e e') by lia.
      replace (eT + e' - (eT + Z.min e e')) with (e' - Z.min e e') by lia.
      rewrite <- !Z.mul_assoc. apply Z.mul_le_mono_nonneg_l; [lia|exact H].
Qed.

(** conversion of a machine integer *)
Lemma of_int_not_negative z : 0 <= z -> not_negative (of_int z).
Proof.
  intros H. destruct z as [|p|p]; [reflexivity| |lia]. apply not_negative_round64.
Qed.

Lemma of_int_mono a b : 0 <= a <= b -> SFleb (of_int a) (of_int b) = true.
Proof.
  intros [H0 H]. destruct a as [|p|p]; [| |lia].
  - apply SFleb_zero, of_int_not_negative. lia.
  - destruct b as [|q|q]; try lia. apply round64_mono_same. lia.
Qed.

(** the literals [0.1] to [0.9] and the length of a list *)
Lemma tenths_cases (d : positive) :
  (d < 10)%positive ->
  exists m e, Prim2SF (f_tenths d) = S754_finite false m e /\
              bounded prec emax m e = true /\ 2 ^ 52 <= Zpos m.
Proof.
  intros H.
  assert (C : (d = 1 \/ d = 2 \/ d = 3 \/ d = 4 \/ d = 5 \/ d = 6 \/ d = 7 \/
               d = 8 \/ d = 9)%positive) by lia.
  repeat (destruct C as [->|C]); try subst d;
    match goal with
    | |- exists m e, ?x = _ /\ _ =>
        let v := eval vm_compute in x in
        match v with
        | S754_finite false ?m ?e =>
            exists m, e; split; [vm_compute; reflexivity|];
            split; [vm_compute; reflexivity|vm_compute; discriminate]
        end
    end.
Qed.

Lemma to_Z_len (n : nat) :
  Uint63Axioms.to_Z (Uint63.of_Z (Z.min (Z.of_nat n) max_len))
  = Z.min (Z.of_nat n) max_len.
Proof.
  rewrite Uint63.of_Z_spec. apply Z.mod_small. unfold max_len.
  change Uint63Axioms.wB with 9223372036854775808. lia.
Qed.

End Binary64.

#[export] Instance PyFloat_arith : ScoreArith float.
Proof.
  split; simpl; intros *.
  - rewrite !leb_spec, !add_spec. change (Prim2SF 0) with (S754_zero false).
    intros Nx Lx Ny Ly. apply SFadd_mono; try apply Prim2SF_valid; assumption.
  - rewrite !leb_spec, add_spec. change (Prim2SF 0) with (S754_zero false).
    apply SFadd_zero_l_le.
  - rewrite !leb_spec, add_spec. change (Prim2SF 0) with (S754_zero false).
    apply SFadd_zero_r_le.
  - intros H. destruct (tenths_cases d H) as [m [e [E [B P]]]]. simpl in E.
    rewrite ltb_spec. change (Prim2SF 0) with (S754_zero false). rewrite E.
    reflexivity.
  - intros H Hnm. destruct (tenths_cases d H) as [mT [eT [E [B P]]]]. simpl in E.
    rewrite leb_spec, !mul_spec, E, !of_uint63_spec, !to_Z_len.
    apply SFmul_mono.
    + exact P.
    + unfold valid. rewrite <- (to_Z_len n), <- of_uint63_spec.
      apply Prim2SF_valid.
    + unfold valid. rewrite <- (to_Z_len m), <- of_uint63_spec.
      apply Prim2SF_valid.
    + apply of_int_not_negative. unfold max_len. lia.
    + apply of_int_mono. unfold max_len. lia.
  - intros H. destruct (tenths_cases d H) as [mT [eT [E [B P]]]]. simpl in E.
    rewrite leb_spec, mul_spec, E, of_uint63_spec, to_Z_len.
    change (Prim2SF 0) with (S754_zero false).
    apply SFmul_not_negative; [exact P|]. apply of_int_not_negative.
    unfold max_len. lia.
Qed.

(* ------------------------------------------------------------------ *)
(** * The order of scores *)

Section OrderFacts.

Context {F : Type} {SF : Score F} {SO : ScoreOrder F}.
Local Open Scope score_scope.

Lemma zero_defined : defined f_zero.
Proof. exact (proj1 (ltb_defined _ _ zero_lt_one)). Qed.

Lemma one_defined : defined f_one.
Proof. exact (proj2 (ltb_defined _ _ zero_lt_one)). Qed.

Lemma zero_not_positive : (f_zero <? f_zero) = false.
Proof. apply leb_not_ltb, zero_defined. Qed.

Lemma leb_ltb_trans (x y z : F) :
  (x <=? y) = true -> (y <? z) = true -> (x <? z) = true.
Proof.
  intros Hxy Hyz.
  destruct (x <? z) eqn:E; [reflexivity|exfalso].
  pose proof (proj1 (leb_defined _ _ Hxy)) as Dx.
  pose proof (proj2 (ltb_defined _ _ Hyz)) as Dz.
  pose proof (leb_total _ _ Dx Dz E) as Hzx.
  pose proof (leb_trans _ _ _ Hzx Hxy) as Hzy.
  apply leb_not_ltb in Hzy. congruence.
Qed.

Lemma ltb_trans (x y z : F) :
  (x <? y) = true -> (y <? z) = true -> (x <? z) = true.
Proof. intros Hxy. apply leb_ltb_trans, ltb_leb, Hxy. Qed.

Lemma py_min_bounds (c : F) :
  (f_zero <? c) = true ->
  (f_zero <? py_min c f_one) = true /\ (py_min c f_one <=? f_one) = true.
Proof.
  intros Hc. unfold py_min.
  destruct (f_one <? c) eqn:E.
  - split; [apply zero_lt_one|apply one_defined].
  - split; [exact Hc|].
    apply leb_total; [apply one_defined| |exact E].
    exact (proj2 (ltb_defined _ _ Hc)).
Qed.

(** ** [sorted] *)

Lemma insert_desc_In (x y : DetectedTechnology F) l :
  In y (insert_desc x l) <-> y = x \/ In y l.
Proof.
  induction l as [|z l IH]; simpl.
  - intuition congruence.
  - destruct (confidence x <? confidence z); simpl.
    + rewrite IH. intuition congruence.
    + intuition congruence.
Qed.

Lemma sorted_desc_In (y : DetectedTechnology F) l :
  In y (sorted_desc l) <-> In y l.
Proof.
  induction l as [|x l IH]; simpl; [tauto|].
  rewrite insert_desc_In, IH. intuition congruence.
Qed.

Lemma insert_desc_descending (x : DetectedTechnology F) l :
  defined (confidence x) ->
  Forall (fun y => defined (confidence y)) l ->
  descending l -> descending (insert_desc x l).
Proof.
  intros Dx Dl Sl. induction Sl as [|y l Sl IH Hy]; simpl.
  - constructor; constructor.
  - inversion Dl as [|? ? Dy Dl']; subst.
    destruct (confidence x <? confidence y) eqn:E.
    + constructor; [apply IH, Dl'|].
      apply Forall_forall. intros z Hz. apply (proj1 (insert_desc_In _ _ _)) in Hz.
      destruct Hz as [->|Hz]; [apply ltb_leb, E|].
      rewrite Forall_forall in Hy. apply Hy, Hz.
    + pose proof (leb_total _ _ Dx Dy E) as Hyx.
      constructor; [constructor; assumption|].
      constructor; [exact Hyx|].
      apply Forall_forall. intros z Hz. rewrite Forall_forall in Hy.
      eapply leb_trans; [apply Hy, Hz|exact Hyx].
Qed.

Lemma sorted_desc_descending (l : list (DetectedTechnology F)) :
  Forall (fun y => defined (confidence y)) l -> descending (sorted_desc l).
Proof.
  induction 1 as [|x l Dx Dl IH]; simpl; [constructor|].
  apply insert_desc_descending; [exact Dx| |exact IH].
  apply Forall_forall. intros y Hy. apply (proj1 (sorted_desc_In _ _)) in Hy.
  rewrite Forall_forall in Dl. apply Dl, Hy.
Qed.

Lemma same_confidence_not_ltb (c : F) (x y : DetectedTechnology F) :
  same_confidence c x = true -> same_confidence c y = true ->
  (confidence x <? confidence y) = false.
Proof.
  unfold same_confidence. rewrite !eqb_leb, !andb_true_iff.
  intros [_ Hcx] [Hyc _]. apply leb_not_ltb.
  eapply leb_trans; eassumption.
Qed.

Lemma insert_desc_stable (c : F) (x : DetectedTechnology F) l :
  filter (same_confidence c) (insert_desc x l)
  = filter (same_confidence c) (x :: l).
Proof.
  induction l as [|y l IH]; [reflexivity|].
  simpl insert_desc.
  destruct (confidence x <? confidence y) eqn:E; [|reflexivity].
  change (filter (same_confidence c) (y :: insert_desc x l))
    with (if same_confidence c y
          then y :: filter (same_confidence c) (insert_desc x l)
          else filter (same_confidence c) (insert_desc x l)).
  rewrite IH. simpl.
  destruct (same_confidence c x) eqn:Ex, (same_confidence c y) eqn:Ey;
    try reflexivity.
  rewrite (same_confidence_not_ltb c x y Ex Ey) in E. discriminate.
Qed.

Lemma sorted_desc_stable (c : F) (l : list (DetectedTechnology F)) :
  filter (same_confidence c) (sorted_desc l) = filter (same_confidence c) l.
Proof.
  induction l as [|x l IH]; [reflexivity|].
  simpl sorted_desc. rewrite insert_desc_stable. simpl. rewrite IH.
  reflexivity.
Qed.

(** ** [max] *)

Lemma max_confidence_from_spec (rest pre mid : list (DetectedTechnology F))
  (best : DetectedTechnology F) :
  Forall (fun y => defined (confidence y)) (best :: rest) ->
  Forall (fun y => (confidence y <? confidence best) = true) pre ->
  Forall (fun y => (confidence y <=? confidence best) = true) mid ->
  exists pre' post',
    pre ++ best :: mid ++ rest
    = pre' ++ max_confidence_from best rest :: post' /\
    Forall (fun y => (confidence y <? confidence (max_confidence_from best rest))
                     = true) pre' /\
    Forall (fun y => (confidence y <=? confidence (max_confidence_from best rest))
                     = true) post'.
Proof.
  revert pre mid best.
  induction rest as [|x rest IH]; intros pre mid best D Hpre Hmid.
  - exists pre, mid. rewrite app_nil_r. auto.
  - inversion D as [|? ? Db D']; subst.
    inversion D' as [|? ? Dx Dr]; subst. simpl.
    destruct (confidence best <? confidence x) eqn:E.
    + destruct (IH (pre ++ best :: mid) [] x) as (pre' & post' & Eq & H1 & H2).
      * constructor; assumption.
      * apply Forall_app. split; [|constructor].
        -- eapply Forall_impl; [|exact Hpre]. simpl. intros y Hy.
           eapply ltb_trans; eassumption.
        -- exact E.
        -- eapply Forall_impl; [|exact Hmid]. simpl. intros y Hy.
           eapply leb_ltb_trans; eassumption.
      * constructor.
      * exists pre', post'. split; [|auto].
        rewrite <- Eq. rewrite <- !app_assoc. reflexivity.
    + destruct (IH pre (mid ++ [x]) best) as (pre' & post' & Eq & H1 & H2).
      * constructor; assumption.
      * exact Hpre.
      * apply Forall_app. split; [exact Hmid|].
        constructor; [|constructor]. apply leb_total; assumption.
      * exists pre', post'. split; [|auto].
        rewrite <- Eq. rewrite <- !app_assoc. reflexivity.
Qed.

End OrderFacts.

(* ------------------------------------------------------------------ *)
(** * Loops and the category scan *)

Section LoopFacts.

Context {A S : Type}.

Lemma for_each_invariant (I : S -> Prop) (body : S -> A -> result S) xs :
  (forall st x st', In x xs -> I st -> body st x = Ok st' -> I st') ->
  forall st st', I st -> for_each body xs st = Ok st' -> I st'.
Proof.
  induction xs as [|x xs IH]; simpl; intros Hbody st st' Hst E.
  - inversion E; subst; exact Hst.
  - destruct (body st x) as [st1|e] eqn:E1; simpl in E; [|discriminate].
    eapply IH; [| |exact E].
    + intros; eapply Hbody; eauto.
    + eapply Hbody; eauto.
Qed.

Lemma fold_left_invariant (I : S -> Prop) (body : S -> A -> S) xs :
  (forall st x, In x xs -> I st -> I (body st x)) ->
  forall st, I st -> I (fold_left body xs st).
Proof.
  induction xs as [|x xs IH]; simpl; intros Hbody st Hst; [exact Hst|].
  apply IH; [intros; apply Hbody; auto|apply Hbody; auto].
Qed.

Lemma for_each_unchanged (body : S -> A -> result S) xs st :
  (forall x, In x xs -> body st x = Ok st) -> for_each body xs st = Ok st.
Proof.
  induction xs as [|x xs IH]; simpl; intros H; [reflexivity|].
  rewrite H by auto. simpl. apply IH. auto.
Qed.

Lemma fold_left_unchanged (body : S -> A -> S) xs st :
  (forall x, In x xs -> body st x = st) -> fold_left body xs st = st.
Proof.
  induction xs as [|x xs IH]; simpl; intros H; [reflexivity|].
  rewrite H by auto. apply IH. auto.
Qed.

End LoopFacts.

(** ** The filename channel: [is_file()], then the step *)

Section NameScanFacts.

Context {F : Type} {SF : Score F}.
Local Open Scope score_scope.

Lemma Path_is_file_Ok e b : Path_is_file e = Ok b -> b = is_file e.
Proof.
  unfold Path_is_file. destruct (node_of e); intros E; inversion E; reflexivity.
Qed.

Lemma Path_is_file_cases e :
  Path_is_file e = Ok (is_file e) \/ Path_is_file e = Raise PermissionError.
Proof. unfold Path_is_file. destruct (node_of e); auto. Qed.

Lemma languages_name_after_stat pattern (ev : evidence (F:=F)) f :
  languages_name pattern ev f
  = (_ <- Path_is_file f ;; Ok (languages_name_step pattern ev f)).
Proof.
  destruct ev as [c fs]. unfold languages_name, languages_name_step.
  destruct (Path_is_file f) as [b|e] eqn:E; [|reflexivity].
  apply Path_is_file_Ok in E. subst b. cbn [bind].
  destruct (is_file f && re_search pattern (name_of f)); reflexivity.
Qed.

Lemma test_tools_name_after_stat pattern (ev : evidence (F:=F)) f :
  test_tools_name pattern ev f
  = (_ <- Path_is_file f ;; Ok (test_tools_name_step pattern ev f)).
Proof.
  destruct ev as [c fs]. unfold test_tools_name, test_tools_name_step.
  destruct (Path_is_file f) as [b|e] eqn:E; [|reflexivity].
  apply Path_is_file_Ok in E. subst b. cbn [bind].
  destruct (is_file f && re_search pattern (name_of f)); reflexivity.
Qed.

Section AfterStat.

Variable step : string -> evidence (F:=F) -> entry -> result (evidence (F:=F)).
Variable b : string -> evidence (F:=F) -> entry -> evidence (F:=F).
Hypothesis step_after_stat :
  forall p ev f, step p ev f = (_ <- Path_is_file f ;; Ok (b p ev f)).

Lemma one_name_scan_Ok ms p ev ev' :
  for_each (step p) ms ev = Ok ev' ->
  ev' = fold_left (b p) ms ev /\ stat_allowed ms.
Proof.
  revert ev. induction ms as [|f ms IH]; simpl; intros ev E.
  - inversion E. split; [reflexivity|intros ? []].
  - rewrite step_after_stat in E.
    destruct (Path_is_file_cases f) as [Ef|Ef]; rewrite Ef in E;
      cbn [bind] in E; [|discriminate].
    destruct (IH _ E) as [-> H]. split; [reflexivity|].
    intros f' [<-|Hin]; [exact Ef|apply H, Hin].
Qed.

Lemma one_name_scan_total ms p ev :
  stat_allowed ms -> for_each (step p) ms ev = Ok (fold_left (b p) ms ev).
Proof.
  revert ev. induction ms as [|f ms IH]; simpl; intros ev H; [reflexivity|].
  rewrite step_after_stat, (H f) by (left; reflexivity). cbn [bind].
  apply IH. intros f' Hin. apply H. right. exact Hin.
Qed.

Lemma one_name_scan_raise ms p ev e :
  for_each (step p) ms ev = Raise e ->
  exists f, In f ms /\ Path_is_file f = Raise e.
Proof.
  revert ev. induction ms as [|f ms IH]; simpl; intros ev E; [discriminate|].
  rewrite step_after_stat in E.
  destruct (Path_is_file f) as [r|e'] eqn:Ef; cbn [bind] in E.
  - destruct (IH _ E) as (f' & Hin & Hf). eauto.
  - inversion E; subst. eauto.
Qed.

Lemma name_scans_Ok ms ps ev ev' :
  for_each (fun ev p => for_each (step p) ms ev) ps ev = Ok ev' ->
  ev' = fold_left (fun ev p => fold_left (b p) ms ev) ps ev /\
  (ps <> [] -> stat_allowed ms).
Proof.
  revert ev. induction ps as [|p ps IH]; simpl; intros ev E.
  - inversion E. split; [reflexivity|congruence].
  - destruct (for_each (step p) ms ev) as [ev1|e] eqn:E1; cbn [bind] in E;
      [|discriminate].
    destruct (one_name_scan_Ok _ _ _ E1) as [-> H].
    destruct (IH _ E) as [-> _]. split; [reflexivity|]. intros _. exact H.
Qed.

Lemma name_scans_total ms ps ev :
  ps = [] \/ stat_allowed ms ->
  for_each (fun ev p => for_each (step p) ms ev) ps ev
  = Ok (fold_left (fun ev p => fold_left (b p) ms ev) ps ev).
Proof.
  intros [->|H]; [reflexivity|].
  revert ev. induction ps as [|p ps IH]; simpl; intros ev; [reflexivity|].
  rewrite one_name_scan_total by exact H. cbn [bind]. apply IH.
Qed.

Lemma name_scans_raise ms ps ev e :
  for_each (fun ev p => for_each (step p) ms ev) ps ev = Raise e ->
  ps <> [] /\ exists f, In f ms /\ Path_is_file f = Raise e.
Proof.
  revert ev. induction ps as [|p ps IH]; simpl; intros ev E; [discriminate|].
  split; [discriminate|].
  destruct (for_each (step p) ms ev) as [ev1|e'] eqn:E1; cbn [bind] in E.
  - apply IH in E. tauto.
  - inversion E; subst. eapply one_name_scan_raise, E1.
Qed.

End AfterStat.

End NameScanFacts.

Section ScanFacts.

Context {F : Type} {SF : Score F}.
Local Open Scope score_scope.

Lemma emit_spec acc n (ev : evidence (F:=F)) :
  emit acc n ev
  = if f_zero <? fst ev then acc ++ [detected n ev] else acc.
Proof. destruct ev; reflexivity. Qed.

Section OneCategory.

Context {R : Type} (eval : string -> R -> result (evidence (F:=F))).

(** every item of the result comes from a rule with positive evidence *)
Lemma scan_rules_origin rules acc L :
  scan_rules eval rules acc = Ok L ->
  forall x, In x L ->
    In x acc \/
    exists r ev, In (name x, r) rules /\ eval (name x) r = Ok ev /\
                 (f_zero <? fst ev) = true /\ x = detected (name x) ev.
Proof.
  revert acc. induction rules as [|[n r] rules IH]; simpl; intros acc E x Hx.
  - inversion E; subst. auto.
  - destruct (eval n r) as [ev|e] eqn:Ev; simpl in E; [|discriminate].
    destruct (IH _ E x Hx) as [Hacc|(r' & ev' & Hin & He & Hp & Hd)].
    + rewrite emit_spec in Hacc.
      destruct (f_zero <? fst ev) eqn:Hp; [|auto].
      apply in_app_or in Hacc. destruct Hacc as [?|[<-|[]]]; [auto|].
      right. exists r, ev. simpl. auto.
    + right. exists r', ev'. auto.
Qed.

(** a rule with positive evidence is in the result *)
Lemma scan_rules_complete rules acc L :
  scan_rules eval rules acc = Ok L ->
  (forall x, In x acc -> In x L) /\
  forall n r, In (n, r) rules ->
    exists ev, eval n r = Ok ev /\
               ((f_zero <? fst ev) = true -> In (detected n ev) L).
Proof.
  revert acc. induction rules as [|[n r] rules IH]; simpl; intros acc E.
  - inversion E; subst. split; [auto|intros ? ? []].
  - destruct (eval n r) as [ev|e] eqn:Ev; simpl in E; [|discriminate].
    destruct (IH _ E) as [Hacc Hrules]. rewrite emit_spec in Hacc.
    split.
    + intros x Hx. apply Hacc.
      destruct (f_zero <? fst ev); [apply in_or_app|]; auto.
    + intros n' r' [Eq|Hin]; [|auto].
      inversion Eq; subst. exists ev. split; [exact Ev|].
      intros Hp. apply Hacc. rewrite Hp. apply in_or_app. simpl. auto.
Qed.

(** the scan raises only if the evaluation of some rule does *)
Lemma scan_rules_total rules acc :
  (forall n r, In (n, r) rules -> exists ev, eval n r = Ok ev) ->
  exists L, scan_rules eval rules acc = Ok L.
Proof.
  revert acc. induction rules as [|[n r] rules IH]; simpl; intros acc H.
  - eauto.
  - destruct (H n r) as [ev ->]; [auto|]. simpl. apply IH. eauto.
Qed.

(** the result lists its items in the order of the rules *)
Lemma scan_rules_order rules acc L :
  scan_rules eval rules acc = Ok L ->
  exists L', L = acc ++ L' /\ subsequence (map name L') (map fst rules).
Proof.
  revert acc. induction rules as [|[n r] rules IH]; simpl; intros acc E.
  - inversion E; subst. exists []. rewrite app_nil_r. split; [auto|constructor].
  - destruct (eval n r) as [ev|e] eqn:Ev; simpl in E; [|discriminate].
    destruct (IH _ E) as (L' & -> & Hsub). rewrite emit_spec.
    destruct (f_zero <? fst ev).
    + exists (detected n ev :: L'). rewrite <- app_assoc. split; [reflexivity|].
      simpl. constructor. exact Hsub.
    + exists L'. split; [reflexivity|]. constructor. exact Hsub.
Qed.

End OneCategory.

(** ** Evidence is grounded: a positive score comes with a file *)

Lemma extend_nonempty (found_files : list string) cap e (matches : list entry) :
  extend found_files (Datatypes.S cap) (e :: matches) <> [].
Proof. unfold extend. simpl. destruct found_files; discriminate. Qed.

Lemma append_nonempty (found_files : list string) (p : string) :
  found_files ++ [p] <> [].
Proof. destruct found_files; discriminate. Qed.

Lemma mem_string_nonempty (p : string) (found_files : list string) :
  mem_string p found_files = true -> found_files <> [].
Proof. destruct found_files; [discriminate|discriminate]. Qed.

Lemma grounded_no_evidence : grounded no_evidence.
Proof. intros _. reflexivity. Qed.

Lemma grounded_nonempty (c : F) (fs : list string) :
  fs <> [] -> grounded (c, fs).
Proof. intros H E. simpl in E. congruence. Qed.

Lemma flat_trigger_grounded t inc ev p :
  grounded ev -> grounded (flat_trigger t inc ev p).
Proof.
  destruct ev as [c fs]. unfold flat_trigger.
  destruct (rglob t p) as [|e ms]; [auto|].
  intros _. apply grounded_nonempty, extend_nonempty.
Qed.

Lemma languages_trigger_grounded t ev p :
  grounded ev -> grounded (languages_trigger t ev p).
Proof.
  destruct ev as [c fs]. unfold languages_trigger.
  destruct (rglob t p) as [|e ms]; [auto|].
  intros _. apply grounded_nonempty, extend_nonempty.
Qed.

Lemma languages_name_grounded pattern ev f :
  grounded ev -> grounded (languages_name_step pattern ev f).
Proof.
  destruct ev as [c fs]. unfold languages_name_step.
  destruct (is_file f && re_search pattern (name_of f)); [|auto].
  intros _. apply grounded_nonempty.
  destruct (mem_string (rel_path f) fs) eqn:E.
  - eapply mem_string_nonempty, E.
  - apply append_nonempty.
Qed.

Lemma test_tools_name_grounded pattern ev f :
  grounded ev -> grounded (test_tools_name_step pattern ev f).
Proof.
  destruct ev as [c fs]. unfold test_tools_name_step.
  destruct (is_file f && re_search pattern (name_of f)); [|auto].
  intros _. apply grounded_nonempty, append_nonempty.
Qed.

Lemma content_hit_grounded inc dedupe cps ev f ev' :
  grounded ev -> content_hit inc dedupe cps ev f = Ok ev' -> grounded ev'.
Proof.
  destruct ev as [c fs]. unfold content_hit.
  destruct (read_text f) as [content|[]]; try discriminate;
    try (intros G E; inversion E; subst; exact G).
  destruct (existsb _ cps); intros G E; inversion E; subst; [|exact G].
  apply grounded_nonempty.
  destruct (dedupe && mem_string (rel_path f) fs) eqn:M.
  - apply andb_true_iff in M. eapply mem_string_nonempty, M.
  - apply append_nonempty.
Qed.

Lemma content_scan_grounded inc dedupe cps ms ev ev' :
  grounded ev ->
  for_each (content_hit inc dedupe cps) ms ev = Ok ev' -> grounded ev'.
Proof.
  apply for_each_invariant. intros st x st' _. apply content_hit_grounded.
Qed.

Lemma extension_scan_grounded t dedupe cps exts ev ev' :
  grounded ev -> extension_scan t dedupe cps exts ev = Ok ev' -> grounded ev'.
Proof.
  apply for_each_invariant. intros st x st' _. apply content_scan_grounded.
Qed.

Lemma languages_rule_grounded t n r ev :
  languages_rule t n r = Ok ev -> grounded ev.
Proof.
  unfold languages_rule. destruct (r_files r) as [fps|]; [|discriminate].
  intros E. apply (name_scans_Ok _ _ languages_name_after_stat) in E.
  destruct E as [-> _].
  apply fold_left_invariant.
  - intros st pattern _. apply fold_left_invariant.
    intros st' f _. apply languages_name_grounded.
  - apply fold_left_invariant; [|apply grounded_no_evidence].
    intros st p _. apply languages_trigger_grounded.
Qed.

Lemma frameworks_trigger_grounded t r ev p ev' :
  grounded ev -> frameworks_trigger t r ev p = Ok ev' -> grounded ev'.
Proof.
  destruct ev as [c fs]. unfold frameworks_trigger.
  destruct (rglob t p) as [|e ms]; [intros G E; inversion E; subst; exact G|].
  destruct (r_content_patterns r) as [cps|].
  - apply content_scan_grounded.
  - intros _ E. inversion E; subst. apply grounded_nonempty, extend_nonempty.
Qed.

Lemma frameworks_rule_grounded t n r ev :
  frameworks_rule t n r = Ok ev -> grounded ev.
Proof.
  unfold frameworks_rule.
  destruct (for_each _ _ _) as [ev0|e] eqn:E0; simpl; [|discriminate].
  assert (G0 : grounded ev0).
  { revert E0. apply for_each_invariant; [|apply grounded_no_evidence].
    intros st p st' _. apply frameworks_trigger_grounded. }
  destruct (r_content_patterns r) as [cps|];
    [|intros E; inversion E; subst; exact G0].
  destruct (snd ev0); [|intros E; inversion E; subst; exact G0].
  destruct (lookup_string _ _) as [exts|];
    [|intros E; inversion E; subst; exact G0].
  apply extension_scan_grounded, G0.
Qed.

Lemma test_tools_rule_grounded t n r ev :
  test_tools_rule t n r = Ok ev -> grounded ev.
Proof.
  unfold test_tools_rule.
  destruct (for_each _ (get_list (r_patterns r)) _) as [ev0|e] eqn:E0;
    cbn [bind]; [|discriminate].
  apply (name_scans_Ok _ _ test_tools_name_after_stat) in E0.
  destruct E0 as [E0 _].
  assert (G0 : grounded ev0).
  { rewrite E0. apply fold_left_invariant.
    - intros st pattern _. apply fold_left_invariant.
      intros st' f _. apply test_tools_name_grounded.
    - apply fold_left_invariant; [|apply grounded_no_evidence].
      intros st p _. apply flat_trigger_grounded. }
  clear E0.
  destruct (r_content_patterns r) as [cps|];
    [|intros E; inversion E; subst; exact G0].
  destruct (lookup_string _ _) as [exts|];
    [|intros E; inversion E; subst; exact G0].
  apply extension_scan_grounded, G0.
Qed.

Lemma flat_rule_grounded t inc ps :
  grounded (fold_left (flat_trigger t inc) ps no_evidence).
Proof.
  apply fold_left_invariant; [|apply grounded_no_evidence].
  intros st p _. apply flat_trigger_grounded.
Qed.

Lemma build_tools_rule_grounded t n r ev :
  build_tools_rule t n r = Ok ev -> grounded ev.
Proof. intros E. inversion E. apply flat_rule_grounded. Qed.

Lemma package_managers_rule_grounded t n fns ev :
  package_managers_rule t n fns = Ok ev -> grounded ev.
Proof. intros E. inversion E. apply flat_rule_grounded. Qed.

Lemma kubernetes_hit_grounded cps ev m ev' :
  grounded ev -> kubernetes_hit cps ev m = Ok ev' -> grounded ev'.
Proof.
  unfold kubernetes_hit. destruct (mem_string _ _).
  - apply content_hit_grounded.
  - intros G E. inversion E; subst. exact G.
Qed.

Lemma containers_rule_grounded t n r ev :
  containers_rule t n r = Ok ev -> grounded ev.
Proof.
  apply for_each_invariant; [|apply grounded_no_evidence].
  intros [c fs] p st' _ G. unfold containers_trigger.
  destruct (rglob t p) as [|e ms]; [intros E; inversion E; subst; exact G|].
  destruct (String.eqb n "kubernetes"), (r_content_patterns r) as [cps|];
    try (intros E; inversion E; subst; apply grounded_nonempty, extend_nonempty).
  revert G. apply for_each_invariant.
  intros st x st2 _. apply kubernetes_hit_grounded.
Qed.

Lemma infrastructure_rule_grounded t n r ev :
  infrastructure_rule t n r = Ok ev -> grounded ev.
Proof.
  apply for_each_invariant; [|apply grounded_no_evidence].
  intros [c fs] p st' _ G. unfold infrastructure_trigger.
  destruct (rglob t p) as [|e ms]; [intros E; inversion E; subst; exact G|].
  destruct (r_content_patterns r) as [cps|].
  - revert G. apply content_scan_grounded.
  - intros E; inversion E; subst. apply grounded_nonempty, extend_nonempty.
Qed.

End ScanFacts.

(* ------------------------------------------------------------------ *)
(** * Rules without evidence *)

Section NoMatch.

Context {F : Type} {SF : Score F}.
Local Open Scope score_scope.

Lemma rglob_In t p e : In e (rglob t p) -> In e t.
Proof. unfold rglob. intros H. apply filter_In in H. tauto. Qed.

Lemma existsb_none {A} (f : A -> bool) l :
  (forall x, In x l -> f x = false) -> existsb f l = false.
Proof.
  induction l as [|x l IH]; simpl; intros H; [reflexivity|].
  rewrite H by auto. simpl. apply IH. auto.
Qed.

Lemma flat_rule_no_match t inc ps :
  (forall p, In p ps -> rglob t p = []) ->
  fold_left (flat_trigger t inc) ps no_evidence = no_evidence (F:=F).
Proof.
  intros H. apply fold_left_unchanged. intros p Hp.
  unfold flat_trigger, no_evidence. rewrite (H p Hp). reflexivity.
Qed.

Lemma name_scan_no_match (step : string -> evidence (F:=F) -> entry -> evidence)
  t ps ev :
  (forall p e, In p ps -> In e t -> step p ev e = ev) ->
  fold_left (fun ev pattern => fold_left (step pattern) (rglob t "*") ev) ps ev
  = ev.
Proof.
  intros H. apply fold_left_unchanged. intros p Hp.
  apply fold_left_unchanged. intros e He. apply H; [exact Hp|].
  eapply rglob_In, He.
Qed.

Lemma content_hit_no_match inc dedupe cps (ev : evidence (F:=F)) f :
  (forall p s, In p cps -> read_text f = Ok s -> re_search p s = false) ->
  (forall e, read_text f = Raise e ->
             e = UnicodeDecodeError \/ e = PermissionError) ->
  content_hit inc dedupe cps ev f = Ok ev.
Proof.
  intros H Hr. destruct ev as [c fs]. unfold content_hit.
  destruct (read_text f) as [s|e].
  - rewrite existsb_none; [reflexivity|]. intros p Hp. apply H; auto.
  - destruct (Hr e eq_refl) as [-> | ->]; reflexivity.
Qed.

(** without a content match, a content scan changes nothing, if it
    completes *)
Lemma content_scan_no_match inc dedupe cps ms (ev ev' : evidence (F:=F)) :
  (forall p f s, In p cps -> In f ms -> read_text f = Ok s ->
                 re_search p s = false) ->
  for_each (content_hit inc dedupe cps) ms ev = Ok ev' -> ev' = ev.
Proof.
  intros H E0.
  eapply (for_each_invariant (fun st => st = ev)); [|reflexivity|exact E0].
  intros st f st' Hf -> E. destruct ev as [c fs]. unfold content_hit in E.
  destruct (read_text f) as [s|e] eqn:Er.
  - rewrite existsb_none in E; [congruence|].
    intros p Hp. eapply H; eauto.
  - destruct e; congruence.
Qed.

Lemma extension_scan_no_match t dedupe cps exts (ev ev' : evidence (F:=F)) :
  (forall p f s, In p cps -> In f t -> read_text f = Ok s ->
                 re_search p s = false) ->
  extension_scan t dedupe cps exts ev = Ok ev' -> ev' = ev.
Proof.
  intros H E0.
  eapply (for_each_invariant (fun st => st = ev)); [|reflexivity|exact E0].
  intros st ext st' _ -> E. eapply content_scan_no_match; [|exact E].
  intros p f s Hp Hf. apply H; [exact Hp|]. eapply rglob_In, Hf.
Qed.

Lemma languages_rule_no_match t n r ev :
  no_match t r -> languages_rule t n r = Ok ev -> ev = no_evidence.
Proof.
  intros (Hf & Hn & _). unfold languages_rule.
  destruct (r_files r) as [fps|] eqn:Ef; [|discriminate].
  intros E. apply (name_scans_Ok _ _ languages_name_after_stat) in E.
  destruct E as [-> _].
  assert (E0 : fold_left (languages_trigger t) fps no_evidence = no_evidence).
  { apply fold_left_unchanged. intros p Hp.
    unfold languages_trigger, no_evidence. rewrite Hf; [reflexivity|].
    exact Hp. }
  rewrite E0. apply name_scan_no_match. intros p e Hp He.
  unfold languages_name_step, no_evidence.
  destruct (is_file e) eqn:Efile; [|reflexivity].
  rewrite (Hn p e Hp He Efile). reflexivity.
Qed.

Lemma frameworks_rule_no_match t n r ev :
  no_match t r -> frameworks_rule t n r = Ok ev -> ev = no_evidence.
Proof.
  intros (Hf & _ & Hc). unfold frameworks_rule.
  rewrite for_each_unchanged.
  2:{ intros p Hp. unfold frameworks_trigger, no_evidence.
      rewrite (Hf p Hp). reflexivity. }
  cbn [bind no_evidence snd].
  destruct (r_content_patterns r) as [cps|]; [|congruence].
  destruct (lookup_string _ _) as [exts|]; [|congruence].
  apply extension_scan_no_match. exact Hc.
Qed.

Lemma test_tools_rule_no_match t n r ev :
  no_match t r -> test_tools_rule t n r = Ok ev -> ev = no_evidence.
Proof.
  intros (Hf & Hn & Hc). unfold test_tools_rule, test_tools_trigger.
  rewrite flat_rule_no_match by exact Hf.
  destruct (for_each _ (get_list (r_patterns r)) _) as [ev0|e] eqn:E0;
    cbn [bind]; [|discriminate].
  apply (name_scans_Ok _ _ test_tools_name_after_stat) in E0.
  destruct E0 as [E0 _]. rewrite name_scan_no_match in E0.
  2:{ intros p e Hp He. unfold test_tools_name_step, no_evidence.
      destruct (is_file e) eqn:Efile; [|reflexivity].
      rewrite (Hn p e Hp He Efile). reflexivity. }
  subst ev0.
  destruct (r_content_patterns r) as [cps|]; [|congruence].
  destruct (lookup_string _ _) as [exts|]; [|congruence].
  apply extension_scan_no_match. exact Hc.
Qed.

Lemma build_tools_rule_no_match t n r ev :
  no_match t r -> build_tools_rule t n r = Ok ev -> ev = no_evidence.
Proof.
  intros (Hf & _). unfold build_tools_rule, build_tools_trigger.
  rewrite flat_rule_no_match by exact Hf. congruence.
Qed.

Lemma package_managers_rule_no_match t n fns ev :
  no_match t (pm_rule fns) ->
  package_managers_rule t n fns = Ok ev -> ev = no_evidence.
Proof.
  intros (Hf & _). unfold package_managers_rule, package_managers_trigger.
  rewrite flat_rule_no_match by exact Hf. congruence.
Qed.

Lemma containers_rule_no_match t n r ev :
  no_match t r -> containers_rule t n r = Ok ev -> ev = no_evidence.
Proof.
  intros (Hf & _). unfold containers_rule.
  rewrite for_each_unchanged; [congruence|].
  intros p Hp. unfold containers_trigger, no_evidence.
  rewrite (Hf p Hp). reflexivity.
Qed.

Lemma infrastructure_rule_no_match t n r ev :
  no_match t r -> infrastructure_rule t n r = Ok ev -> ev = no_evidence.
Proof.
  intros (Hf & _). unfold infrastructure_rule.
  rewrite for_each_unchanged; [congruence|].
  intros p Hp. unfold infrastructure_trigger, no_evidence.
  rewrite (Hf p Hp). reflexivity.
Qed.

End NoMatch.

(* ------------------------------------------------------------------ *)
(** * The shape of a scan result *)

Section ResultShape.

Context {F : Type} {SF : Score F}.
Local Open Scope score_scope.

Lemma scan_repository_inv dr fs path (a : RepoAnalysis F) :
  scan_repository dr fs path = Ok a ->
  exists o, fs_lookup fs (fs_resolve fs path) = Some o /\
    _detect_languages dr (listing o) = Ok (languages a) /\
    _detect_frameworks dr (listing o) = Ok (frameworks a) /\
    _detect_test_tools dr (listing o) = Ok (test_tools a) /\
    _detect_build_tools dr (listing o) = Ok (build_tools a) /\
    _detect_containers dr (listing o) = Ok (containers a) /\
    _detect_infrastructure dr (listing o) = Ok (infrastructure a) /\
    _detect_package_managers (listing o) = Ok (package_managers a) /\
    repo_path a = fs_resolve fs path /\
    primary_language a = option_map name (max_confidence (languages a)).
Proof.
  unfold scan_repository.
  destruct (fs_lookup fs (fs_resolve fs path)) as [o|] eqn:EL; [|discriminate].
  destruct (_detect_languages dr (listing o)) as [l1|] eqn:E1;
    cbn [bind]; [|discriminate].
  destruct (_detect_frameworks dr (listing o)) as [l2|] eqn:E2;
    cbn [bind]; [|discriminate].
  destruct (_detect_test_tools dr (listing o)) as [l3|] eqn:E3;
    cbn [bind]; [|discriminate].
  destruct (_detect_build_tools dr (listing o)) as [l4|] eqn:E4;
    cbn [bind]; [|discriminate].
  destruct (_detect_containers dr (listing o)) as [l5|] eqn:E5;
    cbn [bind]; [|discriminate].
  destruct (_detect_infrastructure dr (listing o)) as [l6|] eqn:E6;
    cbn [bind]; [|discriminate].
  destruct (_detect_package_managers (listing o)) as [l7|] eqn:E7;
    cbn [bind]; [|discriminate].
  intros E. inversion E; subst; clear E. exists o.
  cbn [languages frameworks test_tools build_tools containers infrastructure
       package_managers repo_path primary_language].
  split; [reflexivity|]. do 7 (split; [assumption|]).
  split; [reflexivity|]. destruct l1; reflexivity.
Qed.

Lemma detect_scanned {R} (eval : string -> R -> result (evidence (F:=F)))
  rules L :
  (L0 <- scan_rules eval rules [] ;; Ok (sorted_desc L0)) = Ok L ->
  scanned eval rules L.
Proof.
  destruct (scan_rules eval rules []) as [L0|] eqn:E; simpl; [|discriminate].
  intros E'. inversion E'; subst. exists L0. auto.
Qed.

Lemma as_category_id (rules : category) : as_category (fun r => r) rules = rules.
Proof.
  induction rules as [|[n r] rules IH]; simpl; [reflexivity|].
  f_equal. exact IH.
Qed.

(** a property shared by the seven scanners holds of every category list *)
Lemma each_category
  (P : tree -> list (DetectedTechnology F) -> category -> Prop) :
  (forall R t (as_rule : R -> rule) eval rules L,
      sound_eval t as_rule eval -> scanned eval rules L ->
      P t L (as_category as_rule rules)) ->
  forall dr fs path (a : RepoAnalysis F) o,
    scan_repository dr fs path = Ok a ->
    fs_lookup fs (fs_resolve fs path) = Some o ->
    forall L cat, In (L, cat) (rule_lists dr a) -> P (listing o) L cat.
Proof.
  intros HP dr fs path a o E EL L cat Hin.
  destruct (scan_repository_inv _ _ _ E)
    as (o' & EL' & E1 & E2 & E3 & E4 & E5 & E6 & E7 & _).
  rewrite EL in EL'. inversion EL'; subst o'; clear EL'.
  cbn [rule_lists In] in Hin.
  destruct Hin as [Eq|[Eq|[Eq|[Eq|[Eq|[Eq|[Eq|[]]]]]]]];
    inversion Eq; subst; clear Eq.
  - rewrite <- as_category_id.
    eapply HP; [|apply detect_scanned, E1]. split; intros n r ev.
    + apply languages_rule_grounded.
    + intros H1 H2. eapply languages_rule_no_match; eassumption.
  - rewrite <- as_category_id.
    eapply HP; [|apply detect_scanned, E2]. split; intros n r ev.
    + apply frameworks_rule_grounded.
    + intros H1 H2. eapply frameworks_rule_no_match; eassumption.
  - rewrite <- as_category_id.
    eapply HP; [|apply detect_scanned, E3]. split; intros n r ev.
    + apply test_tools_rule_grounded.
    + intros H1 H2. eapply test_tools_rule_no_match; eassumption.
  - rewrite <- as_category_id.
    eapply HP; [|apply detect_scanned, E4]. split; intros n r ev.
    + apply build_tools_rule_grounded.
    + intros H1 H2. eapply build_tools_rule_no_match; eassumption.
  - rewrite <- as_category_id.
    eapply HP; [|apply detect_scanned, E5]. split; intros n r ev.
    + apply containers_rule_grounded.
    + intros H1 H2. eapply containers_rule_no_match; eassumption.
  - rewrite <- as_category_id.
    eapply HP; [|apply detect_scanned, E6]. split; intros n r ev.
    + apply infrastructure_rule_grounded.
    + intros H1 H2. eapply infrastructure_rule_no_match; eassumption.
  - change (P (listing o) (package_managers a) (as_category pm_rule pm_files)).
    eapply HP; [|apply detect_scanned, E7]. split; intros n r ev.
    + apply package_managers_rule_grounded.
    + intros H1 H2. eapply package_managers_rule_no_match; eassumption.
Qed.

End ResultShape.

(* ------------------------------------------------------------------ *)
(** * Facts about one category list *)

Section SubsequenceFacts.

Context {A B : Type}.

Lemma subsequence_refl (l : list A) : subsequence l l.
Proof. induction l; constructor; assumption. Qed.

Lemma subsequence_trans (l1 l2 l3 : list A) :
  subsequence l1 l2 -> subsequence l2 l3 -> subsequence l1 l3.
Proof.
  intros H12 H23. revert l1 H12.
  induction H23 as [|x l2 l3 H23 IH|x l2 l3 H23 IH]; intros l1 H12.
  - exact H12.
  - inversion H12; subst; constructor; auto.
  - constructor. auto.
Qed.

Lemma subsequence_filter_map (f : A -> B) (p : A -> bool) (l : list A) :
  subsequence (map f (filter p l)) (map f l).
Proof.
  induction l as [|x l IH]; simpl; [constructor|].
  destruct (p x); simpl; constructor; exact IH.
Qed.

End SubsequenceFacts.

Section CategoryFacts.

Context {F : Type} {SF : Score F} {SO : ScoreOrder F}.
Context {R : Type} (t : tree) (as_rule : R -> rule).
Context (eval : string -> R -> result (evidence (F:=F))).
Context (rules : list (string * R)) (L : list (DetectedTechnology F)).
Hypothesis eval_sound : sound_eval t as_rule eval.
Hypothesis L_scanned : scanned eval rules L.
Local Open Scope score_scope.

Lemma scanned_origin (x : DetectedTechnology F) :
  In x L ->
  exists r ev, In (name x, r) rules /\ eval (name x) r = Ok ev /\
               (f_zero <? fst ev) = true /\ x = detected (name x) ev.
Proof.
  destruct L_scanned as (L0 & E & ->). intros Hx.
  apply (proj1 (sorted_desc_In _ _)) in Hx.
  destruct (scan_rules_origin _ _ _ E x Hx) as [[]|H]. exact H.
Qed.

Lemma scanned_bounds (x : DetectedTechnology F) :
  In x L ->
  (f_zero <? confidence x) = true /\ (confidence x <=? f_one) = true.
Proof.
  intros Hx. destruct (scanned_origin x Hx) as (r & ev & _ & _ & Hp & ->).
  apply py_min_bounds, Hp.
Qed.

Lemma scanned_defined :
  Forall (fun x => defined (confidence x)) L.
Proof.
  apply Forall_forall. intros x Hx.
  exact (proj2 (ltb_defined _ _ (proj1 (scanned_bounds x Hx)))).
Qed.

Lemma scanned_files (x : DetectedTechnology F) : In x L -> files x <> [].
Proof.
  intros Hx. destruct (scanned_origin x Hx) as (r & ev & _ & E & Hp & ->).
  simpl. intros Hnil. rewrite (se_grounded eval_sound _ _ E Hnil) in Hp.
  rewrite zero_not_positive in Hp. discriminate.
Qed.

Lemma scanned_descending : descending L.
Proof.
  pose proof scanned_defined as D.
  destruct L_scanned as (L0 & E & ->).
  apply sorted_desc_descending, Forall_forall. intros x Hx.
  rewrite Forall_forall in D. apply D, sorted_desc_In, Hx.
Qed.

Lemma as_category_names : map fst (as_category as_rule rules) = map fst rules.
Proof. unfold as_category. rewrite map_map. reflexivity. Qed.

Lemma scanned_stable (c : F) :
  subsequence (map name (filter (same_confidence c) L))
              (map fst (as_category as_rule rules)).
Proof.
  rewrite as_category_names.
  destruct L_scanned as (L0 & E & ->). rewrite sorted_desc_stable.
  destruct (scan_rules_order _ _ _ E) as (L' & -> & Hsub). simpl.
  eapply subsequence_trans; [apply subsequence_filter_map|exact Hsub].
Qed.

Lemma scanned_no_match (n : string) :
  (forall r, In (n, r) (as_category as_rule rules) -> no_match t r) ->
  forall x, In x L -> name x <> n.
Proof.
  intros H x Hx <-.
  destruct (scanned_origin x Hx) as (r & ev & Hin & E & Hp & _).
  assert (Hr : no_match t (as_rule r)).
  { apply H. unfold as_category. apply in_map_iff.
    exists (name x, r). auto. }
  rewrite (se_no_match eval_sound _ _ E Hr) in Hp. simpl in Hp.
  rewrite zero_not_positive in Hp. discriminate.
Qed.

End CategoryFacts.

Section PrimaryLanguage.

Context {F : Type} {SF : Score F} {SO : ScoreOrder F}.
Local Open Scope score_scope.

Lemma max_confidence_spec (l : list (DetectedTechnology F)) :
  Forall (fun x => defined (confidence x)) l ->
  match max_confidence l with
  | None => l = []
  | Some best =>
      exists pre post, l = pre ++ best :: post /\
        Forall (fun y => (confidence y <? confidence best) = true) pre /\
        Forall (fun y => (confidence y <=? confidence best) = true) post
  end.
Proof.
  destruct l as [|x rest]; simpl; [reflexivity|]. intros D.
  destruct (max_confidence_from_spec (pre:=[]) (mid:=[]) D
              (Forall_nil _) (Forall_nil _)) as (pre & post & E & H1 & H2).
  exists pre, post. auto.
Qed.

End PrimaryLanguage.

(* ------------------------------------------------------------------ *)
(** * Changing what the files hold *)

Section View.

Context {F : Type} {SF : Score F}.
Variable f : entry -> entry.
Hypothesis f_path : forall e, rel_path (f e) = rel_path e.
Hypothesis f_same : forall e, same_kind (f e) e.

Lemma f_kind e : is_file (f e) = is_file e.
Proof.
  pose proof (f_same e) as H. unfold same_kind, is_file in *.
  destruct (node_of (f e)), (node_of e); try discriminate; reflexivity.
Qed.

Lemma view_stat e : Path_is_file (f e) = Path_is_file e.
Proof.
  pose proof (f_same e) as H. unfold same_kind, Path_is_file, is_file in *.
  destruct (node_of (f e)), (node_of e); try discriminate; reflexivity.
Qed.

Lemma view_name e : name_of (f e) = name_of e.
Proof. unfold name_of. rewrite f_path. reflexivity. Qed.

Lemma view_suffix e : suffix_of (f e) = suffix_of e.
Proof. unfold suffix_of. rewrite view_name. reflexivity. Qed.

Lemma view_glob p e : glob_match p (f e) = glob_match p e.
Proof.
  pose proof (f_same e) as H.
  unfold glob_match, is_dir, found, listed_as_dir, same_kind in *.
  rewrite view_name.
  destruct (node_of (f e)), (node_of e); try discriminate;
    try reflexivity; inversion H; reflexivity.
Qed.

Lemma view_rglob t p : rglob (map f t) p = map f (rglob t p).
Proof.
  unfold rglob. induction t as [|e t IH]; simpl; [reflexivity|].
  rewrite view_glob. destruct (glob_match p e); simpl; rewrite IH; reflexivity.
Qed.

Lemma view_extend fs cap ms : extend fs cap (map f ms) = extend fs cap ms.
Proof.
  unfold extend. f_equal. rewrite firstn_map, map_map.
  apply map_ext. exact f_path.
Qed.

Lemma fold_left_map {A B S} (g : A -> B) (body : S -> B -> S) l st :
  fold_left body (map g l) st = fold_left (fun st x => body st (g x)) l st.
Proof. revert st. induction l; simpl; intros; auto. Qed.

Lemma for_each_map {A B S} (g : A -> B) (body : S -> B -> result S) l st :
  for_each body (map g l) st = for_each (fun st x => body st (g x)) l st.
Proof.
  revert st. induction l as [|x l IH]; simpl; intros st; [reflexivity|].
  destruct (body st (g x)); simpl; auto.
Qed.

Lemma fold_left_ext {A S} (b1 b2 : S -> A -> S) l st :
  (forall st x, In x l -> b1 st x = b2 st x) ->
  fold_left b1 l st = fold_left b2 l st.
Proof.
  revert st. induction l as [|x l IH]; simpl; intros st H; [reflexivity|].
  rewrite H by auto. apply IH. auto.
Qed.

Lemma for_each_ext {A S} (b1 b2 : S -> A -> result S) l st :
  (forall st x, In x l -> b1 st x = b2 st x) ->
  for_each b1 l st = for_each b2 l st.
Proof.
  revert st. induction l as [|x l IH]; simpl; intros st H; [reflexivity|].
  rewrite H by auto. destruct (b2 st x); simpl; auto.
Qed.

Lemma view_flat_trigger t inc (ev : evidence (F:=F)) p :
  flat_trigger (map f t) inc ev p = flat_trigger t inc ev p.
Proof.
  destruct ev as [c fs]. unfold flat_trigger. rewrite view_rglob.
  destruct (rglob t p) as [|e ms] eqn:E; [reflexivity|].
  change (f e :: map f ms) with (map f (e :: ms)).
  rewrite view_extend. reflexivity.
Qed.

Lemma view_languages_trigger t (ev : evidence (F:=F)) p :
  languages_trigger (map f t) ev p = languages_trigger t ev p.
Proof.
  destruct ev as [c fs]. unfold languages_trigger. rewrite view_rglob.
  destruct (rglob t p) as [|e ms] eqn:E; [reflexivity|].
  change (f e :: map f ms) with (map f (e :: ms)).
  rewrite view_extend, length_map. reflexivity.
Qed.

Lemma view_name_scan
  (step : string -> evidence (F:=F) -> entry -> result (evidence (F:=F)))
  t ps ev :
  (forall p ev e, step p ev (f e) = step p ev e) ->
  for_each (fun ev pattern =>
              for_each (step pattern) (rglob (map f t) "*") ev) ps ev
  = for_each (fun ev pattern =>
                for_each (step pattern) (rglob t "*") ev) ps ev.
Proof.
  intros H. apply for_each_ext. intros st p _.
  rewrite view_rglob, for_each_map. apply for_each_ext. auto.
Qed.

Lemma view_languages_rule t n r :
  languages_rule (F:=F) (map f t) n r = languages_rule t n r.
Proof.
  unfold languages_rule. destruct (r_files r) as [fps|]; [|reflexivity].
  rewrite view_name_scan.
  - f_equal. apply fold_left_ext. intros. apply view_languages_trigger.
  - intros p [c fs] e. unfold languages_name.
    rewrite view_stat, view_name, f_path. reflexivity.
Qed.

Lemma view_flat_rule t inc ps :
  fold_left (flat_trigger (map f t) inc) ps (no_evidence (F:=F))
  = fold_left (flat_trigger t inc) ps no_evidence.
Proof. apply fold_left_ext. intros. apply view_flat_trigger. Qed.

(** the content scans, for patterns on which [f] changes no hit *)
Variable same_hits : list string -> Prop.
Hypothesis f_hits : forall cps, same_hits cps ->
  forall inc dedupe (ev : evidence (F:=F)) e,
    content_hit inc dedupe cps ev (f e) = content_hit inc dedupe cps ev e.

Lemma view_content_scan inc dedupe cps ms (ev : evidence (F:=F)) :
  same_hits cps ->
  for_each (content_hit inc dedupe cps) (map f ms) ev
  = for_each (content_hit inc dedupe cps) ms ev.
Proof.
  intros H. rewrite for_each_map. apply for_each_ext. intros. apply f_hits, H.
Qed.

Lemma view_extension_scan t dedupe cps exts (ev : evidence (F:=F)) :
  same_hits cps ->
  extension_scan (map f t) dedupe cps exts ev
  = extension_scan t dedupe cps exts ev.
Proof.
  intros H. unfold extension_scan. apply for_each_ext. intros st ext _.
  rewrite view_rglob. apply view_content_scan, H.
Qed.

Lemma view_frameworks_rule t n r :
  rule_same_hits same_hits r ->
  frameworks_rule (F:=F) (map f t) n r = frameworks_rule t n r.
Proof.
  intros H. unfold frameworks_rule.
  rewrite (for_each_ext (frameworks_trigger (map f t) r)
                        (frameworks_trigger t r)).
  2:{ intros [c fs] p _. unfold frameworks_trigger. rewrite view_rglob.
      destruct (rglob t p) as [|e ms] eqn:E; [reflexivity|].
      change (f e :: map f ms) with (map f (e :: ms)).
      destruct (r_content_patterns r) as [cps|] eqn:Ec.
      - apply view_content_scan, H, Ec.
      - rewrite view_extend. reflexivity. }
  destruct (for_each _ _ _) as [ev|]; [|reflexivity]. cbn [bind].
  destruct (r_content_patterns r) as [cps|] eqn:Ec; [|reflexivity].
  destruct (snd ev); [|reflexivity].
  destruct (lookup_string _ _); [|reflexivity].
  apply view_extension_scan, H, Ec.
Qed.

Lemma view_test_tools_rule t n r :
  rule_same_hits same_hits r ->
  test_tools_rule (F:=F) (map f t) n r = test_tools_rule t n r.
Proof.
  intros H. unfold test_tools_rule, test_tools_trigger.
  rewrite view_flat_rule, view_name_scan.
  2:{ intros p [c fs] e. unfold test_tools_name.
      rewrite view_stat, view_name, f_path. reflexivity. }
  destruct (for_each _ (get_list (r_patterns r)) _) as [ev|]; [|reflexivity].
  cbn [bind].
  destruct (r_content_patterns r) as [cps|] eqn:Ec; [|reflexivity].
  destruct (lookup_string _ _); [|reflexivity].
  apply view_extension_scan, H, Ec.
Qed.

Lemma view_build_tools_rule t n r :
  build_tools_rule (F:=F) (map f t) n r = build_tools_rule t n r.
Proof.
  unfold build_tools_rule, build_tools_trigger. rewrite view_flat_rule.
  reflexivity.
Qed.

Lemma view_package_managers_rule t n fns :
  package_managers_rule (F:=F) (map f t) n fns = package_managers_rule t n fns.
Proof.
  unfold package_managers_rule, package_managers_trigger.
  rewrite view_flat_rule. reflexivity.
Qed.

Lemma view_containers_rule t n r :
  rule_same_hits same_hits r ->
  containers_rule (F:=F) (map f t) n r = containers_rule t n r.
Proof.
  intros H. unfold containers_rule. apply for_each_ext.
  intros [c fs] p _. unfold containers_trigger. rewrite view_rglob.
  destruct (rglob t p) as [|e ms] eqn:E; [reflexivity|].
  change (f e :: map f ms) with (map f (e :: ms)).
  destruct (String.eqb n "kubernetes");
    destruct (r_content_patterns r) as [cps|] eqn:Ec;
    try (rewrite view_extend; reflexivity).
  rewrite for_each_map. apply for_each_ext. intros st x _.
  unfold kubernetes_hit. rewrite view_suffix.
  destruct (mem_string _ _); [|reflexivity]. apply f_hits, H, Ec.
Qed.

Lemma view_infrastructure_rule t n r :
  rule_same_hits same_hits r ->
  infrastructure_rule (F:=F) (map f t) n r = infrastructure_rule t n r.
Proof.
  intros H. unfold infrastructure_rule. apply for_each_ext.
  intros [c fs] p _. unfold infrastructure_trigger. rewrite view_rglob.
  destruct (rglob t p) as [|e ms] eqn:E; [reflexivity|].
  change (f e :: map f ms) with (map f (e :: ms)).
  destruct (r_content_patterns r) as [cps|] eqn:Ec.
  - apply view_content_scan, H, Ec.
  - rewrite view_extend. reflexivity.
Qed.

Lemma scan_rules_ext {R} (ev1 ev2 : string -> R -> result (evidence (F:=F)))
  rules acc :
  (forall n r, In (n, r) rules -> ev1 n r = ev2 n r) ->
  scan_rules ev1 rules acc = scan_rules ev2 rules acc.
Proof.
  revert acc. induction rules as [|[n r] rules IH]; simpl; intros acc H;
    [reflexivity|].
  rewrite H by auto. destruct (ev2 n r); simpl; auto.
Qed.

Lemma view_scan_repository dr fs path :
  catalog_same_hits same_hits dr ->
  scan_repository (F:=F) dr (map_listing f fs) path
  = scan_repository dr fs path.
Proof.
  intros H. unfold scan_repository, map_listing; cbn [fs_resolve fs_lookup].
  destruct (fs_lookup fs (fs_resolve fs path)) as [[|t]|]; try reflexivity.
  cbn [listing].
  assert (E1 : _detect_languages (F:=F) dr (map f t) = _detect_languages dr t).
  { unfold _detect_languages. f_equal. apply scan_rules_ext.
    intros. apply view_languages_rule. }
  assert (E2 : _detect_frameworks (F:=F) dr (map f t)
               = _detect_frameworks dr t).
  { unfold _detect_frameworks. f_equal. apply scan_rules_ext.
    intros n r Hin. apply view_frameworks_rule. apply (H n r).
    apply in_or_app. auto. }
  assert (E3 : _detect_test_tools (F:=F) dr (map f t)
               = _detect_test_tools dr t).
  { unfold _detect_test_tools. f_equal. apply scan_rules_ext.
    intros n r Hin. apply view_test_tools_rule. apply (H n r).
    apply in_or_app. right. apply in_or_app. auto. }
  assert (E4 : _detect_build_tools (F:=F) dr (map f t)
               = _detect_build_tools dr t).
  { unfold _detect_build_tools. f_equal. apply scan_rules_ext.
    intros. apply view_build_tools_rule. }
  assert (E5 : _detect_containers (F:=F) dr (map f t)
               = _detect_containers dr t).
  { unfold _detect_containers. f_equal. apply scan_rules_ext.
    intros n r Hin. apply view_containers_rule. apply (H n r).
    apply in_or_app. right. apply in_or_app. right. apply in_or_app. auto. }
  assert (E6 : _detect_infrastructure (F:=F) dr (map f t)
               = _detect_infrastructure dr t).
  { unfold _detect_infrastructure. f_equal. apply scan_rules_ext.
    intros n r Hin. apply view_infrastructure_rule. apply (H n r).
    apply in_or_app. right. apply in_or_app. right. apply in_or_app. auto. }
  assert (E7 : _detect_package_managers (F:=F) (map f t)
               = _detect_package_managers t).
  { unfold _detect_package_managers. f_equal. apply scan_rules_ext.
    intros. apply view_package_managers_rule. }
  rewrite E1, E2, E3, E4, E5, E6, E7. reflexivity.
Qed.

End View.

(* ------------------------------------------------------------------ *)
(** * When the scan completes *)

Section Completion.

Context {F : Type} {SF : Score F}.

Lemma for_each_total {A S} (body : S -> A -> result S) xs :
  (forall st x, In x xs -> exists st', body st x = Ok st') ->
  forall st, exists st', for_each body xs st = Ok st'.
Proof.
  induction xs as [|x xs IH]; simpl; intros H st; [eauto|].
  destruct (H st x) as [st1 ->]; [auto|]. simpl. apply IH. auto.
Qed.

Lemma content_hit_total inc dedupe cps (ev : evidence (F:=F)) f :
  read_or_skipped f -> exists ev', content_hit inc dedupe cps ev f = Ok ev'.
Proof.
  destruct ev as [c fs]. unfold content_hit, read_or_skipped, read_failure.
  destruct (read_text f) as [s|[]]; try discriminate; intros _; eauto.
  destruct (existsb _ cps); eauto.
Qed.

Lemma is_file_read_or_skipped f : is_file f = true -> read_or_skipped f.
Proof.
  unfold is_file, read_or_skipped, read_failure, read_text.
  destruct (node_of f) as [[]| | |]; try discriminate; reflexivity.
Qed.

Lemma content_scan_total inc dedupe cps t p (ev : evidence (F:=F)) :
  all_read_or_skipped t p ->
  exists ev', for_each (content_hit inc dedupe cps) (rglob t p) ev = Ok ev'.
Proof.
  intros H. apply for_each_total. intros st f Hf.
  apply content_hit_total, H, Hf.
Qed.

Lemma extension_scan_total t dedupe cps exts (ev : evidence (F:=F)) :
  (forall ext, In ext exts -> all_read_or_skipped t ("*" ++ ext)) ->
  exists ev', extension_scan t dedupe cps exts ev = Ok ev'.
Proof.
  intros H. apply for_each_total. intros st ext Hext.
  apply content_scan_total, H, Hext.
Qed.

Lemma extension_globs_total t table r dedupe cps (ev : evidence (F:=F)) :
  (forall p, In p (extension_globs table r) -> all_read_or_skipped t p) ->
  exists ev',
    match lookup_string
            (match r_language r with Some l => l | None => "" end) table with
    | Some extensions => extension_scan t dedupe cps extensions ev
    | None => Ok ev
    end = Ok ev'.
Proof.
  unfold extension_globs. intros H.
  destruct (lookup_string _ table) as [exts|]; [|eauto].
  apply extension_scan_total. intros ext Hext. apply H.
  apply in_map_iff. eauto.
Qed.

Lemma frameworks_rule_total t n r :
  (forall cps p, r_content_patterns r = Some cps ->
     In p (get_list (r_files r)
           ++ extension_globs frameworks_file_extensions r) ->
     all_read_or_skipped t p) ->
  exists ev, frameworks_rule (F:=F) t n r = Ok ev.
Proof.
  intros H. unfold frameworks_rule.
  destruct (for_each_total (frameworks_trigger t r) (get_list (r_files r)))
    with (st:=no_evidence (F:=F)) as [ev0 ->].
  { intros [c fs] p Hp. unfold frameworks_trigger.
    destruct (rglob t p) as [|e ms] eqn:E; [eauto|]. rewrite <- E.
    destruct (r_content_patterns r) as [cps|] eqn:Ec; [|eauto].
    apply content_scan_total. apply (H cps p eq_refl).
    apply in_or_app. auto. }
  cbn [bind].
  destruct (r_content_patterns r) as [cps|] eqn:Ec; [|eauto].
  destruct (snd ev0); [|eauto].
  apply extension_globs_total. intros p Hp. apply (H cps p eq_refl).
  apply in_or_app. auto.
Qed.

Lemma test_tools_rule_total t n r :
  get_list (r_patterns r) = [] \/ stat_allowed (rglob t "*") ->
  (forall cps p, r_content_patterns r = Some cps ->
     In p (extension_globs test_tools_file_extensions r) -> all_read_or_skipped t p) ->
  exists ev, test_tools_rule (F:=F) t n r = Ok ev.
Proof.
  intros Hs H. unfold test_tools_rule.
  rewrite (name_scans_total _ _ test_tools_name_after_stat) by exact Hs.
  cbn [bind].
  destruct (r_content_patterns r) as [cps|] eqn:Ec; [|eauto].
  apply extension_globs_total. intros p Hp. exact (H cps p eq_refl Hp).
Qed.

Lemma containers_rule_total t n r :
  (forall cps p, r_content_patterns r = Some cps ->
     In p (get_list (r_files r)) -> all_read_or_skipped t p) ->
  exists ev, containers_rule (F:=F) t n r = Ok ev.
Proof.
  intros H. apply for_each_total. intros [c fs] p Hp.
  unfold containers_trigger.
  destruct (rglob t p) as [|e ms] eqn:E; [eauto|]. rewrite <- E.
  destruct (String.eqb n "kubernetes");
    destruct (r_content_patterns r) as [cps|] eqn:Ec; eauto.
  apply for_each_total. intros st f Hf. unfold kubernetes_hit.
  destruct (mem_string _ _); [|eauto].
  apply content_hit_total. exact (H cps p eq_refl Hp f Hf).
Qed.

Lemma infrastructure_rule_total t n r :
  (forall cps p, r_content_patterns r = Some cps ->
     In p (get_list (r_files r)) -> all_read_or_skipped t p) ->
  exists ev, infrastructure_rule (F:=F) t n r = Ok ev.
Proof.
  intros H. apply for_each_total. intros [c fs] p Hp.
  unfold infrastructure_trigger.
  destruct (rglob t p) as [|e ms] eqn:E; [eauto|]. rewrite <- E.
  destruct (r_content_patterns r) as [cps|] eqn:Ec; [|eauto].
  apply content_scan_total. exact (H cps p eq_refl Hp).
Qed.

Lemma languages_rule_total t n r :
  r_files r <> None ->
  get_list (r_patterns r) = [] \/ stat_allowed (rglob t "*") ->
  exists ev, languages_rule (F:=F) t n r = Ok ev.
Proof.
  unfold languages_rule. destruct (r_files r); [|congruence].
  intros _ Hs.
  rewrite (name_scans_total _ _ languages_name_after_stat) by exact Hs.
  eauto.
Qed.

Lemma scan_repository_total dr fs path o :
  fs_lookup fs (fs_resolve fs path) = Some o ->
  (forall n r, In (n, r) (cat_languages dr) -> r_files r <> None) ->
  stat_allowed (rglob (listing o) "*") ->
  (forall p, In p (read_globs dr) -> all_read_or_skipped (listing o) p) ->
  exists a, scan_repository (F:=F) dr fs path = Ok a.
Proof.
  intros EL Hl Hs Hr. unfold scan_repository. rewrite EL.
  unfold _detect_languages, _detect_frameworks, _detect_test_tools,
    _detect_build_tools, _detect_containers, _detect_infrastructure,
    _detect_package_managers.
  destruct (scan_rules_total (languages_rule (F:=F) (listing o))
              (cat_languages dr) []) as [l1 ->].
  { intros n r Hin. apply languages_rule_total; [eapply Hl, Hin|auto]. }
  destruct (scan_rules_total (frameworks_rule (F:=F) (listing o))
              (cat_frameworks dr) []) as [l2 ->].
  { intros n r Hin. apply frameworks_rule_total. intros cps p Ec Hp.
    apply Hr. unfold read_globs. apply in_or_app. left.
    apply in_flat_map. exists (n, r). split; [exact Hin|].
    simpl. rewrite Ec. exact Hp. }
  destruct (scan_rules_total (test_tools_rule (F:=F) (listing o))
              (cat_test_tools dr) []) as [l3 ->].
  { intros n r Hin. apply test_tools_rule_total; [auto|]. intros cps p Ec Hp.
    apply Hr. unfold read_globs. apply in_or_app. right.
    apply in_or_app. left.
    apply in_flat_map. exists (n, r). split; [exact Hin|].
    simpl. rewrite Ec. exact Hp. }
  destruct (scan_rules_total (build_tools_rule (F:=F) (listing o))
              (cat_build_tools dr) []) as [l4 ->].
  { intros n r Hin. unfold build_tools_rule. eauto. }
  destruct (scan_rules_total (containers_rule (F:=F) (listing o))
              (cat_containers dr) []) as [l5 ->].
  { intros n r Hin. apply containers_rule_total. intros cps p Ec Hp.
    apply Hr. unfold read_globs. apply in_or_app. right.
    apply in_or_app. right.
    apply in_flat_map. exists (n, r). split; [apply in_or_app; auto|].
    simpl. rewrite Ec. exact Hp. }
  destruct (scan_rules_total (infrastructure_rule (F:=F) (listing o))
              (cat_infrastructure dr) []) as [l6 ->].
  { intros n r Hin. apply infrastructure_rule_total. intros cps p Ec Hp.
    apply Hr. unfold read_globs. apply in_or_app. right.
    apply in_or_app. right.
    apply in_flat_map. exists (n, r). split; [apply in_or_app; auto|].
    simpl. rewrite Ec. exact Hp. }
  destruct (scan_rules_total (package_managers_rule (F:=F) (listing o))
              pm_files []) as [l7 ->].
  { intros n r Hin. unfold package_managers_rule. eauto. }
  cbn [bind]. eauto.
Qed.

End Completion.

Section EmptyText.

Context {F : Type} {SF : Score F}.

Lemma as_empty_text_path e : rel_path (as_empty_text e) = rel_path e.
Proof.
  unfold as_empty_text. destruct (node_of e) as [[]| | |]; reflexivity.
Qed.

Lemma as_empty_text_kind e : same_kind (as_empty_text e) e.
Proof.
  unfold as_empty_text, same_kind.
  destruct (node_of e) as [[]| | |] eqn:E; simpl; rewrite ?E;
    try exact I; reflexivity.
Qed.

Lemma as_empty_text_hits cps :
  Forall (fun p => re_search p "" = false) cps ->
  forall inc dedupe (ev : evidence (F:=F)) e,
    content_hit inc dedupe cps ev (as_empty_text e)
    = content_hit inc dedupe cps ev e.
Proof.
  intros H inc dedupe [c fs] e. unfold content_hit, as_empty_text, read_text.
  destruct (node_of e) as [[s| |]| | |] eqn:E; simpl; rewrite ?E;
    try reflexivity;
    (rewrite existsb_none; [reflexivity|]);
    rewrite Forall_forall in H; exact H.
Qed.

Lemma catalog_ok_same_hits dr :
  catalog_ok dr = true ->
  catalog_same_hits (fun cps => Forall (fun p => re_search p "" = false) cps) dr.
Proof.
  unfold catalog_ok. rewrite andb_true_iff, forallb_forall.
  intros [H _] n r Hin cps Ec. apply Forall_forall. intros p Hp.
  apply negb_true_iff, H. unfold content_patterns_of.
  apply in_flat_map. exists (n, r). split; [exact Hin|].
  simpl. rewrite Ec. exact Hp.
Qed.

Lemma catalog_ok_languages dr :
  catalog_ok dr = true ->
  forall n r, In (n, r) (cat_languages dr) -> r_files r <> None.
Proof.
  unfold catalog_ok. rewrite andb_true_iff, !forallb_forall.
  intros [_ H] n r Hin. specialize (H (n, r) Hin). simpl in H.
  destruct (r_files r); congruence.
Qed.

End EmptyText.

(* ------------------------------------------------------------------ *)
(** * One more file *)

Section ArithFacts.

Context {F : Type} {SF : Score F} {SO : ScoreOrder F} {SA : ScoreArith F}.
Local Open Scope score_scope.

Lemma le_refl (x y : F) : le x y -> le x x.
Proof. intros H. exact (proj1 (leb_defined _ _ H)). Qed.

Lemma le_refl_r (x y : F) : le x y -> le y y.
Proof. intros H. exact (proj2 (leb_defined _ _ H)). Qed.

Lemma le_trans (x y z : F) : le x y -> le y z -> le x z.
Proof. apply leb_trans. Qed.

Lemma ltb_leb_trans (x y z : F) :
  (x <? y) = true -> le y z -> (x <? z) = true.
Proof.
  intros Hxy Hyz. destruct (x <? z) eqn:E; [reflexivity|exfalso].
  pose proof (proj1 (ltb_defined _ _ Hxy)) as Dx.
  pose proof (le_refl_r Hyz) as Dz.
  pose proof (leb_total _ _ Dx Dz E) as Hzx.
  pose proof (leb_not_ltb _ _ (le_trans Hyz Hzx)). congruence.
Qed.

Lemma nonneg_zero : nonneg f_zero.
Proof. apply zero_defined. Qed.

Lemma positive_nonneg (x : F) : above_zero x -> nonneg x.
Proof. apply ltb_leb. Qed.

Lemma nonneg_add (x y : F) : nonneg x -> nonneg y -> nonneg (x + y).
Proof.
  intros Hx Hy. eapply le_trans; [apply add_zero_l, nonneg_zero|].
  apply add_mono; [apply nonneg_zero|exact Hx|apply nonneg_zero|exact Hy].
Qed.

Lemma add_increasing (x y : F) : nonneg x -> nonneg y -> le x (x + y).
Proof.
  intros Hx Hy. eapply le_trans; [apply add_zero_r, Hx|].
  apply add_mono; [exact Hx|eapply le_refl_r, Hx|apply nonneg_zero|exact Hy].
Qed.

Lemma add_positive (x y : F) : nonneg x -> above_zero y -> above_zero (x + y).
Proof.
  intros Hx Hy. pose proof (positive_nonneg Hy) as Ny.
  eapply ltb_leb_trans; [exact Hy|].
  eapply le_trans; [apply add_zero_l, Ny|].
  apply add_mono; [apply nonneg_zero|exact Hx|exact Ny|eapply le_refl_r, Ny].
Qed.

Lemma tenths_nonneg (d : BinNums.positive) :
  (d < 10)%positive -> nonneg (f_tenths d).
Proof. intros H. apply positive_nonneg, tenths_positive, H. Qed.

Lemma py_min_mono (x x' : F) :
  le x x' -> le (py_min x f_one) (py_min x' f_one).
Proof.
  intros H. unfold py_min.
  destruct (f_one <? x) eqn:E, (f_one <? x') eqn:E'.
  - apply one_defined.
  - rewrite (@ltb_leb_trans _ _ _ E H) in E'. discriminate.
  - apply leb_total; [apply one_defined|eapply le_refl, H|exact E].
  - exact H.
Qed.

(** ** Evidence that has not shrunk *)

Lemma below_refl (ev : evidence (F:=F)) : nonneg (fst ev) -> below ev ev.
Proof. intros H. split; [exact H|eapply le_refl_r, H]. Qed.

Lemma below_nonneg_r (ev ev' : evidence (F:=F)) :
  below ev ev' -> nonneg (fst ev').
Proof. intros [H1 H2]. eapply le_trans; eassumption. Qed.

Lemma below_bump (c c' inc inc' : F) (fs fs' : list string) :
  below (c, fs) (c', fs') -> nonneg inc -> le inc inc' ->
  forall gs gs', below (c + inc, gs) (c' + inc', gs').
Proof.
  intros [H1 H2] Hi Hii gs gs'. split; simpl in *.
  - apply nonneg_add; assumption.
  - apply add_mono; assumption.
Qed.

Lemma below_bump_r (ev : evidence (F:=F)) (c' inc : F) (fs' : list string) :
  below ev (c', fs') -> nonneg inc ->
  forall gs', below ev (c' + inc, gs').
Proof.
  intros H Hi gs'. pose proof (below_nonneg_r H) as N.
  destruct H as [H1 H2]. split; [exact H1|]. simpl in *.
  eapply le_trans; [exact H2|]. apply add_increasing; assumption.
Qed.

Lemma below_positive (ev ev' : evidence (F:=F)) :
  below ev ev' -> above_zero (fst ev) -> above_zero (fst ev').
Proof. intros [_ H] Hp. eapply ltb_leb_trans; eassumption. Qed.

End ArithFacts.

Section InsertFacts.

Context {A S : Type} (R : S -> S -> Prop).

(** two runs of a loop whose bodies keep [R] *)
Lemma fold_left_related (b b' : S -> A -> S) xs :
  (forall st st' x, In x xs -> R st st' -> R (b st x) (b' st' x)) ->
  forall st st', R st st' -> R (fold_left b xs st) (fold_left b' xs st').
Proof.
  induction xs as [|x xs IH]; simpl; intros H st st' Hst; [exact Hst|].
  apply IH; [intros; apply H; auto|apply H; auto].
Qed.

Lemma for_each_related (b b' : S -> A -> result S) xs :
  (forall st st' x st1, In x xs -> R st st' -> b st x = Ok st1 ->
     exists st1', b' st' x = Ok st1' /\ R st1 st1') ->
  forall st st' r, R st st' -> for_each b xs st = Ok r ->
    exists r', for_each b' xs st' = Ok r' /\ R r r'.
Proof.
  induction xs as [|x xs IH]; simpl; intros H st st' r Hst E.
  - inversion E; subst. eauto.
  - destruct (b st x) as [st1|] eqn:E1; simpl in E; [|discriminate].
    destruct (H st st' x st1) as (st1' & -> & H1); auto. simpl.
    eapply IH; eauto.
Qed.

(** the second run meets one more item *)
Lemma fold_left_insert (b : S -> A -> S) (e : A) l1 l2 :
  (forall st st' x, R st st' -> R (b st x) (b st' x)) ->
  (forall st st', R st st' -> R st (b st' e)) ->
  forall st st', R st st' ->
    R (fold_left b (l1 ++ l2) st) (fold_left b (l1 ++ e :: l2) st').
Proof.
  intros Hm He st st' Hst. rewrite !fold_left_app. simpl.
  apply fold_left_related; [auto|]. apply He.
  apply fold_left_related; auto.
Qed.

Lemma for_each_app (b : S -> A -> result S) l1 l2 st :
  for_each b (l1 ++ l2) st = (st1 <- for_each b l1 st ;; for_each b l2 st1).
Proof.
  revert st. induction l1 as [|x l1 IH]; simpl; intros st; [reflexivity|].
  destruct (b st x); simpl; auto.
Qed.

Lemma for_each_insert (b : S -> A -> result S) (e : A) l1 l2 :
  (forall st st' x st1, R st st' -> b st x = Ok st1 ->
     exists st1', b st' x = Ok st1' /\ R st1 st1') ->
  (forall st st', R st st' -> exists st1', b st' e = Ok st1' /\ R st st1') ->
  forall st st' r, R st st' -> for_each b (l1 ++ l2) st = Ok r ->
    exists r', for_each b (l1 ++ e :: l2) st' = Ok r' /\ R r r'.
Proof.
  intros Hm He st st' r Hst E. rewrite for_each_app in E.
  destruct (for_each b l1 st) as [st1|] eqn:E1; simpl in E; [|discriminate].
  assert (Hm' : forall l st st' x st1, In x l -> R st st' -> b st x = Ok st1 ->
            exists st1', b st' x = Ok st1' /\ R st1 st1')
    by (intros; eapply Hm; eauto).
  destruct (@for_each_related b b l1 (Hm' l1) st st' st1 Hst E1)
    as (st1' & E1' & H1).
  rewrite for_each_app, E1'. simpl.
  destruct (He st1 st1' H1) as (st2' & -> & H2). simpl.
  eapply for_each_related; [apply Hm'|exact H2|exact E].
Qed.

End InsertFacts.

Section Monotone.

Context {F : Type} {SF : Score F} {SO : ScoreOrder F} {SA : ScoreArith F}.
Local Open Scope score_scope.

Variables (t1 t2 : tree) (e : entry).
Hypothesis e_file : is_file e = true.

Let t : tree := t1 ++ t2.
Let t' : tree := t1 ++ e :: t2.

(** the matches of a glob in the larger tree *)
Lemma rglob_insert p :
  rglob t p = rglob t1 p ++ rglob t2 p /\
  (rglob t' p = rglob t1 p ++ rglob t2 p \/
   rglob t' p = rglob t1 p ++ e :: rglob t2 p).
Proof.
  unfold t, t', rglob. rewrite !filter_app. simpl.
  destruct (glob_match p e); auto.
Qed.

Lemma rglob_insert_length p :
  List.length (rglob t p) <= List.length (rglob t' p).
Proof.
  destruct (rglob_insert p) as [-> [-> | ->]]; rewrite !length_app; simpl; lia.
Qed.

Lemma rglob_insert_nonempty p : rglob t' p = [] -> rglob t p = [].
Proof.
  intros H. pose proof (rglob_insert_length p) as L. rewrite H in L.
  destruct (rglob t p); [reflexivity|simpl in L; lia].
Qed.

(** ** The steps *)

Lemma flat_trigger_below d ev ev' p :
  (d < 10)%positive -> below ev ev' ->
  below (flat_trigger t (f_tenths d) ev p) (flat_trigger t' (f_tenths d) ev' p).
Proof.
  intros Hd H. destruct ev as [c fs], ev' as [c' fs']. unfold flat_trigger.
  pose proof (tenths_nonneg Hd) as N.
  destruct (rglob t' p) as [|x' ms'] eqn:E'.
  - rewrite (rglob_insert_nonempty p E'). exact H.
  - destruct (rglob t p) as [|x ms].
    + apply below_bump_r with (fs':=fs'); assumption.
    + apply below_bump with (fs:=fs) (fs':=fs'); try assumption.
      eapply le_refl_r, N.
Qed.

Lemma languages_trigger_below ev ev' p :
  below ev ev' ->
  below (languages_trigger t ev p) (languages_trigger t' ev' p).
Proof.
  intros H. destruct ev as [c fs], ev' as [c' fs']. unfold languages_trigger.
  pose proof (rglob_insert_length p) as L.
  destruct (rglob t' p) as [|x' ms'] eqn:E'.
  - rewrite (rglob_insert_nonempty p E'). exact H.
  - destruct (rglob t p) as [|x ms].
    + apply below_bump_r with (fs':=fs'); [assumption|].
      apply scale_nonneg. reflexivity.
    + apply below_bump with (fs:=fs) (fs':=fs'); [assumption| |].
      * apply scale_nonneg. reflexivity.
      * apply scale_mono; [reflexivity|exact L].
Qed.

Lemma languages_name_below pattern ev ev' x :
  below ev ev' ->
  below (languages_name_step pattern ev x) (languages_name_step pattern ev' x).
Proof.
  intros H. destruct ev as [c fs], ev' as [c' fs']. unfold languages_name_step.
  destruct (is_file x && re_search pattern (name_of x)); [|exact H].
  pose proof (tenths_nonneg (d:=2) eq_refl) as N.
  apply below_bump with (fs:=fs) (fs':=fs'); try assumption.
  eapply le_refl_r, N.
Qed.

Lemma languages_name_below_r pattern ev ev' x :
  below ev ev' -> below ev (languages_name_step pattern ev' x).
Proof.
  intros H. destruct ev' as [c' fs']. unfold languages_name_step.
  destruct (is_file x && re_search pattern (name_of x)); [|exact H].
  apply below_bump_r with (fs':=fs'); [assumption|].
  apply tenths_nonneg. reflexivity.
Qed.

Lemma test_tools_name_below pattern ev ev' x :
  below ev ev' ->
  below (test_tools_name_step pattern ev x) (test_tools_name_step pattern ev' x).
Proof.
  intros H. destruct ev as [c fs], ev' as [c' fs']. unfold test_tools_name_step.
  destruct (is_file x && re_search pattern (name_of x)); [|exact H].
  pose proof (tenths_nonneg (d:=4) eq_refl) as N.
  apply below_bump with (fs:=fs) (fs':=fs'); try assumption.
  eapply le_refl_r, N.
Qed.

Lemma test_tools_name_below_r pattern ev ev' x :
  below ev ev' -> below ev (test_tools_name_step pattern ev' x).
Proof.
  intros H. destruct ev' as [c' fs']. unfold test_tools_name_step.
  destruct (is_file x && re_search pattern (name_of x)); [|exact H].
  apply below_bump_r with (fs':=fs'); [assumption|].
  apply tenths_nonneg. reflexivity.
Qed.

Lemma name_scan_below
  (step : string -> evidence (F:=F) -> entry -> evidence) ps :
  (forall p ev ev' x, below ev ev' -> below (step p ev x) (step p ev' x)) ->
  (forall p ev ev' x, below ev ev' -> below ev (step p ev' x)) ->
  forall ev ev', below ev ev' ->
    below (fold_left (fun ev pattern =>
                        fold_left (step pattern) (rglob t "*") ev) ps ev)
          (fold_left (fun ev pattern =>
                        fold_left (step pattern) (rglob t' "*") ev) ps ev').
Proof.
  intros Hm Hr. apply fold_left_related. intros st st' p _ H.
  destruct (rglob_insert "*") as [-> [-> | ->]].
  - apply fold_left_related; [|exact H]. intros. apply Hm. assumption.
  - apply fold_left_insert; [| |exact H]; intros; auto.
Qed.

Lemma content_hit_below d dedupe cps ev ev' x ev1 :
  (d < 10)%positive -> below ev ev' ->
  content_hit (f_tenths d) dedupe cps ev x = Ok ev1 ->
  exists ev1', content_hit (f_tenths d) dedupe cps ev' x = Ok ev1' /\
               below ev1 ev1'.
Proof.
  intros Hd H. destruct ev as [c fs], ev' as [c' fs']. unfold content_hit.
  pose proof (tenths_nonneg Hd) as N.
  destruct (read_text x) as [s|[]]; try discriminate;
    try solve [intros E; inversion E; subst; eauto].
  destruct (existsb _ cps); intros E; inversion E; subst; [|eauto].
  eexists. split; [reflexivity|].
  apply below_bump with (fs:=fs) (fs':=fs'); try assumption.
  eapply le_refl_r, N.
Qed.

Lemma content_hit_below_r d dedupe cps ev ev' :
  (d < 10)%positive -> below ev ev' ->
  exists ev1', content_hit (f_tenths d) dedupe cps ev' e = Ok ev1' /\
               below ev ev1'.
Proof.
  intros Hd H. destruct ev' as [c' fs']. unfold content_hit, read_text.
  unfold is_file in e_file.
  destruct (node_of e) as [[s| |]| | |]; try discriminate; eauto.
  destruct (existsb _ cps); [|eauto].
  eexists. split; [reflexivity|].
  apply below_bump_r with (fs':=fs'); [assumption|]. apply tenths_nonneg, Hd.
Qed.

Lemma content_scan_below d dedupe cps p ev ev' r :
  (d < 10)%positive -> below ev ev' ->
  for_each (content_hit (f_tenths d) dedupe cps) (rglob t p) ev = Ok r ->
  exists r', for_each (content_hit (f_tenths d) dedupe cps) (rglob t' p) ev'
             = Ok r' /\ below r r'.
Proof.
  intros Hd H. destruct (rglob_insert p) as [-> [-> | ->]].
  - apply for_each_related; [|exact H].
    intros st st' x st1 _. apply content_hit_below, Hd.
  - apply for_each_insert; [| |exact H].
    + intros st st' x st1. apply content_hit_below, Hd.
    + intros st st'. apply content_hit_below_r, Hd.
Qed.

Lemma extension_scan_below dedupe cps exts ev ev' r :
  below ev ev' ->
  extension_scan t dedupe cps exts ev = Ok r ->
  exists r', extension_scan t' dedupe cps exts ev' = Ok r' /\ below r r'.
Proof.
  intros H. unfold extension_scan. apply for_each_related; [|exact H].
  intros st st' ext st1 _. apply content_scan_below. reflexivity.
Qed.

Lemma kubernetes_scan_below cps p ev ev' r :
  below ev ev' ->
  for_each (kubernetes_hit cps) (rglob t p) ev = Ok r ->
  exists r', for_each (kubernetes_hit cps) (rglob t' p) ev' = Ok r' /\
             below r r'.
Proof.
  intros H.
  assert (Hm : forall st st' x st1, below st st' ->
            kubernetes_hit cps st x = Ok st1 ->
            exists st1', kubernetes_hit cps st' x = Ok st1' /\ below st1 st1').
  { intros st st' x st1 Hs. unfold kubernetes_hit.
    destruct (mem_string _ _).
    - apply content_hit_below; [reflexivity|exact Hs].
    - intros E. inversion E; subst. eauto. }
  destruct (rglob_insert p) as [-> [-> | ->]].
  - apply for_each_related; [|exact H]. intros st st' x st1 _. apply Hm.
  - apply for_each_insert; [exact Hm| |exact H].
    intros st st' Hs. unfold kubernetes_hit. destruct (mem_string _ _).
    + apply content_hit_below_r; [reflexivity|exact Hs].
    + eauto.
Qed.

(** ** The rules *)

Lemma below_no_evidence : below (no_evidence (F:=F)) no_evidence.
Proof. apply below_refl, nonneg_zero. Qed.

Lemma stat_allowed_insert (ps : list string) :
  (ps <> [] -> stat_allowed (rglob t "*")) ->
  ps = [] \/ stat_allowed (rglob t' "*").
Proof.
  destruct ps as [|p ps]; [auto|]. intros H. right.
  assert (Hs : stat_allowed (rglob t "*")) by (apply H; discriminate).
  assert (He : Path_is_file e = Ok (is_file e)).
  { unfold Path_is_file. unfold is_file in e_file.
    destruct (node_of e); try discriminate; reflexivity. }
  intros f Hf. destruct (rglob_insert "*") as [Et [Et'|Et']];
    rewrite Et' in Hf; rewrite Et in Hs.
  - apply Hs, Hf.
  - apply in_app_or in Hf. destruct Hf as [Hf|[<-|Hf]]; [|exact He|];
      apply Hs, in_or_app; auto.
Qed.

Lemma languages_rule_below : rule_below (languages_rule t) (languages_rule t').
Proof.
  intros n r ev. unfold languages_rule.
  destruct (r_files r) as [fps|]; [|discriminate].
  intros E. apply (name_scans_Ok _ _ languages_name_after_stat) in E.
  destruct E as [-> Hs].
  rewrite (name_scans_total _ _ languages_name_after_stat)
    by (apply stat_allowed_insert, Hs).
  eexists. split; [reflexivity|].
  apply name_scan_below.
  - intros. apply languages_name_below. assumption.
  - intros. apply languages_name_below_r. assumption.
  - apply fold_left_related; [|apply below_no_evidence].
    intros. apply languages_trigger_below. assumption.
Qed.

Lemma flat_rule_below d ps :
  (d < 10)%positive ->
  below (fold_left (flat_trigger t (f_tenths d)) ps no_evidence)
        (fold_left (flat_trigger t' (f_tenths d)) ps no_evidence).
Proof.
  intros Hd. apply fold_left_related; [|apply below_no_evidence].
  intros. apply flat_trigger_below; assumption.
Qed.

Lemma build_tools_rule_below :
  rule_below (build_tools_rule t) (build_tools_rule t').
Proof.
  intros n r ev E. inversion E; subst. eexists. split; [reflexivity|].
  apply flat_rule_below. reflexivity.
Qed.

Lemma package_managers_rule_below :
  rule_below (package_managers_rule t) (package_managers_rule t').
Proof.
  intros n r ev E. inversion E; subst. eexists. split; [reflexivity|].
  apply flat_rule_below. reflexivity.
Qed.

Lemma test_tools_rule_below :
  rule_below (test_tools_rule t) (test_tools_rule t').
Proof.
  intros n r ev. unfold test_tools_rule.
  destruct (for_each
              (fun ev pattern =>
                 for_each (test_tools_name pattern) (rglob t "*") ev) _ _)
    as [ev0|] eqn:E0; cbn [bind]; [|discriminate].
  apply (name_scans_Ok _ _ test_tools_name_after_stat) in E0.
  destruct E0 as [E0 Hs].
  rewrite (name_scans_total _ _ test_tools_name_after_stat)
    by (apply stat_allowed_insert, Hs).
  cbn [bind].
  set (ev0' := fold_left _ (get_list (r_patterns r)) _).
  assert (H0 : below ev0 ev0').
  { rewrite E0. apply name_scan_below.
    - intros. apply test_tools_name_below. assumption.
    - intros. apply test_tools_name_below_r. assumption.
    - apply flat_rule_below. reflexivity. }
  clear E0.
  destruct (r_content_patterns r) as [cps|];
    [|intros E; inversion E; subst; eauto].
  destruct (lookup_string _ _) as [exts|];
    [|intros E; inversion E; subst; eauto].
  apply extension_scan_below, H0.
Qed.

Lemma match_for_each {A S} (b : S -> A -> result S) l st :
  match l with [] => Ok st | _ :: _ => for_each b l st end = for_each b l st.
Proof. destruct l; reflexivity. Qed.

Lemma flat_step_below d (c c' : F) fs fs' p :
  (d < 10)%positive -> below (c, fs) (c', fs') ->
  forall st1,
    match rglob t p with
    | [] => Ok (c, fs)
    | _ :: _ => Ok (c + f_tenths d, extend fs 3 (rglob t p))
    end = Ok st1 ->
    exists st1',
      match rglob t' p with
      | [] => Ok (c', fs')
      | _ :: _ => Ok (c' + f_tenths d, extend fs' 3 (rglob t' p))
      end = Ok st1' /\ below st1 st1'.
Proof.
  intros Hd H st1 E.
  pose proof (flat_trigger_below (ev:=(c, fs)) (ev':=(c', fs')) p Hd H) as B.
  unfold flat_trigger in B.
  destruct (rglob t p), (rglob t' p); inversion E; subst; eauto.
Qed.

Lemma containers_rule_below :
  rule_below (containers_rule t) (containers_rule t').
Proof.
  intros n r ev. unfold containers_rule.
  apply for_each_related; [|apply below_no_evidence].
  intros [c fs] [c' fs'] p st1 _ H. unfold containers_trigger.
  destruct (String.eqb n "kubernetes");
    destruct (r_content_patterns r) as [cps|];
    try (apply flat_step_below; [reflexivity|exact H]).
  rewrite !match_for_each. apply kubernetes_scan_below, H.
Qed.

Lemma infrastructure_rule_below :
  rule_below (infrastructure_rule t) (infrastructure_rule t').
Proof.
  intros n r ev. unfold infrastructure_rule.
  apply for_each_related; [|apply below_no_evidence].
  intros [c fs] [c' fs'] p st1 _ H. unfold infrastructure_trigger.
  destruct (r_content_patterns r) as [cps|].
  - rewrite !match_for_each. apply content_scan_below; [reflexivity|exact H].
  - apply flat_step_below; [reflexivity|exact H].
Qed.

(** ** Frameworks *)

Lemma frameworks_trigger_content r cps :
  r_content_patterns r = Some cps ->
  forall (ev : evidence (F:=F)) tr p,
    frameworks_trigger tr r ev p
    = for_each (content_hit (f_tenths 8) false cps) (rglob tr p) ev.
Proof.
  intros Ec [c fs] tr p. unfold frameworks_trigger. rewrite Ec.
  apply match_for_each.
Qed.

Lemma frameworks_trigger_below r ev ev' p st1 :
  below ev ev' -> frameworks_trigger t r ev p = Ok st1 ->
  exists st1', frameworks_trigger t' r ev' p = Ok st1' /\ below st1 st1'.
Proof.
  intros H. destruct (r_content_patterns r) as [cps|] eqn:Ec.
  - rewrite !(@frameworks_trigger_content r _ Ec).
    apply content_scan_below; [reflexivity|exact H].
  - destruct ev as [c fs], ev' as [c' fs']. unfold frameworks_trigger.
    rewrite Ec. apply flat_step_below; [reflexivity|exact H].
Qed.

Lemma content_hit_miss d dedupe cps (ev : evidence (F:=F)) :
  content_matches cps e = false ->
  content_hit (f_tenths d) dedupe cps ev e = Ok ev.
Proof.
  destruct ev as [c fs]. unfold content_matches, content_hit, read_text.
  unfold is_file in e_file.
  destruct (node_of e) as [[s| |]| | |]; try discriminate; try reflexivity.
  intros ->. reflexivity.
Qed.

Lemma rglob_insert_match p :
  rglob t' p
  = rglob t1 p ++ (if glob_match p e then [e] else []) ++ rglob t2 p.
Proof.
  unfold t', rglob. rewrite filter_app. simpl.
  destruct (glob_match p e); reflexivity.
Qed.

Lemma frameworks_trigger_same r cps ev p :
  r_content_patterns r = Some cps ->
  glob_match p e = false \/ content_matches cps e = false ->
  frameworks_trigger t' r ev p = frameworks_trigger t r ev p.
Proof.
  intros Ec H. rewrite !(@frameworks_trigger_content r _ Ec).
  rewrite rglob_insert_match. rewrite (proj1 (rglob_insert p)).
  destruct (glob_match p e) eqn:Eg; [|reflexivity].
  destruct H as [H|H]; [discriminate|].
  rewrite !for_each_app. destruct (for_each _ (rglob t1 p) ev); [|reflexivity].
  simpl. rewrite content_hit_miss by exact H. reflexivity.
Qed.

Lemma content_hit_nonneg d dedupe cps ev x ev1 :
  (d < 10)%positive -> nonneg (fst ev) ->
  content_hit (f_tenths d) dedupe cps ev x = Ok ev1 -> nonneg (fst ev1).
Proof.
  intros Hd N E.
  destruct (content_hit_below dedupe cps x Hd (below_refl ev N) E)
    as (ev1' & _ & B).
  exact (proj1 B).
Qed.

Lemma content_hit_strong d dedupe cps ev x ev1 :
  (d < 10)%positive -> strong ev ->
  content_hit (f_tenths d) dedupe cps ev x = Ok ev1 -> strong ev1.
Proof.
  intros Hd [P N]. destruct ev as [c fs]. unfold content_hit. simpl in *.
  destruct (read_text x) as [s|[]]; try discriminate;
    try solve [intros E; inversion E; subst; split; assumption].
  destruct (existsb _ cps); intros E; inversion E; subst;
    [|split; assumption].
  split; simpl.
  - eapply ltb_leb_trans; [exact P|].
    apply add_increasing; [apply positive_nonneg, P|apply tenths_nonneg, Hd].
  - destruct (dedupe && mem_string (rel_path x) fs); [exact N|].
    apply append_nonempty.
Qed.

Lemma content_hit_first d cps ev ev1 :
  (d < 10)%positive -> nonneg (fst ev) -> content_matches cps e = true ->
  content_hit (f_tenths d) false cps ev e = Ok ev1 -> strong ev1.
Proof.
  intros Hd N. destruct ev as [c fs].
  unfold content_matches, content_hit. simpl in *.
  destruct (read_text e) as [s|]; [|discriminate].
  intros ->. intros E. inversion E; subst. split; simpl.
  - apply add_positive; [exact N|apply tenths_positive, Hd].
  - apply append_nonempty.
Qed.

Lemma for_each_reaches {A S} (J K : S -> Prop) (b : S -> A -> result S)
  xs x0 :
  In x0 xs ->
  (forall st x st', J st -> b st x = Ok st' -> J st') ->
  (forall st st', J st -> b st x0 = Ok st' -> K st') ->
  (forall st x st', K st -> b st x = Ok st' -> K st') ->
  forall st st', J st -> for_each b xs st = Ok st' -> K st'.
Proof.
  intros Hin HJ H0 HK. induction xs as [|x xs IH]; [contradiction|].
  intros st st' Hst E. simpl in E.
  destruct (b st x) as [st1|] eqn:E1; simpl in E; [|discriminate].
  destruct Hin as [->|Hin].
  - eapply (for_each_invariant K); [|exact (H0 _ _ Hst E1)|exact E].
    intros s1 y s2 _. apply HK.
  - exact (IH Hin _ _ (HJ _ _ _ Hst E1) E).
Qed.

Lemma frameworks_triggers_strong r cps p0 ev0' :
  r_content_patterns r = Some cps ->
  In p0 (get_list (r_files r)) -> glob_match p0 e = true ->
  content_matches cps e = true ->
  for_each (frameworks_trigger t' r) (get_list (r_files r)) no_evidence
    = Ok ev0' ->
  strong ev0'.
Proof.
  intros Ec Hp0 Hg Hc.
  apply (for_each_reaches (fun st => nonneg (fst st)) strong) with (x0:=p0);
    [exact Hp0| | | |apply nonneg_zero].
  - intros st p st'. rewrite (@frameworks_trigger_content r _ Ec).
    apply (for_each_invariant (fun s => nonneg (fst s))). intros s1 x s2 _.
    apply content_hit_nonneg. reflexivity.
  - intros st st'. rewrite (@frameworks_trigger_content r _ Ec).
    apply (for_each_reaches (fun st => nonneg (fst st)) strong) with (x0:=e).
    + unfold rglob. apply filter_In. split; [|exact Hg].
      unfold t'. apply in_or_app. right. left. reflexivity.
    + intros s1 x s2. apply content_hit_nonneg. reflexivity.
    + intros s1 s2 N. apply content_hit_first; [reflexivity|exact N|exact Hc].
    + intros s1 x s2. apply content_hit_strong. reflexivity.
  - intros st p st'. rewrite (@frameworks_trigger_content r _ Ec).
    apply (for_each_invariant strong). intros s1 x s2 _.
    apply content_hit_strong. reflexivity.
Qed.

Lemma frameworks_rule_transfer n r ev :
  frameworks_rule t n r = Ok ev ->
  exists ev', frameworks_rule t' n r = Ok ev' /\
    (below ev ev' \/ (trigger_hit r e /\ above_zero (fst ev'))).
Proof.
  unfold frameworks_rule.
  destruct (for_each (frameworks_trigger t r) _ _) as [ev0|] eqn:E0;
    cbn [bind]; [|discriminate].
  destruct (@for_each_related _ _ below (frameworks_trigger t r)
              (frameworks_trigger t' r) (get_list (r_files r))
              (fun st st' p st1 _ => @frameworks_trigger_below r st st' p st1)
              no_evidence no_evidence ev0 below_no_evidence E0)
    as (ev0' & E0' & B0).
  rewrite E0'. cbn [bind].
  destruct (r_content_patterns r) as [cps|] eqn:Ec;
    [|intros E; inversion E; subst; eauto].
  destruct (existsb (fun p => glob_match p e) (get_list (r_files r))
            && content_matches cps e) eqn:Eh.
  - apply andb_true_iff in Eh. destruct Eh as [Eg Hc].
    apply existsb_exists in Eg. destruct Eg as (p0 & Hp0 & Hg).
    destruct (frameworks_triggers_strong r p0 Ec Hp0 Hg Hc E0') as [P N].
    intros _. exists ev0'. split.
    + destruct (snd ev0'); [contradiction|reflexivity].
    + right. split; [|exact P]. exists cps, p0. auto.
  - assert (Esame : ev0' = ev0).
    { rewrite (for_each_ext (frameworks_trigger t' r)
                            (frameworks_trigger t r)) in E0'; [congruence|].
      intros st p Hp. apply frameworks_trigger_same with (cps:=cps);
        [exact Ec|].
      apply andb_false_iff in Eh. destruct Eh as [Eg|Hc]; [left|auto].
      destruct (glob_match p e) eqn:Eg'; [|reflexivity].
      rewrite <- Eg. symmetry. apply existsb_exists. eauto. }
    subst ev0'. pose proof (below_refl ev0 (proj1 B0)) as B.
    destruct (snd ev0); [|intros E; inversion E; subst; eauto].
    destruct (lookup_string _ _) as [exts|];
      [|intros E; inversion E; subst; eauto].
    intros E. destruct (extension_scan_below _ _ _ B E) as (ev' & E' & B').
    eauto.
Qed.

End Monotone.

Section Transfer.

Context {F : Type} {SF : Score F} {SO : ScoreOrder F} {SA : ScoreArith F}.
Context {R : Type} (eval eval' : string -> R -> result (evidence (F:=F))).
Context (T : R -> evidence (F:=F) -> evidence (F:=F) -> Prop).
Hypothesis transfer : forall n r ev,
  eval n r = Ok ev -> exists ev', eval' n r = Ok ev' /\ T r ev ev'.
Hypothesis transfer_positive : forall r ev ev',
  T r ev ev' -> above_zero (fst ev) -> above_zero (fst ev').

Lemma scan_rules_transfer rules L0 :
  scan_rules eval rules [] = Ok L0 ->
  exists L0', scan_rules eval' rules [] = Ok L0' /\
    forall x, In x L0 ->
      exists r ev ev', In (name x, r) rules /\ T r ev ev' /\
        x = detected (name x) ev /\ In (detected (name x) ev') L0'.
Proof.
  intros E. destruct (scan_rules_complete _ _ _ E) as [_ Hall].
  destruct (scan_rules_total eval' rules []) as [L0' E'].
  { intros n r Hin. destruct (Hall n r Hin) as (ev & He & _).
    destruct (transfer He) as (ev' & He' & _). eauto. }
  exists L0'. split; [exact E'|]. intros x Hx.
  destruct (scan_rules_origin _ _ _ E x Hx) as [[]|(r & ev & Hin & He & Hp & Hd)].
  destruct (transfer He) as (ev' & He' & HT).
  exists r, ev, ev'. repeat split; try assumption.
  destruct (scan_rules_complete _ _ _ E') as [_ Hall'].
  destruct (Hall' _ _ Hin) as (ev'' & He'' & Hin').
  rewrite He' in He''. inversion He''; subst ev''.
  apply Hin'. exact (transfer_positive HT Hp).
Qed.

Lemma detect_transfer rules L :
  (L0 <- scan_rules eval rules [] ;; Ok (sorted_desc L0)) = Ok L ->
  exists L',
    (L0' <- scan_rules eval' rules [] ;; Ok (sorted_desc L0')) = Ok L' /\
    forall x, In x L ->
      exists r ev ev', In (name x, r) rules /\ T r ev ev' /\
        x = detected (name x) ev /\ In (detected (name x) ev') L'.
Proof.
  destruct (scan_rules eval rules []) as [L0|] eqn:E; cbn [bind];
    [|discriminate].
  intros EL. inversion EL; subst L; clear EL.
  destruct (scan_rules_transfer _ E) as (L0' & E' & H).
  rewrite E'. cbn [bind]. eexists. split; [reflexivity|].
  intros x Hx. apply (proj1 (sorted_desc_In _ _)) in Hx.
  destruct (H x Hx) as (r & ev & ev' & H1 & H2 & H3 & H4).
  exists r, ev, ev'. repeat split; try assumption.
  apply sorted_desc_In, H4.
Qed.

End Transfer.

Section OneMoreFile.

Context {F : Type} {SF : Score F} {SO : ScoreOrder F} {SA : ScoreArith F}.
Variables (dr : rule_catalog) (t1 t2 : tree) (e : entry).
Hypothesis e_file : is_file e = true.

(** a category whose rules never lose evidence keeps its technologies *)
Lemma detect_below {R} (eval eval' : string -> R -> result (evidence (F:=F)))
  rules L :
  rule_below eval eval' ->
  (L0 <- scan_rules eval rules [] ;; Ok (sorted_desc L0)) = Ok L ->
  exists L',
    (L0' <- scan_rules eval' rules [] ;; Ok (sorted_desc L0')) = Ok L' /\
    forall x, In x L ->
      exists x', In x' L' /\ name x' = name x /\
                 le (confidence x) (confidence x').
Proof.
  intros Hb EL.
  destruct (detect_transfer eval eval' (fun _ ev ev' => below ev ev'))
    with (rules:=rules) (L:=L) as (L' & EL' & H).
  - intros n r ev He. apply Hb, He.
  - intros r ev ev'. apply below_positive.
  - exact EL.
  - exists L'. split; [exact EL'|]. intros x Hx.
    destruct (H x Hx) as (r & ev & ev' & _ & B & -> & Hin).
    eexists. split; [exact Hin|]. split; [reflexivity|].
    apply py_min_mono. exact (proj2 B).
Qed.

Lemma detect_frameworks_transfer L :
  _detect_frameworks dr (t1 ++ t2) = Ok L ->
  exists L', _detect_frameworks dr (t1 ++ e :: t2) = Ok L' /\
    forall x, In x L ->
      exists x', In x' L' /\ name x' = name x /\
        (le (confidence x) (confidence x') \/
         exists r, In (name x, r) (cat_frameworks dr) /\ trigger_hit r e).
Proof.
  intros EL. unfold _detect_frameworks in *.
  destruct (detect_transfer (frameworks_rule (t1 ++ t2))
              (frameworks_rule (t1 ++ e :: t2))
              (fun r ev ev' =>
                 below ev ev' \/ (trigger_hit r e /\ above_zero (fst ev'))))
    with (rules:=cat_frameworks dr) (L:=L) as (L' & EL' & H).
  - intros n r ev. apply frameworks_rule_transfer, e_file.
  - intros r ev ev' [B|[_ P]] Hp; [eapply below_positive; eauto|exact P].
  - exact EL.
  - exists L'. split; [exact EL'|]. intros x Hx.
    destruct (H x Hx) as (r & ev & ev' & Hr & HT & -> & Hin).
    eexists. split; [exact Hin|]. split; [reflexivity|].
    destruct HT as [B|[Hh _]].
    + left. apply py_min_mono. exact (proj2 B).
    + right. exists r. auto.
Qed.

End OneMoreFile.

(* ------------------------------------------------------------------ *)
(** * What a content scan adds, and what a match is worth *)

Section Contribution.

Context {F : Type} {SF : Score F} {SO : ScoreOrder F} {SA : ScoreArith F}.
Local Open Scope score_scope.

Lemma content_hit_counts inc cps (c : F) fs f :
  read_or_skipped f ->
  content_hit inc false cps (c, fs) f
  = Ok (if content_matches cps f then c + inc else c,
        if content_matches cps f then fs ++ [rel_path f] else fs).
Proof.
  unfold content_hit, content_matches, read_or_skipped, read_failure.
  destruct (read_text f) as [s|[]]; try discriminate; try reflexivity.
  intros _. destruct (existsb _ cps); reflexivity.
Qed.

Lemma content_scan_hits inc cps ms (c : F) fs :
  (forall f, In f ms -> read_or_skipped f) ->
  for_each (content_hit inc false cps) ms (c, fs)
  = Ok (add_per_hit inc (content_matches cps) ms c,
        fs ++ map rel_path (filter (content_matches cps) ms)).
Proof.
  revert c fs. induction ms as [|f ms IH]; intros c fs H.
  - simpl. rewrite app_nil_r. reflexivity.
  - cbn [for_each]. rewrite content_hit_counts by (apply H; left; reflexivity).
    cbn [bind]. rewrite IH by (intros f' Hin; apply H; right; exact Hin).
    unfold add_per_hit. cbn [fold_left filter].
    destruct (content_matches cps f); [|reflexivity].
    cbn [map]. rewrite <- app_assoc. reflexivity.
Qed.

Lemma kubernetes_scan_hits cps ms (c : F) fs :
  (forall f, In f ms -> yaml_named f = true -> read_or_skipped f) ->
  for_each (kubernetes_hit cps) ms (c, fs)
  = Ok (add_per_hit (f_tenths 7)
                    (fun m => yaml_named m && content_matches cps m) ms c,
        fs ++ map rel_path
                  (filter (fun m => yaml_named m && content_matches cps m) ms)).
Proof.
  revert c fs. induction ms as [|f ms IH]; intros c fs H.
  - simpl. rewrite app_nil_r. reflexivity.
  - assert (Hms : forall f', In f' ms -> yaml_named f' = true ->
                             read_or_skipped f')
      by (intros f' Hin; apply H; right; exact Hin).
    cbn [for_each]. unfold add_per_hit. cbn [fold_left filter].
    unfold kubernetes_hit at 1. fold (yaml_named f).
    destruct (yaml_named f) eqn:Ey; cbn [andb bind]; [|apply IH, Hms].
    rewrite content_hit_counts by (apply H; [left; reflexivity|exact Ey]).
    cbn [bind]. rewrite IH by exact Hms. unfold add_per_hit.
    destruct (content_matches cps f); [|reflexivity].
    cbn [map]. rewrite <- app_assoc. reflexivity.
Qed.

(** ** A match in the file-trigger or the filename channel emits the
    technology *)

Hypothesis scale_positive :
  forall n, above_zero (f_tenths 3 * f_of_len (Datatypes.S n)).

Lemma above_zero_increased (x y : F) :
  above_zero x -> nonneg y -> above_zero (x + y).
Proof.
  intros P N. eapply ltb_leb_trans; [exact P|].
  apply add_increasing; [apply positive_nonneg, P|exact N].
Qed.

Lemma fold_left_reaches {A S} (J K : S -> Prop) (b : S -> A -> S) xs x0 :
  In x0 xs ->
  (forall st x, J st -> J (b st x)) ->
  (forall st, J st -> K (b st x0)) ->
  (forall st x, K st -> K (b st x)) ->
  forall st, J st -> K (fold_left b xs st).
Proof.
  intros Hin HJ H0 HK. induction xs as [|x xs IH]; [contradiction|].
  intros st Hst. simpl. destruct Hin as [->|Hin].
  - apply fold_left_invariant; [intros; apply HK; assumption|].
    apply H0, Hst.
  - apply IH; [exact Hin|]. apply HJ, Hst.
Qed.

Lemma flat_trigger_counted t d ev p :
  (d < 10)%positive -> counted ev -> counted (flat_trigger t (f_tenths d) ev p).
Proof.
  intros Hd N. destruct ev as [c fs]. unfold flat_trigger, counted in *.
  destruct (rglob t p); [exact N|]. simpl.
  apply nonneg_add; [exact N|apply tenths_nonneg, Hd].
Qed.

Lemma flat_trigger_strong t d ev p :
  (d < 10)%positive -> strong ev -> strong (flat_trigger t (f_tenths d) ev p).
Proof.
  intros Hd [P N]. destruct ev as [c fs]. unfold flat_trigger.
  destruct (rglob t p) as [|m ms]; [split; assumption|]. split; simpl.
  - apply above_zero_increased; [exact P|apply tenths_nonneg, Hd].
  - apply extend_nonempty.
Qed.

Lemma flat_trigger_first t d ev p :
  (d < 10)%positive -> rglob t p <> [] -> counted ev ->
  strong (flat_trigger t (f_tenths d) ev p).
Proof.
  intros Hd Hne N. destruct ev as [c fs]. unfold flat_trigger, counted in *.
  destruct (rglob t p) as [|m ms]; [contradiction|]. split; simpl.
  - apply add_positive; [exact N|apply tenths_positive, Hd].
  - apply extend_nonempty.
Qed.

Lemma flat_rule_strong t d ps p :
  (d < 10)%positive -> In p ps -> rglob t p <> [] ->
  strong (fold_left (flat_trigger t (f_tenths d)) ps no_evidence).
Proof.
  intros Hd Hin Hne.
  apply (fold_left_reaches counted strong) with (x0:=p); [exact Hin| | | |].
  - intros. apply flat_trigger_counted; assumption.
  - intros. apply flat_trigger_first; assumption.
  - intros. apply flat_trigger_strong; assumption.
  - apply nonneg_zero.
Qed.

Lemma languages_trigger_counted t ev p :
  counted ev -> counted (languages_trigger t ev p).
Proof.
  intros N. destruct ev as [c fs]. unfold languages_trigger, counted in *.
  destruct (rglob t p); [exact N|]. simpl.
  apply nonneg_add; [exact N|apply scale_nonneg; reflexivity].
Qed.

Lemma languages_trigger_strong t ev p :
  strong ev -> strong (languages_trigger t ev p).
Proof.
  intros [P N]. destruct ev as [c fs]. unfold languages_trigger.
  destruct (rglob t p) as [|m ms]; [split; assumption|]. split; simpl.
  - apply above_zero_increased; [exact P|apply scale_nonneg; reflexivity].
  - apply extend_nonempty.
Qed.

Lemma languages_trigger_first t ev p :
  rglob t p <> [] -> counted ev -> strong (languages_trigger t ev p).
Proof.
  intros Hne N. destruct ev as [c fs]. unfold languages_trigger, counted in *.
  destruct (rglob t p) as [|m ms]; [contradiction|]. split.
  - cbn [fst List.length]. apply add_positive; [exact N|apply scale_positive].
  - apply extend_nonempty.
Qed.

Section NameStep.

Variable step : string -> evidence (F:=F) -> entry -> evidence (F:=F).
Hypothesis step_counted : forall p ev f, counted ev -> counted (step p ev f).
Hypothesis step_strong : forall p ev f, strong ev -> strong (step p ev f).
Hypothesis step_first : forall p ev f,
  is_file f = true -> re_search p (name_of f) = true -> counted ev ->
  strong (step p ev f).

Lemma name_scan_strong ms ps ev :
  strong ev -> strong (fold_left (fun ev p => fold_left (step p) ms ev) ps ev).
Proof.
  apply fold_left_invariant. intros st p _.
  apply fold_left_invariant. intros st' f _. apply step_strong.
Qed.

Lemma name_scan_first ms ps ev p f :
  In p ps -> In f ms -> is_file f = true -> re_search p (name_of f) = true ->
  counted ev ->
  strong (fold_left (fun ev p => fold_left (step p) ms ev) ps ev).
Proof.
  intros Hp Hf Ef Em.
  apply (fold_left_reaches counted strong) with (x0:=p); [exact Hp| | |].
  - intros st p' N. revert N. apply fold_left_invariant.
    intros st' f' _. apply step_counted.
  - intros st N.
    apply (fold_left_reaches counted strong) with (x0:=f);
      [exact Hf| | | |exact N].
    + intros. apply step_counted. assumption.
    + intros. apply step_first; assumption.
    + intros. apply step_strong. assumption.
  - intros st p' N. revert N. apply fold_left_invariant.
    intros st' f' _. apply step_strong.
Qed.

End NameStep.

Lemma languages_name_counted p ev f :
  counted ev -> counted (languages_name_step p ev f).
Proof.
  intros N. destruct ev as [c fs]. unfold languages_name_step, counted in *.
  destruct (is_file f && re_search p (name_of f)); [|exact N]. simpl.
  apply nonneg_add; [exact N|apply tenths_nonneg; reflexivity].
Qed.

Lemma languages_name_strong p ev f :
  strong ev -> strong (languages_name_step p ev f).
Proof.
  intros [P N]. destruct ev as [c fs]. unfold languages_name_step.
  destruct (is_file f && re_search p (name_of f)); [|split; assumption].
  split; simpl.
  - apply above_zero_increased; [exact P|apply tenths_nonneg; reflexivity].
  - destruct (mem_string (rel_path f) fs); [exact N|apply append_nonempty].
Qed.

Lemma languages_name_first p ev f :
  is_file f = true -> re_search p (name_of f) = true -> counted ev ->
  strong (languages_name_step p ev f).
Proof.
  intros Ef Em N. destruct ev as [c fs].
  unfold languages_name_step, counted in *.
  rewrite Ef, Em. split; simpl.
  - apply add_positive; [exact N|apply tenths_positive; reflexivity].
  - destruct (mem_string (rel_path f) fs) eqn:M;
      [eapply mem_string_nonempty, M|apply append_nonempty].
Qed.

Lemma test_tools_name_counted p ev f :
  counted ev -> counted (test_tools_name_step p ev f).
Proof.
  intros N. destruct ev as [c fs]. unfold test_tools_name_step, counted in *.
  destruct (is_file f && re_search p (name_of f)); [|exact N]. simpl.
  apply nonneg_add; [exact N|apply tenths_nonneg; reflexivity].
Qed.

Lemma test_tools_name_strong p ev f :
  strong ev -> strong (test_tools_name_step p ev f).
Proof.
  intros [P N]. destruct ev as [c fs]. unfold test_tools_name_step.
  destruct (is_file f && re_search p (name_of f)); [|split; assumption].
  split; simpl.
  - apply above_zero_increased; [exact P|apply tenths_nonneg; reflexivity].
  - apply append_nonempty.
Qed.

Lemma test_tools_name_first p ev f :
  is_file f = true -> re_search p (name_of f) = true -> counted ev ->
  strong (test_tools_name_step p ev f).
Proof.
  intros Ef Em N. destruct ev as [c fs].
  unfold test_tools_name_step, counted in *.
  rewrite Ef, Em. split; simpl.
  - apply add_positive; [exact N|apply tenths_positive; reflexivity].
  - apply append_nonempty.
Qed.

Lemma glob_chars_star s : glob_chars (chars "*") s = true.
Proof.
  cbn [chars list_ascii_of_string glob_chars Ascii.eqb Bool.eqb].
  induction s as [|c s IH]; [reflexivity|].
  cbn [glob_chars orb]. exact IH.
Qed.

Lemma listed_by_star t f : In f t -> In f (rglob t "*").
Proof.
  intros H. unfold rglob. apply filter_In. split; [exact H|].
  unfold glob_match.
  replace (ends_with_slash "*") with false by reflexivity.
  replace (is_wildcard_pattern "*") with true by reflexivity.
  apply glob_chars_star.
Qed.

Lemma file_triggered_match t r f :
  In f t -> file_triggered r f ->
  exists p, In p (get_list (r_files r)) /\ rglob t p <> [].
Proof.
  intros Hin (p & Hp & Hg). exists p. split; [exact Hp|].
  intros E. assert (H : In f (rglob t p)).
  { unfold rglob. apply filter_In. auto. }
  rewrite E in H. contradiction.
Qed.

Lemma languages_rule_emits t n r ev f :
  In f t -> file_triggered r f \/ name_matched r f ->
  languages_rule t n r = Ok ev -> strong ev.
Proof.
  intros Hin H. unfold languages_rule.
  destruct (r_files r) as [fps|] eqn:Ef; [|discriminate].
  intros E. apply (name_scans_Ok _ _ languages_name_after_stat) in E.
  destruct E as [-> _]. destruct H as [H|(Hf & p & Hp & Hm)].
  - destruct (@file_triggered_match _ _ _ Hin H) as (p & Hp & Hne).
    rewrite Ef in Hp. cbn [get_list] in Hp.
    apply name_scan_strong; [apply languages_name_strong|].
    apply (fold_left_reaches counted strong) with (x0:=p); [exact Hp| | | |].
    + intros. apply languages_trigger_counted. assumption.
    + intros. apply languages_trigger_first; assumption.
    + intros. apply languages_trigger_strong. assumption.
    + apply nonneg_zero.
  - apply name_scan_first with (p:=p) (f:=f);
      [apply languages_name_counted|apply languages_name_strong
      |apply languages_name_first|exact Hp|apply listed_by_star, Hin
      |exact Hf|exact Hm|].
    apply fold_left_invariant; [|apply nonneg_zero].
    intros. apply languages_trigger_counted. assumption.
Qed.

Lemma extension_scan_strong t dedupe cps exts ev ev' :
  strong ev -> extension_scan t dedupe cps exts ev = Ok ev' -> strong ev'.
Proof.
  apply for_each_invariant. intros st ext st' _.
  apply for_each_invariant. intros s1 x s2 _.
  apply content_hit_strong. reflexivity.
Qed.

Lemma test_tools_rule_emits t n r ev f :
  In f t -> file_triggered r f \/ name_matched r f ->
  test_tools_rule t n r = Ok ev -> strong ev.
Proof.
  intros Hin H. unfold test_tools_rule, test_tools_trigger.
  destruct (for_each _ (get_list (r_patterns r)) _) as [ev0|] eqn:E0;
    cbn [bind]; [|discriminate].
  apply (name_scans_Ok _ _ test_tools_name_after_stat) in E0.
  destruct E0 as [E0 _].
  assert (S0 : strong ev0).
  { rewrite E0. destruct H as [H|(Hf & p & Hp & Hm)].
    - destruct (@file_triggered_match _ _ _ Hin H) as (p & Hp & Hne).
      apply name_scan_strong; [apply test_tools_name_strong|].
      apply flat_rule_strong with (p:=p); [reflexivity|exact Hp|exact Hne].
    - apply name_scan_first with (p:=p) (f:=f);
        [apply test_tools_name_counted|apply test_tools_name_strong
        |apply test_tools_name_first|exact Hp|apply listed_by_star, Hin
        |exact Hf|exact Hm|].
      apply fold_left_invariant; [|apply nonneg_zero].
      intros. apply flat_trigger_counted; [reflexivity|assumption]. }
  clear E0.
  destruct (r_content_patterns r) as [cps|];
    [|intros E; inversion E; subst; exact S0].
  destruct (lookup_string _ _) as [exts|];
    [|intros E; inversion E; subst; exact S0].
  apply extension_scan_strong, S0.
Qed.

Lemma build_tools_rule_emits t n r ev f :
  In f t -> file_triggered r f -> build_tools_rule t n r = Ok ev -> strong ev.
Proof.
  intros Hin H E. inversion E; subst.
  destruct (@file_triggered_match _ _ _ Hin H) as (p & Hp & Hne).
  apply flat_rule_strong with (p:=p); [reflexivity|exact Hp|exact Hne].
Qed.

Lemma package_managers_rule_emits t n fns ev f :
  In f t -> file_triggered (pm_rule fns) f ->
  package_managers_rule t n fns = Ok ev -> strong ev.
Proof.
  intros Hin H E. inversion E; subst.
  destruct (@file_triggered_match _ _ _ Hin H) as (p & Hp & Hne).
  apply flat_rule_strong with (p:=p); [reflexivity|exact Hp|exact Hne].
Qed.

(** a loop of triggers that add a flat score for a non-empty match set *)
Lemma flat_loop_strong t d
  (b : evidence (F:=F) -> string -> result (evidence (F:=F))) ps p ev :
  (d < 10)%positive ->
  (forall st q, b st q = Ok (flat_trigger t (f_tenths d) st q)) ->
  In p ps -> rglob t p <> [] ->
  for_each b ps no_evidence = Ok ev -> strong ev.
Proof.
  intros Hd Hb Hp Hne.
  apply (for_each_reaches counted strong) with (x0:=p); [exact Hp| | | |].
  - intros st q st' N E. rewrite Hb in E. inversion E; subst.
    apply flat_trigger_counted; assumption.
  - intros st st' N E. rewrite Hb in E. inversion E; subst.
    apply flat_trigger_first; assumption.
  - intros st q st' N E. rewrite Hb in E. inversion E; subst.
    apply flat_trigger_strong; assumption.
  - apply nonneg_zero.
Qed.

Lemma frameworks_rule_emits t n r ev f :
  In f t -> r_content_patterns r = None -> file_triggered r f ->
  frameworks_rule t n r = Ok ev -> strong ev.
Proof.
  intros Hin Ec H. unfold frameworks_rule.
  destruct (for_each _ _ _) as [ev0|] eqn:E0; cbn [bind]; [|discriminate].
  rewrite Ec. intros E. inversion E; subst; clear E.
  destruct (@file_triggered_match _ _ _ Hin H) as (p & Hp & Hne).
  revert E0. apply flat_loop_strong with (t:=t) (d:=5%positive) (p:=p);
    [reflexivity| |exact Hp|exact Hne].
  intros [c fs] q. unfold frameworks_trigger, flat_trigger. rewrite Ec.
  destruct (rglob t q); reflexivity.
Qed.

Lemma infrastructure_rule_emits t n r ev f :
  In f t -> r_content_patterns r = None -> file_triggered r f ->
  infrastructure_rule t n r = Ok ev -> strong ev.
Proof.
  intros Hin Ec H. unfold infrastructure_rule.
  destruct (@file_triggered_match _ _ _ Hin H) as (p & Hp & Hne).
  apply flat_loop_strong with (t:=t) (d:=7%positive) (p:=p);
    [reflexivity| |exact Hp|exact Hne].
  intros [c fs] q. unfold infrastructure_trigger, flat_trigger. rewrite Ec.
  destruct (rglob t q); reflexivity.
Qed.

Lemma containers_rule_emits t n r ev f :
  In f t ->
  String.eqb n "kubernetes" = false \/ r_content_patterns r = None ->
  file_triggered r f ->
  containers_rule t n r = Ok ev -> strong ev.
Proof.
  intros Hin Hk H. unfold containers_rule.
  destruct (@file_triggered_match _ _ _ Hin H) as (p & Hp & Hne).
  apply flat_loop_strong with (t:=t) (d:=8%positive) (p:=p);
    [reflexivity| |exact Hp|exact Hne].
  intros [c fs] q. unfold containers_trigger, flat_trigger.
  destruct (rglob t q); [reflexivity|].
  destruct Hk as [-> | ->]; [reflexivity|].
  destruct (String.eqb n "kubernetes"); reflexivity.
Qed.

(** a rule with strong evidence is in the category list *)
Lemma emitted_by_rule {R} (eval : string -> R -> result (evidence (F:=F)))
  rules L n r :
  (L0 <- scan_rules eval rules [] ;; Ok (sorted_desc L0)) = Ok L ->
  In (n, r) rules ->
  (forall ev, eval n r = Ok ev -> strong ev) ->
  exists x, In x L /\ name x = n /\ files x <> [].
Proof.
  destruct (scan_rules eval rules []) as [L0|] eqn:E; cbn [bind];
    [|discriminate].
  intros EL Hin Hs. inversion EL; subst; clear EL.
  destruct (scan_rules_complete _ _ _ E) as [_ Hc].
  destruct (Hc n r Hin) as (ev & Ee & Hd).
  destruct (Hs ev Ee) as [P N].
  exists (detected n ev). split; [apply sorted_desc_In, Hd, P|].
  split; [reflexivity|exact N].
Qed.

End Contribution.

(* ------------------------------------------------------------------ *)
(** * Properties of the scan result *)

Section Claims.

Local Open Scope float_scope.

(** C1. For every scan result, [primary_language] is [None] if and only if
    [languages] is empty; otherwise it is the name of the entry of
    [languages] with maximal confidence, the first such entry in iteration
    order: every entry before it has a strictly smaller confidence, every
    entry after it a smaller or equal one. *)
Theorem primary_language_consistency :
  forall dr fs path (a : RepoAnalysis float),
    scan_repository dr fs path = Ok a ->
    (primary_language a = None <-> languages a = []) /\
    (languages a <> [] ->
     exists pre best post,
       languages a = pre ++ best :: post /\
       primary_language a = Some (name best) /\
       Forall (fun y => (confidence y <? confidence best) = true) pre /\
       Forall (fun y => (confidence y <=? confidence best) = true) post).
Proof.
  intros dr fs path a E.
  destruct (scan_repository_inv _ _ _ E)
    as (o & EL & E1 & _ & _ & _ & _ & _ & _ & _ & Ep).
  assert (D : Forall (fun x => defined (confidence x)) (languages a)).
  { eapply scanned_defined, detect_scanned, E1. }
  pose proof (max_confidence_spec D) as M. rewrite Ep.
  destruct (max_confidence (languages a)) as [best|]; simpl.
  - destruct M as (pre & post & El & H1 & H2). split.
    + split; [discriminate|]. intros En. rewrite En in El.
      destruct pre; discriminate.
    + intros _. exists pre, best, post. auto.
  - split; [tauto|]. intros Hne. contradiction.
Qed.

Lemma primary_language_consistency_witness :
  (primary_language scenario_A_analysis = None
   <-> languages scenario_A_analysis = []) /\
  (languages scenario_A_analysis <> [] ->
   exists pre best post,
     languages scenario_A_analysis = pre ++ best :: post /\
     primary_language scenario_A_analysis = Some (name best) /\
     Forall (fun y => (confidence y <? confidence best) = true) pre /\
     Forall (fun y => (confidence y <=? confidence best) = true) post).
Proof.
  apply (@primary_language_consistency detection_rules
           (one_directory "/repo" scenario_A) "/repo" scenario_A_analysis).
  vm_compute. reflexivity.
Defined.

(** C2. Every technology in any of the seven category lists of a scan
    result has a confidence [c] with [0.0 < c <= 1.0], and a rule without
    evidence in the tree (no trigger, no filename pattern and no content
    pattern matches anywhere) has no entry in its category list. *)
Theorem confidence_bound_and_zero_evidence :
  forall dr fs path (a : RepoAnalysis float) o,
    scan_repository dr fs path = Ok a ->
    fs_lookup fs (fs_resolve fs path) = Some o ->
    forall L cat, In (L, cat) (rule_lists dr a) ->
      (forall x, In x L ->
         (0 <? confidence x) = true /\ (confidence x <=? 1) = true) /\
      (forall n, (forall r, In (n, r) cat -> no_match (listing o) r) ->
                 forall x, In x L -> name x <> n).
Proof.
  intros dr fs path a o E EL.
  apply (each_category
           (fun t L cat =>
              (forall x, In x L ->
                 (0 <? confidence x) = true /\ (confidence x <=? 1) = true) /\
              (forall n, (forall r, In (n, r) cat -> no_match t r) ->
                         forall x, In x L -> name x <> n)))
    with (fs:=fs) (path:=path); [|exact E|exact EL].
  intros R t as_rule eval rules L Hs HL. split.
  - intros x Hx. exact (scanned_bounds HL x Hx).
  - intros n Hn x Hx. exact (scanned_no_match Hs HL Hn x Hx).
Qed.

Lemma confidence_bound_and_zero_evidence_witness :
  In (languages scenario_A_analysis, cat_languages detection_rules)
     (rule_lists detection_rules scenario_A_analysis) /\
  (forall x, In x (languages scenario_A_analysis) ->
     (0 <? confidence x) = true /\ (confidence x <=? 1) = true) /\
  (forall n, (forall r, In (n, r) (cat_languages detection_rules) ->
                        no_match scenario_A r) ->
             forall x, In x (languages scenario_A_analysis) -> name x <> n).
Proof.
  split; [left; reflexivity|].
  apply (@confidence_bound_and_zero_evidence detection_rules
           (one_directory "/repo" scenario_A) "/repo" scenario_A_analysis
           (DirectoryTree scenario_A)).
  - vm_compute. reflexivity.
  - reflexivity.
  - left. reflexivity.
Defined.

(** C4. Each of the seven category lists of a scan result is sorted by
    confidence in descending order, and the sort is stable: the entries
    of one confidence appear in the order in which the catalog declares
    their rules. *)
Theorem category_lists_sorted_and_stable :
  forall dr fs path (a : RepoAnalysis float),
    scan_repository dr fs path = Ok a ->
    forall L cat, In (L, cat) (rule_lists dr a) ->
      descending L /\
      forall c, subsequence (map name (filter (fun x => confidence x =? c) L))
                            (map fst cat).
Proof.
  intros dr fs path a E.
  destruct (scan_repository_inv _ _ _ E) as (o & EL & _).
  apply (each_category
           (fun t L cat =>
              descending L /\
              forall c,
                subsequence (map name (filter (fun x => confidence x =? c) L))
                            (map fst cat)))
    with (fs:=fs) (path:=path) (o:=o); [|exact E|exact EL].
  intros R t as_rule eval rules L Hs HL. split.
  - exact (scanned_descending HL).
  - intros c. exact (scanned_stable as_rule HL c).
Qed.

Lemma category_lists_sorted_and_stable_witness :
  In (languages scenario_A_analysis, cat_languages detection_rules)
     (rule_lists detection_rules scenario_A_analysis) /\
  descending (languages scenario_A_analysis) /\
  forall c,
    subsequence
      (map name (filter (fun x => confidence x =? c)
                        (languages scenario_A_analysis)))
      (map fst (cat_languages detection_rules)).
Proof.
  split; [left; reflexivity|].
  apply (@category_lists_sorted_and_stable detection_rules
           (one_directory "/repo" scenario_A) "/repo" scenario_A_analysis).
  - vm_compute. reflexivity.
  - left. reflexivity.
Defined.

(** C10. Every technology in any category list of a scan result has a
    non-empty [files] list. *)
Theorem emitted_files_nonempty :
  forall dr fs path (a : RepoAnalysis float),
    scan_repository dr fs path = Ok a ->
    forall x, emitted dr a x -> files x <> [].
Proof.
  intros dr fs path a E x (L & HL & Hx).
  destruct (scan_repository_inv _ _ _ E) as (o & EL & _).
  unfold category_lists in HL. apply in_map_iff in HL.
  destruct HL as ([L' cat] & <- & Hin). simpl in Hx.
  revert x Hx.
  apply (each_category
           (fun t L cat => forall x, In x L -> files x <> []))
    with (fs:=fs) (path:=path) (o:=o) (dr:=dr) (a:=a) (cat:=cat);
    [|exact E|exact EL|exact Hin].
  intros R t as_rule eval rules L Hs HL. exact (scanned_files Hs HL).
Qed.

Lemma emitted_files_nonempty_witness :
  exists x, In x (frameworks scenario_A_analysis) /\ files x <> [].
Proof.
  eexists. split; [left; reflexivity|].
  apply (@emitted_files_nonempty detection_rules
           (one_directory "/repo" scenario_A) "/repo" scenario_A_analysis).
  - vm_compute. reflexivity.
  - exists (frameworks scenario_A_analysis). split.
    + right. left. reflexivity.
    + left. reflexivity.
Defined.

(** C8. Scenario A: a directory with [requirements.txt] ([flask==2.3.2])
    and [app.py] ([from flask import Flask]), listed in either order,
    yields [python] among the languages and [flask] among the frameworks,
    each with a positive confidence. *)
Theorem scenario_A_python_and_flask :
  forall fs path t,
    fs_lookup fs (fs_resolve fs path) = Some (DirectoryTree t) ->
    t = scenario_A \/ t = scenario_A' ->
    exists a, scan fs path = Ok a /\
      (exists x, In x (languages a) /\ name x = "python"%string /\
                 (0 <? confidence x) = true) /\
      (exists x, In x (frameworks a) /\ name x = "flask"%string /\
                 (0 <? confidence x) = true).
Proof.
  intros fs path t EL Ht. unfold scan, scan_repository. rewrite EL.
  destruct Ht as [-> | ->]; vm_compute;
    (eexists; split; [reflexivity|]; split; eexists;
     (split; [left; reflexivity|split; reflexivity])).
Qed.

Lemma scenario_A_python_and_flask_witness :
  exists a, scan (one_directory "/repo" scenario_A) "/repo" = Ok a /\
    (exists x, In x (languages a) /\ name x = "python"%string /\
               (0 <? confidence x) = true) /\
    (exists x, In x (frameworks a) /\ name x = "flask"%string /\
               (0 <? confidence x) = true).
Proof.
  apply (@scenario_A_python_and_flask (one_directory "/repo" scenario_A)
           "/repo" scenario_A).
  - reflexivity.
  - left. reflexivity.
Defined.

(** C3, as the code has it: [scan_repository] resolves the path and raises
    [ValueError] whenever the resolved path does not exist, whatever the
    catalog, and returns no analysis then.  A path that exists and is not a
    directory is not rejected: the scan returns an analysis with seven empty
    category lists and no primary language. *)
Theorem path_validation :
  forall fs path,
    (fs_lookup fs (fs_resolve fs path) = None ->
     forall dr,
       scan_repository (F:=float) dr fs path
       = Raise (ValueError
                  ("Repository path does not exist: " ++ fs_resolve fs path))) /\
    (fs_lookup fs (fs_resolve fs path) = Some NotADirectory ->
     scan fs path = Ok (empty_analysis (fs_resolve fs path))).
Proof.
  intros fs path. unfold scan, scan_repository. split; intros ->; reflexivity.
Qed.

Lemma path_validation_witness :
  (fs_lookup a_regular_file (fs_resolve a_regular_file "/nowhere") = None ->
   forall dr,
     scan_repository (F:=float) dr a_regular_file "/nowhere"
     = Raise (ValueError
                ("Repository path does not exist: "
                 ++ fs_resolve a_regular_file "/nowhere"))) /\
  (fs_lookup a_regular_file (fs_resolve a_regular_file "/repo/README.md")
   = Some NotADirectory ->
   scan a_regular_file "/repo/README.md"
   = Ok (empty_analysis (fs_resolve a_regular_file "/repo/README.md"))).
Proof.
  split.
  - exact (proj1 (path_validation a_regular_file "/nowhere")).
  - exact (proj2 (path_validation a_regular_file "/repo/README.md")).
Defined.

(** C3 fails as stated: the path of a regular file exists, is not a
    directory, and is scanned without an error. *)
Lemma regular_file_is_scanned :
  fs_lookup a_regular_file (fs_resolve a_regular_file "/repo/README.md")
  = Some NotADirectory /\
  scan a_regular_file "/repo/README.md" = Ok (empty_analysis "/repo/README.md").
Proof. split; reflexivity. Qed.




(** C6 fails on the code: in a repository that holds [setup.py] only, the
    triggers [*.py] and [setup.py] of the python rule both record the
    file, and [files] lists it twice. *)
Theorem setup_py_is_listed_twice :
  scan (one_directory "/repo" only_setup_py) "/repo"
    = Ok only_setup_py_analysis /\
  exists x, In x (languages only_setup_py_analysis) /\
            name x = "python"%string /\
            files x = ["setup.py"; "setup.py"]%string /\
            ~ NoDup (files x).
Proof.
  split; [vm_compute; reflexivity|].
  eexists. split; [left; reflexivity|]. split; [reflexivity|].
  split; [reflexivity|]. simpl. intros H. inversion H as [|? ? Hin _]; subst.
  apply Hin. left. reflexivity.
Qed.

Lemma float_scale_positive n :
  above_zero (F:=float) (f_tenths 3 * f_of_len (Datatypes.S n))%score.
Proof.
  apply (ltb_leb_trans (F:=float) f_zero
           (y:=(f_tenths 3 * f_of_len 1)%score)).
  - vm_compute. reflexivity.
  - apply (scale_mono (F:=float)); [reflexivity|lia].
Qed.

Lemma named_in {F} (n : string) (L : list (DetectedTechnology F)) :
  (exists x, In x L /\ name x = n /\ files x <> []) -> In n (map name L).
Proof. intros (x & Hx & <- & _). apply in_map, Hx. Qed.




End Claims.

Section MonotoneEvidence.

Local Open Scope score_scope.

(** In an arithmetic with the laws [ScoreOrder] and [ScoreArith]: when a
    scan of a tree completes, the scan of the same tree with one more
    regular file completes as well, every technology of the first result
    is still in its category list, and its confidence has not decreased,
    except for a framework for which the added file is a content hit of a
    file trigger of its rule. *)
Lemma one_more_file_any_arithmetic :
  forall (F : Type) (SF : Score F), ScoreOrder F -> ScoreArith F ->
  forall dr root t1 e t2 (a : RepoAnalysis F),
    is_file e = true ->
    scan_repository dr (one_directory root (t1 ++ t2)) root = Ok a ->
    exists a',
      scan_repository dr (one_directory root (t1 ++ e :: t2)) root = Ok a' /\
      (forall proj,
         In proj [languages (F:=F); test_tools (F:=F); build_tools (F:=F);
                  containers (F:=F); infrastructure (F:=F);
                  package_managers (F:=F)] ->
         forall x, In x (proj a) ->
           exists x', In x' (proj a') /\ name x' = name x /\
                      (confidence x <=? confidence x') = true) /\
      (forall x, In x (frameworks a) ->
         exists x', In x' (frameworks a') /\ name x' = name x /\
           ((confidence x <=? confidence x') = true \/
            exists r, In (name x, r) (cat_frameworks dr) /\ trigger_hit r e)).
Proof.
  intros F SF SO SA dr root t1 e t2 a Ef E.
  destruct (scan_repository_inv _ _ _ E)
    as (o & EL & E1 & E2 & E3 & E4 & E5 & E6 & E7 & _).
  cbn [one_directory fs_resolve fs_lookup] in EL.
  rewrite String.eqb_refl in EL. inversion EL; subst o; clear EL.
  cbn [listing] in *.
  destruct (detect_below (cat_languages dr) (languages_rule_below t1 t2 e Ef) E1)
    as (l1 & E1' & H1).
  destruct (detect_frameworks_transfer dr t1 t2 e Ef E2) as (l2 & E2' & H2).
  destruct (detect_below (cat_test_tools dr) (test_tools_rule_below t1 t2 e Ef) E3)
    as (l3 & E3' & H3).
  destruct (detect_below (cat_build_tools dr) (build_tools_rule_below t1 t2 e) E4)
    as (l4 & E4' & H4).
  destruct (detect_below (cat_containers dr) (containers_rule_below t1 t2 e Ef) E5)
    as (l5 & E5' & H5).
  destruct (detect_below (cat_infrastructure dr) (infrastructure_rule_below t1 t2 e Ef) E6)
    as (l6 & E6' & H6).
  destruct (detect_below pm_files (package_managers_rule_below t1 t2 e) E7)
    as (l7 & E7' & H7).
  unfold scan_repository. cbn [one_directory fs_resolve fs_lookup].
  rewrite String.eqb_refl. cbn [listing].
  change (_detect_languages dr (t1 ++ e :: t2) = Ok l1) in E1'.
  change (_detect_test_tools dr (t1 ++ e :: t2) = Ok l3) in E3'.
  change (_detect_build_tools dr (t1 ++ e :: t2) = Ok l4) in E4'.
  change (_detect_containers dr (t1 ++ e :: t2) = Ok l5) in E5'.
  change (_detect_infrastructure dr (t1 ++ e :: t2) = Ok l6) in E6'.
  change (_detect_package_managers (t1 ++ e :: t2) = Ok l7) in E7'.
  rewrite E1', E2', E3', E4', E5', E6', E7'. cbn [bind].
  eexists. split; [reflexivity|].
  cbn [languages frameworks test_tools build_tools containers infrastructure
       package_managers].
  split; [|exact H2].
  intros proj [<-|[<-|[<-|[<-|[<-|[<-|[]]]]]]]; assumption.
Qed.

(** C7, as the code has it, with Python's floats.  When a scan of a tree
    completes, the scan of the same tree with one more regular file
    completes as well, every technology of the first result is still in
    its category list, and its confidence has not decreased -- except for
    a framework for which the added file is a content hit of a file
    trigger of its rule: such a framework stays in the list, but the
    evidence of the trigger replaces what the scan of the extensions had
    gathered, and the confidence can decrease. *)
Theorem one_more_file_keeps_technologies :
  forall dr root t1 e t2 (a : RepoAnalysis float),
    is_file e = true ->
    scan_repository dr (one_directory root (t1 ++ t2)) root = Ok a ->
    exists a',
      scan_repository dr (one_directory root (t1 ++ e :: t2)) root = Ok a' /\
      (forall proj,
         In proj [languages (F:=float); test_tools (F:=float);
                  build_tools (F:=float); containers (F:=float);
                  infrastructure (F:=float); package_managers (F:=float)] ->
         forall x, In x (proj a) ->
           exists x', In x' (proj a') /\ name x' = name x /\
                      PrimFloat.leb (confidence x) (confidence x') = true) /\
      (forall x, In x (frameworks a) ->
         exists x', In x' (frameworks a') /\ name x' = name x /\
           (PrimFloat.leb (confidence x) (confidence x') = true \/
            exists r, In (name x, r) (cat_frameworks dr) /\ trigger_hit r e)).
Proof.
  exact (@one_more_file_any_arithmetic float PyFloat PyFloat_order
           PyFloat_arith).
Qed.

Lemma one_more_file_keeps_technologies_witness :
  exists a',
    scan_repository detection_rules
      (one_directory "/repo" (one_module ++ second_module :: [])) "/repo"
    = Ok a' /\
    (forall proj,
       In proj [languages (F:=float); test_tools (F:=float);
                build_tools (F:=float); containers (F:=float);
                infrastructure (F:=float); package_managers (F:=float)] ->
       forall x, In x (proj one_module_analysis) ->
         exists x', In x' (proj a') /\ name x' = name x /\
                    PrimFloat.leb (confidence x) (confidence x') = true) /\
    (forall x, In x (frameworks one_module_analysis) ->
       exists x', In x' (frameworks a') /\ name x' = name x /\
         (PrimFloat.leb (confidence x) (confidence x') = true \/
          exists r, In (name x, r) (cat_frameworks detection_rules) /\
                    trigger_hit r second_module)).
Proof.
  apply (@one_more_file_keeps_technologies
           detection_rules "/repo" one_module second_module []
           one_module_analysis).
  - reflexivity.
  - vm_compute. reflexivity.
Defined.

(** C7 fails as stated: three modules that import flask give the
    framework [flask] the confidence [0.3 + 0.3 + 0.3]; with [app.py]
    added, which matches the file trigger and the content pattern of the
    rule, the confidence of [flask] is [0.8]. *)
Lemma flask_confidence_decreases :
  scan (one_directory "/repo" flask_modules) "/repo"
    = Ok flask_modules_analysis /\
  scan (one_directory "/repo" (flask_modules ++ [flask_app])) "/repo"
    = Ok flask_app_analysis /\
  exists x x',
    frameworks flask_modules_analysis = [x] /\
    frameworks flask_app_analysis = [x'] /\
    name x = "flask" /\ name x' = "flask" /\
    PrimFloat.ltb (confidence x') (confidence x) = true /\
    PrimFloat.leb (confidence x) (confidence x') = false.
Proof.
  split; [vm_compute; reflexivity|]. split; [vm_compute; reflexivity|].
  do 2 eexists. repeat split.
Qed.

End MonotoneEvidence.

(* ------------------------------------------------------------------ *)
(** * Further properties of the program *)

Section PermutationFacts.

Context {A S : Type} (R : S -> S -> Prop).
Hypothesis R_refl : forall s, R s s.
Hypothesis R_trans : forall s1 s2 s3, R s1 s2 -> R s2 s3 -> R s1 s3.

Lemma fold_left_permutation (b : S -> A -> S) xs ys :
  (forall st st' x, R st st' -> R (b st x) (b st' x)) ->
  (forall st x y, R (b (b st x) y) (b (b st y) x)) ->
  Permutation xs ys ->
  forall st st', R st st' -> R (fold_left b xs st) (fold_left b ys st').
Proof.
  intros Hc Hs P. induction P as [|x l l' P IH|x y l|l1 l2 l3 P1 IH1 P2 IH2];
    intros st st' H; simpl.
  - exact H.
  - apply IH, Hc, H.
  - apply (fold_left_related R).
    + intros. apply Hc. assumption.
    + eapply R_trans; [apply Hs|]. apply Hc, Hc, H.
  - eapply R_trans; [apply IH1, R_refl|apply IH2, H].
Qed.

End PermutationFacts.

Section ListingOrder.

Context {F : Type} {SF : Score F}.
Local Open Scope score_scope.

Lemma same_score_refl (ev : evidence (F:=F)) : same_score ev ev.
Proof. split; [reflexivity|tauto]. Qed.

Lemma same_score_trans (e1 e2 e3 : evidence (F:=F)) :
  same_score e1 e2 -> same_score e2 e3 -> same_score e1 e3.
Proof. intros [H1 H2] [H3 H4]. split; [congruence|tauto]. Qed.

Lemma same_outcome_refl (m : result (evidence (F:=F))) : same_outcome m m.
Proof. destruct m; simpl; [apply same_score_refl|exact I]. Qed.

Lemma same_outcome_trans (m1 m2 m3 : result (evidence (F:=F))) :
  same_outcome m1 m2 -> same_outcome m2 m3 -> same_outcome m1 m3.
Proof.
  destruct m1, m2, m3; simpl; try tauto; try congruence.
  apply same_score_trans.
Qed.

Lemma same_outcome_bind (m m' : result (evidence (F:=F)))
  (k k' : evidence (F:=F) -> result (evidence (F:=F))) :
  same_outcome m m' ->
  (forall ev ev', same_score ev ev' -> same_outcome (k ev) (k' ev')) ->
  same_outcome (ev <- m ;; k ev) (ev <- m' ;; k' ev).
Proof. destruct m, m'; simpl; try tauto. intros H Hk. apply Hk, H. Qed.

Lemma bind_Ok {A} (m : result A) : (a <- m ;; Ok a) = m.
Proof. destruct m; reflexivity. Qed.

Lemma bind_assoc {A B C} (m : result A) (k : A -> result B) (h : B -> result C) :
  (b <- (a <- m ;; k a) ;; h b) = (a <- m ;; b <- k a ;; h b).
Proof. destruct m; reflexivity. Qed.

Lemma for_each_fold {A S} (b : S -> A -> result S) xs m :
  (s <- m ;; for_each b xs s) = fold_left (fun m x => s <- m ;; b s x) xs m.
Proof.
  revert m. induction xs as [|x xs IH]; intros m; simpl.
  - apply bind_Ok.
  - rewrite <- IH, bind_assoc. reflexivity.
Qed.

Lemma for_each_pure {A S} (b : S -> A -> S) xs st :
  for_each (fun s x => Ok (b s x)) xs st = Ok (fold_left b xs st).
Proof. revert st. induction xs as [|x xs IH]; intros st; simpl; auto. Qed.

(** a loop over the same items with bodies that keep the relation *)
Lemma for_each_same {A} (b b' : evidence (F:=F) -> A -> result evidence) xs :
  (forall ev ev' x, In x xs -> same_score ev ev' ->
                    same_outcome (b ev x) (b' ev' x)) ->
  forall ev ev', same_score ev ev' ->
    same_outcome (for_each b xs ev) (for_each b' xs ev').
Proof.
  induction xs as [|x xs IH]; simpl; intros Hb ev ev' H; [exact H|].
  apply same_outcome_bind; [apply Hb; auto|].
  intros. apply IH; auto.
Qed.

(** a loop over the items in another order, with a body whose steps commute *)
Lemma for_each_permutation {A} (b : evidence (F:=F) -> A -> result evidence)
  xs ys :
  (forall ev ev' x, same_score ev ev' -> same_outcome (b ev x) (b ev' x)) ->
  (forall ev x y, same_outcome (s <- b ev x ;; b s y) (s <- b ev y ;; b s x)) ->
  Permutation xs ys ->
  forall ev ev', same_score ev ev' ->
    same_outcome (for_each b xs ev) (for_each b ys ev').
Proof.
  intros Hc Hs P ev ev' H.
  change (for_each b xs ev) with (s <- Ok ev ;; for_each b xs s).
  change (for_each b ys ev') with (s <- Ok ev' ;; for_each b ys s).
  rewrite !for_each_fold.
  apply (fold_left_permutation same_outcome same_outcome_refl
           same_outcome_trans); [| |exact P|exact H].
  - intros m m' x Hm. apply same_outcome_bind; [exact Hm|].
    intros. apply Hc. assumption.
  - intros m x y. rewrite !bind_assoc. destruct m as [s|e]; simpl; [|exact I].
    apply Hs.
Qed.

Lemma rglob_permutation t t' p :
  Permutation t t' -> Permutation (rglob t p) (rglob t' p).
Proof.
  unfold rglob. induction 1 as [|x l l' P IH|x y l|l1 l2 l3 P1 IH1 P2 IH2]; simpl.
  - constructor.
  - destruct (glob_match p x); [constructor|]; exact IH.
  - destruct (glob_match p x), (glob_match p y);
      try apply Permutation_refl. apply perm_swap.
  - eapply Permutation_trans; eassumption.
Qed.

Lemma rglob_permutation_nil t t' p :
  Permutation t t' -> (rglob t p = [] <-> rglob t' p = []).
Proof.
  intros P. pose proof (rglob_permutation p P) as Q. split; intros E;
    rewrite E in Q;
    [apply Permutation_nil in Q|apply Permutation_sym, Permutation_nil in Q];
    exact Q.
Qed.

Lemma record_path_nonempty dedupe p ff : record_path dedupe p ff <> [].
Proof.
  unfold record_path. destruct (dedupe && mem_string p ff) eqn:E.
  - apply andb_true_iff in E. eapply mem_string_nonempty, (proj2 E).
  - apply append_nonempty.
Qed.

Section Bump.

Context {A : Type} (failure : A -> option exn) (hit : A -> bool) (inc : F).
Context (g g' : A -> list string -> list string).
Hypothesis g_nonempty : forall x ff, g x ff <> [].
Hypothesis g'_nonempty : forall x ff, g' x ff <> [].

Lemma cond_bump_same ev ev' x :
  same_score ev ev' ->
  same_outcome (cond_bump failure hit inc g ev x)
               (cond_bump failure hit inc g' ev' x).
Proof.
  intros [H1 H2]. unfold cond_bump. destruct (failure x); simpl; [exact I|].
  destruct (hit x); [|split; assumption].
  split; simpl; [congruence|].
  split; intros E; exfalso; [eapply g_nonempty|eapply g'_nonempty]; exact E.
Qed.

Lemma cond_bump_swap ev x y :
  same_outcome
    (s <- cond_bump failure hit inc g ev x ;; cond_bump failure hit inc g s y)
    (s <- cond_bump failure hit inc g ev y ;; cond_bump failure hit inc g s x).
Proof.
  unfold cond_bump.
  destruct (failure x) eqn:Ox, (failure y) eqn:Oy; simpl; rewrite ?Ox, ?Oy;
    simpl; try exact I.
  destruct (hit x), (hit y); simpl; try apply same_score_refl.
  split; simpl; [reflexivity|].
  split; intros E; exfalso; eapply g_nonempty; exact E.
Qed.

End Bump.

Lemma cond_bump_permutation {A} (failure : A -> option exn)
  (hit : A -> bool) (inc : F) g xs ys :
  (forall x ff, g x ff <> []) ->
  Permutation xs ys ->
  forall ev ev', same_score ev ev' ->
    same_outcome (for_each (cond_bump failure hit inc g) xs ev)
                 (for_each (cond_bump failure hit inc g) ys ev').
Proof.
  intros Hg. apply for_each_permutation.
  - intros. apply cond_bump_same; assumption.
  - intros. apply cond_bump_swap; assumption.
Qed.

Lemma content_hit_bump inc dedupe cps (ev : evidence (F:=F)) f :
  content_hit inc dedupe cps ev f
  = cond_bump read_failure (content_matches cps) inc
      (fun f => record_path dedupe (rel_path f)) ev f.
Proof.
  destruct ev as [c ff].
  unfold content_hit, cond_bump, content_matches, read_failure, record_path.
  destruct (read_text f) as [s|[]]; try reflexivity.
  simpl. destruct (existsb _ cps); reflexivity.
Qed.

Lemma kubernetes_hit_bump cps (ev : evidence (F:=F)) m :
  kubernetes_hit cps ev m
  = cond_bump
      (fun m => if yaml_named m then read_failure m else None)
      (fun m => yaml_named m && content_matches cps m)
      (f_tenths 7) (fun m => record_path false (rel_path m)) ev m.
Proof.
  unfold kubernetes_hit. rewrite content_hit_bump. unfold cond_bump, yaml_named.
  destruct (mem_string (suffix_of m) [".yaml"; ".yml"]); reflexivity.
Qed.

Lemma languages_name_bump pattern (ev : evidence (F:=F)) f :
  languages_name pattern ev f
  = cond_bump stat_failure
      (fun f => is_file f && re_search pattern (name_of f)) (f_tenths 2)
      (fun f => record_path true (rel_path f)) ev f.
Proof.
  rewrite languages_name_after_stat.
  destruct ev as [c ff].
  unfold languages_name_step, cond_bump, record_path, stat_failure.
  destruct (Path_is_file f); [|reflexivity]. cbn [bind].
  destruct (is_file f && re_search pattern (name_of f)); reflexivity.
Qed.

Lemma test_tools_name_bump pattern (ev : evidence (F:=F)) f :
  test_tools_name pattern ev f
  = cond_bump stat_failure
      (fun f => is_file f && re_search pattern (name_of f)) (f_tenths 4)
      (fun f => record_path false (rel_path f)) ev f.
Proof.
  rewrite test_tools_name_after_stat.
  destruct ev as [c ff].
  unfold test_tools_name_step, cond_bump, record_path, stat_failure.
  destruct (Path_is_file f); [|reflexivity]. cbn [bind].
  destruct (is_file f && re_search pattern (name_of f)); reflexivity.
Qed.

End ListingOrder.

Section ListingOrderRules.

Context {F : Type} {SF : Score F}.
Local Open Scope score_scope.
Variables t t' : tree.
Hypothesis listing : Permutation t t'.

Lemma content_scan_permutation inc dedupe cps p (ev ev' : evidence (F:=F)) :
  same_score ev ev' ->
  same_outcome (for_each (content_hit inc dedupe cps) (rglob t p) ev)
               (for_each (content_hit inc dedupe cps) (rglob t' p) ev').
Proof.
  intros H.
  rewrite (for_each_ext (content_hit inc dedupe cps) _ (rglob t p) ev
             (fun st x _ => content_hit_bump inc dedupe cps st x)).
  rewrite (for_each_ext (content_hit inc dedupe cps) _ (rglob t' p) ev'
             (fun st x _ => content_hit_bump inc dedupe cps st x)).
  apply cond_bump_permutation;
    [intros; apply record_path_nonempty|apply rglob_permutation, listing|exact H].
Qed.

Lemma kubernetes_scan_permutation cps p (ev ev' : evidence (F:=F)) :
  same_score ev ev' ->
  same_outcome (for_each (kubernetes_hit cps) (rglob t p) ev)
               (for_each (kubernetes_hit cps) (rglob t' p) ev').
Proof.
  intros H.
  rewrite (for_each_ext (kubernetes_hit cps) _ (rglob t p) ev
             (fun st x _ => kubernetes_hit_bump cps st x)).
  rewrite (for_each_ext (kubernetes_hit cps) _ (rglob t' p) ev'
             (fun st x _ => kubernetes_hit_bump cps st x)).
  apply cond_bump_permutation;
    [intros; apply record_path_nonempty|apply rglob_permutation, listing|exact H].
Qed.

Lemma languages_name_permutation pattern (ev ev' : evidence (F:=F)) :
  same_score ev ev' ->
  same_outcome (for_each (languages_name pattern) (rglob t "*") ev)
               (for_each (languages_name pattern) (rglob t' "*") ev').
Proof.
  intros H.
  rewrite (for_each_ext _ _ (rglob t "*") ev
             (fun st x _ => languages_name_bump pattern st x)).
  rewrite (for_each_ext _ _ (rglob t' "*") ev'
             (fun st x _ => languages_name_bump pattern st x)).
  apply cond_bump_permutation;
    [intros; apply record_path_nonempty|apply rglob_permutation, listing|exact H].
Qed.

Lemma test_tools_name_permutation pattern (ev ev' : evidence (F:=F)) :
  same_score ev ev' ->
  same_outcome (for_each (test_tools_name pattern) (rglob t "*") ev)
               (for_each (test_tools_name pattern) (rglob t' "*") ev').
Proof.
  intros H.
  rewrite (for_each_ext _ _ (rglob t "*") ev
             (fun st x _ => test_tools_name_bump pattern st x)).
  rewrite (for_each_ext _ _ (rglob t' "*") ev'
             (fun st x _ => test_tools_name_bump pattern st x)).
  apply cond_bump_permutation;
    [intros; apply record_path_nonempty|apply rglob_permutation, listing|exact H].
Qed.

(** the triggers *)
Lemma extend_same (ff ff' : list string) cap (ms ms' : list entry) :
  ms <> [] -> ms' <> [] ->
  (extend ff (Datatypes.S cap) ms = [] <-> extend ff' (Datatypes.S cap) ms' = []).
Proof.
  intros H H'. destruct ms as [|m ms], ms' as [|m' ms']; try congruence.
  split; intros E; exfalso; eapply extend_nonempty; exact E.
Qed.

Lemma flat_trigger_permutation inc (ev ev' : evidence (F:=F)) p :
  same_score ev ev' ->
  same_score (flat_trigger t inc ev p) (flat_trigger t' inc ev' p).
Proof.
  intros [H1 H2]. destruct ev as [c ff], ev' as [c' ff']. unfold flat_trigger.
  pose proof (rglob_permutation_nil p listing) as N.
  destruct (rglob t p) as [|m ms] eqn:E, (rglob t' p) as [|m' ms'] eqn:E';
    try (split; assumption);
    try (exfalso; destruct N as [N1 N2]; (discriminate (N1 eq_refl)
                                          || discriminate (N2 eq_refl))).
  split; simpl in *; [congruence|]. apply extend_same; discriminate.
Qed.

Lemma languages_trigger_permutation (ev ev' : evidence (F:=F)) p :
  same_score ev ev' ->
  same_score (languages_trigger t ev p) (languages_trigger t' ev' p).
Proof.
  intros [H1 H2]. destruct ev as [c ff], ev' as [c' ff']. unfold languages_trigger.
  pose proof (rglob_permutation_nil p listing) as N.
  pose proof (Permutation_length (rglob_permutation p listing)) as L.
  destruct (rglob t p) as [|m ms] eqn:E, (rglob t' p) as [|m' ms'] eqn:E';
    try (split; assumption);
    try (exfalso; destruct N as [N1 N2]; (discriminate (N1 eq_refl)
                                          || discriminate (N2 eq_refl))).
  split; cbn [fst snd] in *; [rewrite L, H1; reflexivity|].
  apply extend_same; discriminate.
Qed.

Lemma extension_scan_permutation dedupe cps exts (ev ev' : evidence (F:=F)) :
  same_score ev ev' ->
  same_outcome (extension_scan t dedupe cps exts ev)
               (extension_scan t' dedupe cps exts ev').
Proof.
  intros H. unfold extension_scan. apply for_each_same; [|exact H].
  intros. apply content_scan_permutation. assumption.
Qed.

Lemma frameworks_trigger_permutation r (ev ev' : evidence (F:=F)) p :
  same_score ev ev' ->
  same_outcome (frameworks_trigger t r ev p) (frameworks_trigger t' r ev' p).
Proof.
  intros H. pose proof (flat_trigger_permutation (f_tenths 5) p H) as Hf.
  pose proof (content_scan_permutation (f_tenths 8) false
                (match r_content_patterns r with Some c => c | None => [] end)
                p H) as Hc.
  pose proof (rglob_permutation_nil p listing) as N.
  destruct ev as [c ff], ev' as [c' ff'].
  unfold frameworks_trigger, flat_trigger in *.
  destruct (rglob t p) as [|m ms] eqn:E, (rglob t' p) as [|m' ms'] eqn:E';
    try exact H;
    try (exfalso; destruct N as [N1 N2]; (discriminate (N1 eq_refl)
                                          || discriminate (N2 eq_refl))).
  destruct (r_content_patterns r) as [cps|]; [exact Hc|exact Hf].
Qed.

Lemma infrastructure_trigger_permutation r (ev ev' : evidence (F:=F)) p :
  same_score ev ev' ->
  same_outcome (infrastructure_trigger t r ev p)
               (infrastructure_trigger t' r ev' p).
Proof.
  intros H. pose proof (flat_trigger_permutation (f_tenths 7) p H) as Hf.
  pose proof (content_scan_permutation (f_tenths 8) false
                (match r_content_patterns r with Some c => c | None => [] end)
                p H) as Hc.
  pose proof (rglob_permutation_nil p listing) as N.
  destruct ev as [c ff], ev' as [c' ff'].
  unfold infrastructure_trigger, flat_trigger in *.
  destruct (rglob t p) as [|m ms] eqn:E, (rglob t' p) as [|m' ms'] eqn:E';
    try exact H;
    try (exfalso; destruct N as [N1 N2]; (discriminate (N1 eq_refl)
                                          || discriminate (N2 eq_refl))).
  destruct (r_content_patterns r) as [cps|]; [exact Hc|exact Hf].
Qed.

Lemma containers_trigger_permutation tech r (ev ev' : evidence (F:=F)) p :
  same_score ev ev' ->
  same_outcome (containers_trigger t tech r ev p)
               (containers_trigger t' tech r ev' p).
Proof.
  intros H. pose proof (flat_trigger_permutation (f_tenths 8) p H) as Hf.
  pose proof (kubernetes_scan_permutation
                (match r_content_patterns r with Some c => c | None => [] end)
                p H) as Hc.
  pose proof (rglob_permutation_nil p listing) as N.
  destruct ev as [c ff], ev' as [c' ff'].
  unfold containers_trigger, flat_trigger in *.
  destruct (rglob t p) as [|m ms] eqn:E, (rglob t' p) as [|m' ms'] eqn:E';
    try exact H;
    try (exfalso; destruct N as [N1 N2]; (discriminate (N1 eq_refl)
                                          || discriminate (N2 eq_refl))).
  destruct (String.eqb tech "kubernetes"), (r_content_patterns r) as [cps|];
    first [exact Hc|exact Hf].
Qed.

(** the rules *)
Lemma languages_rule_permutation n r :
  same_outcome (languages_rule (F:=F) t n r) (languages_rule t' n r).
Proof.
  unfold languages_rule. destruct (r_files r) as [ps|]; [|exact I].
  apply for_each_same.
  - intros. apply languages_name_permutation. assumption.
  - apply (fold_left_related same_score); [|apply same_score_refl].
    intros. apply languages_trigger_permutation. assumption.
Qed.

Lemma frameworks_rule_permutation n r :
  same_outcome (frameworks_rule (F:=F) t n r) (frameworks_rule t' n r).
Proof.
  unfold frameworks_rule. apply same_outcome_bind.
  - apply for_each_same; [|apply same_score_refl].
    intros. apply frameworks_trigger_permutation. assumption.
  - intros ev ev' H. destruct (r_content_patterns r) as [cps|]; [|exact H].
    destruct H as [H1 H2].
    destruct (snd ev) as [|x xs] eqn:E, (snd ev') as [|x' xs'] eqn:E';
      try (split; [assumption|rewrite E, E'; exact H2]);
      try (exfalso; destruct H2 as [N1 N2]; (discriminate (N1 eq_refl)
                                             || discriminate (N2 eq_refl))).
    destruct (lookup_string _ frameworks_file_extensions) as [exts|].
    + apply extension_scan_permutation. split; [assumption|rewrite E, E'; tauto].
    + split; [assumption|rewrite E, E'; tauto].
Qed.

Lemma test_tools_rule_permutation n r :
  same_outcome (test_tools_rule (F:=F) t n r) (test_tools_rule t' n r).
Proof.
  unfold test_tools_rule. apply same_outcome_bind.
  - apply for_each_same.
    + intros. apply test_tools_name_permutation. assumption.
    + apply (fold_left_related same_score); [|apply same_score_refl].
      intros. apply flat_trigger_permutation. assumption.
  - intros ev ev' H.
    destruct (r_content_patterns r) as [cps|]; [|exact H].
    destruct (lookup_string _ test_tools_file_extensions) as [exts|];
      [|exact H].
    apply extension_scan_permutation, H.
Qed.

Lemma build_tools_rule_permutation n r :
  same_outcome (build_tools_rule (F:=F) t n r) (build_tools_rule t' n r).
Proof.
  unfold build_tools_rule. simpl.
  apply (fold_left_related same_score); [|apply same_score_refl].
  intros. apply flat_trigger_permutation. assumption.
Qed.

Lemma package_managers_rule_permutation n file_names :
  same_outcome (package_managers_rule (F:=F) t n file_names)
               (package_managers_rule t' n file_names).
Proof.
  unfold package_managers_rule. simpl.
  apply (fold_left_related same_score); [|apply same_score_refl].
  intros. apply flat_trigger_permutation. assumption.
Qed.

Lemma containers_rule_permutation n r :
  same_outcome (containers_rule (F:=F) t n r) (containers_rule t' n r).
Proof.
  unfold containers_rule. apply for_each_same; [|apply same_score_refl].
  intros. apply containers_trigger_permutation. assumption.
Qed.

Lemma infrastructure_rule_permutation n r :
  same_outcome (infrastructure_rule (F:=F) t n r) (infrastructure_rule t' n r).
Proof.
  unfold infrastructure_rule. apply for_each_same; [|apply same_score_refl].
  intros. apply infrastructure_trigger_permutation. assumption.
Qed.

End ListingOrderRules.

Section ListingOrderResult.

Context {F : Type} {SF : Score F}.
Local Open Scope score_scope.

Lemma scores_app (l1 l2 : list (DetectedTechnology F)) :
  scores (l1 ++ l2) = scores l1 ++ scores l2.
Proof. apply map_app. Qed.

Lemma emit_scores (acc acc' : list (DetectedTechnology F)) n ev ev' :
  scores acc = scores acc' -> fst ev = fst ev' ->
  scores (emit acc n ev) = scores (emit acc' n ev').
Proof.
  intros Ha He. rewrite !emit_spec, <- He.
  destruct (f_zero <? fst ev); [|exact Ha].
  rewrite !scores_app, Ha. f_equal. simpl. rewrite He. reflexivity.
Qed.

Lemma scan_rules_scores {R} (eval eval' : string -> R -> result (evidence (F:=F)))
  rules :
  (forall n r, same_outcome (eval n r) (eval' n r)) ->
  forall acc acc', scores acc = scores acc' ->
    same_list (scan_rules eval rules acc) (scan_rules eval' rules acc').
Proof.
  intros H. induction rules as [|[n r] rules IH]; intros acc acc' Ha; simpl.
  - exact Ha.
  - specialize (H n r).
    destruct (eval n r) as [ev|e], (eval' n r) as [ev'|e']; simpl in *;
      try contradiction; [|exact H].
    apply IH, emit_scores; [exact Ha|exact (proj1 H)].
Qed.

Lemma insert_desc_scores (x x' : DetectedTechnology F) l l' :
  name x = name x' -> confidence x = confidence x' ->
  scores l = scores l' ->
  scores (insert_desc x l) = scores (insert_desc x' l').
Proof.
  intros Hn Hc. revert l'. induction l as [|y l IH]; intros [|y' l'] H;
    try discriminate; simpl.
  - rewrite Hn, Hc. reflexivity.
  - simpl in H. injection H as Hyn Hyc Hl.
    rewrite <- Hc, <- Hyc. destruct (confidence x <? confidence y); simpl.
    + rewrite Hyn, Hyc. f_equal. apply IH, Hl.
    + rewrite Hn, Hc, Hyn, Hyc. f_equal. f_equal. exact Hl.
Qed.

Lemma sorted_desc_scores (l l' : list (DetectedTechnology F)) :
  scores l = scores l' -> scores (sorted_desc l) = scores (sorted_desc l').
Proof.
  revert l'. induction l as [|x l IH]; intros [|x' l'] H; try discriminate;
    [reflexivity|].
  simpl in H. injection H as Hn Hc Hl. simpl.
  apply insert_desc_scores; auto.
Qed.

Lemma max_confidence_from_scores (best best' : DetectedTechnology F) rest rest' :
  name best = name best' -> confidence best = confidence best' ->
  scores rest = scores rest' ->
  name (max_confidence_from best rest) = name (max_confidence_from best' rest').
Proof.
  revert best best' rest'. induction rest as [|x rest IH];
    intros best best' [|x' rest'] Hn Hc H; try discriminate; simpl; [exact Hn|].
  simpl in H. injection H as Hxn Hxc Hl.
  rewrite <- Hc, <- Hxc. apply IH; [| |exact Hl];
    destruct (confidence best <? confidence x); assumption.
Qed.

Lemma max_confidence_scores (l l' : list (DetectedTechnology F)) :
  scores l = scores l' ->
  option_map name (max_confidence l) = option_map name (max_confidence l').
Proof.
  destruct l as [|x l], l' as [|x' l']; try discriminate; [reflexivity|].
  intros H. simpl in H. injection H as Hn Hc Hl. simpl. f_equal.
  apply max_confidence_from_scores; assumption.
Qed.

Lemma detect_scores {R} (eval eval' : string -> R -> result (evidence (F:=F)))
  rules :
  (forall n r, same_outcome (eval n r) (eval' n r)) ->
  same_list (L0 <- scan_rules eval rules [] ;; Ok (sorted_desc L0))
            (L0 <- scan_rules eval' rules [] ;; Ok (sorted_desc L0)).
Proof.
  intros H.
  pose proof (scan_rules_scores eval eval' rules H [] [] eq_refl) as S.
  destruct (scan_rules eval rules []) as [L|e],
           (scan_rules eval' rules []) as [L'|e']; simpl in *;
    try contradiction; [|exact S].
  apply sorted_desc_scores, S.
Qed.

End ListingOrderResult.

Section ListingOrderTheorem.

Lemma scan_listing_order {F} {SF : Score F} dr root t t' :
  Permutation t t' ->
  match scan_repository (F:=F) dr (one_directory root t) root,
        scan_repository dr (one_directory root t') root with
  | Ok a, Ok a' =>
      primary_language a' = primary_language a /\
      forall proj,
        In proj [languages (F:=F); frameworks (F:=F); test_tools (F:=F);
                 build_tools (F:=F); containers (F:=F);
                 infrastructure (F:=F); package_managers (F:=F)] ->
        scores (proj a') = scores (proj a)
  | Raise _, Raise _ => True
  | _, _ => False
  end.
Proof.
  intros P. unfold scan_repository. cbn [one_directory fs_resolve fs_lookup].
  rewrite String.eqb_refl. cbn [listing].
  pose proof (detect_scores _ _ (cat_languages dr)
                (languages_rule_permutation (F:=F) P)) as D1.
  pose proof (detect_scores _ _ (cat_frameworks dr)
                (frameworks_rule_permutation (F:=F) P)) as D2.
  pose proof (detect_scores _ _ (cat_test_tools dr)
                (test_tools_rule_permutation (F:=F) P)) as D3.
  pose proof (detect_scores _ _ (cat_build_tools dr)
                (build_tools_rule_permutation (F:=F) P)) as D4.
  pose proof (detect_scores _ _ (cat_containers dr)
                (containers_rule_permutation (F:=F) P)) as D5.
  pose proof (detect_scores _ _ (cat_infrastructure dr)
                (infrastructure_rule_permutation (F:=F) P)) as D6.
  pose proof (detect_scores _ _ pm_files
                (package_managers_rule_permutation (F:=F) P)) as D7.
  fold (_detect_languages dr t) (_detect_languages dr t') in D1.
  fold (_detect_frameworks dr t) (_detect_frameworks dr t') in D2.
  fold (_detect_test_tools dr t) (_detect_test_tools dr t') in D3.
  fold (_detect_build_tools dr t) (_detect_build_tools dr t') in D4.
  fold (_detect_containers dr t) (_detect_containers dr t') in D5.
  fold (_detect_infrastructure dr t) (_detect_infrastructure dr t') in D6.
  fold (_detect_package_managers (F:=F) t) (_detect_package_managers (F:=F) t') in D7.
  destruct (_detect_languages dr t) as [l1|e1],
           (_detect_languages dr t') as [l1'|e1']; simpl in D1;
    try contradiction; cbn [bind]; [|exact I].
  destruct (_detect_frameworks dr t) as [l2|e2],
           (_detect_frameworks dr t') as [l2'|e2']; simpl in D2;
    try contradiction; cbn [bind]; [|exact I].
  destruct (_detect_test_tools dr t) as [l3|e3],
           (_detect_test_tools dr t') as [l3'|e3']; simpl in D3;
    try contradiction; cbn [bind]; [|exact I].
  destruct (_detect_build_tools dr t) as [l4|e4],
           (_detect_build_tools dr t') as [l4'|e4']; simpl in D4;
    try contradiction; cbn [bind]; [|exact I].
  destruct (_detect_containers dr t) as [l5|e5],
           (_detect_containers dr t') as [l5'|e5']; simpl in D5;
    try contradiction; cbn [bind]; [|exact I].
  destruct (_detect_infrastructure dr t) as [l6|e6],
           (_detect_infrastructure dr t') as [l6'|e6']; simpl in D6;
    try contradiction; cbn [bind]; [|exact I].
  destruct (_detect_package_managers t) as [l7|e7],
           (_detect_package_managers t') as [l7'|e7']; simpl in D7;
    try contradiction; cbn [bind]; [|exact I].
  cbn [languages frameworks test_tools build_tools containers infrastructure
       package_managers primary_language RepoAnalysis_post_init max_confidence].
  split.
  - pose proof (max_confidence_scores _ _ D1) as M.
    destruct (max_confidence l1), (max_confidence l1'); simpl in M;
      congruence.
  - intros proj [<-|[<-|[<-|[<-|[<-|[<-|[<-|[]]]]]]]]; symmetry; assumption.
Qed.

(** X1. The names and the confidences of a scan do not depend on the order
    in which the directory lists its entries: the scan of a tree and the
    scan of the same entries in another order either both return, with the
    same primary language and, in each of the seven category lists, the
    same names with the same confidences in the same order, or both raise
    an exception.  Which exception is raised can depend on the order: it
    is that of the first entry that fails. *)
Theorem scan_independent_of_listing_order :
  forall dr root t t',
    Permutation t t' ->
    (forall a : RepoAnalysis float,
       scan_repository dr (one_directory root t) root = Ok a ->
       exists a',
         scan_repository dr (one_directory root t') root = Ok a' /\
         primary_language a' = primary_language a /\
         forall proj,
           In proj [languages (F:=float); frameworks (F:=float);
                    test_tools (F:=float); build_tools (F:=float);
                    containers (F:=float); infrastructure (F:=float);
                    package_managers (F:=float)] ->
           scores (proj a') = scores (proj a)) /\
    (forall e,
       scan_repository (F:=float) dr (one_directory root t) root = Raise e ->
       exists e',
         scan_repository (F:=float) dr (one_directory root t') root
         = Raise e').
Proof.
  intros dr root t t' P.
  pose proof (scan_listing_order (F:=float) dr root P) as H.
  destruct (scan_repository dr (one_directory root t) root) as [a|e],
           (scan_repository dr (one_directory root t') root) as [a'|e'];
    try contradiction.
  - split; [|discriminate]. intros a0 E. inversion E; subst a0.
    exists a'. split; [reflexivity|exact H].
  - split; [discriminate|]. intros e0 E. exists e'. reflexivity.
Qed.

Lemma scan_independent_of_listing_order_witness :
  (forall a : RepoAnalysis float,
     scan_repository detection_rules (one_directory "/repo" scenario_A) "/repo"
     = Ok a ->
     exists a',
       scan_repository detection_rules (one_directory "/repo" scenario_A')
                       "/repo" = Ok a' /\
       primary_language a' = primary_language a /\
       forall proj,
         In proj [languages (F:=float); frameworks (F:=float);
                  test_tools (F:=float); build_tools (F:=float);
                  containers (F:=float); infrastructure (F:=float);
                  package_managers (F:=float)] ->
         scores (proj a') = scores (proj a)) /\
  (forall e,
     scan_repository (F:=float) detection_rules
       (one_directory "/repo" scenario_A) "/repo" = Raise e ->
     exists e',
       scan_repository (F:=float) detection_rules
         (one_directory "/repo" scenario_A') "/repo" = Raise e').
Proof.
  apply (@scan_independent_of_listing_order detection_rules "/repo"
           scenario_A scenario_A').
  apply Permutation_rev.
Defined.

(** the exception of a scan that fails can depend on the listing order *)
Example the_first_failure_decides :
  scan (one_directory "/repo" a_directory_and_a_broken_link) "/repo"
    = Raise IsADirectoryError /\
  scan (one_directory "/repo" (rev a_directory_and_a_broken_link)) "/repo"
    = Raise FileNotFoundError.
Proof. split; vm_compute; reflexivity. Qed.

End ListingOrderTheorem.

(* ------------------------------------------------------------------ *)
Section FirstLanguage.

Context {F : Type} {SF : Score F} {SO : ScoreOrder F}.
Local Open Scope score_scope.

Lemma max_confidence_from_descending (best : DetectedTechnology F) rest :
  Forall (fun y => (confidence y <=? confidence best) = true) rest ->
  max_confidence_from best rest = best.
Proof.
  induction 1 as [|y rest Hy Hrest IH]; simpl; [reflexivity|].
  rewrite (leb_not_ltb _ _ Hy). exact IH.
Qed.

Lemma max_confidence_descending (l : list (DetectedTechnology F)) :
  descending l -> max_confidence l = hd_error l.
Proof.
  intros D. destruct l as [|x rest]; [reflexivity|]. simpl. f_equal.
  apply max_confidence_from_descending.
  apply StronglySorted_inv in D. exact (proj2 D).
Qed.

End FirstLanguage.

Section FirstLanguageTheorem.

Local Open Scope float_scope.

(** X2. The primary language of a scan result is the name of the first
    entry of its [languages] list, and there is none when the list is
    empty: the list is sorted by descending confidence and the strict
    [max] keeps the first of the entries of maximal confidence. *)
Theorem primary_language_is_first_language :
  forall dr fs path (a : RepoAnalysis float),
    scan_repository dr fs path = Ok a ->
    primary_language a = option_map name (hd_error (languages a)).
Proof.
  intros dr fs path a E.
  destruct (scan_repository_inv _ _ _ E) as (o & EL & _ & _ & _ & _ & _ & _ & _ & _ & Ep).
  rewrite Ep. f_equal. apply max_confidence_descending.
  apply (each_category (fun t L cat => descending L))
    with (fs:=fs) (path:=path) (o:=o) (dr:=dr) (a:=a)
         (cat:=cat_languages dr); [|exact E|exact EL|left; reflexivity].
  intros R t as_rule eval rules L Hs HL. exact (scanned_descending HL).
Qed.

Lemma primary_language_is_first_language_witness :
  primary_language scenario_A_analysis
  = option_map name (hd_error (languages scenario_A_analysis)).
Proof.
  apply (@primary_language_is_first_language detection_rules
           (one_directory "/repo" scenario_A) "/repo" scenario_A_analysis).
  vm_compute. reflexivity.
Defined.

End FirstLanguageTheorem.

(* ------------------------------------------------------------------ *)
Section DistinctNames.

Lemma subsequence_In {A} (l1 l2 : list A) :
  subsequence l1 l2 -> forall x, In x l1 -> In x l2.
Proof.
  induction 1 as [|x l1 l2 H IH|x l1 l2 H IH]; simpl; intros y Hy; intuition.
Qed.

Lemma subsequence_NoDup {A} (l1 l2 : list A) :
  subsequence l1 l2 -> NoDup l2 -> NoDup l1.
Proof.
  induction 1 as [|x l1 l2 H IH|x l1 l2 H IH]; intros N.
  - constructor.
  - inversion N; subst. constructor; [|auto].
    intros Hx. eapply subsequence_In in Hx; eauto.
  - inversion N; subst. auto.
Qed.

Context {F : Type} {SF : Score F}.

Lemma insert_desc_permutation (x : DetectedTechnology F) l :
  Permutation (insert_desc x l) (x :: l).
Proof.
  induction l as [|y l IH]; simpl; [apply Permutation_refl|].
  destruct (f_ltb (confidence x) (confidence y)); [|apply Permutation_refl].
  eapply Permutation_trans; [apply perm_skip, IH|apply perm_swap].
Qed.

Lemma sorted_desc_permutation (l : list (DetectedTechnology F)) :
  Permutation (sorted_desc l) l.
Proof.
  induction l as [|x l IH]; simpl; [constructor|].
  eapply Permutation_trans; [apply insert_desc_permutation|].
  apply perm_skip, IH.
Qed.

Lemma scanned_names {R} (eval : string -> R -> result (evidence (F:=F)))
  rules L :
  scanned eval rules L ->
  exists L0, Permutation L L0 /\ subsequence (map name L0) (map fst rules).
Proof.
  intros (L0 & E & ->). exists L0. split; [apply sorted_desc_permutation|].
  destruct (scan_rules_order _ _ _ E) as (L' & -> & H). exact H.
Qed.

Lemma distinct_NoDup (l : list string) : distinct l = true -> NoDup l.
Proof.
  induction l as [|x l IH]; simpl; intros H; [constructor|].
  apply andb_true_iff in H. destruct H as [H1 H2].
  constructor; [|auto]. intros Hx. apply negb_true_iff in H1.
  assert (M : mem_string x l = true).
  { unfold mem_string. apply existsb_exists. exists x.
    split; [exact Hx|apply String.eqb_refl]. }
  congruence.
Qed.

End DistinctNames.

Section DistinctNamesTheorem.

(** X3. No technology is listed twice: in each of the seven category lists
    of a scan result the names are pairwise distinct, and each is the name
    of a rule of the category. *)
Theorem technology_names_distinct :
  forall fs path (a : RepoAnalysis float),
    scan fs path = Ok a ->
    forall L cat, In (L, cat) (rule_lists detection_rules a) ->
      NoDup (map name L) /\
      forall x, In x L -> In (name x) (map fst cat).
Proof.
  intros fs path a E L cat Hin.
  destruct (scan_repository_inv _ _ _ E) as (o & EL & _).
  assert (N : NoDup (map fst cat)).
  { cbn [rule_lists In] in Hin.
    destruct Hin as [Eq|[Eq|[Eq|[Eq|[Eq|[Eq|[Eq|[]]]]]]]];
      inversion Eq; subst; clear Eq; apply distinct_NoDup; reflexivity. }
  revert N.
  apply (each_category
           (fun t L cat => NoDup (map fst cat) ->
              NoDup (map name L) /\
              forall x, In x L -> In (name x) (map fst cat)))
    with (fs:=fs) (path:=path) (o:=o) (dr:=detection_rules) (a:=a);
    [|exact E|exact EL|exact Hin].
  intros R t as_rule eval rules L' Hs HL. rewrite as_category_names. intros N.
  destruct (scanned_names HL) as (L0 & P & S). split.
  - apply (Permutation_NoDup (Permutation_sym (Permutation_map name P))).
    exact (subsequence_NoDup S N).
  - intros x Hx. apply (subsequence_In S).
    apply (Permutation_in _ (Permutation_map name P)), in_map, Hx.
Qed.

Lemma technology_names_distinct_witness :
  In (languages scenario_A_analysis, cat_languages detection_rules)
     (rule_lists detection_rules scenario_A_analysis) /\
  NoDup (map name (languages scenario_A_analysis)) /\
  forall x, In x (languages scenario_A_analysis) ->
            In (name x) (map fst (cat_languages detection_rules)).
Proof.
  split; [left; reflexivity|].
  apply (@technology_names_distinct (one_directory "/repo" scenario_A) "/repo"
           scenario_A_analysis).
  - vm_compute. reflexivity.
  - left. reflexivity.
Defined.

End DistinctNamesTheorem.

(* ------------------------------------------------------------------ *)
Section EvidenceOfEntries.

Context {F : Type} {SF : Score F}.
Local Open Scope score_scope.

(** what holds of the evidence of every rule holds of every entry *)
Lemma emitted_evidence (Q : tree -> evidence (F:=F) -> Prop) :
  (forall t n r ev, languages_rule t n r = Ok ev -> Q t ev) ->
  (forall t n r ev, frameworks_rule t n r = Ok ev -> Q t ev) ->
  (forall t n r ev, test_tools_rule t n r = Ok ev -> Q t ev) ->
  (forall t n r ev, build_tools_rule t n r = Ok ev -> Q t ev) ->
  (forall t n r ev, containers_rule t n r = Ok ev -> Q t ev) ->
  (forall t n r ev, infrastructure_rule t n r = Ok ev -> Q t ev) ->
  (forall t n r ev, package_managers_rule t n r = Ok ev -> Q t ev) ->
  forall dr fs path (a : RepoAnalysis F) o,
    scan_repository dr fs path = Ok a ->
    fs_lookup fs (fs_resolve fs path) = Some o ->
    forall x, emitted dr a x ->
      exists ev, Q (listing o) ev /\ x = detected (name x) ev.
Proof.
  intros H1 H2 H3 H4 H5 H6 H7 dr fs path a o E EL x (L & HL & Hx).
  destruct (scan_repository_inv _ _ _ E)
    as (o' & EL' & E1 & E2 & E3 & E4 & E5 & E6 & E7 & _).
  rewrite EL in EL'. inversion EL'; subst o'; clear EL'.
  unfold category_lists, rule_lists in HL. cbn [map fst In] in HL.
  destruct HL as [<-|[<-|[<-|[<-|[<-|[<-|[<-|[]]]]]]]].
  - destruct (scanned_origin (detect_scanned _ _ E1) x Hx)
      as (r & ev & _ & Ev & _ & Ex). exists ev. split; [eapply H1, Ev|exact Ex].
  - destruct (scanned_origin (detect_scanned _ _ E2) x Hx)
      as (r & ev & _ & Ev & _ & Ex). exists ev. split; [eapply H2, Ev|exact Ex].
  - destruct (scanned_origin (detect_scanned _ _ E3) x Hx)
      as (r & ev & _ & Ev & _ & Ex). exists ev. split; [eapply H3, Ev|exact Ex].
  - destruct (scanned_origin (detect_scanned _ _ E4) x Hx)
      as (r & ev & _ & Ev & _ & Ex). exists ev. split; [eapply H4, Ev|exact Ex].
  - destruct (scanned_origin (detect_scanned _ _ E5) x Hx)
      as (r & ev & _ & Ev & _ & Ex). exists ev. split; [eapply H5, Ev|exact Ex].
  - destruct (scanned_origin (detect_scanned _ _ E6) x Hx)
      as (r & ev & _ & Ev & _ & Ex). exists ev. split; [eapply H6, Ev|exact Ex].
  - destruct (scanned_origin (detect_scanned _ _ E7) x Hx)
      as (r & ev & _ & Ev & _ & Ex). exists ev. split; [eapply H7, Ev|exact Ex].
Qed.

(** ** The recorded paths are paths of the tree *)

Lemma from_tree_no_evidence t : from_tree t (no_evidence (F:=F)).
Proof. constructor. Qed.

Lemma firstn_In {A} n (l : list A) x : In x (firstn n l) -> In x l.
Proof.
  revert l. induction n as [|n IH]; intros [|y l]; simpl; try tauto.
  intros [H|H]; auto.
Qed.

Lemma from_tree_extend t ff cap p (c : F) :
  from_tree t (c, ff) ->
  forall c' : F, from_tree t (c', extend ff cap (rglob t p)).
Proof.
  unfold from_tree, extend. simpl. intros H c'. apply Forall_app. split; [exact H|].
  apply Forall_forall. intros q Hq. apply in_map_iff in Hq.
  destruct Hq as (e & <- & He). apply in_map.
  apply firstn_In in He. eapply rglob_In, He.
Qed.

Lemma from_tree_record t dedupe (e : entry) ff (c : F) :
  In e t -> from_tree t (c, ff) ->
  forall c' : F, from_tree t (c', record_path dedupe (rel_path e) ff).
Proof.
  unfold from_tree, record_path. simpl. intros He H c'.
  destruct (dedupe && mem_string (rel_path e) ff); [exact H|].
  apply Forall_app. split; [exact H|]. constructor; [|constructor].
  apply in_map, He.
Qed.

Lemma flat_trigger_from_tree t inc (ev : evidence (F:=F)) p :
  from_tree t ev -> from_tree t (flat_trigger t inc ev p).
Proof.
  destruct ev as [c ff]. unfold flat_trigger. intros H.
  destruct (rglob t p) eqn:E; [exact H|]. rewrite <- E.
  eapply from_tree_extend, H.
Qed.

Lemma flat_fold_from_tree t inc ps (ev : evidence (F:=F)) :
  from_tree t ev -> from_tree t (fold_left (flat_trigger t inc) ps ev).
Proof.
  apply fold_left_invariant. intros. apply flat_trigger_from_tree. assumption.
Qed.

Lemma languages_trigger_from_tree t (ev : evidence (F:=F)) p :
  from_tree t ev -> from_tree t (languages_trigger t ev p).
Proof.
  destruct ev as [c ff]. unfold languages_trigger. intros H.
  destruct (rglob t p) eqn:E; [exact H|]. rewrite <- E.
  eapply from_tree_extend, H.
Qed.

Lemma cond_bump_from_tree {A} t (failure : A -> option exn)
  (hit : A -> bool) inc dedupe
  (g : A -> entry) (x : A) (ev ev' : evidence (F:=F)) :
  In (g x) t -> from_tree t ev ->
  cond_bump failure hit inc (fun x => record_path dedupe (rel_path (g x))) ev x
  = Ok ev' ->
  from_tree t ev'.
Proof.
  unfold cond_bump. intros Hx H. destruct (failure x); [discriminate|].
  intros E. inversion E; subst; clear E. destruct (hit x); [|exact H].
  destruct ev as [c ff]. eapply from_tree_record; eassumption.
Qed.

Lemma content_scan_from_tree t inc dedupe cps p (ev ev' : evidence (F:=F)) :
  from_tree t ev ->
  for_each (content_hit inc dedupe cps) (rglob t p) ev = Ok ev' ->
  from_tree t ev'.
Proof.
  apply for_each_invariant. intros st x st' Hx Hst E.
  rewrite content_hit_bump in E.
  eapply cond_bump_from_tree with (g := fun e : entry => e);
    [|exact Hst|exact E].
  eapply rglob_In, Hx.
Qed.

Lemma kubernetes_scan_from_tree t cps p (ev ev' : evidence (F:=F)) :
  from_tree t ev ->
  for_each (kubernetes_hit cps) (rglob t p) ev = Ok ev' ->
  from_tree t ev'.
Proof.
  apply for_each_invariant. intros st x st' Hx Hst E.
  rewrite kubernetes_hit_bump in E.
  eapply cond_bump_from_tree with (g := fun e : entry => e);
    [|exact Hst|exact E].
  eapply rglob_In, Hx.
Qed.

Lemma name_scan_from_tree t
  (b : evidence (F:=F) -> entry -> result (evidence (F:=F)))
  failure hit inc dedupe :
  (forall ev f, b ev f
                = cond_bump failure hit inc
                    (fun f => record_path dedupe (rel_path f)) ev f) ->
  forall ev ev', from_tree t ev ->
    for_each b (rglob t "*") ev = Ok ev' -> from_tree t ev'.
Proof.
  intros Hb ev ev'. apply for_each_invariant. intros st x st' Hx Hst E.
  rewrite Hb in E.
  eapply cond_bump_from_tree with (g := fun e : entry => e);
    [|exact Hst|exact E].
  eapply rglob_In, Hx.
Qed.

Lemma extension_scan_from_tree t dedupe cps exts (ev ev' : evidence (F:=F)) :
  from_tree t ev -> extension_scan t dedupe cps exts ev = Ok ev' ->
  from_tree t ev'.
Proof.
  unfold extension_scan. apply for_each_invariant. intros st x st' _.
  apply content_scan_from_tree.
Qed.

Lemma languages_rule_from_tree t n r (ev : evidence (F:=F)) :
  languages_rule t n r = Ok ev -> from_tree t ev.
Proof.
  unfold languages_rule. destruct (r_files r) as [ps|]; [|discriminate].
  apply for_each_invariant.
  - intros st pattern st' _.
    apply (@name_scan_from_tree t (languages_name pattern) _ _ _ _
             (fun st f => languages_name_bump pattern st f)).
  - apply fold_left_invariant; [|apply from_tree_no_evidence].
    intros. apply languages_trigger_from_tree. assumption.
Qed.

Lemma frameworks_rule_from_tree t n r (ev : evidence (F:=F)) :
  frameworks_rule t n r = Ok ev -> from_tree t ev.
Proof.
  unfold frameworks_rule.
  destruct (for_each (frameworks_trigger t r) (get_list (r_files r)) no_evidence)
    as [ev0|] eqn:E0; [|discriminate]. cbn [bind].
  assert (H0 : from_tree t ev0).
  { revert E0. apply for_each_invariant; [|apply from_tree_no_evidence].
    intros st p st' _ Hst. destruct st as [c ff]. unfold frameworks_trigger.
    destruct (rglob t p) eqn:E; [intros E'; inversion E'; subst; exact Hst|].
    rewrite <- E. destruct (r_content_patterns r).
    - apply content_scan_from_tree, Hst.
    - intros E'. inversion E'; subst. eapply from_tree_extend, Hst. }
  destruct (r_content_patterns r) as [cps|];
    [|intros E; inversion E; subst; exact H0].
  destruct (snd ev0); [|intros E; inversion E; subst; exact H0].
  destruct (lookup_string _ frameworks_file_extensions);
    [|intros E; inversion E; subst; exact H0].
  apply extension_scan_from_tree, H0.
Qed.

Lemma test_tools_rule_from_tree t n r (ev : evidence (F:=F)) :
  test_tools_rule t n r = Ok ev -> from_tree t ev.
Proof.
  unfold test_tools_rule.
  destruct (for_each _ (get_list (r_patterns r)) _) as [ev0|] eqn:E0;
    cbn [bind]; [|discriminate].
  assert (H0 : from_tree t ev0).
  { revert E0. apply for_each_invariant.
    - intros st pattern st' _.
      apply (@name_scan_from_tree t (test_tools_name pattern) _ _ _ _
               (fun st f => test_tools_name_bump pattern st f)).
    - apply flat_fold_from_tree, from_tree_no_evidence. }
  clear E0.
  destruct (r_content_patterns r) as [cps|];
    [|intros E; inversion E; subst; exact H0].
  destruct (lookup_string _ test_tools_file_extensions);
    [|intros E; inversion E; subst; exact H0].
  apply extension_scan_from_tree, H0.
Qed.

Lemma build_tools_rule_from_tree t n r (ev : evidence (F:=F)) :
  build_tools_rule t n r = Ok ev -> from_tree t ev.
Proof.
  intros E. inversion E; subst. apply flat_fold_from_tree, from_tree_no_evidence.
Qed.

Lemma package_managers_rule_from_tree t n r (ev : evidence (F:=F)) :
  package_managers_rule t n r = Ok ev -> from_tree t ev.
Proof.
  intros E. inversion E; subst. apply flat_fold_from_tree, from_tree_no_evidence.
Qed.

Lemma containers_rule_from_tree t n r (ev : evidence (F:=F)) :
  containers_rule t n r = Ok ev -> from_tree t ev.
Proof.
  unfold containers_rule. apply for_each_invariant; [|apply from_tree_no_evidence].
  intros st p st' _ Hst. destruct st as [c ff]. unfold containers_trigger.
  destruct (rglob t p) eqn:E; [intros E'; inversion E'; subst; exact Hst|].
  rewrite <- E.
  destruct (String.eqb n "kubernetes"), (r_content_patterns r);
    try (intros E'; inversion E'; subst; eapply from_tree_extend, Hst).
  apply kubernetes_scan_from_tree, Hst.
Qed.

Lemma infrastructure_rule_from_tree t n r (ev : evidence (F:=F)) :
  infrastructure_rule t n r = Ok ev -> from_tree t ev.
Proof.
  unfold infrastructure_rule.
  apply for_each_invariant; [|apply from_tree_no_evidence].
  intros st p st' _ Hst. destruct st as [c ff]. unfold infrastructure_trigger.
  destruct (rglob t p) eqn:E; [intros E'; inversion E'; subst; exact Hst|].
  rewrite <- E. destruct (r_content_patterns r).
  - apply content_scan_from_tree, Hst.
  - intros E'. inversion E'; subst. eapply from_tree_extend, Hst.
Qed.

End EvidenceOfEntries.

Section FilesOfTheTree.

(** X4. Every path in the [files] list of a technology of a scan result is
    the path of an entry of the scanned tree. *)
Theorem files_are_paths_of_the_tree :
  forall dr fs path (a : RepoAnalysis float) o,
    scan_repository dr fs path = Ok a ->
    fs_lookup fs (fs_resolve fs path) = Some o ->
    forall x, emitted dr a x ->
    forall p, In p (files x) -> exists e, In e (listing o) /\ rel_path e = p.
Proof.
  intros dr fs path a o E EL x Hx p Hp.
  destruct (@emitted_evidence float _ (@from_tree float)
              (@languages_rule_from_tree _ _) (@frameworks_rule_from_tree _ _)
              (@test_tools_rule_from_tree _ _) (@build_tools_rule_from_tree _ _)
              (@containers_rule_from_tree _ _)
              (@infrastructure_rule_from_tree _ _)
              (@package_managers_rule_from_tree _ _) dr fs path a o E EL x Hx)
    as (ev & Q & Ex).
  rewrite Ex in Hp. simpl in Hp. unfold from_tree in Q.
  rewrite Forall_forall in Q. specialize (Q p Hp).
  apply in_map_iff in Q. destruct Q as (e & <- & He). exists e. auto.
Qed.

Lemma files_are_paths_of_the_tree_witness :
  exists x, In x (languages scenario_A_analysis) /\
    forall p, In p (files x) ->
      exists e, In e (listing (DirectoryTree scenario_A)) /\ rel_path e = p.
Proof.
  eexists. split; [left; reflexivity|].
  apply (@files_are_paths_of_the_tree detection_rules
           (one_directory "/repo" scenario_A) "/repo" scenario_A_analysis
           (DirectoryTree scenario_A)).
  - vm_compute. reflexivity.
  - reflexivity.
  - exists (languages scenario_A_analysis). split; left; reflexivity.
Defined.

End FilesOfTheTree.

(* ------------------------------------------------------------------ *)
Section Exceptions.

Context {F : Type} {SF : Score F}.
Local Open Scope score_scope.

Lemma for_each_raise {A S} (b : S -> A -> result S) xs st e :
  for_each b xs st = Raise e ->
  exists st' x, In x xs /\ b st' x = Raise e.
Proof.
  revert st. induction xs as [|x xs IH]; simpl; intros st E; [discriminate|].
  destruct (b st x) as [st1|e1] eqn:E1; simpl in E.
  - destruct (IH _ E) as (st' & y & Hy & Ey). exists st', y. auto.
  - inversion E; subst. exists st, x. auto.
Qed.

Lemma scan_rules_raise {R} (eval : string -> R -> result (evidence (F:=F)))
  rules acc e :
  scan_rules eval rules acc = Raise e ->
  exists n r, In (n, r) rules /\ eval n r = Raise e.
Proof.
  revert acc. induction rules as [|[n r] rules IH]; simpl; intros acc E;
    [discriminate|].
  destruct (eval n r) as [ev|e1] eqn:E1; simpl in E.
  - destruct (IH _ E) as (n' & r' & Hin & Er). exists n', r'. auto.
  - inversion E; subst. exists n, r. auto.
Qed.

Lemma detect_raise {R} (eval : string -> R -> result (evidence (F:=F)))
  rules e :
  (L0 <- scan_rules eval rules [] ;; Ok (sorted_desc L0)) = Raise e ->
  exists n r, In (n, r) rules /\ eval n r = Raise e.
Proof.
  destruct (scan_rules eval rules []) as [L|e1] eqn:E; simpl; [discriminate|].
  intros E'. inversion E'; subst. eapply scan_rules_raise, E.
Qed.

Lemma cond_bump_raise {A} (failure : A -> option exn) (hit : A -> bool)
  inc g (ev : evidence (F:=F)) x e :
  cond_bump failure hit inc g ev x = Raise e -> failure x = Some e.
Proof.
  unfold cond_bump. destruct (failure x); [|discriminate].
  intros E. inversion E. reflexivity.
Qed.

Lemma content_scan_raise t inc dedupe cps p (ev : evidence (F:=F)) e :
  for_each (content_hit inc dedupe cps) (rglob t p) ev = Raise e ->
  entry_failure t e.
Proof.
  intros E. destruct (for_each_raise _ _ _ E) as (st & x & Hx & Ex).
  rewrite content_hit_bump in Ex. apply cond_bump_raise in Ex.
  exists x. split; [eapply rglob_In, Hx|right; exact Ex].
Qed.

Lemma kubernetes_scan_raise t cps p (ev : evidence (F:=F)) e :
  for_each (kubernetes_hit cps) (rglob t p) ev = Raise e ->
  entry_failure t e.
Proof.
  intros E. destruct (for_each_raise _ _ _ E) as (st & x & Hx & Ex).
  rewrite kubernetes_hit_bump in Ex. apply cond_bump_raise in Ex.
  exists x. split; [eapply rglob_In, Hx|right].
  destruct (yaml_named x); [exact Ex|discriminate].
Qed.

Lemma extension_scan_raise t dedupe cps exts (ev : evidence (F:=F)) e :
  extension_scan t dedupe cps exts ev = Raise e -> entry_failure t e.
Proof.
  unfold extension_scan. intros E.
  destruct (for_each_raise _ _ _ E) as (st & x & _ & Ex).
  eapply content_scan_raise, Ex.
Qed.

Lemma name_scans_failure t
  (step : string -> evidence (F:=F) -> entry -> result (evidence (F:=F)))
  hit inc g ps ev e :
  (forall p ev f, step p ev f = cond_bump stat_failure (hit p) inc g ev f) ->
  for_each (fun ev p => for_each (step p) (rglob t "*") ev) ps ev = Raise e ->
  entry_failure t e.
Proof.
  intros Hs E. destruct (for_each_raise _ _ _ E) as (st & p & _ & Ep).
  destruct (for_each_raise _ _ _ Ep) as (st' & x & Hx & Ex).
  rewrite Hs in Ex. apply cond_bump_raise in Ex.
  exists x. split; [eapply rglob_In, Hx|left; exact Ex].
Qed.

Lemma frameworks_rule_raise t n r e :
  frameworks_rule (F:=F) t n r = Raise e -> entry_failure t e.
Proof.
  unfold frameworks_rule.
  destruct (for_each (frameworks_trigger t r) (get_list (r_files r)) no_evidence)
    as [ev0|e0] eqn:E0; cbn [bind].
  - destruct (r_content_patterns r) as [cps|]; [|discriminate].
    destruct (snd ev0); [|discriminate].
    destruct (lookup_string _ frameworks_file_extensions); [|discriminate].
    apply extension_scan_raise.
  - intros E. inversion E; subst; clear E.
    destruct (for_each_raise _ _ _ E0) as ([c ff] & p & _ & Ep).
    unfold frameworks_trigger in Ep.
    destruct (rglob t p) eqn:Eg; [discriminate|]. rewrite <- Eg in Ep.
    destruct (r_content_patterns r); [|discriminate].
    eapply content_scan_raise, Ep.
Qed.

Lemma test_tools_rule_raise t n r e :
  test_tools_rule (F:=F) t n r = Raise e -> entry_failure t e.
Proof.
  unfold test_tools_rule.
  destruct (for_each _ (get_list (r_patterns r)) _) as [ev0|e0] eqn:E0;
    cbn [bind].
  - destruct (r_content_patterns r) as [cps|]; [|discriminate].
    destruct (lookup_string _ test_tools_file_extensions); [|discriminate].
    apply extension_scan_raise.
  - intros E. inversion E; subst; clear E. revert E0.
    apply name_scans_failure
      with (hit := fun p f => is_file f && re_search p (name_of f))
           (inc := f_tenths 4)
           (g := fun f => record_path false (rel_path f)).
    intros. apply test_tools_name_bump.
Qed.

Lemma containers_rule_raise t n r e :
  containers_rule (F:=F) t n r = Raise e -> entry_failure t e.
Proof.
  unfold containers_rule. intros E.
  destruct (for_each_raise _ _ _ E) as ([c ff] & p & _ & Ep).
  unfold containers_trigger in Ep.
  destruct (rglob t p) eqn:Eg; [discriminate|]. rewrite <- Eg in Ep.
  destruct (String.eqb n "kubernetes"), (r_content_patterns r);
    try discriminate.
  eapply kubernetes_scan_raise, Ep.
Qed.

Lemma infrastructure_rule_raise t n r e :
  infrastructure_rule (F:=F) t n r = Raise e -> entry_failure t e.
Proof.
  unfold infrastructure_rule. intros E.
  destruct (for_each_raise _ _ _ E) as ([c ff] & p & _ & Ep).
  unfold infrastructure_trigger in Ep.
  destruct (rglob t p) eqn:Eg; [discriminate|]. rewrite <- Eg in Ep.
  destruct (r_content_patterns r); [|discriminate].
  eapply content_scan_raise, Ep.
Qed.

Lemma languages_rule_raise t n r e :
  languages_rule (F:=F) t n r = Raise e ->
  r_files r = None \/ entry_failure t e.
Proof.
  unfold languages_rule. destruct (r_files r); [|auto].
  intros E. right. revert E.
  apply name_scans_failure
    with (hit := fun p f => is_file f && re_search p (name_of f))
         (inc := f_tenths 2)
         (g := fun f => record_path true (rel_path f)).
  intros. apply languages_name_bump.
Qed.

Lemma entry_failure_kind t e :
  entry_failure t e ->
  e = PermissionError \/ e = IsADirectoryError \/ e = FileNotFoundError.
Proof.
  intros (f & _ & [H|H]).
  - unfold stat_failure in H. destruct (Path_is_file_cases f) as [E|E];
      rewrite E in H; [discriminate|]. inversion H. auto.
  - unfold read_failure, read_text in H.
    destruct (node_of f) as [[]| | |]; try discriminate; inversion H; auto.
Qed.

End Exceptions.

Section ExceptionsTheorem.

(** X5. The exceptions of a scan.  With the built-in catalog, every
    exception that the scan of an existing path raises is the exception of
    an entry of the tree: what [is_file()] raises for it (a
    [PermissionError], when [stat] is denied), or what [read_text] raises
    for it and the content scans do not catch ([IsADirectoryError] for a
    directory, [FileNotFoundError] for a link without a target).  So the
    scan raises no [KeyError] and no [UnicodeDecodeError], and the
    [PermissionError] of a file that may not be read never reaches the
    caller. *)
Theorem scan_raises_only :
  forall fs path o e,
    fs_lookup fs (fs_resolve fs path) = Some o ->
    scan fs path = Raise e ->
    entry_failure (listing o) e /\
    (e = PermissionError ->
     exists f, In f (listing o) /\ Path_is_file f = Raise PermissionError) /\
    (forall key, e <> KeyError key) /\ e <> UnicodeDecodeError.
Proof.
  intros fs path o e EL E.
  assert (H : entry_failure (listing o) e).
  { revert E. unfold scan, scan_repository. rewrite EL.
    destruct (_detect_languages detection_rules (listing o)) as [l1|e1] eqn:E1;
      cbn [bind].
    2:{ intros E. inversion E; subst; clear E.
        destruct (detect_raise _ _ E1) as (n & r & Hin & Er).
        apply (languages_rule_raise (F:=float)) in Er.
        destruct Er as [Er|Er]; [exfalso|exact Er]. revert Er.
        apply (@catalog_ok_languages detection_rules eq_refl n r Hin). }
    destruct (_detect_frameworks detection_rules (listing o)) as [l2|e2] eqn:E2;
      cbn [bind].
    2:{ intros E. inversion E; subst; clear E.
        destruct (detect_raise _ _ E2) as (n & r & _ & Er).
        apply (frameworks_rule_raise (F:=float)) in Er. exact Er. }
    destruct (_detect_test_tools detection_rules (listing o)) as [l3|e3] eqn:E3;
      cbn [bind].
    2:{ intros E. inversion E; subst; clear E.
        destruct (detect_raise _ _ E3) as (n & r & _ & Er).
        apply (test_tools_rule_raise (F:=float)) in Er. exact Er. }
    destruct (_detect_build_tools detection_rules (listing o)) as [l4|e4] eqn:E4;
      cbn [bind].
    2:{ intros E. inversion E; subst; clear E.
        destruct (detect_raise _ _ E4) as (n & r & _ & Er). discriminate. }
    destruct (_detect_containers detection_rules (listing o)) as [l5|e5] eqn:E5;
      cbn [bind].
    2:{ intros E. inversion E; subst; clear E.
        destruct (detect_raise _ _ E5) as (n & r & _ & Er).
        apply (containers_rule_raise (F:=float)) in Er. exact Er. }
    destruct (_detect_infrastructure detection_rules (listing o))
      as [l6|e6] eqn:E6; cbn [bind].
    2:{ intros E. inversion E; subst; clear E.
        destruct (detect_raise _ _ E6) as (n & r & _ & Er).
        apply (infrastructure_rule_raise (F:=float)) in Er. exact Er. }
    destruct (_detect_package_managers (F:=float) (listing o))
      as [l7|e7] eqn:E7; cbn [bind]; [discriminate|].
    intros E. inversion E; subst; clear E.
    destruct (detect_raise _ _ E7) as (n & r & _ & Er). discriminate. }
  split; [exact H|]. split; [|split].
  - intros ->. destruct H as (f & Hf & [H|H]).
    + exists f. split; [exact Hf|]. unfold stat_failure in H.
      destruct (Path_is_file f); [discriminate|]. inversion H. reflexivity.
    + exfalso. unfold read_failure in H.
      destruct (read_text f) as [s|[]]; discriminate.
  - intros key ->. apply entry_failure_kind in H.
    destruct H as [H|[H|H]]; discriminate.
  - intros ->. apply entry_failure_kind in H.
    destruct H as [H|[H|H]]; discriminate.
Qed.

Lemma scan_raises_only_witness :
  entry_failure (listing (DirectoryTree in_a_locked_directory))
                PermissionError /\
  (PermissionError = PermissionError ->
   exists f, In f (listing (DirectoryTree in_a_locked_directory)) /\
             Path_is_file f = Raise PermissionError) /\
  (forall key, PermissionError <> KeyError key) /\
  PermissionError <> UnicodeDecodeError.
Proof.
  apply (@scan_raises_only (one_directory "/repo" in_a_locked_directory)
           "/repo" (DirectoryTree in_a_locked_directory) PermissionError).
  - reflexivity.
  - vm_compute. reflexivity.
Defined.

End ExceptionsTheorem.

(* ------------------------------------------------------------------ *)
Section FlatScores.

Context {F : Type} {SF : Score F}.
Local Open Scope score_scope.

Lemma flat_fold_score t inc ps (ev : evidence (F:=F)) :
  fst (fold_left (flat_trigger t inc) ps ev)
  = Nat.iter (List.length (matching_triggers t ps)) (fun c => c + inc) (fst ev).
Proof.
  revert ev. induction ps as [|p ps IH]; intros [c ff]; [reflexivity|].
  simpl fold_left. rewrite IH. unfold matching_triggers, flat_trigger. simpl filter.
  destruct (rglob t p); [reflexivity|].
  simpl List.length. rewrite Nat.iter_succ_r. reflexivity.
Qed.

Lemma matching_triggers_In t ps p :
  In p (matching_triggers t ps) <-> In p ps /\ rglob t p <> [].
Proof.
  unfold matching_triggers. rewrite filter_In.
  destruct (rglob t p); intuition congruence.
Qed.

End FlatScores.

Section FlatScoresFloat.

Local Open Scope float_scope.

Lemma flat_score_one : Nat.iter 1 (fun c => c + 0.8) 0 = 0.8.
Proof. reflexivity. Qed.

Lemma flat_score_more k :
  (1.6 <=? Nat.iter (Datatypes.S (Datatypes.S k)) (fun c => c + 0.8) 0) = true.
Proof.
  induction k as [|k IH]; [reflexivity|].
  change (Nat.iter (Datatypes.S (Datatypes.S (Datatypes.S k))) (fun c => c + 0.8) 0)
    with (Nat.iter (Datatypes.S (Datatypes.S k)) (fun c => c + 0.8) 0 + 0.8).
  set (c := Nat.iter (Datatypes.S (Datatypes.S k)) (fun c => c + 0.8) 0) in *.
  assert (N : nonneg (F:=float) c).
  { apply (le_trans (F:=float) (y:=1.6)); [reflexivity|exact IH]. }
  change (le (F:=float) 1.6 (f_add c 0.8)).
  apply (le_trans (F:=float) (y:=c)); [exact IH|].
  apply (add_increasing (F:=float)); [exact N|reflexivity].
Qed.

(** the confidence that [k] matching triggers of [0.8] each give *)
Lemma flat_confidence k :
  py_min (Nat.iter k (fun c => c + 0.8) 0) 1
  = match k with 0%nat => 0 | 1%nat => 0.8 | _ => 1 end.
Proof.
  destruct k as [|[|k]]; [reflexivity|reflexivity|].
  unfold py_min.
  replace (f_ltb 1 (Nat.iter (Datatypes.S (Datatypes.S k)) (fun c => c + 0.8) 0))
    with true; [reflexivity|].
  symmetry. apply (ltb_leb_trans (F:=float) 1 (y:=1.6)); [reflexivity|].
  apply flat_score_more.
Qed.

Lemma flat_positive k :
  f_ltb 0 (Nat.iter (Datatypes.S k) (fun c => c + 0.8) 0) = true.
Proof.
  destruct k as [|k]; [reflexivity|].
  apply (ltb_leb_trans (F:=float) 0 (y:=1.6)); [reflexivity|].
  apply flat_score_more.
Qed.

(** the entries that a scanner of flat triggers of [0.8] returns *)
Lemma flat_scanned t (rules : list (string * list string)) L :
  scanned (fun n ps => Ok (fold_left (flat_trigger t 0.8) ps no_evidence))
          rules L ->
  (forall x, In x L ->
     exists ps, In (name x, ps) rules /\
       matching_triggers t ps <> [] /\
       confidence x
       = match List.length (matching_triggers t ps) with
         | 1%nat => 0.8 | _ => 1 end) /\
  (forall n ps, In (n, ps) rules -> matching_triggers t ps <> [] ->
     exists x, In x L /\ name x = n).
Proof.
  intros HL. split.
  - intros x Hx. destruct (scanned_origin HL x Hx) as (ps & ev & Hin & E & Hp & Ex).
    inversion E; subst ev; clear E. exists ps. split; [exact Hin|].
    rewrite flat_fold_score in Hp. rewrite Ex. cbn [confidence detected].
    rewrite flat_fold_score. cbn [fst no_evidence] in *.
    change f_zero with 0 in *. change f_one with 1.
    rewrite flat_confidence.
    destruct (matching_triggers t ps) as [|p l]; [discriminate Hp|].
    split; [discriminate|]. destruct l; reflexivity.
  - intros n ps Hin Hm. destruct HL as (L0 & E & ->).
    destruct (proj2 (scan_rules_complete _ _ _ E) n ps Hin) as (ev & Ev & Hev).
    inversion Ev; subst ev; clear Ev.
    exists (detected n (fold_left (flat_trigger t 0.8) ps no_evidence)).
    split; [|reflexivity]. apply sorted_desc_In, Hev.
    rewrite flat_fold_score. cbn [fst no_evidence].
    destruct (matching_triggers t ps) as [|p l]; [congruence|].
    apply flat_positive.
Qed.

Lemma build_tools_scanned dr t L :
  _detect_build_tools (F:=float) dr t = Ok L ->
  scanned (fun n ps => Ok (fold_left (flat_trigger t 0.8) ps no_evidence))
          (map (fun nr => (fst nr, get_list (r_files (snd nr))))
               (cat_build_tools dr)) L.
Proof.
  intros E. apply detect_scanned in E. destruct E as (L0 & E0 & ->).
  exists L0. split; [|reflexivity]. rewrite <- E0. clear E0.
  generalize (@nil (DetectedTechnology float)) as acc.
  induction (cat_build_tools dr) as [|[n r] l IH]; intros acc; [reflexivity|].
  simpl. apply IH.
Qed.

Lemma matching_triggers_nonempty t ps :
  matching_triggers t ps <> [] <-> exists p, In p ps /\ rglob t p <> [].
Proof.
  split.
  - destruct (matching_triggers t ps) as [|p l] eqn:Em; [congruence|].
    intros _. exists p. apply matching_triggers_In. rewrite Em. left. reflexivity.
  - intros (p & Hp) Em. apply matching_triggers_In in Hp.
    rewrite Em in Hp. exact Hp.
Qed.

(** X6. A build tool or a package manager is in the result exactly when
    one of its trigger globs matches an entry of the tree, file or
    directory, anywhere in it. *)
Theorem flat_rules_detected_by_a_trigger :
  forall dr fs path (a : RepoAnalysis float) o,
    scan_repository dr fs path = Ok a ->
    fs_lookup fs (fs_resolve fs path) = Some o ->
    (forall n,
       (exists x, In x (build_tools a) /\ name x = n) <->
       (exists r p, In (n, r) (cat_build_tools dr) /\
                    In p (get_list (r_files r)) /\
                    rglob (listing o) p <> [])) /\
    (forall n,
       (exists x, In x (package_managers a) /\ name x = n) <->
       (exists file_names p, In (n, file_names) pm_files /\
                             In p file_names /\ rglob (listing o) p <> [])).
Proof.
  intros dr fs path a o E EL.
  destruct (scan_repository_inv _ _ _ E)
    as (o' & EL' & _ & _ & _ & E4 & _ & _ & E7 & _).
  rewrite EL in EL'. inversion EL'; subst o'; clear EL'.
  destruct (@flat_scanned (listing o) _ _ (build_tools_scanned _ _ E4))
    as [B1 B2].
  destruct (@flat_scanned (listing o) pm_files _ (detect_scanned _ _ E7))
    as [P1 P2].
  split; intros n; split.
  - intros (x & Hx & <-). destruct (B1 x Hx) as (ps & Hin & Hm & _).
    apply in_map_iff in Hin. destruct Hin as ([n' r] & Eq & Hin).
    simpl in Eq. inversion Eq; subst; clear Eq.
    apply matching_triggers_nonempty in Hm. destruct Hm as (p & Hp & Hr).
    exists r, p. auto.
  - intros (r & p & Hin & Hp & Hr).
    apply (B2 n (get_list (r_files r))).
    + apply in_map_iff. exists (n, r). auto.
    + apply matching_triggers_nonempty. exists p. auto.
  - intros (x & Hx & <-). destruct (P1 x Hx) as (ps & Hin & Hm & _).
    apply matching_triggers_nonempty in Hm. destruct Hm as (p & Hp & Hr).
    exists ps, p. auto.
  - intros (ps & p & Hin & Hp & Hr). apply (P2 n ps Hin).
    apply matching_triggers_nonempty. exists p. auto.
Qed.

Lemma flat_rules_detected_by_a_trigger_witness :
  (forall n,
     (exists x, In x (build_tools only_setup_py_analysis) /\ name x = n) <->
     (exists r p, In (n, r) (cat_build_tools detection_rules) /\
                  In p (get_list (r_files r)) /\
                  rglob (listing (DirectoryTree only_setup_py)) p <> [])) /\
  (forall n,
     (exists x, In x (package_managers only_setup_py_analysis) /\ name x = n) <->
     (exists file_names p, In (n, file_names) pm_files /\
                           In p file_names /\
                           rglob (listing (DirectoryTree only_setup_py)) p <> [])).
Proof.
  apply (@flat_rules_detected_by_a_trigger detection_rules
           (one_directory "/repo" only_setup_py) "/repo" only_setup_py_analysis
           (DirectoryTree only_setup_py)).
  - vm_compute. reflexivity.
  - reflexivity.
Defined.

(** X7. The confidence of a build tool or of a package manager of the
    result is [0.8] when exactly one of the trigger globs of its rule
    matches an entry of the tree, and [1.0] when more than one does. *)
Theorem flat_rules_confidence :
  forall dr fs path (a : RepoAnalysis float) o,
    scan_repository dr fs path = Ok a ->
    fs_lookup fs (fs_resolve fs path) = Some o ->
    (forall x, In x (build_tools a) ->
       exists r, In (name x, r) (cat_build_tools dr) /\
         confidence x
         = match matching_triggers (listing o) (get_list (r_files r)) with
           | [_] => 0.8
           | _ => 1
           end) /\
    (forall x, In x (package_managers a) ->
       exists file_names, In (name x, file_names) pm_files /\
         confidence x
         = match matching_triggers (listing o) file_names with
           | [_] => 0.8
           | _ => 1
           end).
Proof.
  intros dr fs path a o E EL.
  destruct (scan_repository_inv _ _ _ E)
    as (o' & EL' & _ & _ & _ & E4 & _ & _ & E7 & _).
  rewrite EL in EL'. inversion EL'; subst o'; clear EL'.
  destruct (@flat_scanned (listing o) _ _ (build_tools_scanned _ _ E4))
    as [B1 _].
  destruct (@flat_scanned (listing o) pm_files _ (detect_scanned _ _ E7))
    as [P1 _].
  split; intros x Hx.
  - destruct (B1 x Hx) as (ps & Hin & _ & Hc).
    apply in_map_iff in Hin. destruct Hin as ([n' r] & Eq & Hin).
    simpl in Eq. inversion Eq; subst; clear Eq.
    exists r. split; [exact Hin|]. rewrite Hc.
    destruct (matching_triggers _ _) as [|p [|q l]]; reflexivity.
  - destruct (P1 x Hx) as (ps & Hin & _ & Hc).
    exists ps. split; [exact Hin|]. rewrite Hc.
    destruct (matching_triggers _ _) as [|p [|q l]]; reflexivity.
Qed.

Lemma flat_rules_confidence_witness :
  (forall x, In x (build_tools only_setup_py_analysis) ->
     exists r, In (name x, r) (cat_build_tools detection_rules) /\
       confidence x
       = match matching_triggers (listing (DirectoryTree only_setup_py))
                 (get_list (r_files r)) with
         | [_] => 0.8
         | _ => 1
         end) /\
  (forall x, In x (package_managers only_setup_py_analysis) ->
     exists file_names, In (name x, file_names) pm_files /\
       confidence x
       = match matching_triggers (listing (DirectoryTree only_setup_py))
                 file_names with
         | [_] => 0.8
         | _ => 1
         end).
Proof.
  apply (@flat_rules_confidence detection_rules
           (one_directory "/repo" only_setup_py) "/repo" only_setup_py_analysis
           (DirectoryTree only_setup_py)).
  - vm_compute. reflexivity.
  - reflexivity.
Defined.

End FlatScoresFloat.

Section GeneratorFacts.

Local Open Scope string_scope.

(** the GitHub Actions generator raises no exception: the package manager
    of the JavaScript jobs is always one with an install command *)
Lemma github_workflow_returns (analysis : RepoAnalysis float) :
  exists workflow, github_workflow analysis = Ok workflow.
Proof.
  unfold github_workflow.
  destruct (primary_is analysis "python"); [cbn [bind]; eauto|].
  destruct (primary_is analysis "javascript"); [|
    destruct (primary_is analysis "go"); [cbn [bind]; eauto|];
    destruct (primary_is analysis "java"); cbn [bind]; eauto].
  unfold _javascript_jobs, github_package_manager.
  destruct (any_named "yarn" (package_managers analysis));
    [cbn; eauto|].
  destruct (any_named "pnpm" (package_managers analysis)); cbn; eauto.
Qed.

(** X8. Every workflow of the GitHub Actions generator is well formed,
    whatever the analysis: the generator raises no exception, the workflow
    has at least one job, every job runs on [ubuntu-latest] and starts by
    checking the repository out, and there is a [docker] job exactly when
    [docker] is among the containers of the analysis. *)
Theorem github_workflow_well_formed :
  forall analysis : RepoAnalysis float,
  exists on jobs,
    github_workflow analysis
    = Ok (PDict [("name", PStr "CI"); ("on", on); ("jobs", PDict jobs)]) /\
    jobs <> [] /\
    (forall k job, In (k, job) jobs ->
       field "runs-on" job = Some (PStr "ubuntu-latest") /\
       exists rest,
         field "steps" job
         = Some (PList (PDict [("uses", PStr "actions/checkout@v4")] :: rest))) /\
    (In "docker" (dict_keys jobs)
     <-> any_named "docker" (containers analysis) = true).
Proof.
  intros analysis. unfold github_workflow, _javascript_jobs, _python_jobs,
    _java_jobs, github_package_manager.
  destruct (any_named "docker" (containers analysis));
  destruct (primary_is analysis "python"); [
    destruct (any_named "poetry" (build_tools analysis));
    [|destruct (any_named "pytest" (test_tools analysis))] | |
    destruct (any_named "poetry" (build_tools analysis));
    [|destruct (any_named "pytest" (test_tools analysis))] | ];
  try (destruct (primary_is analysis "javascript");
       [destruct (any_named "yarn" (package_managers analysis));
        [|destruct (any_named "pnpm" (package_managers analysis))]
       |destruct (primary_is analysis "go");
        [|destruct (primary_is analysis "java");
          [destruct (any_named "maven" (build_tools analysis));
           [|destruct (any_named "gradle" (build_tools analysis))]|]]]);
  cbn; (do 2 eexists); (split; [reflexivity|]);
  (split; [discriminate|]);
  (split;
   [intros k job H;
    repeat (destruct H as [H|H];
            [inversion H; subst; split; [reflexivity|eexists; reflexivity]|]);
    destruct H
   |split; intros H;
    [first [reflexivity
           |exfalso; repeat (destruct H as [H|H]; [discriminate H|]); exact H]
    |first [discriminate H | simpl; tauto]]]).
Qed.

(** X9. Every job of a GitLab pipeline is in a declared stage.  Whatever
    the analysis, the pipeline starts with the keys [stages], [variables]
    and [cache]; every other entry is a job whose [stage] is one of the
    four stages that [stages] declares and whose [script] is a list that
    is not empty; and there is a [docker-build] job exactly when [docker]
    is among the containers. *)
Theorem gitlab_jobs_in_declared_stages :
  forall analysis : RepoAnalysis float,
  exists variables cache jobs,
    gitlab_pipeline analysis
    = ("stages", PList [PStr "lint"; PStr "test"; PStr "build"; PStr "deploy"])
      :: ("variables", variables) :: ("cache", cache) :: jobs /\
    (forall k job, In (k, job) jobs ->
       (exists stage, field "stage" job = Some (PStr stage) /\
                      In stage ["lint"; "test"; "build"; "deploy"]) /\
       (exists command rest,
          field "script" job = Some (PList (command :: rest)))) /\
    (In "docker-build" (dict_keys jobs)
     <-> any_named "docker" (containers analysis) = true).
Proof.
  intros analysis. unfold gitlab_pipeline, _python_gitlab_jobs,
    _javascript_gitlab_jobs, _java_gitlab_jobs.
  destruct (any_named "docker" (containers analysis));
  (destruct (primary_is analysis "python");
   [destruct (any_named "poetry" (build_tools analysis))
   |destruct (primary_is analysis "javascript");
    [destruct (any_named "yarn" (package_managers analysis))
    |destruct (primary_is analysis "go");
     [|destruct (primary_is analysis "java");
       [destruct (any_named "maven" (build_tools analysis))|]]]]);
  cbn; (do 3 eexists); (split; [reflexivity|]);
  (split;
   [intros k job H;
    repeat (destruct H as [H|H];
            [inversion H; subst; split;
             [eexists; split; [reflexivity|simpl; tauto]
             |do 2 eexists; reflexivity]|]);
    destruct H
   |split; intros H;
    [first [reflexivity
           |exfalso; repeat (destruct H as [H|H]; [discriminate H|]); exact H]
    |first [discriminate H | simpl; tauto]]]).
Qed.

(** X10. The workflow of a CircleCI configuration lists exactly the jobs
    that the configuration defines, and the configuration has a job, named
    [test], only when the primary language is [python], [javascript] or
    [go]: for every other analysis, a Java project or a project with a
    Dockerfile included, it has no job at all. *)
Theorem circleci_workflow_lists_the_jobs :
  forall analysis : RepoAnalysis float,
  exists jobs,
    circleci_config analysis
    = PDict [("version", PFloat 2.1);
             ("jobs", PDict jobs);
             ("workflows", PDict
                [("version", PInt 2);
                 ("build_and_test", PDict
                    [("jobs", PList (map PStr (dict_keys jobs)))])])] /\
    dict_keys jobs
    = (if primary_is analysis "python" || primary_is analysis "javascript"
          || primary_is analysis "go"
       then ["test"] else []).
Proof.
  intros analysis. unfold circleci_config.
  destruct (primary_is analysis "python");
    [|destruct (primary_is analysis "javascript");
      [|destruct (primary_is analysis "go")]];
    cbn;
    match goal with
    | |- exists jobs, PDict [_; (_, PDict ?J); _] = _ /\ _ => exists J
    end; split; reflexivity.
Qed.

End GeneratorFacts.

Section AutoCIFacts.

Variable yaml_dump : pyval -> string.
Variable str_lower : string -> string.

Lemma optimize_unchanged (pipeline_content : string)
  (analysis : RepoAnalysis float) (ci_type : string) :
  optimize pipeline_content analysis ci_type = pipeline_content.
Proof. reflexivity. Qed.

Lemma lookup_generator_supported ci_type :
  lookup_generator ci_type (generators yaml_dump) <> None
  <-> In ci_type ["github"; "gitlab"; "circleci"].
Proof.
  unfold generators. cbn [lookup_generator].
  destruct (String.eqb_spec "github" ci_type) as [<-|N1];
    [split; [simpl; tauto|discriminate]|].
  destruct (String.eqb_spec "gitlab" ci_type) as [<-|N2];
    [split; [simpl; tauto|discriminate]|].
  destruct (String.eqb_spec "circleci" ci_type) as [<-|N3];
    [split; [simpl; tauto|discriminate]|].
  split; [congruence|]. simpl. intuition congruence.
Qed.

Lemma generators_total ci_type generator (analysis : RepoAnalysis float) options :
  lookup_generator ci_type (generators yaml_dump) = Some generator ->
  exists content, generator analysis options = Ok content.
Proof.
  unfold generators. cbn [lookup_generator].
  destruct (String.eqb "github" ci_type).
  - intros E. inversion E; subst. unfold GitHubActionsGenerator_generate.
    destruct (github_workflow_returns analysis) as (workflow & ->).
    simpl. eauto.
  - destruct (String.eqb "gitlab" ci_type).
    + intros E. inversion E; subst. unfold GitLabCIGenerator_generate. eauto.
    + destruct (String.eqb "circleci" ci_type); [|discriminate].
      intros E. inversion E; subst. unfold CircleCIGenerator_generate. eauto.
Qed.

(** X11. The errors of [generate_pipeline].  The repository is scanned
    first: when the scan raises, [generate_pipeline] raises the same
    exception, whatever the CI type.  When the scan returns and the CI
    type is none of [github], [gitlab] and [circleci], it raises
    [ValueError] with a message that names the type and lists the three
    supported ones. *)
Theorem generate_pipeline_errors :
  forall fs repo_path ci_type optimize_flag,
    (forall e, scan fs repo_path = Raise e ->
       generate_pipeline yaml_dump str_lower fs repo_path ci_type optimize_flag
       = Raise e) /\
    (forall analysis, scan fs repo_path = Ok analysis ->
       ~ In ci_type ["github"; "gitlab"; "circleci"] ->
       generate_pipeline yaml_dump str_lower fs repo_path ci_type optimize_flag
       = Raise (ValueError
                  ("Unsupported CI type: " ++ ci_type
                   ++ ". Supported: ['github', 'gitlab', 'circleci']"))).
Proof.
  intros fs repo_path ci_type optimize_flag.
  unfold generate_pipeline, AutoCI_scan. fold (scan fs repo_path). split.
  - intros e ->. reflexivity.
  - intros analysis -> N. cbn [bind].
    destruct (lookup_generator ci_type (generators yaml_dump)) eqn:E.
    + exfalso. apply N, lookup_generator_supported. congruence.
    + reflexivity.
Qed.

(** X12. What [generate_pipeline] returns.  When the scan returns and the
    CI type is [github], [gitlab] or [circleci], [generate_pipeline]
    returns a pipeline together with the analysis of the scan, and the
    pipeline is the one that the generator of the CI type dumps: neither
    the options of the rules engine nor the [optimize] flag change it. *)
Theorem generate_pipeline_returns :
  forall fs repo_path ci_type analysis,
    scan fs repo_path = Ok analysis ->
    In ci_type ["github"; "gitlab"; "circleci"] ->
    exists generator content,
      lookup_generator ci_type (generators yaml_dump) = Some generator /\
      (forall options, generator analysis options = Ok content) /\
      (forall optimize_flag,
         generate_pipeline yaml_dump str_lower fs repo_path ci_type
                           optimize_flag
         = Ok (content, analysis)).
Proof.
  intros fs repo_path ci_type analysis E Hin.
  unfold generate_pipeline, AutoCI_scan. fold (scan fs repo_path). rewrite E.
  cbn [bind].
  apply lookup_generator_supported in Hin.
  destruct (lookup_generator ci_type (generators yaml_dump)) as [g|] eqn:Eg;
    [|congruence].
  destruct (generators_total ci_type analysis PNone Eg) as (content & Ec).
  assert (Hopt : forall options, g analysis options = Ok content).
  { intros options. rewrite <- Ec. revert Eg. unfold generators.
    cbn [lookup_generator].
    destruct (String.eqb "github" ci_type);
      [intros Eq; inversion Eq; reflexivity|].
    destruct (String.eqb "gitlab" ci_type);
      [intros Eq; inversion Eq; reflexivity|].
    destruct (String.eqb "circleci" ci_type);
      [intros Eq; inversion Eq; reflexivity|discriminate]. }
  exists g, content. split; [reflexivity|]. split; [exact Hopt|].
  intros optimize_flag. rewrite Hopt. cbn [bind].
  rewrite optimize_unchanged. destruct optimize_flag; reflexivity.
Qed.

End AutoCIFacts.

Section Recommendations.

(** X13. A Python project is always told to add formatting and linting
    tools.  For every scan result whose primary language is [python], the
    recommendations hold the advice to add Black and flake8, whatever the
    repository contains: the test looks for [black], [flake8] or [pylint]
    among the build tools, and the catalog has no build tool of these
    names. *)
Theorem python_is_always_told_to_lint :
  forall fs path analysis,
    scan fs path = Ok analysis ->
    primary_language analysis = Some "python" ->
    In "Consider adding code formatting tools like Black and linting with flake8"
       (_generate_recommendations analysis).
Proof.
  intros fs path analysis E Hp.
  destruct (scan_repository_inv _ _ _ E)
    as (o & EL & _ & _ & _ & E4 & _).
  assert (Hb : existsb (fun tech => mem_string (name tech)
                                      ["black"; "flake8"; "pylint"])
                       (build_tools analysis) = false).
  { destruct (existsb _ (build_tools analysis)) eqn:Ex; [exfalso|reflexivity].
    apply existsb_exists in Ex. destruct Ex as (x & Hx & Hm).
    destruct (scanned_origin (detect_scanned _ _ E4) x Hx)
      as (r & ev & Hin & _).
    apply (in_map fst) in Hin. simpl in Hin.
    repeat (destruct Hin as [Hin|Hin];
            [rewrite <- Hin in Hm; discriminate Hm|]).
    exact Hin. }
  unfold _generate_recommendations, primary_is. rewrite Hp, Hb. simpl.
  destruct (test_tools analysis), (containers analysis),
           (package_managers analysis); simpl; tauto.
Qed.

Lemma python_is_always_told_to_lint_witness :
  In "Consider adding code formatting tools like Black and linting with flake8"
     (_generate_recommendations scenario_A_analysis).
Proof.
  apply (@python_is_always_told_to_lint (one_directory "/repo" scenario_A)
           "/repo" scenario_A_analysis).
  - vm_compute. reflexivity.
  - reflexivity.
Defined.

End Recommendations.

Lemma generate_pipeline_errors_witness :
  generate_pipeline (fun _ => "") (fun s => s)
                    (one_directory "/repo" scenario_A) "/nowhere" "github" true
  = Raise (ValueError "Repository path does not exist: /nowhere") /\
  generate_pipeline (fun _ => "") (fun s => s)
                    (one_directory "/repo" scenario_A) "/repo" "jenkins" true
  = Raise (ValueError
             "Unsupported CI type: jenkins. Supported: ['github', 'gitlab', 'circleci']").
Proof.
  split.
  - apply (proj1 (generate_pipeline_errors (fun _ => "") (fun s => s)
                    (one_directory "/repo" scenario_A) "/nowhere" "github"
                    true)).
    vm_compute. reflexivity.
  - apply (proj2 (generate_pipeline_errors (fun _ => "") (fun s => s)
                    (one_directory "/repo" scenario_A) "/repo" "jenkins" true)
                 scenario_A_analysis).
    + vm_compute. reflexivity.
    + simpl. intros [H|[H|[H|[]]]]; discriminate H.
Defined.

Lemma generate_pipeline_returns_witness :
  exists generator content,
    lookup_generator "gitlab" (generators (fun _ => "")) = Some generator /\
    (forall options, generator scenario_A_analysis options = Ok content) /\
    (forall optimize_flag,
       generate_pipeline (fun _ => "") (fun s => s)
                         (one_directory "/repo" scenario_A) "/repo" "gitlab"
                         optimize_flag
       = Ok (content, scenario_A_analysis)).
Proof.
  apply (@generate_pipeline_returns (fun _ => "") (fun s => s)
           (one_directory "/repo" scenario_A) "/repo" "gitlab"
           scenario_A_analysis).
  - vm_compute. reflexivity.
  - right. left. reflexivity.
Defined.

Section GitHubUrlFacts.

Local Open Scope string_scope.
Local Open Scope list_scope.

Lemma skip_spec (p : list ascii) (s s' : text) :
  skip p s = Some s' <-> s = (map code p ++ s')%list.
Proof.
  revert s. induction p as [|c p IH]; intros s; simpl.
  - split; intros E; congruence.
  - destruct s as [|d s]; [split; discriminate|].
    destruct (N.eqb_spec (code c) d) as [->|Ne].
    + rewrite IH. split; intros E; congruence.
    + split; [discriminate|]. intros E. congruence.
Qed.

Lemma run_literals {X} (p : list ascii) (r : regex)
  (k : text -> groups -> option X) (s : text) (g : groups) :
  run (literals p r) k s g
  = match skip p s with Some s' => run r k s' g | None => None end.
Proof.
  revert s. induction p as [|c p IH]; intros s; [reflexivity|].
  cbn [literals fold_right run skip]. destruct s as [|d s]; [reflexivity|].
  cbn [cset_match]. destruct (N.eqb (code c) d); [apply IH|reflexivity].
Qed.

Lemma plus_loop_capture_free {X} (a : cset) (lazy : bool)
  (k : text -> option X) (s : text) :
  plus_loop a lazy k s = None \/ exists s', plus_loop a lazy k s = k s'.
Proof.
  induction s as [|c s IH]; [left; reflexivity|]. cbn [plus_loop].
  destruct (cset_match a c); [|left; reflexivity].
  destruct lazy.
  - destruct (k s) eqn:E; cbn [or_else];
      [right; exists s; symmetry; exact E|exact IH].
  - destruct IH as [->|(s' & ->)]; cbn [or_else];
      [right; exists s; reflexivity|].
    destruct (k s') eqn:E; cbn [or_else];
      [right; exists s'; symmetry; exact E|right; exists s; reflexivity].
Qed.

Lemma run_capture_free {X} (r : regex) :
  capture_free r = true ->
  forall (k : text -> groups -> option X) s g,
    run r k s g = None \/ exists s', run r k s g = k s' g.
Proof.
  induction r as [|a|r1 IH1 r2 IH2|a lazy|r IH|n r IH]; cbn [capture_free];
    intros C k s g; cbn [run].
  - right. eauto.
  - destruct s as [|c s]; [left; reflexivity|].
    destruct (cset_match a c); [right; eauto|left; reflexivity].
  - apply andb_true_iff in C. destruct C as [C1 C2].
    destruct (IH1 C1 (fun s' g' => run r2 k s' g') s g) as [->|(s' & ->)];
      [left; reflexivity|]. apply IH2, C2.
  - apply (plus_loop_capture_free a lazy (fun s' => k s' g) s).
  - destruct (IH C k s g) as [->|(s' & ->)]; cbn [or_else];
      [right; exists s; reflexivity|].
    destruct (k s' g) eqn:E; cbn [or_else];
      [right; exists s'; symmetry; exact E|right; exists s; reflexivity].
  - discriminate.
Qed.

Lemma run_optional {X} (r : regex) (k : text -> groups -> option X)
  (s : text) (g : groups) (y : X) :
  capture_free r = true ->
  (forall s', k s' g = Some y) ->
  run (ROpt r) k s g = Some y.
Proof.
  intros C K. cbn [run].
  destruct (run_capture_free r C k s g) as [->|(s' & ->)]; cbn [or_else];
    [apply K|]. rewrite K. reflexivity.
Qed.

Lemma run_optional_suffix (s : text) (g : groups) :
  run optional_suffix accept s g = Some g.
Proof.
  unfold optional_suffix.
  change (run (ROpt (literals (chars ".git") REmpty))
              (fun s' g' => run (RCat (ROpt (RChar (CLit "/"))) REmpty)
                                accept s' g') s g = Some g).
  apply run_optional; [reflexivity|]. intros s'.
  change (run (ROpt (RChar (CLit "/")))
              (fun s'' g'' => run REmpty accept s'' g'') s' g = Some g).
  apply run_optional; reflexivity.
Qed.

Lemma consumed_prefix (o q : text) : consumed (o ++ q) q = o.
Proof.
  unfold consumed. rewrite length_app.
  replace (List.length o + List.length q - List.length q)
    with (List.length o + 0) by lia.
  rewrite firstn_app_2. simpl. apply app_nil_r.
Qed.

Lemma run_repo_part (s : text) (g : groups) :
  run repo_part accept s g
  = match s with
    | c :: _ => if cset_match not_slash c then Some ((2, [c]) :: g) else None
    | [] => None
    end.
Proof.
  unfold repo_part. cbn [run]. destruct s as [|c s]; [reflexivity|].
  cbn [plus_loop]. destruct (cset_match not_slash c); [|reflexivity].
  fold optional_suffix.
  change (run optional_suffix (fun s' g' => accept s' g') s
              ((2, consumed (c :: s) s) :: g))
    with (run optional_suffix accept s ((2, consumed (c :: s) s) :: g)).
  rewrite run_optional_suffix. cbn [or_else].
  change (c :: s) with ([c] ++ s)%list.
  rewrite (consumed_prefix [c] s). reflexivity.
Qed.

(** the longest prefix of characters of [a] *)
Lemma longest_prefix (a : cset) (s : text) :
  exists o q, s = (o ++ q)%list /\ forallb (cset_match a) o = true /\
              match q with [] => True | c :: _ => cset_match a c = false end.
Proof.
  induction s as [|c s (o & q & -> & O & Q)].
  - exists [], []. auto.
  - destruct (cset_match a c) eqn:E.
    + exists (c :: o), q. cbn. rewrite E, O. auto.
    + exists [], (c :: o ++ q)%list. auto.
Qed.

Lemma plus_loop_stops {X} (a : cset) (lazy : bool)
  (k : text -> option X) (q : text) :
  match q with [] => True | c :: _ => cset_match a c = false end ->
  plus_loop a lazy k q = None.
Proof.
  destruct q as [|c q]; [reflexivity|]. intros E. cbn. rewrite E. reflexivity.
Qed.

(** a greedy [a+] before something that no character of [a] can start
    takes the longest prefix or fails *)
Lemma plus_loop_greedy {X} (a : cset) (k : text -> option X)
  (o q : text) :
  o <> [] ->
  forallb (cset_match a) o = true ->
  match q with [] => True | c :: _ => cset_match a c = false end ->
  (forall c s', cset_match a c = true -> k (c :: s') = None) ->
  plus_loop a false k (o ++ q) = k q.
Proof.
  intros Ne O Q K. induction o as [|c o IH]; [congruence|].
  cbn in O. apply andb_true_iff in O. destruct O as [Oc O].
  cbn [app plus_loop]. rewrite Oc. destruct o as [|c' o].
  - cbn [app]. rewrite (plus_loop_stops a false k q Q). reflexivity.
  - rewrite IH; [|discriminate|exact O].
    destruct (k q) eqn:E; cbn [or_else]; [reflexivity|].
    cbn in O. apply andb_true_iff in O. apply K, O.
Qed.

Lemma not_slash_match (c : codepoint) :
  cset_match not_slash c = true <-> c <> slash.
Proof.
  unfold not_slash, slash. cbn [cset_match existsb].
  destruct (N.eqb_spec (code "/") c) as [E|E]; cbn [orb negb]; split;
    congruence.
Qed.

Lemma not_slash_all (o : text) :
  forallb (cset_match not_slash) o = true <-> slash_free o.
Proof.
  unfold slash_free. rewrite forallb_forall. split.
  - intros H Hin. apply (proj1 (not_slash_match _) (H _ Hin)). reflexivity.
  - intros H c Hin. apply not_slash_match. intros ->. exact (H Hin).
Qed.

Lemma run_owner_repo (s : text) (m : groups) :
  run owner_repo accept s [] = Some m <->
  exists o c rest,
    s = (o ++ slash :: c :: rest)%list /\ o <> [] /\ slash_free o /\
    c <> slash /\ m = [(2, [c]); (1, o)].
Proof.
  assert (R : forall o q,
             o <> [] -> forallb (cset_match not_slash) o = true ->
             match q with
             | [] => True
             | c :: _ => cset_match not_slash c = false
             end ->
             run owner_repo accept (o ++ q) []
             = match q with
               | d :: q' =>
                   if N.eqb slash d
                   then run repo_part accept q' [(1, o)] else None
               | [] => None
               end).
  { intros o q Ne O Q. unfold owner_repo. cbn [run].
    rewrite (@plus_loop_greedy _ not_slash _ o q Ne O Q).
    - rewrite consumed_prefix. destruct q as [|d q']; reflexivity.
    - intros c s' C. cbn [cset_match]. fold slash.
      destruct (N.eqb_spec slash c) as [E|_]; [|reflexivity].
      apply not_slash_match in C. congruence. }
  split.
  - destruct (longest_prefix not_slash s) as (o & q & -> & O & Q).
    destruct o as [|c0 o].
    + cbn [app]. unfold owner_repo. cbn [run].
      rewrite (plus_loop_stops not_slash false _ q Q). discriminate.
    + rewrite (R (c0 :: o) q); [|discriminate|exact O|exact Q].
      destruct q as [|d q']; [discriminate|].
      destruct (N.eqb_spec slash d) as [<-|_]; [|discriminate].
      rewrite run_repo_part. destruct q' as [|c rest]; [discriminate|].
      destruct (cset_match not_slash c) eqn:C; [|discriminate].
      intros E. inversion E; subst. exists (c0 :: o), c, rest.
      split; [reflexivity|]. split; [discriminate|].
      split; [apply not_slash_all, O|]. split; [apply not_slash_match, C|].
      reflexivity.
  - intros (o & c & rest & -> & Ne & O & C & ->).
    rewrite (R o (slash :: c :: rest) Ne); [|apply not_slash_all, O|reflexivity].
    rewrite N.eqb_refl, run_repo_part.
    apply not_slash_match in C. rewrite C. reflexivity.
Qed.

Lemma re_match_github (prefix pattern : string) (subject : text) :
  parse_regex pattern = Some (literals (chars prefix) owner_repo) ->
  forall m,
    re_match pattern subject = Some m <->
    exists owner c rest,
      subject = (text_of prefix ++ owner ++ slash :: c :: rest)%list /\
      owner <> [] /\ slash_free owner /\ c <> slash /\
      m = [(2, [c]); (1, owner)].
Proof.
  intros P m. unfold re_match. rewrite P.
  change (fun (_ : text) (g : groups) => Some g) with accept.
  rewrite run_literals. split.
  - destruct (skip (chars prefix) subject) as [s'|] eqn:E; [|discriminate].
    apply skip_spec in E. intros H. apply run_owner_repo in H.
    destruct H as (o & c & rest & -> & Ne & O & C & ->).
    exists o, c, rest. auto 6.
  - intros (owner & c & rest & -> & Ne & O & C & ->).
    assert (E : skip (chars prefix)
                     (text_of prefix ++ owner ++ slash :: c :: rest)
                = Some (owner ++ slash :: c :: rest)%list).
    { apply skip_spec. reflexivity. }
    rewrite E. apply run_owner_repo.
    exists owner, c, rest. auto 6.
Qed.

Lemma parse_github_https :
  parse_regex "https://github\.com/([^/]+)/([^/]+?)(?:\.git)?/?"
  = Some (literals (chars "https://github.com/") owner_repo).
Proof. vm_compute. reflexivity. Qed.

Lemma parse_github_ssh :
  parse_regex "git@github\.com:([^/]+)/([^/]+?)(?:\.git)?/?"
  = Some (literals (chars "git@github.com:") owner_repo).
Proof. vm_compute. reflexivity. Qed.

(** the two prefixes start with different characters *)
Lemma github_prefixes_differ (a b : text) :
  (text_of "https://github.com/" ++ a)%list
  <> (text_of "git@github.com:" ++ b)%list.
Proof. intros E. vm_compute in E. discriminate E. Qed.

(** [str.strip()] takes white space away from both ends, and nothing
    else *)
Lemma lstrip_spec (s : text) :
  exists w, s = (w ++ lstrip s)%list /\ forallb is_space w = true /\
            match lstrip s with [] => True | c :: _ => is_space c = false end.
Proof.
  induction s as [|c s (w & E & W & H)].
  - exists []. repeat split.
  - cbn [lstrip]. destruct (is_space c) eqn:C.
    + exists (c :: w). cbn [app forallb]. rewrite C, W, <- E.
      repeat split. exact H.
    + exists []. cbn [app forallb]. rewrite C. repeat split.
Qed.

Lemma lstrip_stripped_head (s : text) :
  match s with [] => True | c :: _ => is_space c = false end -> lstrip s = s.
Proof. destruct s as [|c s]; [reflexivity|]. cbn. intros ->. reflexivity. Qed.

Lemma str_strip_spec (s : text) :
  exists before after,
    s = (before ++ str_strip s ++ after)%list /\
    forallb is_space before = true /\ forallb is_space after = true /\
    stripped (str_strip s).
Proof.
  unfold str_strip.
  destruct (lstrip_spec s) as (w1 & E1 & W1 & H1).
  destruct (lstrip_spec (rev (lstrip s))) as (w2 & E2 & W2 & H2).
  exists w1, (rev w2). split; [|split; [exact W1|split]].
  - rewrite <- rev_app_distr, <- E2, rev_involutive. exact E1.
  - rewrite forallb_forall in *. intros c Hc. apply W2, in_rev, Hc.
  - unfold stripped. rewrite rev_involutive. split; [|exact H2].
    remember (rev (lstrip (rev (lstrip s)))) as r eqn:R.
    assert (L : lstrip s = r ++ rev w2).
    { subst r. rewrite <- rev_app_distr, <- E2, rev_involutive. reflexivity. }
    destruct r as [|d v]; [exact I|]. rewrite L in H1. exact H1.
Qed.

(** X14. What [_parse_github_url] accepts and returns.  It returns a
    dictionary exactly when the URL, stripped of the Unicode white space
    around it, starts with [https://github.com/] or [git@github.com:],
    then a non-empty owner without a slash, a slash, and one more
    character that is not a slash; whatever follows is ignored.  The
    [owner] is that owner; the [repo] is that single character, never
    more (the lazy [+?] is followed by optional parts only, and
    [re.match] does not require the end of the URL):
    [https://github.com/owner/repo] gives the repo [r].  The [url] is the
    argument as given, not stripped.  The stripped URL is the argument
    without the longest runs of white space at its two ends. *)
Theorem parse_github_url_characterised :
  forall (url : text) (d : repo_info),
    (_parse_github_url url = Some d <->
     exists owner c rest,
       (str_strip url
        = (text_of "https://github.com/" ++ owner ++ slash :: c :: rest)%list
        \/ str_strip url
           = (text_of "git@github.com:" ++ owner ++ slash :: c :: rest)%list)
       /\ owner <> [] /\ slash_free owner /\ c <> slash /\
       d = [("owner", Some owner); ("repo", Some [c]); ("url", Some url)]) /\
    (exists before after,
       url = (before ++ str_strip url ++ after)%list /\
       forallb is_space before = true /\ forallb is_space after = true /\
       stripped (str_strip url)).
Proof.
  intros url d. split; [|apply str_strip_spec].
  unfold _parse_github_url, github_url_patterns.
  pose proof (@re_match_github "https://github.com/" _ (str_strip url)
                              parse_github_https) as H1.
  pose proof (@re_match_github "git@github.com:" _ (str_strip url)
                              parse_github_ssh) as H2.
  destruct (re_match "https://github\.com/([^/]+)/([^/]+?)(?:\.git)?/?"
                     (str_strip url)) as [m1|] eqn:E1.
  - destruct (proj1 (H1 m1) eq_refl) as (owner & c & rest & E & Ne & O & C & ->).
    cbn [group Nat.eqb].
    split.
    + intros D. inversion D; subst. exists owner, c, rest. auto 6.
    + intros (owner' & c' & rest' & [E'|E'] & N' & O' & C' & ->).
      * assert (M : Some [(2, [c]); (1, owner)]
                    = Some [(2, [c']); (1, owner')]).
        { apply (H1 [(2, [c']); (1, owner')]). eauto 8. }
        inversion M; subst. reflexivity.
      * rewrite E in E'. apply github_prefixes_differ in E'. contradiction.
  - destruct (re_match "git@github\.com:([^/]+)/([^/]+?)(?:\.git)?/?"
                       (str_strip url)) as [m2|] eqn:E2.
    + destruct (proj1 (H2 m2) eq_refl)
        as (owner & c & rest & E & Ne & O & C & ->).
      cbn [group Nat.eqb].
      split.
      * intros D. inversion D; subst. exists owner, c, rest. auto 6.
      * intros (owner' & c' & rest' & [E'|E'] & N' & O' & C' & ->).
        -- rewrite E in E'. symmetry in E'.
           apply github_prefixes_differ in E'. contradiction.
        -- assert (M : Some [(2, [c]); (1, owner)]
                       = Some [(2, [c']); (1, owner')]).
           { apply (H2 [(2, [c']); (1, owner')]). eauto 8. }
           inversion M; subst. reflexivity.
    + split; [discriminate|].
      intros (owner & c & rest & [E|E] & Ne & O & C & _); exfalso.
      * assert (M : @None groups = Some [(2, [c]); (1, owner)]);
          [|discriminate M]. apply (H1 [(2, [c]); (1, owner)]). eauto 8.
      * assert (M : @None groups = Some [(2, [c]); (1, owner)]);
          [|discriminate M]. apply (H2 [(2, [c]); (1, owner)]). eauto 8.
Qed.

(** the repo of a clone URL, as the code parses it *)
Example parse_github_url_of_a_clone_url :
  _parse_github_url (text_of " https://github.com/owner/repo.git")
  = Some [("owner", Some (text_of "owner")); ("repo", Some (text_of "r"));
          ("url", Some (text_of " https://github.com/owner/repo.git"))].
Proof. vm_compute. reflexivity. Qed.

(** white space beyond Latin-1 is stripped as well: an em space (U+2003)
    before the URL and an ideographic space (U+3000) after it *)
Example parse_github_url_strips_unicode_space :
  _parse_github_url
    ([0x2003%N] ++ text_of "git@github.com:owner/repo" ++ [0x3000%N])
  = Some [("owner", Some (text_of "owner")); ("repo", Some (text_of "r"));
          ("url", Some ([0x2003%N] ++ text_of "git@github.com:owner/repo"
                        ++ [0x3000%N])%list)].
Proof. vm_compute. reflexivity. Qed.

End GitHubUrlFacts.
